(* ===== verification/_CoqProject ===== *)
-Q . S2P
Prelude.v
Errors.v
Domain.v
Cache.v
Breaker.v
Repo.v
Psql.v
PsqlSpec.v
Listing.v
PsqlLaws.v
CachedRepo.v
BreakerRepo.v
Batch.v
Kms.v
Authorizer.v
Service.v
ServiceSpec.v
Pipeline.v
Rpc.v
Regex.v
Validation.v
RateLimit.v
Config.v
Auth.v
Server.v
AuditTrail.v
Wiring.v
S3Storage.v
Workers.v
Hoare.v
Preserve.v
KeyInvariants.v
EndToEnd.v
Boot.v
Provision.v
Pools.v
