(* ===== verification/Prelude.v ===== *)
(** * Polykey: a verification development

    Polykey is a key-management server: clients authenticate, and over gRPC
    create, read, list, rotate, revoke and annotate data-encryption keys
    (DEKs).  A DEK is generated in the server, encrypted by a KMS provider and
    kept, version by version, in PostgreSQL.  This development is a model of
    the server's own logic, translated from the Go sources under [src/], with
    the theorems that say what that logic guarantees.

    ** How the parts fit together

    A call enters the gRPC server ([internal/app/grpc/server.go]) and passes
    its interceptors: logging, authentication with a bearer token
    ([internal/infra/auth/token_manager.go]) and a rate limit, validation
    ([internal/validation/]).  The handler
    ([internal/app/grpc/polykey_impl.go]) asks the authorizer
    ([internal/infra/auth/authorizer.go]) and then calls the key service
    ([internal/service/]).  The service keeps keys in a
    [domain.KeyRepository]: the PostgreSQL adapter
    ([internal/infra/persistence/psql_adapter.go]), wrapped by a caching
    decorator ([cached_repository.go]) and a circuit-breaker decorator
    ([key_repository_circuit_breaker.go]), or the S3 one ([s3_storage.go]).
    DEKs go through a KMS provider ([internal/kms/]); batches through a
    goroutine pool ([pkg/patterns/batch/]); single rotations through a
    pipeline of workers ([internal/pipelines/]).  Decisions are audited
    ([internal/infra/audit/]), errors leave through the classifier
    ([internal/errors/]).  At start-up the configuration and the secrets are
    loaded ([internal/infra/config/]) and a container builds the components
    ([internal/wiring/]); [cmd/polykey/main.go] drives this, runs the server
    and shuts it down.  A client is registered by
    [scripts/generate_client_config.go], which writes the client file of the
    server and the secret file the development client reads.

    ** The files

    - [Prelude.v]: outcomes of Go calls ([Ok], [Err], [Panic]), the monad
      [GoM] of stateful Go code, machine integers, time, automation.
    - [Errors.v]: sentinel errors, wrapping, [errors.Is], and
      [internal/errors/classifier.go].
    - [Domain.v]: [internal/domain/], the protobuf messages,
      [pkg/authorization], [pkg/crypto], [internal/constants].
    - [Cache.v]: [pkg/cache/generic_cache.go].
    - [Breaker.v]: [pkg/patterns/circuitbreaker].
    - [Repo.v]: [domain.KeyRepository] as a class, the heap of [*domain.Key]
      objects, and the class [RepoLaws] of what a repository promises.
    - [Psql.v], [PsqlSpec.v], [Listing.v], [PsqlLaws.v]: the PostgreSQL
      adapter with its SQL, transactions and locks; its abstract store; page
      by page listing; and its instance of [RepoLaws].
    - [CachedRepo.v], [BreakerRepo.v]: the two decorators, over any
      repository.
    - [Batch.v]: the batch processor, as a function and as a step relation.
    - [Kms.v]: the local and AWS providers, key derivation, retries, the DEK
      buffer pool.
    - [Authorizer.v]: roles, identities, per-key rules, the policy cache.
    - [Service.v], [ServiceSpec.v]: the handlers of the key service, and what
      they guarantee end to end.
    - [Pipeline.v]: the rotation pipeline and the callers waiting on it.
    - [Rpc.v]: the gRPC handlers over authorizer and service.
    - [Regex.v], [Validation.v]: regular expressions with their language and
      a matcher by derivatives; [internal/validation/] and
      [pkg/validator/].
    - [RateLimit.v]: [internal/infra/ratelimit/].
    - [Config.v]: [internal/infra/config/], [internal/infra/secrets/].
    - [Auth.v]: tokens, the list of revoked tokens behind the class
      [TokenStore], the client file, [internal/service/auth_service.go].
    - [Server.v]: [internal/app/grpc/interceptors/], [server.go] and the
      remaining handlers; [serve] is a call from the wire to its answer.
    - [AuditTrail.v]: the audit table, the synchronous, asynchronous and
      structured loggers.
    - [Wiring.v]: the dependency container, TLS set-up, the connection pool.
    - [S3Storage.v]: the S3 repository, another instance of the repository
      class, with its abstract store.
    - [Workers.v]: [pkg/patterns/concurrency/worker_pool.go].
    - [Hoare.v]: triples for [GoM] with their rules and tactic, the effects a
      call may have on the repository, and the class [Preserved] of invariants
      every repository method keeps.
    - [Preserve.v]: one triple per method of the service, the handlers and
      [serve], from any [Preserved] instance; [lone_rotate], the call of
      [RotateKey] while the pipeline is idle.
    - [KeyInvariants.v]: instances of [Preserved] for the adapter and the
      cache, and the class [Relay] of wrappers that pass calls on.
    - [EndToEnd.v]: histories of calls, passing time and cache clean-ups on a
      running server, and what holds through all of them.
    - [Boot.v]: [cmd/polykey/main.go] and [pkg/patterns/lifecycle].
    - [Provision.v]: [scripts/generate_client_config.go], [pkg/testutil/] and
      the configuration of [cmd/dev_client/main.go].
    - [Pools.v]: [pkg/memory/] and the builder pool of [query_optimizer.go]
      over a shared memory.

    ** How the model corresponds to the code

    A Go function returning [(T, error)] is a definition in the monad [GoM]
    (or a plain [res]) with the source's name; its early returns are the
    [Err] branches, a nil dereference is [Panic].  The world [St S] holds the
    clock, the heap of key objects and the state [S] of the component; a
    [*domain.Key] is a location, so that an object the cache keeps and a
    handler changes is one object.  A decorator runs the methods of the
    repository it wraps inside its own state ([with_inner]).

    What the program cannot determine is an input: driver errors
    ([faults] of [Psql.v]), random bytes, new UUIDs, jitter, which pooled
    buffer [sync.Pool] finds, how a guarded call ends, the order in which the
    goroutines of a batch run.  Code that is not in the repository is a
    parameter with its documented behaviour as a class of laws: the UUID
    package ([UuidPkgOk]), AES-GCM, HKDF and base64 ([CryptoOk]), AWS KMS
    ([AwsKmsOk]), SHA-256, time formatting, the JWT library and bcrypt
    ([Auth.v]), [encoding/json], [golang.org/x/time/rate], viper and the
    struct validator ([Config.v]), TLS and pgx ([Wiring.v]), Amazon S3
    ([S3ClientOk]); each has an executable instance that the examples use.
    The order in which Go ranges over a map is an input too.  Loops are structural: retries recurse on the
    attempts left (3 in [transaction_manager.go] and [aws_kms_provider.go]),
    everything else on the list it ranges over, so no fuel is needed.

    Code under a mutex is one step.  The breaker, the batch processor, the
    rotation pipeline, the asynchronous audit logger and the worker pool,
    whose steps interleave, are transition systems; a call of the service, of
    [processRotation] or of the database inside them is one step.

    ** What the theorems show

    - Calls: apart from the two open methods nothing is served without a
      token the interceptor accepts, the rate limiter's leave and a validated
      request, and the handler acts for the token's user; a client that logs
      in is served as itself; a revoked token is refused from then on; every
      call is logged once.
    - Requests: the validators accept exactly the well-formed requests, and
      their patterns exactly the strings they are meant for.
    - Whole histories: over the wire, whatever calls, clean-ups and time come
      between, a revoked key is never handed out by [GetKey] again (unless a
      call rotates it); no stored version disappears or changes its material;
      reads change nothing.  These hold behind the cache and behind the
      circuit breaker, and [main] starts the server in a state they apply to.
    - Keys: over the cached PostgreSQL repository a revoked key is never
      handed out by [GetKey]; a created key is read back with its material,
      metadata and checksum; what [GetKey] answers is sound and audited.
    - Storage: every writing method is a step of an abstract versioned store
      or changes nothing, whatever the driver does; transactions are atomic
      and their retries bounded; rotation and creation behave as specified;
      pages list every key once, provided creation times differ.  The S3
      repository refines a store of names, up to the two names a failed write
      leaves in doubt, and its listings are complete.
    - Cache: the TTL cache refines its history of operations; the repository
      cache stays coherent and is transparent to readers.
    - Breaker: refinement of the three-state automaton, an invariant of every
      interleaving, tripping and recovery.
    - Access: nothing is served without a grant; a grant was checked at most
      five minutes ago; every decision is audited once; error texts that reach
      clients are fixed; one client's rate limit is not another's.
    - Concurrency: batches linearize and terminate; the rotation pipeline
      loses and invents nothing, and serves callers that do not overlap; audit
      events are conserved and flushed when the logger stops; the worker pool
      processes every accepted job.
    - KMS: encryption round trip, bounded retries; key material only in
      buffers in use, whoever shares the pool.
    - Start-up: a loaded configuration has what the components need; the
      container hands out one set of objects, completely wired; connections
      are secured as configured; [main] serves what was configured and leaves
      the pool and the audit logger closed; a client the generator registered
      can log in and call.

    Some theorems record where the code falls short of its intent: batch
    handlers skip the per-key rules and serve revoked keys; callers of the
    rotation pipeline can receive each other's results; cached grants ignore
    the client's tier; batch revocation leaves the cache stale; rotation
    revives a revoked key; keys sharing a creation time can be lost between
    pages; lookups of missing keys open the circuit; the half-open limit does
    not limit; [continueOnError] is ignored; validation errors reach clients
    as internal ones; the server does not see tokens revoked through the
    container; a forged token can undo a revocation; one bad audit event
    loses its batch; the container does not recover from a failed start; S3
    storage forgets that a key is revoked and can lose a version; [main]
    skips its clean-up when it cannot start and reports success when serving
    failed; a stopped server calls itself healthy; the generator takes empty
    names and leaves the secret readable for everyone.

    ** Not modelled

    [cmd/utils/migrate.go], which only hands the SQL files to a migration
    library; the mock wiring, mocks and test suites of the development client
    ([wire_mocks.go], [tests/]).  In whole histories a rotation runs while the
    pipeline is otherwise idle; its interleavings are those of [Pipeline.v].
    Tracing and log lines are dropped except where a theorem is about them
    (the call log, the audit log). *)

From stdpp Require Export base tactics option list list_numbers gmap strings sorting relations pretty.
From Stdlib Require Export ZArith Lia.

#[global] Open Scope Z_scope.

Declare Scope go_scope.
Delimit Scope go_scope with go.
#[global] Open Scope go_scope.

(** ** Outcomes of a Go call

    A Go function returning [(T, error)] ends in a value, in a non-nil error,
    or in a run-time panic (nil dereference, failed type assertion). *)

Inductive outcome (E A : Type) : Type :=
| Ok (a : A)
| Err (e : E)
| Panic (why : string).
Arguments Ok {E A} a.
Arguments Err {E A} e.
Arguments Panic {E A} why.

#[export] Instance outcome_eq_dec {E A} `{EqDecision E, EqDecision A} :
  EqDecision (outcome E A).
Proof. solve_decision. Defined.

#[export] Instance outcome_ret {E} : MRet (outcome E) := λ A a, Ok a.
#[export] Instance outcome_bind {E} : MBind (outcome E) := λ A B f m,
  match m with Ok a => f a | Err e => Err e | Panic w => Panic w end.

Definition is_ok {E A} (r : outcome E A) : bool :=
  match r with Ok _ => true | _ => false end.

(** Replace the error of a failed call: the [if err != nil { return ... }]
    idiom of the source. *)
Definition map_err {E A} (f : E -> E) (r : outcome E A) : outcome E A :=
  match r with Err e => Err (f e) | _ => r end.

Lemma map_err_ok {E A} f (r : outcome E A) a : map_err f r = Ok a <-> r = Ok a.
Proof. by destruct r. Qed.

(** ** Stateful Go code

    [GoM E W A] is code over a world [W].  [x ← m; k] is the sequence
    "run [m]; on a non-nil error return it; otherwise continue". *)

Definition GoM (E W A : Type) : Type := W -> outcome E A * W.

#[export] Instance GoM_ret {E W} : MRet (GoM E W) := λ A a w, (Ok a, w).
#[export] Instance GoM_bind {E W} : MBind (GoM E W) := λ A B f m w,
  match m w with
  | (Ok a, w') => f a w'
  | (Err e, w') => (Err e, w')
  | (Panic s, w') => (Panic s, w')
  end.

Definition fail {E W A} (e : E) : GoM E W A := λ w, (Err e, w).
Definition panic {E W A} (s : string) : GoM E W A := λ w, (Panic s, w).
Definition lift_res {E W A} (r : outcome E A) : GoM E W A := λ w, (r, w).
Definition get_st {E W} : GoM E W W := λ w, (Ok w, w).
Definition gets {E W A} (f : W -> A) : GoM E W A := λ w, (Ok (f w), w).
Definition modify {E W} (f : W -> W) : GoM E W unit := λ w, (Ok tt, f w).

(** [on_err f m]: run [m] and rewrite its error with [f]. *)
Definition on_err {E W A} (f : E -> E) (m : GoM E W A) : GoM E W A :=
  λ w, let '(r, w') := m w in (map_err f r, w').

(** [try_ m]: run [m] and hand its error to the caller as a value, for code
    that inspects [err] instead of returning it.  A panic still unwinds. *)
Definition try_ {E W A} (m : GoM E W A) : GoM E W (A + E) :=
  λ w, match m w with
       | (Ok a, w') => (Ok (inl a), w')
       | (Err e, w') => (Ok (inr e), w')
       | (Panic s, w') => (Panic s, w')
       end.

(** A [for] loop over a slice threading an accumulator. *)
Fixpoint for_each {E W A B} (f : A -> B -> GoM E W B) (l : list A) (b : B)
  : GoM E W B :=
  match l with
  | [] => mret b
  | a :: l' => b' ← f a b; for_each f l' b'
  end.

Definition when {E W} (c : bool) (m : GoM E W unit) : GoM E W unit :=
  if c then m else mret tt.

(** ** Machine integers *)

Definition wrap32 (z : Z) : Z := (z + 2^31) `mod` 2^32 - 2^31.
Definition wrap64 (z : Z) : Z := (z + 2^63) `mod` 2^64 - 2^63.
Definition int32_min : Z := - 2^31.
Definition int32_max : Z := 2^31 - 1.
Definition is_int32 (z : Z) : bool := (int32_min <=? z) && (z <=? int32_max).

Lemma wrap32_id z : int32_min <= z <= int32_max -> wrap32 z = z.
Proof.
  unfold wrap32, int32_min, int32_max. intros.
  rewrite Z.mod_small; lia.
Qed.

Lemma wrap64_id z : - 2^63 <= z <= 2^63 - 1 -> wrap64 z = z.
Proof. unfold wrap64. intros. rewrite Z.mod_small; lia. Qed.

(** [int32] counters incremented [n] times from 0. *)
Lemma wrap32_count (n : nat) : Z.of_nat n <= int32_max -> wrap32 (Z.of_nat n) = Z.of_nat n.
Proof. intros. apply wrap32_id. unfold int32_min. lia. Qed.

(** ** Time: durations and instants are nanoseconds, as in [time.Duration]. *)

Definition Nanosecond : Z := 1.
Definition Millisecond : Z := 1000000.
Definition Second : Z := 1000 * Millisecond.
Definition Minute : Z := 60 * Second.
Definition Hour : Z := 60 * Minute.

(** ** Automation *)

Create HintDb go discriminated.

(** Split a [GoM] run in a hypothesis or the goal at its next [match]. *)
Ltac go_unfold :=
  unfold mbind, mret, GoM_bind, GoM_ret, outcome_bind, outcome_ret, fail, panic,
    lift_res, get_st, gets, modify, on_err, try_, when in *; simpl in *.

Ltac go_case :=
  match goal with
  | H : context [match ?x with _ => _ end] |- _ =>
      lazymatch x with context [match _ with _ => _ end] => fail | _ => idtac end;
      destruct x eqn:?; simplify_eq/=
  | |- context [match ?x with _ => _ end] =>
      lazymatch x with context [match _ with _ => _ end] => fail | _ => idtac end;
      destruct x eqn:?; simplify_eq/=
  end.

Ltac go_cases := repeat (go_case; try done).

(** Turn the boolean tests of the code into propositions. *)
Ltac bool_to_prop :=
  repeat match goal with
  | H : _ && _ = true |- _ => apply andb_true_iff in H as [? ?]
  | H : _ || _ = false |- _ => apply orb_false_iff in H as [? ?]
  | H : negb _ = true |- _ => apply negb_true_iff in H
  | H : negb _ = false |- _ => apply negb_false_iff in H
  | H : bool_decide _ = true |- _ => apply bool_decide_eq_true_1 in H
  | H : bool_decide _ = false |- _ => apply bool_decide_eq_false_1 in H
  | H : (_ <? _) = true |- _ => apply Z.ltb_lt in H
  | H : (_ <? _) = false |- _ => apply Z.ltb_ge in H
  | H : (_ <=? _) = true |- _ => apply Z.leb_le in H
  | H : (_ <=? _) = false |- _ => apply Z.leb_gt in H
  | H : (_ =? _) = true |- _ => apply Z.eqb_eq in H
  | H : (_ =? _) = false |- _ => apply Z.eqb_neq in H
  | H : String.eqb _ _ = true |- _ => apply String.eqb_eq in H
  | H : String.eqb _ _ = false |- _ => apply String.eqb_neq in H
  end.

(** ** Generic lemmas *)

Lemma bind_ok {E W A B} (m : GoM E W A) (f : A -> GoM E W B) w b w' :
  (m ≫= f) w = (Ok b, w') ->
  exists a w1, m w = (Ok a, w1) /\ f a w1 = (Ok b, w').
Proof. go_unfold. destruct (m w) as [[] ?]; naive_solver. Qed.

Lemma on_err_ok {E W A} (g : E -> E) (m : GoM E W A) w a w' : on_err g m w = (Ok a, w') -> m w = (Ok a, w').
Proof. unfold on_err. destruct (m w) as [[] ?]; simpl; intros; by simplify_eq. Qed.

Lemma lift_ok {E W A} (r : outcome E A) (w : W) a w' : lift_res r w = (Ok a, w') -> r = Ok a /\ w' = w.
Proof. unfold lift_res. intros; by simplify_eq. Qed.

Lemma bind_eq {E W A B} (m : GoM E W A) (f : A -> GoM E W B) w a w1 :
  m w = (Ok a, w1) -> (m ≫= f) w = f a w1.
Proof. intros H. go_unfold. by rewrite H. Qed.

(** Reading a Go map with the comma-ok idiom from a list of pairs. *)
Fixpoint assoc {K V} `{EqDecision K} (k : K) (l : list (K * V)) : option V :=
  match l with
  | [] => None
  | (k', v) :: l' => if decide (k = k') then Some v else assoc k l'
  end.

(** [slices.Contains] *)
Definition contains {A} `{EqDecision A} (l : list A) (a : A) : bool :=
  existsb (λ b, bool_decide (a = b)) l.

Lemma contains_spec {A} `{EqDecision A} (l : list A) a :
  contains l a = true <-> a ∈ l.
Proof.
  unfold contains. rewrite existsb_exists. setoid_rewrite bool_decide_eq_true.
  setoid_rewrite <-list_elem_of_In. naive_solver.
Qed.

(** One entry of a sum replaced. *)
Lemma sum_insert {A} (f : A -> nat) (l : list A) i a b :
  l !! i = Some a -> (sum_list (f <$> <[i := b]> l) + f a = sum_list (f <$> l) + f b)%nat.
Proof. revert i. induction l as [|c l IH]; intros [|i] Hi; simplify_eq/=; [lia|]. specialize (IH i Hi). lia. Qed.
