(* ===== verification/Errors.v ===== *)
(** * Errors and their classification

    Models [internal/errors/types.go], the sentinel errors the other packages
    declare, the [errors]/[fmt.Errorf] operations the code uses on them, and
    [internal/errors/classifier.go]: the classification rules, the pool of
    [ClassifiedError] objects and the conversion to a gRPC status. *)

From S2P Require Import Prelude.

(** ** Error values

    A sentinel ([var ErrX = errors.New(..)]) has an identity of its own: two
    sentinels with the same text are different errors, which is why
    [app_errors.ErrKeyNotFound] and [postgres.ErrKeyNotFound] are two
    constructors here. *)

Inductive sentinel : Type :=
(* internal/errors/types.go *)
| ErrKeyNotFound | ErrInvalidInput | ErrKMSFailure | ErrAuthentication
| ErrAuthorization | ErrConflict | ErrRateLimit | ErrExternal
| ErrKeyRotationLocked | ErrKeyRevoked
(* pkg/postgres/client.go *)
| PsqlErrKeyNotFound | PsqlErrInvalidVersion | PsqlErrKeyAlreadyExists
(* internal/service/key_service.go *)
| ErrInvalidRequest | SvcErrInvalidKeyType | ErrKeyGenerationFail
| ErrEntropyValidationFail | ErrMissingMetadata
(* pkg/crypto/crypto.go *)
| CryptoErrInvalidKeyType
(* pkg/patterns/circuitbreaker/circuitbreaker.go *)
| ErrOpen | ErrTimeout
(* internal/infra/auth/file_client_store.go *)
| ErrClientNotFound | ErrInvalidConfig
(* context, pgx *)
| DeadlineExceeded | Canceled | PgxErrNoRows.

#[export] Instance sentinel_eq_dec : EqDecision sentinel.
Proof. solve_decision. Defined.

Definition sentinel_text (s : sentinel) : string :=
  match s with
  | ErrKeyNotFound => "key not found"
  | ErrInvalidInput => "invalid input"
  | ErrKMSFailure => "kms operation failed"
  | ErrAuthentication => "authentication failed"
  | ErrAuthorization => "authorization failed"
  | ErrConflict => "resource conflict"
  | ErrRateLimit => "rate limit exceeded"
  | ErrExternal => "external service error"
  | ErrKeyRotationLocked => "key rotation is locked"
  | ErrKeyRevoked => "key is revoked"
  | PsqlErrKeyNotFound => "key not found"
  | PsqlErrInvalidVersion => "invalid version"
  | PsqlErrKeyAlreadyExists => "key already exists"
  | ErrInvalidRequest => "invalid request"
  | SvcErrInvalidKeyType => "invalid key type"
  | ErrKeyGenerationFail => "failed to generate cryptographic key"
  | ErrEntropyValidationFail => "entropy validation failed"
  | ErrMissingMetadata => "key metadata is missing"
  | CryptoErrInvalidKeyType => "invalid key type"
  | ErrOpen => "circuit breaker is open"
  | ErrTimeout => "circuit breaker operation timed out"
  | ErrClientNotFound => "client not found"
  | ErrInvalidConfig => "invalid client configuration"
  | DeadlineExceeded => "context deadline exceeded"
  | Canceled => "context canceled"
  | PgxErrNoRows => "no rows in result set"
  end.

(** The gRPC codes the service uses. *)
Inductive code : Type :=
| CodeOK | InvalidArgument | NotFound | AlreadyExists | PermissionDenied
| ResourceExhausted | FailedPrecondition | Internal | Unavailable
| Unauthenticated | Unimplemented | Unknown.

#[export] Instance code_eq_dec : EqDecision code.
Proof. solve_decision. Defined.

(** [Wrap p e] is [fmt.Errorf("p: %w", e)], [WrapSuf e s] is
    [fmt.Errorf("%w: s", e)], [Wrap2 e1 e2] is [fmt.Errorf("%w: %w", e1, e2)];
    [ErrorsNew] is an error nobody compares against. *)
Inductive error : Type :=
| Sentinel (s : sentinel)
| ErrorsNew (msg : string)
| PgError (sqlstate : string) (msg : string)
| StatusError (c : code) (msg : string)
| Wrap (pre : string) (e : error)
| WrapSuf (e : error) (suf : string)
| Wrap2 (e1 e2 : error).

#[export] Instance error_eq_dec : EqDecision error.
Proof. solve_decision. Defined.

Abbreviation res := (outcome error).
Abbreviation M := (GoM error).

(** [err.Error()] *)
Fixpoint Error (e : error) : string :=
  match e with
  | Sentinel s => sentinel_text s
  | ErrorsNew m => m
  | PgError c m => m +:+ " (SQLSTATE " +:+ c +:+ ")"
  | StatusError _ m => m
  | Wrap p e => p +:+ ": " +:+ Error e
  | WrapSuf e s => Error e +:+ ": " +:+ s
  | Wrap2 e1 e2 => Error e1 +:+ ": " +:+ Error e2
  end.

(** [errors.Is(err, target)] for a sentinel target: a pre-order walk of the
    wrapped errors. *)
Fixpoint Is (e : error) (target : sentinel) : bool :=
  match e with
  | Sentinel s => bool_decide (s = target)
  | ErrorsNew _ | PgError _ _ | StatusError _ _ => false
  | Wrap _ e | WrapSuf e _ => Is e target
  | Wrap2 e1 e2 => Is e1 target || Is e2 target
  end.

(** [errors.As(err, &pgErr)]: the SQLSTATE of the first [*pgconn.PgError]. *)
Fixpoint AsPgCode (e : error) : option string :=
  match e with
  | PgError c _ => Some c
  | Sentinel _ | ErrorsNew _ | StatusError _ _ => None
  | Wrap _ e | WrapSuf e _ => AsPgCode e
  | Wrap2 e1 e2 =>
      match AsPgCode e1 with Some c => Some c | None => AsPgCode e2 end
  end.

(** ** classifier.go *)

Inductive ErrorClass : Type :=
| ClassInternal | ClassValidation | ClassAuthentication | ClassAuthorization
| ClassNotFound | ClassConflict | ClassRateLimit | ClassExternal
| ClassFailedPrecondition.

#[export] Instance ErrorClass_eq_dec : EqDecision ErrorClass.
Proof. solve_decision. Defined.

(** The [iota] value, logged as [error_class]; the zero value of the type is
    [ClassInternal]. *)
Definition class_int (c : ErrorClass) : Z :=
  match c with
  | ClassInternal => 0 | ClassValidation => 1 | ClassAuthentication => 2
  | ClassAuthorization => 3 | ClassNotFound => 4 | ClassConflict => 5
  | ClassRateLimit => 6 | ClassExternal => 7 | ClassFailedPrecondition => 8
  end.

Record ClassifiedError := mkClassified {
  Class_ : ErrorClass;
  InternalError : option error;
  ClientMessage : string;
  OperationName : string;
  ceKeyID : string;
  ceMetadata : gmap string string
}.

Definition classificationRules : list (sentinel * ErrorClass * string) :=
  [ (ErrKeyNotFound, ClassNotFound, "The requested resource was not found");
    (ErrInvalidInput, ClassValidation, "The request contains invalid parameters");
    (ErrKMSFailure, ClassInternal, "An internal error occurred. Please try again later");
    (ErrAuthentication, ClassAuthentication, "Authentication failed");
    (ErrAuthorization, ClassAuthorization, "Permission denied");
    (ErrConflict, ClassConflict, "A conflict occurred");
    (ErrRateLimit, ClassRateLimit, "You have exceeded the rate limit");
    (ErrExternal, ClassExternal, "External service temporarily unavailable");
    (ErrKeyRevoked, ClassFailedPrecondition,
      "The operation cannot be completed because the key is revoked") ]%string.

(** The world of the classifier: the pool of recycled objects and the log.
    [sync.Pool.Get] may return any pooled object or none: the choice is the
    argument [pick]. *)
Record ClassifierState := mkCS {
  errorPool : list ClassifiedError;
  errorLog : list (list (string * string))
}.

(** [errorPool.New] *)
Definition newClassified : ClassifiedError :=
  mkClassified ClassInternal None "" "" "" ∅.

Definition pool_Get (pick : nat) (st : ClassifierState)
  : ClassifiedError * ClassifierState :=
  match errorPool st !! pick with
  | Some o => (o, mkCS (delete pick (errorPool st)) (errorLog st))
  | None => (newClassified, st)
  end.

Fixpoint match_rules (err : error) (rules : list (sentinel * ErrorClass * string))
  : option (ErrorClass * string) :=
  match rules with
  | [] => None
  | (target, class, msg) :: rest =>
      if Is err target then Some (class, msg) else match_rules err rest
  end.

Definition Classify (pick : nat) (err : option error) (operation : string)
    (st : ClassifierState) : option ClassifiedError * ClassifierState :=
  match err with
  | None => (None, st)
  | Some e =>
      let '(o, st) := pool_Get pick st in
      let '(class, msg) :=
        match match_rules e classificationRules with
        | Some r => r
        | None => (ClassInternal, "An unexpected internal error occurred"%string)
        end in
      (Some (mkClassified class (Some e) msg operation (ceKeyID o) (ceMetadata o)), st)
  end.

Definition grpcCodeMap (c : ErrorClass) : option code :=
  match c with
  | ClassNotFound => Some NotFound
  | ClassValidation => Some InvalidArgument
  | ClassAuthentication => Some Unauthenticated
  | ClassAuthorization => Some PermissionDenied
  | ClassRateLimit => Some ResourceExhausted
  | ClassConflict => Some AlreadyExists
  | ClassExternal => Some Unavailable
  | ClassInternal => Some Internal
  | ClassFailedPrecondition => Some FailedPrecondition
  end.

Definition toGRPCError (o : ClassifiedError) : error :=
  let c := match grpcCodeMap (Class_ o) with Some c => c | None => Internal end in
  StatusError c (ClientMessage o).

Definition putError (o : ClassifiedError) (st : ClassifierState) : ClassifierState :=
  mkCS (mkClassified ClassInternal None "" "" "" ∅ :: errorPool st) (errorLog st).

Definition log_attrs (o : ClassifiedError) : list (string * string) :=
  [ ("operation", OperationName o);
    ("error_class", pretty (class_int (Class_ o)));
    ("internal_error", match InternalError o with Some e => Error e | None => "" end) ]%string
  ++ (if decide (ceKeyID o = ""%string) then [] else [("key_id"%string, ceKeyID o)])
  ++ (if decide (ceMetadata o = ∅) then []
      else (λ p : string * string, ("metadata."%string +:+ p.1, p.2)) <$> map_to_list (ceMetadata o)).

Definition LogAndSanitize (o : option ClassifiedError) (st : ClassifierState)
  : option error * ClassifierState :=
  match o with
  | None => (None, st)
  | Some o =>
      let st := mkCS (errorPool st) (errorLog st ++ [log_attrs o]) in
      (Some (toGRPCError o), putError o st)
  end.

(** [PolykeyService.sanitizeError] of [internal/app/grpc/polykey_impl.go]. *)
Definition sanitizeError (pick : nat) (method : string) (err : option error)
    (st : ClassifierState) : option error * ClassifierState :=
  let '(o, st) := Classify pick err method st in LogAndSanitize o st.

(** What the client is told about an error. *)
Definition client_view (err : error) : code * string :=
  match match_rules err classificationRules with
  | Some (class, msg) => (match grpcCodeMap class with Some c => c | None => Internal end, msg)
  | None => (Internal, "An unexpected internal error occurred"%string)
  end.

(** Every pooled object is blank. *)
Definition pool_clean (st : ClassifierState) : Prop :=
  Forall (λ o, o = newClassified) (errorPool st).

(** The texts a client can see. *)
Definition client_messages : list string :=
  "An unexpected internal error occurred"%string :: ((λ r, r.2) <$> classificationRules).

(** ** Lemmas *)

Lemma Is_Wrap p e s : Is (Wrap p e) s = Is e s.
Proof. done. Qed.

Lemma pool_Get_clean pick st o st' :
  pool_clean st -> pool_Get pick st = (o, st') ->
  o = newClassified /\ pool_clean st' /\ errorLog st' = errorLog st.
Proof.
  unfold pool_clean, pool_Get. intros Hc Hg.
  destruct (errorPool st !! pick) eqn:E; simplify_eq/=; [|done].
  rewrite Forall_forall in Hc. split_and!; [|apply Forall_delete; by rewrite Forall_forall|done].
  apply Hc. by eapply list_elem_of_lookup_2.
Qed.

Lemma match_rules_message err class msg :
  match_rules err classificationRules = Some (class, msg) -> msg ∈ client_messages.
Proof.
  cbn [classificationRules match_rules]. intros H.
  repeat (case_match; [simplify_eq; cbn; repeat constructor|]). done.
Qed.

Lemma match_rules_first err rules :
  match match_rules err rules with
  | Some (class, msg) =>
      exists pre target post,
        rules = pre ++ (target, class, msg) :: post /\ Is err target = true
        /\ Forall (λ r, Is err (r.1.1) = false) pre
  | None => Forall (λ r, Is err (r.1.1) = false) rules
  end.
Proof.
  induction rules as [|[[target class] msg] rules IH]; simpl; [constructor|].
  destruct (Is err target) eqn:E.
  - exists [], target, rules. split_and!; [done|done|constructor].
  - destruct (match_rules err rules) as [[c m]|].
    + destruct IH as (pre & t & post & -> & Ht & Hp).
      exists ((target, class, msg) :: pre), t, post.
      split_and!; [done|done|by constructor].
    + by constructor.
Qed.

(** Whatever object the pool hands out, the client sees the same. *)
Lemma sanitizeError_view pick method err st :
  exists st', sanitizeError pick method (Some err) st
    = (Some (StatusError (client_view err).1 (client_view err).2), st').
Proof.
  unfold sanitizeError, Classify, client_view, LogAndSanitize, toGRPCError.
  destruct (pool_Get pick st) as [o st1].
  destruct (match_rules err classificationRules) as [[class msg]|]; cbn; by eexists.
Qed.

Lemma client_view_fixed err : (client_view err).2 ∈ client_messages.
Proof.
  unfold client_view. destruct (match_rules err classificationRules) as [[class msg]|] eqn:Hm.
  - by eapply match_rules_message.
  - apply elem_of_cons. by left.
Qed.

(** ** Theorems *)



(** the classification is the first rule, in the order of
    [classificationRules], whose sentinel is in the error's wrap tree; with
    no such rule the error is [ClassInternal].  In particular wrapping with
    context ([fmt.Errorf("..: %w", err)]) never changes the class. *)
Theorem Classify_first_match pick op err st :
  exists o st',
    Classify pick (Some err) op st = (Some o, st')
    /\ InternalError o = Some err /\ OperationName o = op
    /\ (forall pre, exists o' st'',
          Classify pick (Some (Wrap pre err)) op st = (Some o', st'')
          /\ Class_ o' = Class_ o /\ ClientMessage o' = ClientMessage o)
    /\ ((exists pre target post,
           classificationRules = pre ++ (target, Class_ o, ClientMessage o) :: post
           /\ Is err target = true /\ Forall (λ r, Is err (r.1.1) = false) pre)
        \/ (Class_ o = ClassInternal
            /\ Forall (λ r, Is err (r.1.1) = false) classificationRules)).
Proof.
  unfold Classify. destruct (pool_Get pick st) as [p st1].
  pose proof (match_rules_first err classificationRules) as Hf.
  assert (forall pre, match_rules (Wrap pre err) classificationRules
                      = match_rules err classificationRules) as Hw by done.
  setoid_rewrite Hw.
  destruct (match_rules err classificationRules) as [[class msg]|];
    do 2 eexists; cbn; split_and!; try done; eauto.
Qed.
