(* ===== verification/Domain.v ===== *)
(** * Domain types

    Models [internal/domain] ([key.go], [bounded_types.go], [audit.go]), the protobuf messages they carry, [pkg/authorization/tier.go],
    [pkg/crypto/crypto.go], [internal/constants/auth.go] and
    [internal/infra/persistence/storage_type_mapper.go].

    Protobuf enums are open ([int32]) in Go: they are [Z] here with named
    constants.  Nil and empty Go maps and slices are not distinguished: the
    code only ranges over them, reads them, or allocates a nil one before
    writing to it. *)

From S2P Require Import Prelude Errors.

Abbreviation bytes := (list Z).

(** ** UUIDs

    [uuid.UUID] is [16]byte: a 128-bit number by type.  [uuid.Parse] and
    [UUID.String] belong to github.com/google/uuid: they are the operations of
    the class below, with the documented fact that [Parse] reads back what
    [String] prints. *)

Record uuid := mkUuid {
  uuid_bits : Z;
  uuid_ok : bool_decide (0 <= uuid_bits < 2^128) = true
}.

Lemma uuid_eq (u v : uuid) : uuid_bits u = uuid_bits v -> u = v.
Proof.
  destruct u as [u Hu], v as [v Hv]. simpl. intros ->. f_equal. apply proof_irrel.
Qed.

#[export] Instance uuid_eq_dec : EqDecision uuid.
Proof.
  intros u v. destruct (decide (uuid_bits u = uuid_bits v)) as [H|H].
  - left. by apply uuid_eq.
  - right. by intros ->.
Defined.

Definition uuid_Nil : uuid := mkUuid 0 eq_refl.

Class UuidPkg := {
  uuid_Parse : string -> res uuid;
  uuid_String : uuid -> string
}.

Class UuidPkgOk `{UuidPkg} := {
  uuid_Parse_String u : uuid_Parse (uuid_String u) = Ok u;
  uuid_Parse_no_panic s w : uuid_Parse s <> Panic w;
  (* the form xxxxxxxx-xxxx-xxxx-xxxx-xxxxxxxxxxxx *)
  uuid_String_length u : String.length (uuid_String u) = 36%nat
}.

Lemma uuid_String_inj `{UuidPkgOk} : Inj (=) (=) uuid_String.
Proof. intros u v Huv. pose proof (uuid_Parse_String u). rewrite Huv, uuid_Parse_String in *. congruence. Qed.

(** ** bounded_types.go: KeyID *)

Record KeyID := mkKeyID { value : uuid }.

#[export] Instance KeyID_eq_dec : EqDecision KeyID.
Proof. solve_decision. Defined.

Section KeyID.
Context `{UuidPkg}.

(** [NewKeyID]: the random UUID is drawn by the environment. *)
Definition NewKeyID (random : uuid) : KeyID := mkKeyID random.

Definition KeyIDFromString (s : string) : res KeyID :=
  match uuid_Parse s with
  | Ok id => Ok (mkKeyID id)
  | Err err => Err (Wrap "invalid key id" err)
  | Panic w => Panic w
  end.

Definition KeyID_String (k : KeyID) : string := uuid_String (value k).

Definition KeyID_IsZero (k : KeyID) : bool := bool_decide (value k = uuid_Nil).

Definition KeyID_Validate (k : KeyID) : res unit :=
  if KeyID_IsZero k then Err (ErrorsNew "key id cannot be a nil uuid") else Ok tt.

(** [json.Marshal] of a string and [json.Unmarshal] into one. *)
Definition KeyID_MarshalJSON (json_Marshal : string -> res string) (k : KeyID) : res string :=
  json_Marshal (KeyID_String k).

(** The receiver [k] is assigned on success only. *)
Definition KeyID_UnmarshalJSON (json_Unmarshal : string -> res string) (data : string) (k : KeyID) : res unit * KeyID :=
  match json_Unmarshal data with
  | Err _ => (Err (ErrorsNew ("key id should be a string, got " +:+ data)), k)
  | Panic w => (Panic w, k)
  | Ok s =>
      match KeyIDFromString s with
      | Ok newID => (Ok tt, newID)
      | Err err => (Err err, k)
      | Panic w => (Panic w, k)
      end
  end.

(** A key identifier survives JSON if its text does. *)
Lemma KeyID_json_roundtrip `{!UuidPkgOk} json_Marshal json_Unmarshal k k0 data :
  (forall s d, json_Marshal s = Ok d -> json_Unmarshal d = Ok s) ->
  KeyID_MarshalJSON json_Marshal k = Ok data -> KeyID_UnmarshalJSON json_Unmarshal data k0 = (Ok tt, k).
Proof.
  intros Hj Hm. unfold KeyID_UnmarshalJSON. rewrite (Hj _ _ Hm). unfold KeyIDFromString, KeyID_String.
  rewrite uuid_Parse_String. by destruct k.
Qed.

End KeyID.

(** The zero value [domain.KeyID{}]. *)
Definition KeyID_zero : KeyID := mkKeyID uuid_Nil.

(** ** strings.TrimSpace

    The UTF-8 encodings of the code points [unicode.IsSpace] accepts. *)

Definition ascii_of (n : N) : Ascii.ascii := Ascii.ascii_of_N n.
Definition bytes_str (l : list N) : string :=
  foldr (λ n s, String (ascii_of n) s) EmptyString l.

Definition space_seqs : list string :=
  bytes_str <$>
  ([ [9]; [10]; [11]; [12]; [13]; [32]; [0xC2; 0x85]; [0xC2; 0xA0];
     [0xE1; 0x9A; 0x80]; [0xE2; 0x80; 0xA8]; [0xE2; 0x80; 0xA9];
     [0xE2; 0x80; 0xAF]; [0xE2; 0x81; 0x9F]; [0xE3; 0x80; 0x80];
     [0xE2; 0x80; 0x80]; [0xE2; 0x80; 0x81]; [0xE2; 0x80; 0x82];
     [0xE2; 0x80; 0x83]; [0xE2; 0x80; 0x84]; [0xE2; 0x80; 0x85];
     [0xE2; 0x80; 0x86]; [0xE2; 0x80; 0x87]; [0xE2; 0x80; 0x88];
     [0xE2; 0x80; 0x89]; [0xE2; 0x80; 0x8A] ]%N).

(** Remove the prefix [p] of [s]. *)
Fixpoint strip_prefix (p s : string) : option string :=
  match p, s with
  | EmptyString, _ => Some s
  | String a p', String b s' =>
      if Ascii.eqb a b then strip_prefix p' s' else None
  | String _ _, EmptyString => None
  end.

Definition strip_any (ps : list string) (s : string) : option string :=
  foldr (λ p acc, match strip_prefix p s with Some s' => Some s' | None => acc end) None ps.

Fixpoint trim_with (ps : list string) (fuel : nat) (s : string) : string :=
  match fuel with
  | O => s
  | S n => match strip_any ps s with Some s' => trim_with ps n s' | None => s end
  end.

Definition trim_left (s : string) : string := trim_with space_seqs (String.length s) s.
Definition trim_right (s : string) : string :=
  String.rev (trim_with (String.rev <$> space_seqs) (String.length s) (String.rev s)).

Definition TrimSpace (s : string) : string := trim_right (trim_left s).

(** [len(s)] *)
Definition go_len (s : string) : Z := Z.of_nat (String.length s).

(** ** bounded_types.go: Description and Tag *)

Definition maxDescriptionLength : Z := 255.

Record Description := mkDescription { descValue : string }.

Definition Description_Validate (d : Description) : res unit :=
  if maxDescriptionLength <? go_len (descValue d)
  then Err (ErrorsNew ("description exceeds maximum length of " +:+ pretty maxDescriptionLength))
  else Ok tt.

Definition NewDescription (s : string) : res Description :=
  let d := mkDescription (TrimSpace s) in
  _ ← Description_Validate d; Ok d.

Definition Description_String (d : Description) : string := descValue d.
Definition Description_IsEmpty (d : Description) : bool := String.eqb (descValue d) "".

Definition maxTagKeyLength : Z := 63.
Definition maxTagValueLength : Z := 255.

Record Tag := mkTag { tagKey : string; tagValue : string }.

Definition Tag_Validate (t : Tag) : res unit :=
  if String.eqb (tagKey t) "" then Err (ErrorsNew "tag key cannot be empty")
  else if maxTagKeyLength <? go_len (tagKey t)
  then Err (ErrorsNew ("tag key exceeds maximum length of " +:+ pretty maxTagKeyLength))
  else if maxTagValueLength <? go_len (tagValue t)
  then Err (ErrorsNew ("tag value exceeds maximum length of " +:+ pretty maxTagValueLength))
  else Ok tt.

Definition NewTag (key value : string) : res Tag :=
  let t := mkTag (TrimSpace key) (TrimSpace value) in
  _ ← Tag_Validate t; Ok t.

(** ** Protobuf enums and messages (docs/dev_data/polykey_protos.txt) *)

Definition KEY_TYPE_UNSPECIFIED : Z := 0.
Definition KEY_TYPE_API_KEY : Z := 1.
Definition KEY_TYPE_AES_256 : Z := 2.
Definition KEY_TYPE_RSA_4096 : Z := 3.
Definition KEY_TYPE_ECDSA_P384 : Z := 4.

Definition KEY_STATUS_ACTIVE : Z := 1.

Definition STORAGE_PROFILE_UNSPECIFIED : Z := 0.
Definition STORAGE_PROFILE_STANDARD : Z := 1.
Definition STORAGE_PROFILE_HARDENED : Z := 2.

(** [cmn.ClientTier]: the code only distinguishes the three named values. *)
Inductive ClientTier : Type :=
| CLIENT_TIER_FREE | CLIENT_TIER_PRO | CLIENT_TIER_ENTERPRISE
| CLIENT_TIER_OTHER (n : Z).

Record KeyMetadata := mkMetadata {
  KeyId : string;
  KeyType : Z;
  mdStatus : Z;
  mdVersion : Z;
  mdCreatedAt : option Z;
  mdUpdatedAt : option Z;
  ExpiresAt : option Z;
  LastAccessedAt : option Z;
  CreatorIdentity : string;
  AuthorizedContexts : list string;
  AccessPolicies : gmap string string;
  mdDescription : string;
  Tags : gmap string string;
  DataClassification : string;
  MetadataChecksum : string;
  AccessCount : Z;
  StorageType : Z
}.

#[export] Instance KeyMetadata_eq_dec : EqDecision KeyMetadata.
Proof. solve_decision. Defined.

(** The zero message, what the nil-safe getters of a nil [*KeyMetadata] read. *)
Definition zeroMetadata : KeyMetadata :=
  mkMetadata "" 0 0 0 None None None None "" [] ∅ "" ∅ "" "" 0 0.

Definition set_mdVersion (v : Z) (m : KeyMetadata) : KeyMetadata :=
  mkMetadata (KeyId m) (KeyType m) (mdStatus m) v (mdCreatedAt m) (mdUpdatedAt m)
    (ExpiresAt m) (LastAccessedAt m) (CreatorIdentity m) (AuthorizedContexts m)
    (AccessPolicies m) (mdDescription m) (Tags m) (DataClassification m)
    (MetadataChecksum m) (AccessCount m) (StorageType m).

Definition set_mdUpdatedAt (t : option Z) (m : KeyMetadata) : KeyMetadata :=
  mkMetadata (KeyId m) (KeyType m) (mdStatus m) (mdVersion m) (mdCreatedAt m) t
    (ExpiresAt m) (LastAccessedAt m) (CreatorIdentity m) (AuthorizedContexts m)
    (AccessPolicies m) (mdDescription m) (Tags m) (DataClassification m)
    (MetadataChecksum m) (AccessCount m) (StorageType m).

Definition set_ExpiresAt (t : option Z) (m : KeyMetadata) : KeyMetadata :=
  mkMetadata (KeyId m) (KeyType m) (mdStatus m) (mdVersion m) (mdCreatedAt m)
    (mdUpdatedAt m) t (LastAccessedAt m) (CreatorIdentity m) (AuthorizedContexts m)
    (AccessPolicies m) (mdDescription m) (Tags m) (DataClassification m)
    (MetadataChecksum m) (AccessCount m) (StorageType m).

Definition set_AccessPolicies (p : gmap string string) (m : KeyMetadata) : KeyMetadata :=
  mkMetadata (KeyId m) (KeyType m) (mdStatus m) (mdVersion m) (mdCreatedAt m)
    (mdUpdatedAt m) (ExpiresAt m) (LastAccessedAt m) (CreatorIdentity m)
    (AuthorizedContexts m) p (mdDescription m) (Tags m) (DataClassification m)
    (MetadataChecksum m) (AccessCount m) (StorageType m).

Definition set_mdDescription (d : string) (m : KeyMetadata) : KeyMetadata :=
  mkMetadata (KeyId m) (KeyType m) (mdStatus m) (mdVersion m) (mdCreatedAt m)
    (mdUpdatedAt m) (ExpiresAt m) (LastAccessedAt m) (CreatorIdentity m)
    (AuthorizedContexts m) (AccessPolicies m) d (Tags m) (DataClassification m)
    (MetadataChecksum m) (AccessCount m) (StorageType m).

Definition set_Tags (t : gmap string string) (m : KeyMetadata) : KeyMetadata :=
  mkMetadata (KeyId m) (KeyType m) (mdStatus m) (mdVersion m) (mdCreatedAt m)
    (mdUpdatedAt m) (ExpiresAt m) (LastAccessedAt m) (CreatorIdentity m)
    (AuthorizedContexts m) (AccessPolicies m) (mdDescription m) t
    (DataClassification m) (MetadataChecksum m) (AccessCount m) (StorageType m).

Definition set_DataClassification (d : string) (m : KeyMetadata) : KeyMetadata :=
  mkMetadata (KeyId m) (KeyType m) (mdStatus m) (mdVersion m) (mdCreatedAt m)
    (mdUpdatedAt m) (ExpiresAt m) (LastAccessedAt m) (CreatorIdentity m)
    (AuthorizedContexts m) (AccessPolicies m) (mdDescription m) (Tags m) d
    (MetadataChecksum m) (AccessCount m) (StorageType m).

Record RequesterContext := mkRequester {
  ClientIdentity : string;
  rcClientTier : ClientTier
}.

(** ** key.go *)

Inductive KeyTier : Type := TierFree | TierPro | TierEnterprise | TierUnknown.

#[export] Instance KeyTier_eq_dec : EqDecision KeyTier.
Proof. solve_decision. Defined.

(** [KeyStatus] is a string type; the column can hold any text. *)
Abbreviation KeyStatus := string.
Definition KeyStatusActive : KeyStatus := "active".
Definition KeyStatusRotated : KeyStatus := "rotated".
Definition KeyStatusRevoked : KeyStatus := "revoked".

Record Key := mkKey {
  ID : KeyID;
  Version : Z;
  Metadata : option KeyMetadata;
  EncryptedDEK : bytes;
  Status : KeyStatus;
  Tier : option KeyTier;
  CreatedAt : Z;
  UpdatedAt : Z;
  RevokedAt : option Z
}.

#[export] Instance Key_eq_dec : EqDecision Key.
Proof. solve_decision. Defined.

Definition set_ID (i : KeyID) (k : Key) : Key :=
  mkKey i (Version k) (Metadata k) (EncryptedDEK k) (Status k) (Tier k)
    (CreatedAt k) (UpdatedAt k) (RevokedAt k).
Definition set_Version (v : Z) (k : Key) : Key :=
  mkKey (ID k) v (Metadata k) (EncryptedDEK k) (Status k) (Tier k)
    (CreatedAt k) (UpdatedAt k) (RevokedAt k).
Definition set_Metadata (m : option KeyMetadata) (k : Key) : Key :=
  mkKey (ID k) (Version k) m (EncryptedDEK k) (Status k) (Tier k)
    (CreatedAt k) (UpdatedAt k) (RevokedAt k).
Definition set_EncryptedDEK (d : bytes) (k : Key) : Key :=
  mkKey (ID k) (Version k) (Metadata k) d (Status k) (Tier k)
    (CreatedAt k) (UpdatedAt k) (RevokedAt k).
Definition set_UpdatedAt (t : Z) (k : Key) : Key :=
  mkKey (ID k) (Version k) (Metadata k) (EncryptedDEK k) (Status k) (Tier k)
    (CreatedAt k) t (RevokedAt k).

(** [key.Metadata.GetX()]: protobuf getters read zero values through nil. *)
Definition md_get {A} (f : KeyMetadata -> A) (m : option KeyMetadata) : A :=
  f (default zeroMetadata m).

(** ** pkg/authorization/tier.go *)

Definition FromProtoTier (tier : ClientTier) : KeyTier :=
  match tier with
  | CLIENT_TIER_FREE => TierFree
  | CLIENT_TIER_PRO => TierPro
  | CLIENT_TIER_ENTERPRISE => TierEnterprise
  | CLIENT_TIER_OTHER _ => TierUnknown
  end.

Definition GetStorageProfileForTier (tier : KeyTier) : Z :=
  if bool_decide (tier = TierPro) || bool_decide (tier = TierEnterprise)
  then STORAGE_PROFILE_HARDENED else STORAGE_PROFILE_STANDARD.

Definition tier_text (t : KeyTier) : string :=
  match t with
  | TierFree => "free" | TierPro => "pro" | TierEnterprise => "enterprise"
  | TierUnknown => "unknown"
  end.

(** [StorageProfile.String()]: the enum name, or the number when unnamed. *)
Definition profile_text (p : Z) : string :=
  if p =? 0 then "STORAGE_PROFILE_UNSPECIFIED"
  else if p =? 1 then "STORAGE_PROFILE_STANDARD"
  else if p =? 2 then "STORAGE_PROFILE_HARDENED" else pretty p.

Definition ValidateTierForProfile (tier : KeyTier) (profile : Z) : res unit :=
  let maxProfile := GetStorageProfileForTier tier in
  if maxProfile <? profile
  then Err (ErrorsNew ("tier '" +:+ tier_text tier +:+ "' is not permitted to use the '"
                 +:+ profile_text profile +:+ "' storage profile"))
  else Ok tt.

(** ** domain/audit.go: what [AuditLogger.AuditLog] is told *)

Record AuditEntry := mkAudit {
  au_client : string; au_operation : string; au_key : string; au_success : bool; au_error : option error
}.

(** ** pkg/crypto/crypto.go *)

Definition keytype_text (t : Z) : string :=
  if t =? 0 then "KEY_TYPE_UNSPECIFIED" else if t =? 1 then "KEY_TYPE_API_KEY"
  else if t =? 2 then "KEY_TYPE_AES_256" else if t =? 3 then "KEY_TYPE_RSA_4096"
  else if t =? 4 then "KEY_TYPE_ECDSA_P384" else pretty t.

Definition GetCryptoDetails (keyType : Z) : res (Z * string) :=
  if keyType =? KEY_TYPE_AES_256 then Ok (32, "AES-256-GCM")
  else Err (WrapSuf (Sentinel CryptoErrInvalidKeyType) (keytype_text keyType)).

(** ** storage_type_mapper.go and internal/constants *)

Definition StorageTypeStandard : string := "standard".
Definition StorageTypeHardened : string := "hardened".
Definition StorageTypeUnknown : string := "unknown".

Definition storageTypeMap : list (Z * string) :=
  [ (STORAGE_PROFILE_STANDARD, StorageTypeStandard);
    (STORAGE_PROFILE_HARDENED, StorageTypeHardened) ].

Definition getStorageTypeOptimized (storageProfile : Z) : string :=
  match assoc storageProfile storageTypeMap with
  | Some storageType => storageType
  | None => StorageTypeUnknown
  end.

Definition AuthKeysRead : string := "keys:read".
Definition AuthKeysCreate : string := "keys:create".
Definition AuthKeysList : string := "keys:list".
Definition AuthKeysRotate : string := "keys:rotate".
Definition AuthKeysRevoke : string := "keys:revoke".
Definition AuthKeysUpdate : string := "keys:update".

Definition MethodScopes : list (string * string) :=
  [ ("GetKey"%string, AuthKeysRead); ("CreateKey"%string, AuthKeysCreate);
    ("ListKeys"%string, AuthKeysList); ("RotateKey"%string, AuthKeysRotate);
    ("RevokeKey"%string, AuthKeysRevoke); ("UpdateKeyMetadata"%string, AuthKeysUpdate);
    ("GetKeyMetadata"%string, AuthKeysRead) ].

(** ** An executable UUID package

    The canonical 8-4-4-4-12 lower-case form, to evaluate the model on
    concrete identifiers; [hex_Parse] accepts that form only. *)

Definition hex_digit (d : Z) : Ascii.ascii :=
  Ascii.ascii_of_N (Z.to_N (if d <? 10 then 48 + d else 87 + d)).

Definition hex_value (a : Ascii.ascii) : option Z :=
  let n := Z.of_N (Ascii.N_of_ascii a) in
  if (48 <=? n) && (n <=? 57) then Some (n - 48)
  else if (97 <=? n) && (n <=? 102) then Some (n - 87) else None.

Fixpoint hex_print (n : nat) (z : Z) (acc : string) : string :=
  match n with
  | O => acc
  | S n' => hex_print n' (z / 16) (String (hex_digit (z mod 16)) acc)
  end.

Fixpoint hex_read (s : string) (acc : Z) : option Z :=
  match s with
  | EmptyString => Some acc
  | String a s' => match hex_value a with
                   | Some d => hex_read s' (16 * acc + d)
                   | None => None
                   end
  end.

Definition dashed (s : string) : string :=
  String.substring 0 8 s +:+ "-" +:+ String.substring 8 4 s +:+ "-"
  +:+ String.substring 12 4 s +:+ "-" +:+ String.substring 16 4 s +:+ "-"
  +:+ String.substring 20 12 s.

Definition hex_String (u : uuid) : string := dashed (hex_print 32 (uuid_bits u) "").

Definition mk_uuid (z : Z) : res uuid :=
  match bool_decide (0 <= z < 2^128) as b
    return bool_decide (0 <= z < 2^128) = b -> res uuid with
  | true => λ H, Ok (mkUuid z H)
  | false => λ _, Err (ErrorsNew "invalid UUID format")
  end eq_refl.

Definition hex_Parse (s : string) : res uuid :=
  if negb (go_len s =? 36) then Err (ErrorsNew ("invalid UUID length: " +:+ pretty (go_len s)))
  else
    let h := String.substring 0 8 s +:+ String.substring 9 4 s
             +:+ String.substring 14 4 s +:+ String.substring 19 4 s
             +:+ String.substring 24 12 s in
    if String.eqb (dashed h) s then
      match hex_read h 0 with
      | Some z => mk_uuid z
      | None => Err (ErrorsNew "invalid UUID format")
      end
    else Err (ErrorsNew "invalid UUID format").

Definition HexUuid : UuidPkg := {| uuid_Parse := hex_Parse; uuid_String := hex_String |}.

(** ** Lemmas *)

Lemma hex_value_digit d : 0 <= d < 16 -> hex_value (hex_digit d) = Some d.
Proof.
  intros H. assert (d ∈ [0;1;2;3;4;5;6;7;8;9;10;11;12;13;14;15]) as Hd.
  { rewrite !elem_of_cons. lia. }
  repeat (apply elem_of_cons in Hd as [->|Hd]; [reflexivity|]). by apply elem_of_nil in Hd.
Qed.

Lemma hex_read_print n z acc a :
  hex_read (hex_print n z acc) a = hex_read acc (a * 16 ^ Z.of_nat n + z mod 16 ^ Z.of_nat n).
Proof.
  revert z acc a. induction n as [|n IH]; intros z acc a; simpl hex_print.
  - rewrite Z.mod_1_r. f_equal. lia.
  - rewrite IH. simpl. rewrite hex_value_digit by (apply Z.mod_pos_bound; lia).
    f_equal. rewrite Nat2Z.inj_succ, Z.pow_succ_r by lia.
    rewrite (Z.rem_mul_r z 16 (16 ^ Z.of_nat n)) by lia. lia.
Qed.

Lemma length_hex_print n z acc :
  String.length (hex_print n z acc) = (n + String.length acc)%nat.
Proof. revert z acc. induction n as [|n IH]; intros; simpl; [done|]. rewrite IH. simpl. lia. Qed.

Lemma undash_dashed h :
  String.length h = 32%nat ->
  go_len (dashed h) = 36
  /\ String.substring 0 8 (dashed h) +:+ String.substring 9 4 (dashed h)
     +:+ String.substring 14 4 (dashed h) +:+ String.substring 19 4 (dashed h)
     +:+ String.substring 24 12 (dashed h) = h.
Proof.
  do 32 (destruct h as [|? h]; [discriminate|]). destruct h; [|discriminate]. done.
Qed.

Lemma mk_uuid_bits u : mk_uuid (uuid_bits u) = Ok u.
Proof.
  unfold mk_uuid. destruct u as [z Hz]; simpl.
  generalize (@eq_refl bool (bool_decide (0 <= z < 2^128))).
  generalize (bool_decide (0 <= z < 2^128)) at 2 3. intros [] e; [|congruence].
  f_equal. by apply uuid_eq.
Qed.

Lemma mk_uuid_no_panic z w : mk_uuid z <> Panic w.
Proof.
  unfold mk_uuid.
  generalize (@eq_refl bool (bool_decide (0 <= z < 2^128))).
  generalize (bool_decide (0 <= z < 2^128)) at 2 3. by intros [].
Qed.

(** The executable package satisfies the interface. *)
Lemma HexUuidOk : @UuidPkgOk HexUuid.
Proof.
  split.
  - intros u. cbn [uuid_Parse uuid_String HexUuid]. unfold hex_Parse, hex_String.
    assert (String.length (hex_print 32 (uuid_bits u) "") = 32%nat) as Hl
      by apply length_hex_print.
    pose proof (hex_read_print 32 (uuid_bits u) "" 0) as Hr.
    revert Hl Hr. generalize (hex_print 32 (uuid_bits u) "") as h. intros h Hl Hr.
    destruct (undash_dashed h Hl) as [Hlen Hun].
    rewrite Hlen, Hun, String.eqb_refl, Hr. cbn [hex_read].
    pose proof (bool_decide_eq_true_1 _ (uuid_ok u)) as Hu.
    change (16 ^ Z.of_nat 32) with (2 ^ 128).
    rewrite Z.mul_0_l, Z.add_0_l, Z.mod_small by done. apply mk_uuid_bits.
  - intros s w. cbn [uuid_Parse HexUuid]. unfold hex_Parse.
    repeat case_match; try done. by apply mk_uuid_no_panic.
  - intros u. cbn [uuid_String HexUuid]. unfold hex_String.
    destruct (undash_dashed (hex_print 32 (uuid_bits u) "")) as [Hlen _]; [|done].
    apply length_hex_print.
Qed.

(** *** TrimSpace *)

Lemma app_nil_str s : ""%string +:+ s = s.
Proof. done. Qed.

Lemma app_cons_str a s t : String a s +:+ t = String a (s +:+ t).
Proof. done. Qed.

Lemma app_assoc_str s t u : (s +:+ t) +:+ u = s +:+ (t +:+ u).
Proof. induction s as [|a s IH]; [done|]. rewrite !app_cons_str. congruence. Qed.

(** Strings of equal length split a concatenation in one way. *)
Lemma app_inj_str s1 s2 t1 t2 :
  String.length s1 = String.length s2 -> s1 +:+ t1 = s2 +:+ t2 -> s1 = s2 /\ t1 = t2.
Proof.
  revert s2. induction s1 as [|a s1 IH]; intros [|b s2]; simpl; try done.
  rewrite !app_cons_str. intros [= Hl] [= -> E]. destruct (IH s2 Hl E) as [-> ->]. done.
Qed.

Lemma strip_prefix_spec p s s' : strip_prefix p s = Some s' <-> s = p +:+ s'.
Proof.
  revert s. induction p as [|a p IH]; intros s; simpl.
  - rewrite app_nil_str. split; congruence.
  - destruct s as [|b s]; rewrite app_cons_str; [split; discriminate|].
    destruct (Ascii.eqb_spec a b) as [->|]; [rewrite IH|]; split; congruence.
Qed.

Definition no_prefix (ps : list string) (s : string) : Prop :=
  Forall (λ p, forall s', s <> p +:+ s') ps.

Lemma strip_any_None ps s : strip_any ps s = None <-> no_prefix ps s.
Proof.
  unfold strip_any, no_prefix. induction ps as [|p ps IH]; simpl; [by split|].
  rewrite Forall_cons, <-IH.
  destruct (strip_prefix p s) as [s'|] eqn:E.
  - apply strip_prefix_spec in E. naive_solver.
  - split; [|naive_solver]. intros H. split; [|done].
    intros s' Hs. apply strip_prefix_spec in Hs. congruence.
Qed.

Lemma length_app_str s t :
  String.length (s +:+ t) = (String.length s + String.length t)%nat.
Proof. induction s; rewrite ?app_nil_str, ?app_cons_str; simpl; congruence. Qed.

Lemma strip_any_Some ps s s' :
  Forall (λ p, p <> EmptyString) ps ->
  strip_any ps s = Some s' ->
  (exists p, p ∈ ps /\ s = p +:+ s') /\ (String.length s' < String.length s)%nat.
Proof.
  unfold strip_any. induction ps as [|p ps IH]; simpl; [done|].
  intros [Hp Hps]%Forall_cons. destruct (strip_prefix p s) as [s1|] eqn:E; intros ?; simplify_eq.
  - apply strip_prefix_spec in E as ->. split.
    + exists p. split; [by left|done].
    + rewrite length_app_str. destruct p; simpl; [done|lia].
  - destruct IH as [(q & Hq & ->) Hl]; auto. split; [|done]. exists q. split; [by right|done].
Qed.

Lemma space_seqs_nonempty : Forall (λ p, p <> EmptyString) space_seqs.
Proof. vm_compute. repeat constructor; discriminate. Qed.

Lemma trim_with_done ps fuel s :
  Forall (λ p, p <> EmptyString) ps -> (String.length s <= fuel)%nat ->
  no_prefix ps (trim_with ps fuel s).
Proof.
  intros Hps. revert s. induction fuel as [|fuel IH]; intros s Hf; simpl.
  - assert (s = EmptyString) as -> by (destruct s; simpl in *; [done|lia]).
    eapply Forall_impl; [done|]. intros [|a p] Hp s' Hs; done.
  - destruct (strip_any ps s) as [s'|] eqn:E; [|by apply strip_any_None].
    apply strip_any_Some in E as [_ Hl]; [|done]. apply IH. lia.
Qed.

Lemma trim_with_suffix ps fuel s :
  Forall (λ p, p <> EmptyString) ps -> exists pre, s = pre +:+ trim_with ps fuel s.
Proof.
  intros Hps. revert s. induction fuel as [|fuel IH]; intros s; simpl; [by exists EmptyString|].
  destruct (strip_any ps s) as [s'|] eqn:E; [|by exists EmptyString].
  apply strip_any_Some in E as [(p & _ & ->) _]; [|done].
  destruct (IH s') as [pre Hpre]. exists (p +:+ pre). by rewrite app_assoc_str, <-Hpre.
Qed.

Lemma trim_with_id ps fuel s : no_prefix ps s -> trim_with ps fuel s = s.
Proof. intros H. destruct fuel; simpl; [done|]. by apply strip_any_None in H as ->. Qed.

Lemma rev_app_spec s t : String.rev_app s t = String.rev s +:+ t.
Proof.
  unfold String.rev. revert t. induction s as [|a s IH]; intros t; [done|].
  simpl. rewrite IH, (IH (String a "")), app_assoc_str. done.
Qed.

Lemma app_nil_r_str s : s +:+ "" = s.
Proof. induction s as [|a s IH]; [done|]. rewrite app_cons_str. congruence. Qed.

Lemma rev_cons_str a s : String.rev (String a s) = String.rev s +:+ String a "".
Proof. unfold String.rev at 1. simpl. apply rev_app_spec. Qed.

Lemma rev_app_str s t : String.rev (s +:+ t) = String.rev t +:+ String.rev s.
Proof.
  induction s as [|a s IH].
  - rewrite app_nil_str, app_nil_r_str. done.
  - rewrite app_cons_str, !rev_cons_str, IH, app_assoc_str. done.
Qed.

Lemma rev_involutive_str s : String.rev (String.rev s) = s.
Proof.
  induction s as [|a s IH]; [done|]. rewrite rev_cons_str, rev_app_str, IH. done.
Qed.

Lemma length_rev_str s : String.length (String.rev s) = String.length s.
Proof.
  induction s as [|a s IH]; [done|]. rewrite rev_cons_str, length_app_str, IH. simpl. lia.
Qed.

Lemma rev_space_seqs_nonempty : Forall (λ p, p <> EmptyString) (String.rev <$> space_seqs).
Proof. vm_compute. repeat constructor; discriminate. Qed.

Lemma trim_left_done s : no_prefix space_seqs (trim_left s).
Proof. apply trim_with_done; [apply space_seqs_nonempty|done]. Qed.

(** [trim_right s] is a prefix of [s] and ends in no space. *)
Lemma trim_right_prefix s : exists post, s = trim_right s +:+ post.
Proof.
  unfold trim_right.
  destruct (trim_with_suffix (String.rev <$> space_seqs) (String.length s) (String.rev s))
    as [pre Hpre]; [apply rev_space_seqs_nonempty|].
  exists (String.rev pre).
  by rewrite <-rev_app_str, <-Hpre, rev_involutive_str.
Qed.

Lemma no_prefix_app ps s t : no_prefix ps (s +:+ t) -> no_prefix ps s.
Proof.
  intros H. eapply Forall_impl; [exact H|]. intros p Hp s' ->.
  apply (Hp (s' +:+ t)). apply app_assoc_str.
Qed.

Lemma TrimSpace_idemp s : TrimSpace (TrimSpace s) = TrimSpace s.
Proof.
  unfold TrimSpace at 2 3. set (l := trim_left s).
  assert (no_prefix space_seqs (trim_right l)) as Hl.
  { destruct (trim_right_prefix l) as [post Hp].
    eapply no_prefix_app. rewrite <-Hp. apply trim_left_done. }
  unfold TrimSpace, trim_left at 1. rewrite trim_with_id by done.
  unfold trim_right at 1. rewrite trim_with_id; [apply rev_involutive_str|].
  unfold trim_right. rewrite rev_involutive_str.
  apply trim_with_done; [apply rev_space_seqs_nonempty|by rewrite length_rev_str].
Qed.

Lemma TrimSpace_length s : go_len (TrimSpace s) <= go_len s.
Proof.
  unfold go_len, TrimSpace, trim_left.
  destruct (trim_right_prefix (trim_with space_seqs (String.length s) s)) as [post Hp].
  destruct (trim_with_suffix space_seqs (String.length s) s) as [pre Hs];
    [apply space_seqs_nonempty|].
  apply (f_equal String.length) in Hp, Hs. rewrite length_app_str in Hp, Hs. lia.
Qed.

Lemma KeyIDFromString_String `{UuidPkgOk} k : KeyIDFromString (KeyID_String k) = Ok k.
Proof. unfold KeyIDFromString, KeyID_String. rewrite uuid_Parse_String. by destruct k. Qed.

Lemma KeyID_String_inj `{UuidPkgOk} : Inj (=) (=) KeyID_String.
Proof. intros [u] [v]. unfold KeyID_String; simpl. by intros ->%uuid_String_inj. Qed.

(** A tier may use a profile iff it is at or below the one its keys are
    created with. *)
Lemma tier_profile_sound tier profile :
  ValidateTierForProfile tier profile = Ok tt
  <-> profile <= GetStorageProfileForTier tier.
Proof.
  unfold ValidateTierForProfile.
  destruct (Z.ltb_spec (GetStorageProfileForTier tier) profile); split; (done || lia).
Qed.

#[export] Hint Resolve KeyIDFromString_String : go.

(** ** Theorems *)

(** [NewDescription] accepts exactly the texts whose trimmed form has at
    most 255 bytes; what it accepts is a fixed point (re-validating or
    re-creating a stored description changes nothing), and the only other
    outcome is the length error. *)
Theorem NewDescription_spec s :
  (go_len (TrimSpace s) <= maxDescriptionLength /\
   exists d, NewDescription s = Ok d /\ Description_String d = TrimSpace s
     /\ Description_Validate d = Ok tt /\ NewDescription (Description_String d) = Ok d)
  \/ (maxDescriptionLength < go_len (TrimSpace s) /\
      exists e, NewDescription s = Err e).
Proof.
  unfold NewDescription, Description_Validate, Description_String; simpl.
  destruct (Z.ltb_spec maxDescriptionLength (go_len (TrimSpace s))) as [Hl|Hl]; [right|left].
  - split; [done|]. by eexists.
  - split; [done|]. eexists. split_and!; [done|done| |]; cbn [descValue];
      rewrite ?TrimSpace_idemp;
      by destruct (Z.ltb_spec maxDescriptionLength (go_len (TrimSpace s))); [lia|].
Qed.
