(* ===== verification/Cache.v ===== *)
(** * The generic TTL cache

    Models [pkg/cache/generic_cache.go] (and the [Store] interface of
    [pkg/cache/cache.go]).  Every exported method takes the mutex for its whole
    body, so a run is a sequence of the operations below; the instant
    [time.Now()] returns is the argument [now].  The eviction callback is a
    function on the state [S] of its owner. *)

From S2P Require Import Prelude Errors.

Definition DefaultTTL : Z := 5 * Minute.
Definition DefaultCleanupInterval : Z := 10 * Minute.

Record item (V : Type) := mkItem { it_value : V; expiresAt : Z; permanent : bool }.
Arguments mkItem {V}.
Arguments it_value {V}.
Arguments expiresAt {V}.
Arguments permanent {V}.

Record Cache (K V : Type) `{Countable K} := mkCache {
  items : gmap K (item V);
  defaultTTL : Z;
  cleanupInterval : Z
}.
Arguments mkCache {K V _ _}.
Arguments items {K V _ _}.
Arguments defaultTTL {K V _ _}.
Arguments cleanupInterval {K V _ _}.

Section Cache.
Context {K V : Type} `{Countable K}.
Implicit Types c : Cache K V.

(** ** Construction: [New] applies its options in order. *)

Inductive Option_ : Type :=
| WithDefaultTTL (ttl : Z)
| WithCleanupInterval (interval : Z).

(** [opt(c)]; [WithEvictionCallback] is the argument [onEvicted] of the
    operations that evict. *)
Definition apply_option (c : Cache K V) (opt : Option_) : Cache K V :=
  match opt with
  | WithDefaultTTL ttl => mkCache (items c) ttl (cleanupInterval c)
  | WithCleanupInterval interval => mkCache (items c) (defaultTTL c) interval
  end.

Definition New (opts : list Option_) : Cache K V :=
  foldl apply_option (mkCache ∅ DefaultTTL DefaultCleanupInterval) opts.

(** ** Operations *)

Definition Set_ (now : Z) (key : K) (value : V) (ttl : Z) (c : Cache K V) : Cache K V :=
  let '(expires, perm) :=
    if ttl =? -1 then (0, true)
    else if ttl =? 0 then (now + defaultTTL c, false)
    else (now + ttl, false) in
  mkCache (<[key := mkItem value expires perm]> (items c)) (defaultTTL c) (cleanupInterval c).

(** [!cachedItem.permanent && now.After(cachedItem.expiresAt)] *)
Definition expired (now : Z) (it : item V) : bool :=
  negb (permanent it) && (expiresAt it <? now).

Definition Get (now : Z) (key : K) (c : Cache K V) : option V :=
  match items c !! key with
  | None => None
  | Some cachedItem => if expired now cachedItem then None else Some (it_value cachedItem)
  end.

Section Evict.
Context {S : Type} (onEvicted : option (K -> V -> S -> S)).

Definition delete_ (key : K) (cs : Cache K V * S) : Cache K V * S :=
  let '(c, s) := cs in
  match items c !! key with
  | None => (c, s)
  | Some it =>
      (mkCache (delete key (items c)) (defaultTTL c) (cleanupInterval c),
       match onEvicted with Some f => f key (it_value it) s | None => s end)
  end.

Definition Delete (key : K) (cs : Cache K V * S) : Cache K V * S := delete_ key cs.

(** The [range] of [deleteExpired] visits the keys in an unspecified order,
    which is the argument [order]; a key is deleted if the item it had when
    the range reached it is expired. *)
Definition deleteExpired_in (order : list K) (now : Z) (cs : Cache K V * S)
  : Cache K V * S :=
  foldl (λ cs key,
    match items cs.1 !! key with
    | Some cachedItem => if expired now cachedItem then delete_ key cs else cs
    | None => cs
    end) cs order.

Definition deleteExpired (now : Z) (cs : Cache K V * S) : Cache K V * S :=
  deleteExpired_in (map_to_list (items cs.1)).*1 now cs.

End Evict.

Definition Count (c : Cache K V) : nat := size (items c).

Definition Clear (c : Cache K V) : Cache K V := mkCache ∅ (defaultTTL c) (cleanupInterval c).

(** *** The cleanup goroutine *)

(** The cache with its goroutine: whether [stopCleanup] is closed, whether the
    loop still runs. *)
Record Proc := mkProc { p_cache : Cache K V; stopCleanup : bool; cleaning : bool }.

(** [time.NewTicker] in the goroutine [New] starts. *)
Definition cleanupLoop_start (c : Cache K V) : res Proc :=
  if cleanupInterval c <=? 0 then Panic "non-positive interval for NewTicker" else Ok (mkProc c false true).

Definition Stop (p : Proc) : res unit * Proc :=
  if stopCleanup p then (Panic "close of closed channel", p) else (Ok tt, mkProc (p_cache p) true (cleaning p)).

(** The case the loop's [select] takes: a tick, at the time it is served, or
    the closed channel.  When both are ready either may be taken. *)
Inductive select_case : Type := Ticked (now : Z) | StopSeen.

Definition cleanupLoop_turn {S} (onEvicted : option (K -> V -> S -> S)) (c : select_case) (ps : Proc * S) : Proc * S :=
  let '(p, s) := ps in
  if cleaning p then
    match c with
    | Ticked now => let '(c', s') := deleteExpired onEvicted now (p_cache p, s) in (mkProc c' (stopCleanup p) true, s')
    | StopSeen => (if stopCleanup p then mkProc (p_cache p) true false else p, s)
    end
  else (p, s).

(** ** Lemmas *)

Lemma New_items opts : items (New opts) = ∅.
Proof.
  unfold New. generalize DefaultTTL DefaultCleanupInterval.
  induction opts as [|[] opts IH]; intros; simpl; [done|apply IH..].
Qed.

Lemma delete_items {S} cb key c (s : S) :
  items (delete_ cb key (c, s)).1 = delete key (items c).
Proof.
  unfold delete_. destruct (items c !! key) eqn:E; [done|].
  simpl. by rewrite delete_id.
Qed.

Lemma delete_ttl {S} cb key c (s : S) :
  defaultTTL (delete_ cb key (c, s)).1 = defaultTTL c.
Proof. unfold delete_. by destruct (items c !! key). Qed.

Lemma deleteExpired_in_items {S} cb order now c (s : S) k :
  items (deleteExpired_in cb order now (c, s)).1 !! k
  = match items c !! k with
    | Some it => if expired now it && bool_decide (k ∈ order) then None else Some it
    | None => None
    end.
Proof.
  unfold deleteExpired_in. revert c s.
  induction order as [|k' order IH]; intros c s; cbn [foldl].
  - destruct (items c !! k) as [it|] eqn:E; cbn; rewrite E; [|done].
    by destruct (expired now it).
  - assert (bool_decide (k ∈ k' :: order)
            = bool_decide (k = k') || bool_decide (k ∈ order)) as ->.
    { rewrite <-bool_decide_or. apply bool_decide_ext, elem_of_cons. }
    cbn [fst].
    destruct (items c !! k') as [it'|] eqn:Ek'; [destruct (expired now it') eqn:Ex|].
    1: destruct (delete_ cb k' (c, s)) as [c1 s1] eqn:Ed;
       assert (items c1 = delete k' (items c)) as Hc1
         by (rewrite <-(delete_items cb k' c s), Ed; done).
    all: rewrite IH, ?Hc1; destruct (decide (k = k')) as [->|Hne].
    all: rewrite ?lookup_delete_eq, ?lookup_delete_ne, ?Ek', ?Ex by done.
    all: rewrite ?(bool_decide_eq_false_2 (k = k')) by done; try done.
    by rewrite bool_decide_eq_true_2.
Qed.

Lemma deleteExpired_items {S} cb now c (s : S) k :
  items (deleteExpired cb now (c, s)).1 !! k
  = match items c !! k with
    | Some it => if expired now it then None else Some it
    | None => None
    end.
Proof.
  unfold deleteExpired. rewrite deleteExpired_in_items.
  destruct (items c !! k) as [it|] eqn:E; [|done].
  rewrite bool_decide_eq_true_2; [by rewrite andb_true_r|].
  apply list_elem_of_fmap. exists (k, it). split; [done|]. by apply elem_of_map_to_list.
Qed.

(** ** Specification: the last write decides

    An abstract history of one key: its value and its deadline, if any. *)

Inductive cache_op : Type :=
| OpSet (key : K) (v : V) (ttl : Z)
| OpDelete (key : K)
| OpClear
| OpCleanup.

Definition apply_op {S} (cb : option (K -> V -> S -> S)) (cs : Cache K V * S)
    (top : Z * cache_op) : Cache K V * S :=
  match top.2 with
  | OpSet k v ttl => (Set_ top.1 k v ttl cs.1, cs.2)
  | OpDelete k => Delete cb k cs
  | OpClear => (Clear cs.1, cs.2)
  | OpCleanup => deleteExpired cb top.1 cs
  end.

Definition history_step (dttl : Z) (k : K) (e : option (V * option Z))
    (top : Z * cache_op) : option (V * option Z) :=
  match top.2 with
  | OpSet k' v ttl =>
      if decide (k = k')
      then Some (v, if ttl =? -1 then None
                    else Some (top.1 + (if ttl =? 0 then dttl else ttl)))
      else e
  | OpDelete k' => if decide (k = k') then None else e
  | OpClear => None
  | OpCleanup => e
  end.

Definition history_get (now : Z) (e : option (V * option Z)) : option V :=
  match e with
  | None => None
  | Some (v, None) => Some v
  | Some (v, Some deadline) => if deadline <? now then None else Some v
  end.

(** The instants of a history do not decrease and end before [now]. *)
Fixpoint times_ok (lo : Z) (ops : list (Z * cache_op)) (now : Z) : Prop :=
  match ops with
  | [] => lo <= now
  | (t, _) :: ops' => lo <= t /\ times_ok t ops' now
  end.

Lemma times_ok_le lo ops now : times_ok lo ops now -> lo <= now.
Proof. revert lo. induction ops as [|[t op] ops IH]; simpl; [done|]. intros lo [? ?%IH]. lia. Qed.

Lemma Get_Set now t k k' v ttl c :
  Get now k (Set_ t k' v ttl c)
  = if decide (k = k')
    then history_get now (Some (v, if ttl =? -1 then None
                                   else Some (t + (if ttl =? 0 then defaultTTL c else ttl))))
    else Get now k c.
Proof.
  unfold Get, Set_. destruct (ttl =? -1), (ttl =? 0); simpl;
    (destruct (decide (k = k')) as [->|Hne];
     [rewrite lookup_insert_eq|by rewrite lookup_insert_ne by done]); unfold expired; simpl;
    try done; by case_match.
Qed.

Lemma Get_Delete {S} cb now k k' c (s : S) :
  Get now k (Delete cb k' (c, s)).1 = if decide (k = k') then None else Get now k c.
Proof.
  unfold Get, Delete. rewrite delete_items. destruct (decide (k = k')) as [->|Hne].
  - by rewrite lookup_delete_eq.
  - by rewrite lookup_delete_ne.
Qed.

Lemma expired_mono t now it : t <= now -> expired t it = true -> expired now it = true.
Proof. unfold expired. intros. bool_to_prop. apply andb_true_iff. split; [by apply negb_true_iff|]. apply Z.ltb_lt. lia. Qed.

Lemma Get_deleteExpired {S} cb now t k c (s : S) :
  t <= now -> Get now k (deleteExpired cb t (c, s)).1 = Get now k c.
Proof.
  intros Ht. unfold Get. rewrite deleteExpired_items.
  destruct (items c !! k) as [it|]; [|done].
  destruct (expired t it) eqn:Ex; [|done]. by rewrite (expired_mono t now).
Qed.

(** Whatever the goroutine does up to [now], lookups at [now] do not see it;
    once it has seen the stop it does nothing more. *)
Lemma cleanupLoop_invisible {S} (cb : option (K -> V -> S -> S)) cases now k ps :
  Forall (λ e, match e with Ticked t => t <= now | StopSeen => True end) cases ->
  let ps' := foldl (λ ps e, cleanupLoop_turn cb e ps) ps cases in
  Get now k (p_cache ps'.1) = Get now k (p_cache ps.1) /\ (cleaning ps.1 = false -> ps' = ps).
Proof.
  intros Hc. revert ps. induction Hc as [|e cases Hc _ IH]; intros [p s]; cbn [foldl]; [done|].
  destruct (IH (cleanupLoop_turn cb e (p, s))) as [-> Hs]. unfold cleanupLoop_turn in *. cbn [fst]. destruct (cleaning p) eqn:Hl.
  - split; [|done]. destruct e as [t|]; [|by destruct (stopCleanup p)].
    pose proof (Get_deleteExpired cb now t k (p_cache p) s Hc) as Hg. by destruct (deleteExpired cb t (p_cache p, s)).
  - split; [done|]. intros _. by apply Hs.
Qed.

Lemma deleteExpired_ttl {S} cb t c (s : S) :
  defaultTTL (deleteExpired cb t (c, s)).1 = defaultTTL c.
Proof.
  unfold deleteExpired, deleteExpired_in. generalize (map_to_list (items (c, s).1)).*1 as l.
  intros l. revert c s. induction l as [|k l IH]; intros c s; cbn [foldl]; [done|].
  cbn [fst]. destruct (items c !! k) as [it|]; [destruct (expired t it)|].
  - destruct (delete_ cb k (c, s)) as [c1 s1] eqn:E. rewrite IH.
    change c1 with (c1, s1).1. rewrite <-E. apply delete_ttl.
  - apply IH.
  - apply IH.
Qed.

Lemma apply_op_ttl {S} cb c (s : S) top :
  defaultTTL (apply_op cb (c, s) top).1 = defaultTTL c.
Proof.
  destruct top as [t []]; cbn [apply_op fst snd]; [|apply delete_ttl|done|apply deleteExpired_ttl].
  unfold Set_. by case_match.
Qed.

(** One operation preserves agreement with the history at all later instants. *)
Lemma apply_op_history {S} cb c (s : S) t op k e now :
  t <= now ->
  (forall now', t <= now' -> Get now' k c = history_get now' e) ->
  Get now k (apply_op cb (c, s) (t, op)).1
  = history_get now (history_step (defaultTTL c) k e (t, op)).
Proof.
  intros Ht He. destruct op as [k' v ttl|k'| |]; unfold apply_op, history_step; cbn [fst snd].
  - rewrite Get_Set. case_decide; [done|]. by apply He.
  - rewrite Get_Delete. case_decide; [done|]. by apply He.
  - done.
  - rewrite Get_deleteExpired by done. by apply He.
Qed.

Lemma run_history {S} cb ops k now lo c (s : S) e :
  times_ok lo ops now ->
  (forall now', lo <= now' -> Get now' k c = history_get now' e) ->
  Get now k (foldl (apply_op cb) (c, s) ops).1
  = history_get now (foldl (history_step (defaultTTL c) k) e ops).
Proof.
  revert lo c s e. induction ops as [|[t op] ops IH]; intros lo c s e Ht He; cbn [foldl].
  { by apply He. }
  destruct Ht as [Hlo Ht].
  destruct (apply_op cb (c, s) (t, op)) as [c1 s1] eqn:E.
  rewrite <-(apply_op_ttl cb c s (t, op)), E. cbn [fst].
  apply (IH t); [done|]. intros now' Hnow'.
  change c1 with (c1, s1).1. rewrite <-E.
  rewrite (apply_op_history cb c s t op k e now') by (done || intros; apply He; lia).
  by rewrite E, <-(apply_op_ttl cb c s (t, op)), E.
Qed.

End Cache.

(** ** Theorems *)

(** C31: the cache refines its history.  After any sequence of [Set], [Delete],
    [Clear] and background cleanups, at non-decreasing instants, a [Get]
    returns exactly the value of the key's last [Set] that no [Delete] or
    [Clear] followed and whose deadline (default TTL for 0, none for -1) has
    not passed; the cleanup goroutine is never observable. *)
Theorem cache_refines_history {K V S} `{Countable K}
    (cb : option (K -> V -> S -> S)) (opts : list Option_) (s : S) ops k now lo :
  times_ok lo ops now ->
  Get now k (foldl (apply_op cb) (New opts, s) ops).1
  = history_get now (foldl (history_step (defaultTTL (New opts : Cache K V)) k) None ops).
Proof.
  intros Ht. apply (run_history cb ops k now lo); [done|].
  intros. unfold Get. by rewrite New_items.
Qed.

Lemma cache_refines_history_witness :
  let ops := [(1, OpSet "a"%string 7 10); (2, OpSet "b"%string 8 (-1));
              (5, OpDelete "b"%string); (9, OpCleanup)] in
  Get 11 "a"%string (foldl (apply_op None) (New [], tt) ops).1 = Some 7
  /\ Get 12 "a"%string (foldl (apply_op None) (New [], tt) ops).1 = None.
Proof.
  split; rewrite (cache_refines_history None [] tt _ _ _ 0); (reflexivity || (simpl; lia)).
Defined.
