(* ===== verification/Breaker.v ===== *)
(** * The circuit breaker

    Models [pkg/patterns/circuitbreaker/circuitbreaker.go].  The four atomics
    are the fields of [Breaker] after its configuration; the state-change
    callback is the log [transitions].  [int64] arithmetic wraps. *)

From S2P Require Import Prelude Errors.

Inductive State : Type := StateClosed | StateOpen | StateHalfOpen.

#[export] Instance State_eq_dec : EqDecision State.
Proof. solve_decision. Defined.

Record Breaker := mkBreaker {
  maxFailures : Z;
  resetTimeout : Z;
  callTimeout : Z;
  halfOpenRequests : Z;
  state : State;
  failures : Z;
  lastFailureTime : Z;
  successCount : Z;
  transitions : list (State * State)
}.

Definition set_atomics (st : State) (f l s : Z) (b : Breaker) : Breaker :=
  mkBreaker (maxFailures b) (resetTimeout b) (callTimeout b) (halfOpenRequests b)
    st f l s (transitions b).

(** ** Construction *)

Inductive BreakerOption : Type :=
| WithResetTimeout (d : Z)
| WithCallTimeout (d : Z)
| WithHalfOpenRequests (n : Z).

Definition apply_breaker_option (b : Breaker) (o : BreakerOption) : Breaker :=
  match o with
  | WithResetTimeout d =>
      mkBreaker (maxFailures b) d (callTimeout b) (halfOpenRequests b)
        (state b) (failures b) (lastFailureTime b) (successCount b) (transitions b)
  | WithCallTimeout d =>
      mkBreaker (maxFailures b) (resetTimeout b) d (halfOpenRequests b)
        (state b) (failures b) (lastFailureTime b) (successCount b) (transitions b)
  | WithHalfOpenRequests n =>
      if 0 <? n
      then mkBreaker (maxFailures b) (resetTimeout b) (callTimeout b) n
             (state b) (failures b) (lastFailureTime b) (successCount b) (transitions b)
      else b
  end.

Definition New (maxFailures : Z) (opts : list BreakerOption) : Breaker :=
  foldl apply_breaker_option
    (mkBreaker maxFailures (5 * Second) (2 * Second) 1 StateClosed 0 0 0 []) opts.

(** ** Operations *)

(** [transition]: a compare-and-swap on the state, then the counter resets and
    the callback. *)
Definition transition (from to : State) (b : Breaker) : Breaker :=
  if decide (state b = from) then
    let '(f, s) := match to with
                   | StateOpen => (failures b, 0)
                   | StateHalfOpen => (failures b, 0)
                   | StateClosed => (0, 0)
                   end in
    mkBreaker (maxFailures b) (resetTimeout b) (callTimeout b) (halfOpenRequests b)
      to f (lastFailureTime b) s (transitions b ++ [(from, to)])
  else b.

Definition canExecute (now : Z) (b : Breaker) : bool * Breaker :=
  match state b with
  | StateClosed => (true, b)
  | StateOpen =>
      if wrap64 (lastFailureTime b + resetTimeout b) <? now
      then (true, transition StateOpen StateHalfOpen b)
      else (false, b)
  | StateHalfOpen => (successCount b <? halfOpenRequests b, b)
  end.

Definition recordResult (now : Z) (err : option error) (b : Breaker) : Breaker :=
  match err with
  | Some _ =>
      let newFailures := wrap64 (failures b + 1) in
      let b := set_atomics (state b) newFailures now (successCount b) b in
      let currentState := state b in
      if bool_decide (currentState = StateHalfOpen)
         || (bool_decide (currentState = StateClosed) && (maxFailures b <=? newFailures))
      then transition currentState StateOpen b
      else b
  | None =>
      let currentState := state b in
      if decide (currentState = StateHalfOpen) then
        let n := wrap64 (successCount b + 1) in
        let b := set_atomics (state b) (failures b) (lastFailureTime b) n b in
        if halfOpenRequests b <=? n then transition StateHalfOpen StateClosed b else b
      else set_atomics (state b) 0 (lastFailureTime b) (successCount b) b
  end.

(** How a call through the breaker ends: the function returned first, or the
    call context was done first, by its deadline or by cancellation of the
    parent.  In the last two cases the goroutine running the function is not
    stopped: [ran] says whether its effects took place. *)
Inductive CallEvent : Type :=
| Completes
| CtxDone (deadline : bool) (ran : bool).

Section Execute.
Context {W A : Type} (getB : W -> Breaker) (setB : Breaker -> W -> W) (clockOf : W -> Z).

Definition record_in (err : option error) (w : W) : W :=
  setB (recordResult (clockOf w) err (getB w)) w.

Definition Execute (ev : CallEvent) (fn : M W A) : M W A := λ w,
  let '(ok, b1) := canExecute (clockOf w) (getB w) in
  let w1 := setB b1 w in
  if negb ok then (Err (Sentinel ErrOpen), w1)
  else match ev with
  | Completes =>
      match fn w1 with
      | (Ok result, w2) => (Ok result, record_in None w2)
      | (Err err, w2) => (Err err, record_in (Some err) w2)
      | (Panic s, w2) => (Panic s, w2)
      end
  | CtxDone deadline ran =>
      let w2 := if ran then (fn w1).2 else w1 in
      let err := if deadline then Sentinel ErrTimeout else Sentinel Canceled in
      (Err err, record_in (Some err) w2)
  end.
End Execute.

(** ** Concurrent use

    Many goroutines share a breaker.  A configuration is the breaker, the
    number of admitted calls still running and the clock. *)

Record BreakerConf := mkConf { cb_breaker : Breaker; inflight : nat; cb_clock : Z }.

Inductive bstep : BreakerConf -> BreakerConf -> Prop :=
| bstep_tick b n t t' : t <= t' -> bstep (mkConf b n t) (mkConf b n t')
| bstep_admit b b' n t :
    canExecute t b = (true, b') -> bstep (mkConf b n t) (mkConf b' (S n) t)
| bstep_reject b b' n t :
    canExecute t b = (false, b') -> bstep (mkConf b n t) (mkConf b' n t)
| bstep_finish b n t err :
    bstep (mkConf b (S n) t) (mkConf (recordResult t err b) n t).

(** ** Specification automaton *)

Inductive AState : Type :=
| AClosed (consecutive : Z)
| AOpen (since : Z)
| AHalfOpen (successes : Z).

Definition abs (b : Breaker) : AState :=
  match state b with
  | StateClosed => AClosed (failures b)
  | StateOpen => AOpen (lastFailureTime b)
  | StateHalfOpen => AHalfOpen (successCount b)
  end.

Definition spec_admit (reset need now : Z) (a : AState) : bool * AState :=
  match a with
  | AClosed n => (true, AClosed n)
  | AOpen t0 => if t0 + reset <? now then (true, AHalfOpen 0) else (false, AOpen t0)
  | AHalfOpen k => (k <? need, AHalfOpen k)
  end.

Definition spec_record (max need now : Z) (ok : bool) (a : AState) : AState :=
  match a, ok with
  | AClosed n, true => AClosed 0
  | AClosed n, false => if max <=? n + 1 then AOpen now else AClosed (n + 1)
  | AOpen t0, true => AOpen t0
  | AOpen _, false => AOpen now
  | AHalfOpen k, true => if need <=? k + 1 then AClosed 0 else AHalfOpen (k + 1)
  | AHalfOpen _, false => AOpen now
  end.

(** ** Invariant *)

Definition breaker_inv (b : Breaker) : Prop :=
  1 <= halfOpenRequests b < 2^63 /\
  match state b with
  | StateClosed => 0 <= failures b < Z.max 1 (maxFailures b) /\ successCount b = 0
  | StateOpen => successCount b = 0
  | StateHalfOpen => 0 <= successCount b < halfOpenRequests b
  end.

Definition same_config (b b' : Breaker) : Prop :=
  maxFailures b' = maxFailures b /\ resetTimeout b' = resetTimeout b
  /\ callTimeout b' = callTimeout b /\ halfOpenRequests b' = halfOpenRequests b.

(** ** Lemmas *)

Ltac breaker_cases b :=
  destruct b as [mf rt ct hr st f lf sc tr]; destruct st; simpl in *.

Ltac breaker_arith :=
  repeat match goal with
  | H : context [wrap64 ?x] |- _ => rewrite (wrap64_id x) in H by lia
  | |- context [wrap64 ?x] => rewrite (wrap64_id x) by lia
  end.

Lemma canExecute_config now b ok b' :
  canExecute now b = (ok, b') -> same_config b b'.
Proof.
  unfold canExecute, transition, same_config. intros H.
  breaker_cases b; repeat (case_match; simplify_eq/=); naive_solver.
Qed.

Lemma recordResult_config now err b : same_config b (recordResult now err b).
Proof.
  unfold recordResult, transition, same_config.
  breaker_cases b; destruct err; repeat (case_match; simplify_eq/=); naive_solver.
Qed.

Lemma canExecute_inv now b ok b' :
  breaker_inv b -> canExecute now b = (ok, b') -> breaker_inv b'.
Proof.
  unfold breaker_inv, canExecute, transition. intros Hi H.
  breaker_cases b; repeat (case_match; simplify_eq/=); try done; naive_solver lia.
Qed.

Lemma recordResult_inv now err b :
  maxFailures b < 2^63 -> breaker_inv b -> breaker_inv (recordResult now err b).
Proof.
  unfold breaker_inv, recordResult, transition, set_atomics. intros Hm [Hh Hi].
  breaker_cases b; destruct err; simpl in *; breaker_arith;
    repeat (case_match; simplify_eq/=); bool_to_prop; split; try done; try lia.
Qed.

Lemma New_inv maxf opts :
  Forall (λ o, match o with WithHalfOpenRequests n => n < 2^63 | _ => True end) opts ->
  breaker_inv (New maxf opts).
Proof.
  intros Ho. unfold New.
  assert (forall b, state b = StateClosed -> breaker_inv b ->
    breaker_inv (foldl apply_breaker_option b opts)) as Hgen.
  { clear maxf. induction Ho as [|o opts Ho Hos IH]; intros b Hs Hb; simpl; [done|].
    apply IH; destruct o; simpl; try case_match; try done.
    unfold breaker_inv in *; simpl. rewrite Hs in *. bool_to_prop. naive_solver lia. }
  apply Hgen; [done|]. unfold breaker_inv; simpl. lia.
Qed.

Lemma New_fresh maxf opts :
  maxFailures (New maxf opts) = maxf /\ state (New maxf opts) = StateClosed
  /\ failures (New maxf opts) = 0.
Proof.
  unfold New.
  assert (forall b, let b' := foldl apply_breaker_option b opts in
    maxFailures b' = maxFailures b /\ state b' = state b /\ failures b' = failures b) as H.
  { induction opts as [|o opts IH]; intros b; simpl; [done|].
    destruct (IH (apply_breaker_option b o)) as (-> & -> & ->).
    destruct o; simpl; [done|done|]. by case_match. }
  destruct (H (mkBreaker maxf (5 * Second) (2 * Second) 1 StateClosed 0 0 0 []))
    as (-> & -> & ->). done.
Qed.

Lemma transition_half_open b :
  state b = StateOpen ->
  state (transition StateOpen StateHalfOpen b) = StateHalfOpen
  /\ successCount (transition StateOpen StateHalfOpen b) = 0.
Proof. intros Hs. unfold transition. by rewrite decide_True. Qed.

Lemma canExecute_elapsed now b :
  state b = StateOpen -> - 2^63 <= lastFailureTime b + resetTimeout b < 2^63 ->
  lastFailureTime b + resetTimeout b < now ->
  canExecute now b = (true, transition StateOpen StateHalfOpen b).
Proof.
  intros Hs Hl Hn. unfold canExecute. rewrite Hs, wrap64_id by lia.
  by destruct (Z.ltb_spec (lastFailureTime b + resetTimeout b) now); [|lia].
Qed.

Lemma canExecute_waiting now b :
  state b = StateOpen -> - 2^63 <= lastFailureTime b + resetTimeout b < 2^63 ->
  now <= lastFailureTime b + resetTimeout b -> canExecute now b = (false, b).
Proof.
  intros Hs Hl Hn. unfold canExecute. rewrite Hs, wrap64_id by lia.
  by destruct (Z.ltb_spec (lastFailureTime b + resetTimeout b) now); [lia|].
Qed.

Lemma recordResult_half_open_failure t e b :
  state b = StateHalfOpen ->
  state (recordResult t (Some e) b) = StateOpen
  /\ lastFailureTime (recordResult t (Some e) b) = t.
Proof.
  unfold recordResult, transition, set_atomics. intros Hs.
  destruct b as [mf rt ct hr st f lf sc tr]; simpl in *; by subst.
Qed.

(** One failure recorded in the closed state, below the limit. *)
Lemma recordResult_closed_failure t e b :
  state b = StateClosed -> 0 <= failures b < 2^63 - 1 ->
  let b' := recordResult t (Some e) b in
  lastFailureTime b' = t /\ failures b' = failures b + 1 /\
  state b' = if maxFailures b <=? failures b + 1 then StateOpen else StateClosed.
Proof.
  unfold recordResult, transition, set_atomics. intros Hs Hf.
  destruct b as [mf rt ct hr st f lf sc tr]; simpl in *; subst; breaker_arith.
  by destruct (mf <=? f + 1) eqn:E.
Qed.

Definition fail_all (errs : list (Z * error)) (b : Breaker) : Breaker :=
  foldl (λ b te, recordResult te.1 (Some te.2) b) b errs.

Lemma fail_all_config errs b : same_config b (fail_all errs b).
Proof.
  unfold fail_all. revert b. induction errs as [|te errs IH]; intros b; cbn [foldl]; [done|].
  destruct (IH (recordResult te.1 (Some te.2) b)) as (?&?&?&?).
  destruct (recordResult_config te.1 (Some te.2) b) as (?&?&?&?).
  unfold same_config. split_and!; congruence.
Qed.

Lemma fail_all_closed errs b :
  state b = StateClosed -> 0 <= failures b ->
  failures b + Z.of_nat (length errs) < maxFailures b < 2^63 ->
  state (fail_all errs b) = StateClosed
  /\ failures (fail_all errs b) = failures b + Z.of_nat (length errs).
Proof.
  unfold fail_all. revert b. induction errs as [|[t e] errs IH]; intros b Hs Hf Hn; cbn [foldl fst snd].
  { split; [done|]. simpl in *. lia. }
  cbn [length] in *.
  destruct (recordResult_closed_failure t e b) as (_ & Hf' & Hs'); [done|lia|].
  destruct (recordResult_config t (Some e) b) as (Hm & _).
  destruct (Z.leb_spec (maxFailures b) (failures b + 1)); [lia|].
  destruct (IH (recordResult t (Some e) b)) as [IH1 IH2]; [done|lia|lia|].
  split; [done|]. rewrite IH2. lia.
Qed.

Lemma half_open_success t b :
  state b = StateHalfOpen -> breaker_inv b ->
  let b' := recordResult t None b in
  if halfOpenRequests b <=? successCount b + 1
  then state b' = StateClosed /\ failures b' = 0 /\ successCount b' = 0
  else state b' = StateHalfOpen /\ successCount b' = successCount b + 1.
Proof.
  unfold breaker_inv, recordResult, transition, set_atomics. intros Hs [Hh Hi].
  destruct b as [mf rt ct hr st f lf sc tr]; simpl in *; subst; breaker_arith.
  destruct (hr <=? sc + 1); simpl; done.
Qed.

Definition succeed_all (ts : list Z) (b : Breaker) : Breaker :=
  foldl (λ b t, recordResult t None b) b ts.

Lemma succeed_all_half_open ts b :
  state b = StateHalfOpen -> breaker_inv b -> maxFailures b < 2^63 ->
  successCount b + Z.of_nat (length ts) = halfOpenRequests b ->
  state (succeed_all ts b) = StateClosed
  /\ failures (succeed_all ts b) = 0 /\ successCount (succeed_all ts b) = 0.
Proof.
  unfold succeed_all. revert b. induction ts as [|t ts IH]; intros b Hs Hi Hm Hn; cbn [foldl].
  { destruct Hi as [_ Hi]. rewrite Hs in Hi. simpl in Hn. lia. }
  cbn [length] in Hn.
  pose proof (half_open_success t b Hs Hi) as Hstep. cbv zeta in Hstep.
  destruct (recordResult_config t None b) as (Hm' & _ & _ & Hh').
  destruct (Z.leb_spec (halfOpenRequests b) (successCount b + 1)).
  - destruct ts; [done|]. simpl in Hn. lia.
  - destruct Hstep as [Hs1 Hc1]. apply IH; [done|by apply recordResult_inv|lia|lia].
Qed.

(** ** Theorems *)

(** C21: the breaker refines the three-state automaton [spec_admit] /
    [spec_record]: in every state satisfying the invariant, admission and
    recording a result commute with the abstraction, counters, timestamps and
    CAS included. *)
Theorem breaker_refines now err b :
  breaker_inv b -> maxFailures b < 2^63 ->
  - 2^63 <= lastFailureTime b + resetTimeout b < 2^63 ->
  (let '(ok, b') := canExecute now b in (ok, abs b'))
    = spec_admit (resetTimeout b) (halfOpenRequests b) now (abs b)
  /\ abs (recordResult now err b)
    = spec_record (maxFailures b) (halfOpenRequests b) now
        (match err with None => true | Some _ => false end) (abs b).
Proof.
  unfold breaker_inv, canExecute, recordResult, transition, set_atomics, abs.
  intros [Hh Hi] Hm Hl.
  breaker_cases b; destruct err; simpl in *; breaker_arith; (split; simpl in *);
    repeat (case_match; simplify_eq/=); bool_to_prop; try done; try lia.
Qed.

Lemma breaker_refines_witness :
  let b := fail_all [(7, ErrorsNew "down")] (Breaker.New 1 []) in
  (let '(ok, b') := canExecute (6 * Second) b in (ok, abs b')) = (true, AHalfOpen 0)
  /\ abs (recordResult 9 None b) = AOpen 7.
Proof.
  destruct (breaker_refines (6 * Second) None (fail_all [(7, ErrorsNew "down")] (Breaker.New 1 [])))
    as [H1 _]; [vm_compute; repeat split; congruence|reflexivity|vm_compute; split; congruence|].
  destruct (breaker_refines 9 None (fail_all [(7, ErrorsNew "down")] (Breaker.New 1 [])))
    as [_ H2]; [vm_compute; repeat split; congruence|reflexivity|vm_compute; split; congruence|].
  split; [exact H1|exact H2].
Defined.



(** tripping.  A fresh breaker stays closed for fewer than [maxFailures]
    consecutive failures; at the [maxFailures]-th it opens, and from then on
    every call up to [resetTimeout] after the last failure is rejected
    without being run and without changing the breaker. *)
Theorem breaker_trips maxf opts errs te :
  let b0 := New maxf opts in
  maxf < 2^63 -> Z.of_nat (length errs) + 1 = maxf ->
  - 2^63 <= te.1 + resetTimeout b0 < 2^63 ->
  let b := fail_all (errs ++ [te]) b0 in
  state (fail_all errs b0) = StateClosed /\ state b = StateOpen
  /\ forall now, now <= te.1 + resetTimeout b0 -> canExecute now b = (false, b).
Proof.
  intros b0 Hm Hn Hl b. destruct (New_fresh maxf opts) as (Hmax & Hs & Hf).
  fold b0 in Hmax, Hs, Hf.
  destruct (fail_all_closed errs b0) as [Hs1 Hf1]; [done|lia|lia|].
  assert (b = recordResult te.1 (Some te.2) (fail_all errs b0)) as Hb.
  { unfold b, fail_all. by rewrite foldl_app. }
  destruct (fail_all_config errs b0) as (Hm1 & Hr1 & _).
  destruct (recordResult_closed_failure te.1 te.2 (fail_all errs b0))
    as (Hl2 & Hf2 & Hs2); [done|lia|].
  destruct (recordResult_config te.1 (Some te.2) (fail_all errs b0)) as (_ & Hr2 & _).
  rewrite <-Hb in *.
  destruct (Z.leb_spec (maxFailures (fail_all errs b0)) (failures (fail_all errs b0) + 1)); [|lia].
  split_and!; [done|done|]. intros now Hnow. apply canExecute_waiting; [done|lia|lia].
Qed.

Lemma breaker_trips_witness :
  let te := (2, Sentinel PsqlErrKeyNotFound) in
  let b := fail_all ([(1, ErrorsNew "x")] ++ [te]) (Breaker.New 2 []) in
  state b = StateOpen /\ canExecute (5 * Second) b = (false, b).
Proof.
  destruct (breaker_trips 2 [] [(1, ErrorsNew "x")] (2, Sentinel PsqlErrKeyNotFound))
    as (_ & H1 & H2); [lia|reflexivity|split; vm_compute; congruence|].
  split; [exact H1|]. apply H2. vm_compute. congruence.
Defined.

(** C23: recovery.  An open breaker whose [resetTimeout] has passed admits the
    next call and becomes half-open; [halfOpenRequests] recorded successes
    then close it with its counters reset, while a failure re-opens it and
    calls are rejected again until [resetTimeout] after that failure. *)
Theorem breaker_recovers now b ts t e :
  breaker_inv b -> maxFailures b < 2^63 ->
  state b = StateOpen ->
  - 2^63 <= lastFailureTime b + resetTimeout b < now ->
  - 2^63 <= t + resetTimeout b < 2^63 -> now < 2^63 ->
  Z.of_nat (length ts) = halfOpenRequests b ->
  exists b', canExecute now b = (true, b') /\ state b' = StateHalfOpen
  /\ (let b2 := succeed_all ts b' in
      state b2 = StateClosed /\ failures b2 = 0 /\ successCount b2 = 0)
  /\ (let b3 := recordResult t (Some e) b' in
      state b3 = StateOpen /\
      forall now', now' <= t + resetTimeout b -> canExecute now' b3 = (false, b3)).
Proof.
  intros Hi Hm Hs Hl Ht Hnow Hn.
  assert (canExecute now b = (true, transition StateOpen StateHalfOpen b)) as Hc
    by (apply canExecute_elapsed; [done|lia|lia]).
  set (b' := transition StateOpen StateHalfOpen b) in *. exists b'.
  pose proof (canExecute_inv _ _ _ _ Hi Hc) as Hi'.
  destruct (canExecute_config _ _ _ _ Hc) as (Hm' & Hr' & _ & Hh').
  assert (state b' = StateHalfOpen /\ successCount b' = 0) as [Hs' Hsc]
    by (by apply transition_half_open).
  split_and!; [done|done| |].
  - apply succeed_all_half_open; [done|done|lia|lia].
  - destruct (recordResult_half_open_failure t e b' Hs') as [Hs3 Hl3].
    destruct (recordResult_config t (Some e) b') as (_ & Hr3 & _).
    split; [done|]. intros now' Hnow'. apply canExecute_waiting; [done|lia|lia].
Qed.

Lemma breaker_recovers_witness :
  let b := fail_all [(7, ErrorsNew "down")] (Breaker.New 1 []) in
  exists b', canExecute (6 * Second) b = (true, b')
    /\ state (succeed_all [6 * Second] b') = StateClosed.
Proof.
  destruct (breaker_recovers (6 * Second) (fail_all [(7, ErrorsNew "down")] (Breaker.New 1 []))
    [6 * Second] 8 (ErrorsNew "down")) as (b' & H1 & _ & (H2 & _) & _);
    [vm_compute; repeat split; congruence|reflexivity|reflexivity
    |vm_compute; split; congruence|vm_compute; split; congruence|reflexivity|reflexivity|].
  exists b'. split; [exact H1|exact H2].
Defined.

(** half-open concurrency is not limited.  The half-open test counts
    recorded successes, not calls in flight, so once [resetTimeout] has passed
    any number of calls is admitted at the same instant before the first one
    returns. *)
Theorem half_open_unbounded now b n :
  breaker_inv b -> state b = StateOpen ->
  - 2^63 <= lastFailureTime b + resetTimeout b < now -> now < 2^63 ->
  exists b', state b' = StateHalfOpen
    /\ rtc bstep (mkConf b 0 now) (mkConf b' (S n) now).
Proof.
  intros Hi Hs Hl Hnow.
  assert (canExecute now b = (true, transition StateOpen StateHalfOpen b)) as Hc
    by (apply canExecute_elapsed; [done|lia|lia]).
  pose proof (canExecute_inv _ _ _ _ Hi Hc) as [Hh Hi'].
  set (b' := transition StateOpen StateHalfOpen b) in *. exists b'.
  assert (state b' = StateHalfOpen /\ successCount b' = 0) as [Hs' Hsc]
    by (by apply transition_half_open).
  split; [done|].
  assert (canExecute now b' = (true, b')) as Hc'.
  { unfold canExecute. rewrite Hs', Hsc. rewrite Hs' in Hi'. f_equal. apply Z.ltb_lt. lia. }
  induction n as [|n IH].
  - apply rtc_once. by apply bstep_admit.
  - eapply rtc_r; [exact IH|]. by apply bstep_admit.
Qed.

Lemma half_open_unbounded_witness :
  exists b', state b' = StateHalfOpen
    /\ rtc bstep (mkConf (fail_all [(7, ErrorsNew "down")] (Breaker.New 1 [])) 0 (6 * Second))
        (mkConf b' 1000 (6 * Second)).
Proof.
  apply (half_open_unbounded (6 * Second)
    (fail_all [(7, ErrorsNew "down")] (Breaker.New 1 [])) 999);
    [vm_compute; repeat split; congruence|reflexivity|vm_compute; split; congruence|reflexivity].
Defined.
