(* ===== verification/Repo.v ===== *)
(** * The key repository interface

    [domain.KeyRepository] of [internal/domain/key.go] as a class over the
    state [S] of an implementation, and the part of Go's memory its methods
    share: a [*domain.Key] is a location of [heap], so a pointer that an
    implementation keeps (the cache does) and hands out is an alias. *)

From S2P Require Import Prelude Errors Domain.

Abbreviation loc := nat.

Record St (S : Type) := mkSt {
  clock : Z;
  heap : gmap loc Key;
  next : loc;
  repo : S
}.
Arguments mkSt {S}.
Arguments clock {S}.
Arguments heap {S}.
Arguments next {S}.
Arguments repo {S}.

Definition set_repo {S S'} (s : S') (w : St S) : St S' :=
  mkSt (clock w) (heap w) (next w) s.

(** [time.Now()]: the clock moves between operations and by [sleep] only. *)
Definition time_now {S} : M (St S) Z := gets clock.

(** [time.Sleep(d)] *)
Definition sleep {S} (d : Z) : M (St S) unit := λ w,
  (Ok tt, mkSt (clock w + d) (heap w) (next w) (repo w)).

(** [&domain.Key{..}] *)
Definition alloc {S} (k : Key) : M (St S) loc := λ w,
  (Ok (next w), mkSt (clock w) (<[next w := k]> (heap w)) (Datatypes.S (next w)) (repo w)).

(** [*p] *)
Definition deref {S} (l : loc) : M (St S) Key := λ w,
  match heap w !! l with
  | Some k => (Ok k, w)
  | None => (Panic "nil pointer dereference", w)
  end.

(** [*p = k] *)
Definition assign {S} (l : loc) (k : Key) : M (St S) unit := λ w,
  match heap w !! l with
  | Some _ => (Ok tt, mkSt (clock w) (<[l := k]> (heap w)) (next w) (repo w))
  | None => (Panic "nil pointer dereference", w)
  end.

Fixpoint deref_all {S} (ls : list loc) : M (St S) (list Key) :=
  match ls with
  | [] => mret []
  | l :: ls' => k ← deref l; ks ← deref_all ls'; mret (k :: ks)
  end.

Fixpoint alloc_all {S} (ks : list Key) : M (St S) (list loc) :=
  match ks with
  | [] => mret []
  | k :: ks' => l ← alloc k; ls ← alloc_all ks'; mret (l :: ls)
  end.

(** Locations in use are below [next]. *)
Definition heap_wf {S} (w : St S) : Prop :=
  forall l, is_Some (heap w !! l) -> (l < next w)%nat.

Class KeyRepository (S : Type) := {
  GetKey : KeyID -> M (St S) loc;
  GetKeyByVersion : KeyID -> Z -> M (St S) loc;
  GetKeyMetadata : KeyID -> M (St S) (option KeyMetadata);
  GetKeyMetadataByVersion : KeyID -> Z -> M (St S) (option KeyMetadata);
  CreateKey : option Key -> M (St S) unit;
  CreateBatchKeys : list Key -> M (St S) unit;
  ListKeys : option Z -> Z -> M (St S) (list loc);
  UpdateKeyMetadata : KeyID -> option KeyMetadata -> M (St S) unit;
  RotateKey : KeyID -> bytes -> M (St S) loc;
  RevokeKey : KeyID -> M (St S) unit;
  GetKeyVersions : KeyID -> M (St S) (list loc);
  Exists_ : KeyID -> M (St S) bool;
  GetBatchKeys : list KeyID -> M (St S) (list loc);
  GetBatchKeyMetadata : list KeyID -> M (St S) (list KeyMetadata);
  RevokeBatchKeys : list KeyID -> M (St S) unit;
  UpdateBatchKeyMetadata : list loc -> M (St S) unit
}.

(** Run code of an inner repository inside the state of its decorator. *)
Definition with_inner {S S' A} (get : S' -> S) (put : S -> S' -> S') (m : M (St S) A)
  : M (St S') A := λ w,
  let '(r, w') := m (set_repo (get (repo w)) w) in
  (r, set_repo (put (repo w') (repo w)) w').

(** ** Lemmas on the heap *)

Lemma alloc_run {S} k (w : St S) :
  alloc k w = (Ok (next w), mkSt (clock w) (<[next w := k]> (heap w)) (Datatypes.S (next w)) (repo w)).
Proof. done. Qed.

Lemma deref_run {S} l k (w : St S) : heap w !! l = Some k -> deref l w = (Ok k, w).
Proof. unfold deref. by intros ->. Qed.

Lemma heap_wf_alloc {S} k (w : St S) r w' : heap_wf w -> alloc k w = (r, w') -> heap_wf w'.
Proof.
  unfold heap_wf, alloc. intros Hw ? l; simplify_eq/=.
  rewrite lookup_insert. case_decide; [intros _; lia|]. intros ?%Hw. lia.
Qed.

Lemma heap_wf_next {S} (w : St S) : heap_wf w -> heap w !! next w = None.
Proof.
  intros Hw. destruct (heap w !! next w) eqn:E; [|done].
  assert (is_Some (heap w !! next w)) as H%Hw by (by eexists). lia.
Qed.

#[export] Hint Resolve heap_wf_alloc : go.

(** ** What a repository promises to its decorators

    [view] is what a read of a version ([0] for the latest) yields; every
    method keeps the invariant of the state, extends the heap and, apart from
    the keys it is about, leaves the view alone; a method that does not
    succeed leaves all of it alone; a successful read points at the view. *)

(** No existing object changes; new ones may appear. *)
Definition grows {S S'} (w : St S) (w' : St S') : Prop :=
  heap_wf w' /\ clock w <= clock w' /\ heap w ⊆ heap w'.

Lemma grows_trans {S1 S2 S3} (w1 : St S1) (w2 : St S2) (w3 : St S3) :
  grows w1 w2 -> grows w2 w3 -> grows w1 w3.
Proof. intros (? & ? & ?) (? & ? & ?). split_and!; [done|lia|by etrans]. Qed.

Section Frame.
Context {S : Type} (view : S -> KeyID -> Z -> option Key) (inv : S -> Prop).

Definition frame {A} (touched : KeyID -> Prop) (m : M (St S) A) : Prop :=
  forall w r w', heap_wf w -> inv (repo w) -> m w = (r, w') ->
    grows w w' /\ inv (repo w')
    /\ (forall id v, touched id \/ view (repo w') id v = view (repo w) id v)
    /\ (is_ok r = false -> forall id v, view (repo w') id v = view (repo w) id v).

Definition untouched (id : KeyID) : Prop := False.

Definition points_to_view (w : St S) (id : KeyID) (v : Z) (r : res loc) (w' : St S) : Prop :=
  forall l, r = Ok l ->
    exists k, heap w' !! l = Some k /\ ID k = id /\ view (repo w) id v = Some k.
End Frame.

Class RepoLaws (S : Type) `{KeyRepository S} := {
  view : S -> KeyID -> Z -> option Key;
  repo_inv : S -> Prop;
  law_GetKey id : frame view repo_inv untouched (GetKey id);
  law_GetKey_view id w r w' :
    repo_inv (repo w) -> GetKey id w = (r, w') -> points_to_view view w id 0 r w';
  law_GetKeyByVersion id v : frame view repo_inv untouched (GetKeyByVersion id v);
  law_GetKeyByVersion_view id v w r w' :
    repo_inv (repo w) -> GetKeyByVersion id v w = (r, w') -> points_to_view view w id v r w';
  law_GetKeyByVersion_positive id v w r w' :
    GetKeyByVersion id v w = (r, w') -> is_ok r = true -> 0 < v;
  law_GetKeyMetadata id : frame view repo_inv untouched (GetKeyMetadata id);
  law_GetKeyMetadataByVersion id v : frame view repo_inv untouched (GetKeyMetadataByVersion id v);
  law_CreateKey k : frame view repo_inv (λ id, exists k', k = Some k' /\ ID k' = id) (CreateKey k);
  law_CreateKey_nil w : is_ok (fst (CreateKey None w)) = false;
  law_CreateBatchKeys ks : frame view repo_inv (λ id, exists k, k ∈ ks /\ ID k = id) (CreateBatchKeys ks);
  law_ListKeys c n : frame view repo_inv untouched (ListKeys c n);
  law_UpdateKeyMetadata id m : frame view repo_inv (λ i, i = id) (UpdateKeyMetadata id m);
  law_RotateKey id d : frame view repo_inv (λ i, i = id) (RotateKey id d);
  law_RevokeKey id : frame view repo_inv (λ i, i = id) (RevokeKey id);
  law_GetKeyVersions id : frame view repo_inv untouched (GetKeyVersions id);
  law_Exists id : frame view repo_inv untouched (Exists_ id);
  law_GetBatchKeys ids : frame view repo_inv untouched (GetBatchKeys ids);
  law_GetBatchKeyMetadata ids : frame view repo_inv untouched (GetBatchKeyMetadata ids);
  law_RevokeBatchKeys ids : frame view repo_inv (λ i, i ∈ ids) (RevokeBatchKeys ids);
  law_UpdateBatchKeyMetadata ls w r w' :
    heap_wf w -> repo_inv (repo w) -> UpdateBatchKeyMetadata ls w = (r, w') ->
    grows w w' /\ repo_inv (repo w')
    /\ (forall id v, (exists l k, l ∈ ls /\ heap w !! l = Some k /\ ID k = id)
          \/ view (repo w') id v = view (repo w) id v)
    /\ (is_ok r = false -> forall id v, view (repo w') id v = view (repo w) id v)
}.
