(* ===== verification/Psql.v ===== *)
(** * The PostgreSQL key repository

    Models [internal/infra/persistence/psql_adapter.go] with [scanner.go],
    [transaction_manager.go], [postgres_base.go], [query_optimizer.go], the
    advisory lock of [pkg/postgres/client.go] and the SQL texts of
    [internal/constants/queries.go] over the table of
    [migrations/001_*.up.sql].

    The table is the list of its rows.  Each statement sent to the driver
    first takes the next element of [faults]: [Some e] means that the driver
    returned [e] (connection loss, the [context.WithTimeout] deadline, a
    serialization failure, ..) and the statement had no effect; when the list
    is empty statements succeed. *)

From S2P Require Import Prelude Errors Domain Repo.

(** ** Rows *)

(** A JSONB value, known by what [json.Unmarshal] makes of it: a metadata
    message, [null], or a document it refuses; the last carries what
    [->>'version'] reads from it. *)
Inductive jsonb : Type :=
| JsonOf (m : KeyMetadata)
| JsonNull
| JsonBad (e : error) (version : option Z).

Record Row := mkRow {
  row_id : KeyID;
  row_version : Z;
  row_metadata : jsonb;
  row_dek : bytes;
  row_status : string;
  row_storage_type : string;
  row_created_at : Z;
  row_updated_at : Z;
  row_revoked_at : option Z
}.

(** TIMESTAMPTZ has microsecond resolution. *)
Definition pg_ts (t : Z) : Z := t / 1000 * 1000.

(** [MarshalWithBuffer] of [query_optimizer.go]: [json.Marshal] into a fresh
    slice.  A nil message marshals to [null]. *)
Definition MarshalWithBuffer (m : option KeyMetadata) : jsonb :=
  match m with Some m => JsonOf m | None => JsonNull end.

(** [metadata->>'version'] cast to int: the field is [omitempty], so a zero
    version is absent. *)
Definition json_version (j : jsonb) : option Z :=
  match j with
  | JsonOf m => if mdVersion m =? 0 then None else Some (mdVersion m)
  | JsonNull => None
  | JsonBad _ v => v
  end.

(** [jsonb_set(metadata, '{version}', ..)] *)
Definition json_set_version (v : Z) (j : jsonb) : jsonb :=
  match j with
  | JsonOf m => JsonOf (set_mdVersion v m)
  | JsonNull => JsonNull
  | JsonBad e _ => JsonBad e (Some v)
  end.

Record PSQLAdapter := mkPSQL {
  DB : list Row;
  faults : list (option error);
  locks : list Z;  (* advisory locks held by other sessions *)
  rand : list Z    (* the next draws of math/rand *)
}.

Definition set_DB (t : list Row) (a : PSQLAdapter) : PSQLAdapter :=
  mkPSQL t (faults a) (locks a) (rand a).

Definition set_faults (fs : list (option error)) (a : PSQLAdapter) : PSQLAdapter :=
  mkPSQL (DB a) fs (locks a) (rand a).

Abbreviation W := (St PSQLAdapter).

(** Send one statement: it fails with the driver's error, or runs on the
    table, where it may still fail (constraint violation) without effect. *)
Definition db_stmt {A} (f : list Row -> res A * list Row) : M W A := λ w,
  let a := repo w in
  match faults a with
  | Some e :: fs => (Err e, set_repo (set_faults fs a) w)
  | fs =>
      let '(r, t) := f (DB a) in
      (r, set_repo (set_faults (tl fs) (set_DB (match r with Ok _ => t | _ => DB a end) a)) w)
  end.

Definition db_query {A} (f : list Row -> A) : M W A := db_stmt (λ t, (Ok (f t), t)).

(** [rows, err := db.Query(..)] and the loop over [rows.Next()] up to the
    check of [rows.Err()]: sending the statement may fail, and so may its
    execution while rows are read, with the two messages given. *)
Definition db_rows {A} (query iterating : string) (f : list Row -> res A * list Row) : M W A :=
  _ ← on_err (Wrap query) (db_query (λ _, tt));
  on_err (Wrap iterating) (db_stmt f).

(** ** SQL: internal/constants/queries.go *)

Definition has_id (id : KeyID) (r : Row) : bool := bool_decide (row_id r = id).

Definition rows_of (id : KeyID) (t : list Row) : list Row := List.filter (has_id id) t.

(** [SELECT MAX(version) FROM keys WHERE id = $n] *)
Definition max_version (id : KeyID) (t : list Row) : option Z :=
  foldr (λ r acc, match acc with
                  | None => Some (row_version r)
                  | Some v => Some (Z.max (row_version r) v)
                  end) None (rows_of id t).

Definition version_desc (r1 r2 : Row) : Prop := row_version r2 <= row_version r1.
#[export] Instance version_desc_dec r1 r2 : Decision (version_desc r1 r2).
Proof. unfold version_desc. apply _. Defined.

(** [.. WHERE id = $1 ORDER BY version DESC] *)
Definition StmtGetVersions (id : KeyID) (t : list Row) : list Row :=
  merge_sort version_desc (rows_of id t).

(** [.. ORDER BY version DESC LIMIT 1] *)
Definition StmtGetLatestKey (id : KeyID) (t : list Row) : option Row :=
  head (StmtGetVersions id t).

Definition StmtGetKeyByVersion (id : KeyID) (version : Z) (t : list Row) : option Row :=
  List.find (λ r, has_id id r && (row_version r =? version)) t.

Definition is_latest (id : KeyID) (t : list Row) (r : Row) : bool :=
  has_id id r && bool_decide (max_version id t = Some (row_version r)).

(** Run an UPDATE: the new table and the number of rows affected. *)
Definition sql_update (cond : Row -> bool) (f : Row -> Row) (t : list Row) : res Z * list Row :=
  (Ok (Z.of_nat (length (List.filter cond t))), map (λ r, if cond r then f r else r) t).

Definition upd_metadata (m : jsonb) (ts : Z) (r : Row) : Row :=
  mkRow (row_id r) (row_version r) m (row_dek r) (row_status r) (row_storage_type r)
    (row_created_at r) (pg_ts ts) (row_revoked_at r).

Definition StmtUpdateMetadata (m : jsonb) (ts : Z) (id : KeyID) (t : list Row)
  : res Z * list Row :=
  sql_update (is_latest id t) (upd_metadata m ts) t.

Definition upd_revoked (status : string) (ts : Z) (r : Row) : Row :=
  mkRow (row_id r) (row_version r) (row_metadata r) (row_dek r) status (row_storage_type r)
    (row_created_at r) (row_updated_at r) (Some (pg_ts ts)).

Definition StmtRevokeKey (status : string) (ts : Z) (id : KeyID) (t : list Row)
  : res Z * list Row :=
  sql_update (has_id id) (upd_revoked status ts) t.

Definition StmtRevokeBatchKeys (status : string) (ts : Z) (ids : list KeyID) (t : list Row)
  : res Z * list Row :=
  sql_update (λ r, contains ids (row_id r)) (upd_revoked status ts) t.

Definition StmtCheckExists (id : KeyID) (t : list Row) : bool := existsb (has_id id) t.

Definition id_version_desc (r1 r2 : Row) : Prop :=
  uuid_bits (value (row_id r1)) < uuid_bits (value (row_id r2))
  \/ (row_id r1 = row_id r2 /\ row_version r2 <= row_version r1).
#[export] Instance id_version_desc_dec r1 r2 : Decision (id_version_desc r1 r2).
Proof. unfold id_version_desc. apply _. Defined.

(** [WHERE id = ANY($1) ORDER BY id, version DESC] *)
Definition StmtGetBatchKeys (ids : list KeyID) (t : list Row) : list Row :=
  merge_sort id_version_desc (List.filter (λ r, contains ids (row_id r)) t).

(** The [latest_keys] CTE: [DISTINCT ON (id) .. ORDER BY id, version DESC]. *)
Fixpoint distinct_on_id (last : option KeyID) (rs : list Row) : list Row :=
  match rs with
  | [] => []
  | r :: rs' =>
      if bool_decide (last = Some (row_id r)) then distinct_on_id last rs'
      else r :: distinct_on_id (Some (row_id r)) rs'
  end.

Definition latest_keys (t : list Row) : list Row :=
  distinct_on_id None (merge_sort id_version_desc t).

Definition created_desc (r1 r2 : Row) : Prop := row_created_at r2 <= row_created_at r1.
#[export] Instance created_desc_dec r1 r2 : Decision (created_desc r1 r2).
Proof. unfold created_desc. apply _. Defined.

Definition before_cursor (cursor : option Z) (r : Row) : bool :=
  match cursor with None => true | Some c => row_created_at r <? pg_ts c end.

(** [StmtListKeys].  The order among equal [created_at] is PostgreSQL's to
    choose: [list_keys_result] says which answers are right, [StmtListKeys]
    computes one. *)
Definition list_keys_result (cursor : option Z) (limit : Z) (t : list Row) (rs : list Row) : Prop :=
  exists all, Permutation all (List.filter (before_cursor cursor) (latest_keys t))
    /\ Sorted created_desc all /\ rs = take (Z.to_nat limit) all.

Definition StmtListKeys (cursor : option Z) (limit : Z) (t : list Row) : res (list Row) * list Row :=
  if limit <? 0 then (Err (PgError "2201W" "LIMIT must not be negative"), t)
  else (Ok (take (Z.to_nat limit)
          (merge_sort created_desc (List.filter (before_cursor cursor) (latest_keys t)))), t).

(** COPY into [keys]: all rows or, on a primary-key clash, none. *)
Definition same_pk (r1 r2 : Row) : bool :=
  bool_decide (row_id r1 = row_id r2) && (row_version r1 =? row_version r2).

Fixpoint pk_clash (new : list Row) (t : list Row) : bool :=
  match new with
  | [] => false
  | r :: new' => existsb (same_pk r) t || pk_clash new' (t ++ [r])
  end.

Definition CopyFrom (new : list Row) (t : list Row) : res unit * list Row :=
  if pk_clash new t
  then (Err (PgError "23505" "duplicate key value violates unique constraint"), t)
  else (Ok tt, t ++ new).

(** The rotation statement: the CTE [old_key] marks the latest row, [new_key]
    inserts its successor, whose version is computed from the metadata. *)
Definition upd_rotated (status : string) (ts : Z) (r : Row) : Row :=
  mkRow (row_id r) (row_version r) (row_metadata r) (row_dek r) status (row_storage_type r)
    (row_created_at r) (pg_ts ts) (row_revoked_at r).

Definition rotateQuery (rotated : string) (id : KeyID) (dek : bytes) (active : string) (ts : Z)
    (t : list Row) : res (option Row) * list Row :=
  match List.find (is_latest id t) t with
  | None => (Ok None, t)
  | Some old =>
      let t1 := map (λ r, if is_latest id t r then upd_rotated rotated ts r else r) t in
      match json_version (row_metadata old) with
      | None => (Err (PgError "23502" "null value in column violates not-null constraint"), t)
      | Some v =>
          if int32_max <? v + 1 then (Err (PgError "22003" "integer out of range"), t)
          else
            let new := mkRow (row_id old) (v + 1) (json_set_version (v + 1) (row_metadata old)) dek
                         active (row_storage_type old) (pg_ts ts) (pg_ts ts) None in
            if existsb (same_pk new) t1
            then (Err (PgError "23505" "duplicate key value violates unique constraint"), t)
            else (Ok (Some new), t1 ++ [new])
      end
  end.

(** ** scanner.go *)

Definition row_or_none {A} (r : option A) : res A :=
  match r with Some a => Ok a | None => Err (Sentinel PgxErrNoRows) end.

(** [json.Unmarshal(raw, &key.Metadata)]: the target is a pointer, which
    [null] sets to nil. *)
Definition unmarshal_ptr (j : jsonb) : res (option KeyMetadata) :=
  match j with JsonOf m => Ok (Some m) | JsonNull => Ok None | JsonBad e _ => Err e end.

(** [json.Unmarshal(raw, &metadata)]: the target is a struct, which [null]
    leaves zero. *)
Definition unmarshal_struct (j : jsonb) : res KeyMetadata :=
  match j with JsonOf m => Ok m | JsonNull => Ok zeroMetadata | JsonBad e _ => Err e end.

(** [row.Scan]: what the driver reads, or [pgx.ErrNoRows]. *)
Definition scan_row (r : option Row) : res Row := map_err (Wrap "failed to scan key row") (row_or_none r).

Definition key_of_row (id : KeyID) (r : Row) (m : option KeyMetadata) : Key :=
  mkKey id (row_version r) m (row_dek r) (row_status r) None (row_created_at r) (row_updated_at r)
    (row_revoked_at r).

Section Scanner.
Context `{UuidPkg}.

Definition ScanKeyRow (r : Row) : res Key :=
  m ← map_err (Wrap "failed to unmarshal metadata") (unmarshal_ptr (row_metadata r));
  Ok (key_of_row KeyID_zero r m).

Definition ScanKeyRowWithID (r : Row) : res Key :=
  id ← map_err (Wrap "failed to create key id from uuid string")
         (KeyIDFromString (uuid_String (value (row_id r))));
  m ← map_err (Wrap ("failed to unmarshal metadata for key " +:+ KeyID_String id))
        (unmarshal_ptr (row_metadata r));
  Ok (key_of_row id r m).

(** The rows a loop [key, err := Scan(rows); if err != nil { continue }] keeps. *)
Definition scan_all (scan : Row -> res Key) (rs : list Row) : list Key :=
  omap (λ r, match scan r with Ok k => Some k | _ => None end) rs.

End Scanner.

(** ** postgres_base.go and pkg/postgres/client.go: the advisory lock *)

(** [fnv.New64a]: xor the byte, then multiply by the prime, in 64 bits. *)
Definition fnv_prime : Z := 1099511628211.
Definition fnv_offset : Z := 14695981039346656037.

Fixpoint fnv64a (s : string) (h : Z) : Z :=
  match s with
  | EmptyString => h
  | String a s' => fnv64a s' (Z.lxor h (Z.of_N (Ascii.N_of_ascii a)) * fnv_prime `mod` 2^64)
  end.

Definition GetLockID `{UuidPkg} (id : KeyID) : Z := wrap64 (fnv64a (KeyID_String id) fnv_offset).

(** [pg_try_advisory_xact_lock]: false when another session holds the lock. *)
Definition TryAcquireLock (lockID : Z) : M W bool :=
  on_err (Wrap "failed to acquire advisory lock")
    (a ← gets repo; db_query (λ _, negb (contains (locks a) lockID))).

(** ** transaction_manager.go *)

Definition maxRetries : nat := 5.
Definition baseDelay : Z := 10 * Millisecond.
Definition maxDelay : Z := 250 * Millisecond.

Definition rand_Intn (n : Z) : M W Z := λ w,
  let a := repo w in
  (Ok (hd 0 (rand a) `mod` n), set_repo (mkPSQL (DB a) (faults a) (locks a) (tl (rand a))) w).

Definition backoff (i : nat) : Z := Z.min (baseDelay * Z.shiftl 1 (Z.of_nat i)) maxDelay.

Definition serialization_failure (e : error) : bool :=
  bool_decide (AsPgCode e = Some "40001"%string).

(** [tx.Rollback]: the table is again what it was when the transaction began. *)
Definition Rollback (snapshot : list Row) : M W unit :=
  modify (λ w, set_repo (set_DB snapshot (repo w)) w).

Section Transaction.
Context {A : Type}.

(** What one pass through the body of the loop does: return, or go on with
    [err] set. *)
Inductive attempt : Type := Return (r : res A) | Retry (err : error).

Definition commit_or_fail (r : A + error) : M W (res A + error) :=
  match r with
  | inr e => mret (inr e)
  | inl a =>
      c ← try_ (db_query (λ _, tt));
      mret (match c with
            | inl _ => inl (Ok a)
            | inr e => if serialization_failure e then inr e
                       else inl (Err (Wrap "failed to commit transaction" e))
            end)
  end.

Definition tx_attempt (i : nat) (fn : M W A) : M W attempt :=
  b ← try_ (db_query (λ _, tt));
  match b with
  | inr e => mret (Return (Err (Wrap "failed to begin transaction" e)))
  | inl _ =>
      snapshot ← gets (λ w, DB (repo w));
      r ← try_ fn;
      c ← commit_or_fail r;
      match c with
      | inl (Ok a) => mret (Return (Ok a))
      | inl bad => _ ← Rollback snapshot; mret (Return bad)
      | inr err =>
          _ ← Rollback snapshot;
          if serialization_failure err
          then
            jitter ← rand_Intn (backoff i / 10);
            _ ← sleep (backoff i + jitter);
            mret (Retry err)
          else mret (Return (Err (Wrap "transaction failed" err)))
      end
  end.

(** [todo] passes are left of the [maxRetries] of the loop; [err] is the error
    of the last one. *)
Fixpoint tx_loop (todo : nat) (err : error) (fn : M W A) : M W A :=
  match todo with
  | O => fail (Wrap "transaction failed after 5 retries" err)
  | S todo' =>
      a ← tx_attempt (maxRetries - todo) fn;
      match a with
      | Return r => lift_res r
      | Retry err' => tx_loop todo' err' fn
      end
  end.

Definition ExecuteInTransaction (fn : M W A) : M W A := tx_loop maxRetries (ErrorsNew "") fn.

End Transaction.
Arguments attempt : clear implicits.

(** ** psql_adapter.go *)

Module Adapter.
Section Ops.
Context `{UuidPkg}.

Definition not_found_or (msg : string) (e : error) : error :=
  if Is e PgxErrNoRows then Sentinel PsqlErrKeyNotFound else Wrap msg e.

(** A single-row query, scanned. *)
Definition query_key (q : list Row -> option Row) : M W Key :=
  r ← db_query q; r ← lift_res (scan_row r); lift_res (ScanKeyRow r).

Definition GetKey (id : KeyID) : M W loc :=
  key ← on_err (not_found_or ("failed to get key " +:+ KeyID_String id))
          (query_key (StmtGetLatestKey id));
  alloc (set_ID id key).

Definition GetKeyByVersion (id : KeyID) (version : Z) : M W loc :=
  if version <=? 0 then fail (Sentinel PsqlErrInvalidVersion)
  else
    key ← on_err (not_found_or ("failed to get key " +:+ KeyID_String id +:+ " version " +:+ pretty version))
            (query_key (StmtGetKeyByVersion id version));
    alloc (set_Version version (set_ID id key)).

(** A single-row query for [metadata], scanned and unmarshalled. *)
Definition query_metadata (msg : string) (q : list Row -> option Row) : M W (option KeyMetadata) :=
  r ← on_err (not_found_or msg) (r ← db_query q; lift_res (row_or_none r));
  m ← lift_res (map_err (Wrap "failed to unmarshal metadata") (unmarshal_struct (row_metadata r)));
  mret (Some m).

Definition GetKeyMetadata (id : KeyID) : M W (option KeyMetadata) :=
  query_metadata ("failed to get key metadata for " +:+ KeyID_String id) (StmtGetLatestKey id).

Definition GetKeyMetadataByVersion (id : KeyID) (version : Z) : M W (option KeyMetadata) :=
  if version <=? 0 then fail (Sentinel PsqlErrInvalidVersion)
  else query_metadata
         ("failed to get key metadata for " +:+ KeyID_String id +:+ " version " +:+ pretty version)
         (StmtGetKeyByVersion id version).

(** The row a key is copied into; [revoked_at] is not among the columns. *)
Definition row_of_key (key : Key) : Row :=
  mkRow (ID key) (Version key) (MarshalWithBuffer (Metadata key)) (EncryptedDEK key) (Status key)
    (getStorageTypeOptimized (md_get StorageType (Metadata key)))
    (pg_ts (CreatedAt key)) (pg_ts (UpdatedAt key)) None.

Definition already_exists_or (msg : string) (e : error) : error :=
  if bool_decide (AsPgCode e = Some "23505"%string) then Sentinel PsqlErrKeyAlreadyExists
  else Wrap msg e.

Definition CreateKey (key : option Key) : M W unit :=
  match key with
  | None => fail (ErrorsNew "key cannot be nil")
  | Some key =>
    match Metadata key with
    | None => fail (ErrorsNew "key metadata cannot be nil")
    | Some _ =>
      if bool_decide (EncryptedDEK key = []) then fail (ErrorsNew "encrypted DEK cannot be empty")
      else on_err (already_exists_or ("failed to create key " +:+ KeyID_String (ID key)))
             (db_stmt (CopyFrom [row_of_key key]))
    end
  end.

Definition CreateBatchKeys (keys : list Key) : M W unit :=
  match keys with
  | [] => mret tt
  | _ => on_err (already_exists_or "failed to create keys in batch")
           (db_stmt (CopyFrom (map row_of_key keys)))
  end.

Definition ListKeys (lastCreatedAt : option Z) (limit : Z) : M W (list loc) :=
  rs ← db_rows "failed to query keys" "error iterating over rows" (StmtListKeys lastCreatedAt limit);
  alloc_all (scan_all ScanKeyRowWithID rs).

Definition UpdateKeyMetadata (id : KeyID) (metadata : option KeyMetadata) : M W unit :=
  match metadata with
  | None => fail (ErrorsNew "metadata cannot be nil")
  | Some _ =>
      now ← time_now;
      n ← on_err (Wrap ("failed to update key metadata " +:+ KeyID_String id))
            (db_stmt (StmtUpdateMetadata (MarshalWithBuffer metadata) now id));
      if n =? 0 then fail (Sentinel PsqlErrKeyNotFound) else mret tt
  end.

Definition rotateKeyInTx (id : KeyID) (newEncryptedDEK : bytes) : M W loc :=
  locked ← TryAcquireLock (GetLockID id);
  if negb locked then fail (Sentinel ErrKeyRotationLocked)
  else
    now ← time_now;
    key ← on_err (not_found_or ("failed to rotate key " +:+ KeyID_String id))
            (r ← db_stmt (rotateQuery KeyStatusRotated id newEncryptedDEK KeyStatusActive now);
             r ← lift_res (scan_row r); lift_res (ScanKeyRowWithID r));
    alloc key.

Definition RotateKey (id : KeyID) (newEncryptedDEK : bytes) : M W loc :=
  if bool_decide (newEncryptedDEK = []) then fail (ErrorsNew "new encrypted DEK cannot be empty")
  else ExecuteInTransaction (rotateKeyInTx id newEncryptedDEK).

Definition RevokeKey (id : KeyID) : M W unit :=
  now ← time_now;
  n ← on_err (Wrap ("failed to revoke key " +:+ KeyID_String id))
        (db_stmt (StmtRevokeKey KeyStatusRevoked now id));
  if n =? 0 then fail (Sentinel PsqlErrKeyNotFound) else mret tt.

Definition GetKeyVersions (id : KeyID) : M W (list loc) :=
  rs ← db_rows "failed to query key versions" "error iterating over key versions"
         (λ t, (Ok (StmtGetVersions id t), t));
  alloc_all (map (set_ID id) (scan_all ScanKeyRow rs)).

Definition Exists_ (id : KeyID) : M W bool :=
  on_err (Wrap ("failed to check key existence " +:+ KeyID_String id)) (db_query (StmtCheckExists id)).

Definition GetBatchKeys (ids : list KeyID) : M W (list loc) :=
  match ids with
  | [] => mret []
  | _ =>
      rs ← db_rows "failed to get batch keys" "error iterating over batch key rows"
             (λ t, (Ok (StmtGetBatchKeys ids t), t));
      alloc_all (scan_all ScanKeyRowWithID rs)
  end.

Definition GetBatchKeyMetadata (ids : list KeyID) : M W (list KeyMetadata) :=
  match ids with
  | [] => mret []
  | _ =>
      rs ← db_rows "failed to get batch key metadata" "error iterating over batch key metadata rows"
             (λ t, (Ok (StmtGetBatchKeys ids t), t));
      mret (omap (λ r, match unmarshal_struct (row_metadata r) with Ok m => Some m | _ => None end) rs)
  end.

(** No row affected is logged, not an error. *)
Definition RevokeBatchKeys (ids : list KeyID) : M W unit :=
  match ids with
  | [] => mret tt
  | _ =>
      now ← time_now;
      _ ← on_err (Wrap "failed to revoke batch keys")
            (db_stmt (StmtRevokeBatchKeys KeyStatusRevoked now ids));
      mret tt
  end.

(** The first loop: every key must have metadata, or nothing is sent. *)
Fixpoint queue_updates (updates : list Key) : res (list (jsonb * KeyID)) :=
  match updates with
  | [] => Ok []
  | key :: updates' =>
      match Metadata key with
      | None => Err (ErrorsNew "key metadata cannot be nil for batch update")
      | Some _ => q ← queue_updates updates'; Ok ((MarshalWithBuffer (Metadata key), ID key) :: q)
      end
  end.

(** The second loop: [br.Exec()] per queued statement; the rows affected are
    not looked at. *)
Fixpoint exec_updates (now : Z) (batch : list (jsonb * KeyID)) : M W unit :=
  match batch with
  | [] => mret tt
  | (j, id) :: batch' => _ ← db_stmt (StmtUpdateMetadata j now id); exec_updates now batch'
  end.

(** A pgx batch is one implicit transaction: after an error nothing of it
    remains. *)
Definition UpdateBatchKeyMetadata (updates : list loc) : M W unit :=
  match updates with
  | [] => mret tt
  | _ =>
      keys ← deref_all updates;
      batch ← lift_res (queue_updates keys);
      now ← time_now;
      snapshot ← gets (λ w, DB (repo w));
      r ← try_ (exec_updates now batch);
      match r with
      | inl _ => mret tt
      | inr e => _ ← Rollback snapshot; fail (Wrap "failed to update key metadata in batch" e)
      end
  end.

End Ops.
End Adapter.

#[export] Instance PSQLRepository `{UuidPkg} : KeyRepository PSQLAdapter := {|
  Repo.GetKey := Adapter.GetKey;
  Repo.GetKeyByVersion := Adapter.GetKeyByVersion;
  Repo.GetKeyMetadata := Adapter.GetKeyMetadata;
  Repo.GetKeyMetadataByVersion := Adapter.GetKeyMetadataByVersion;
  Repo.CreateKey := Adapter.CreateKey;
  Repo.CreateBatchKeys := Adapter.CreateBatchKeys;
  Repo.ListKeys := Adapter.ListKeys;
  Repo.UpdateKeyMetadata := Adapter.UpdateKeyMetadata;
  Repo.RotateKey := Adapter.RotateKey;
  Repo.RevokeKey := Adapter.RevokeKey;
  Repo.GetKeyVersions := Adapter.GetKeyVersions;
  Repo.Exists_ := Adapter.Exists_;
  Repo.GetBatchKeys := Adapter.GetBatchKeys;
  Repo.GetBatchKeyMetadata := Adapter.GetBatchKeyMetadata;
  Repo.RevokeBatchKeys := Adapter.RevokeBatchKeys;
  Repo.UpdateBatchKeyMetadata := Adapter.UpdateBatchKeyMetadata
|}.
