(* ===== verification/PsqlSpec.v ===== *)
(** * What the PostgreSQL repository promises

    The abstract view of the table of [Psql.v] is a function from a key id and
    a version to a row.  Every writing operation of the adapter is a step of
    that store or leaves it alone; primary keys stay unique; rotation is
    atomic and bounded; reads return what was written. *)

From S2P Require Import Prelude Errors Domain Repo Psql.

(** ** The abstract store *)

Definition Store : Type := KeyID -> Z -> option Row.

Definition abs (t : list Row) : Store := λ id v, StmtGetKeyByVersion id v t.

Arguments abs : simpl never.

Definition st (w : W) : Store := abs (DB (repo w)).

(** PRIMARY KEY (id, version) *)
Definition pk (r : Row) : KeyID * Z := (row_id r, row_version r).
Definition pk_ok (t : list Row) : Prop := NoDup (map pk t).

Definition present (s : Store) (id : KeyID) : Prop := exists v, is_Some (s id v).

Definition latest (s : Store) (id : KeyID) (v : Z) : Prop :=
  is_Some (s id v) /\ forall v', is_Some (s id v') -> v' <= v.

(** Two stores agree everywhere. *)
#[export] Instance Store_equiv : Equiv Store := λ s s', forall id v, s id v = s' id v.

Definition s_insert (r : Row) (s : Store) : Store := λ id v,
  if decide (pk r = (id, v)) then Some r else s id v.

Definition s_alter (P : KeyID -> Z -> bool) (f : Row -> Row) (s : Store) : Store := λ id v,
  if P id v then f <$> s id v else s id v.

Definition only (id : KeyID) (v : Z) : KeyID -> Z -> bool := λ i v', bool_decide ((i, v') = (id, v)).

(** What one queued metadata update does; an absent id is skipped. *)
Inductive s_update (ts : Z) (id : KeyID) (j : jsonb) (s : Store) : Store -> Prop :=
| S_update_hit v s' : latest s id v ->
    s' ≡ s_alter (only id v) (upd_metadata j ts) s -> s_update ts id j s s'
| S_update_miss s' : ~ present s id -> s' ≡ s -> s_update ts id j s s'.

Inductive s_updates (ts : Z) : list Key -> Store -> Store -> Prop :=
| S_updates_nil s s' : s' ≡ s -> s_updates ts [] s s'
| S_updates_cons k ks m s s1 s' : Metadata k = Some m ->
    s_update ts (ID k) (JsonOf m) s s1 -> s_updates ts ks s1 s' -> s_updates ts (k :: ks) s s'.

Inductive write_op : Type :=
| WCreate (key : option Key)
| WCreateBatch (keys : list Key)
| WUpdate (id : KeyID) (metadata : option KeyMetadata)
| WRotate (id : KeyID) (dek : bytes)
| WRevoke (id : KeyID)
| WRevokeBatch (ids : list KeyID)
| WUpdateBatch (updates : list loc).

(** The adapter's writing methods, their results forgotten. *)
Definition run_op `{UuidPkg} (o : write_op) : M W unit :=
  match o with
  | WCreate key => Adapter.CreateKey key
  | WCreateBatch keys => Adapter.CreateBatchKeys keys
  | WUpdate id m => Adapter.UpdateKeyMetadata id m
  | WRotate id dek => _ ← Adapter.RotateKey id dek; mret tt
  | WRevoke id => Adapter.RevokeKey id
  | WRevokeBatch ids => Adapter.RevokeBatchKeys ids
  | WUpdateBatch ls => Adapter.UpdateBatchKeyMetadata ls
  end.

(** The successor rotation inserts. *)
Definition successor (old : Row) (n : Z) (dek : bytes) (ts : Z) : Row :=
  mkRow (row_id old) (n + 1) (json_set_version (n + 1) (row_metadata old)) dek
    KeyStatusActive (row_storage_type old) (pg_ts ts) (pg_ts ts) None.

Section Spec.
Context `{UuidPkg}.

(** Successful steps of the store, at time [ts], the heap giving the keys a
    batch update points to. *)
Inductive store_step (ts : Z) (h : gmap loc Key) (s : Store) : write_op -> Store -> Prop :=
| S_create k s' : is_Some (Metadata k) -> EncryptedDEK k <> [] ->
    s (ID k) (Version k) = None -> s' ≡ s_insert (Adapter.row_of_key k) s ->
    store_step ts h s (WCreate (Some k)) s'
| S_create_batch ks s' : (forall k, k ∈ ks -> s (ID k) (Version k) = None) ->
    NoDup (map (λ k, (ID k, Version k)) ks) ->
    s' ≡ foldr s_insert s (map Adapter.row_of_key ks) ->
    store_step ts h s (WCreateBatch ks) s'
| S_update_key id m v s' : latest s id v ->
    s' ≡ s_alter (only id v) (upd_metadata (JsonOf m) ts) s ->
    store_step ts h s (WUpdate id (Some m)) s'
| S_rotate id dek v old n s' : dek <> [] -> latest s id v -> s id v = Some old ->
    json_version (row_metadata old) = Some n -> n < int32_max -> s id (n + 1) = None ->
    s' ≡ s_insert (successor old n dek ts)
           (s_alter (only id v) (upd_rotated KeyStatusRotated ts) s) ->
    store_step ts h s (WRotate id dek) s'
| S_revoke id s' : present s id ->
    s' ≡ s_alter (λ i _, bool_decide (i = id)) (upd_revoked KeyStatusRevoked ts) s ->
    store_step ts h s (WRevoke id) s'
| S_revoke_batch ids s' :
    s' ≡ s_alter (λ i _, contains ids i) (upd_revoked KeyStatusRevoked ts) s ->
    store_step ts h s (WRevokeBatch ids) s'
| S_update_batch ls ks s' : mapM (λ l, h !! l) ls = Some ks -> s_updates ts ks s s' ->
    store_step ts h s (WUpdateBatch ls) s'.

End Spec.

#[export] Instance Store_equivalence : Equivalence (≡@{Store}).
Proof.
  split; [by intros s id v | by intros s s' E id v; rewrite (E id v)
         | by intros s1 s2 s3 E1 E2 id v; rewrite (E1 id v)].
Qed.

(** ** The table and its view *)

Lemma abs_map (f : Row -> Row) t id v :
  (forall r, pk (f r) = pk r) -> abs (map f t) id v = f <$> abs t id v.
Proof.
  intros Hf. unfold abs, StmtGetKeyByVersion, has_id.
  induction t as [|r t IH]; [done|]; simpl. specialize (Hf r). unfold pk in Hf; simplify_eq.
  rewrite H, H0. by destruct (_ && _).
Qed.

Lemma abs_app t t' id v :
  abs (t ++ t') id v = match abs t id v with Some r => Some r | None => abs t' id v end.
Proof.
  unfold abs, StmtGetKeyByVersion. induction t as [|r t IH]; [done|]; simpl.
  by destruct (_ && _).
Qed.

Lemma abs_Some t id v r :
  abs t id v = Some r -> r ∈ t /\ pk r = (id, v).
Proof.
  unfold abs, StmtGetKeyByVersion, has_id. intros [Hin Hb]%List.find_some.
  bool_to_prop. split; [by apply list_elem_of_In|]. by unfold pk; subst.
Qed.

Lemma abs_elem t r : pk_ok t -> r ∈ t -> abs t (row_id r) (row_version r) = Some r.
Proof.
  unfold pk_ok. induction t as [|r' t IH]; intros Hnd Hin; [by apply elem_of_nil in Hin|].
  apply NoDup_cons in Hnd as [Hni Hnd]. apply elem_of_cons in Hin as [<-|Hin].
  - unfold abs, StmtGetKeyByVersion, has_id; simpl.
    by rewrite bool_decide_eq_true_2, Z.eqb_refl.
  - unfold abs, StmtGetKeyByVersion, has_id in *; simpl. destruct (_ && _) eqn:E; [|auto].
    exfalso. bool_to_prop. apply Hni. apply list_elem_of_fmap. exists r. by unfold pk; rewrite H, H0.
Qed.

Lemma abs_None t id v : abs t id v = None <-> (id, v) ∉ map pk t.
Proof.
  split.
  - intros Hn Hin%list_elem_of_fmap. destruct Hin as (r & E & Hin).
    unfold abs, StmtGetKeyByVersion, has_id, pk in *. simplify_eq.
    apply list_elem_of_In in Hin. pose proof (List.find_none _ _ Hn _ Hin) as Hf; simpl in Hf.
    by rewrite bool_decide_eq_true_2, Z.eqb_refl in Hf.
  - intros Hni. destruct (abs t id v) as [r|] eqn:E; [|done].
    apply abs_Some in E as [Hin Hpk]. exfalso. apply Hni, list_elem_of_fmap. by exists r.
Qed.

Lemma pk_ok_map (f : Row -> Row) t : (forall r, pk (f r) = pk r) -> pk_ok t -> pk_ok (map f t).
Proof.
  intros Hf. unfold pk_ok. rewrite List.map_map.
  by rewrite (List.map_ext _ _ Hf).
Qed.

Lemma abs_cons r t id v :
  abs (r :: t) id v = if decide (pk r = (id, v)) then Some r else abs t id v.
Proof.
  unfold abs, StmtGetKeyByVersion, has_id, pk; simpl.
  case_decide; simplify_eq.
  - by rewrite bool_decide_eq_true_2, Z.eqb_refl.
  - destruct (_ && _) eqn:E; [|done]. bool_to_prop. by subst.
Qed.

Lemma abs_single r id v : abs [r] id v = if decide (pk r = (id, v)) then Some r else None.
Proof. apply abs_cons. Qed.

Lemma abs_snoc t r : abs t (row_id r) (row_version r) = None ->
  abs (t ++ [r]) ≡ s_insert r (abs t).
Proof.
  intros Hn id v. rewrite abs_app, abs_single. unfold s_insert. unfold pk. case_decide; simplify_eq.
  - by rewrite Hn.
  - by destruct (abs t id v).
Qed.

Lemma pk_ok_snoc t r : pk_ok t -> abs t (row_id r) (row_version r) = None -> pk_ok (t ++ [r]).
Proof.
  unfold pk_ok. intros Hok Hn%abs_None. rewrite map_app. apply NoDup_app. split_and!; [done| |].
  - intros x Hx Hs. apply list_elem_of_singleton in Hs. by subst.
  - apply NoDup_singleton.
Qed.

(** ** MAX(version) *)

Lemma max_version_bound id t r :
  r ∈ t -> row_id r = id -> exists v, max_version id t = Some v /\ row_version r <= v.
Proof.
  unfold max_version, rows_of. intros Hin Hid.
  assert (r ∈ List.filter (has_id id) t) as Hf.
  { apply list_elem_of_In, List.filter_In. split; [by apply list_elem_of_In|].
    by apply bool_decide_eq_true_2. }
  clear Hin. induction (List.filter _ t) as [|r' l IH]; [by apply elem_of_nil in Hf|]; simpl.
  apply elem_of_cons in Hf as [<-|Hf].
  - destruct (foldr _ _ l); eexists; split; [done|lia|done|lia].
  - destruct (IH Hf) as (v & -> & Hv). eexists; split; [done|lia].
Qed.

Lemma max_version_attained id t v :
  max_version id t = Some v -> exists r, r ∈ t /\ row_id r = id /\ row_version r = v.
Proof.
  unfold max_version, rows_of.
  assert (forall r, r ∈ List.filter (has_id id) t -> r ∈ t /\ row_id r = id) as Hf.
  { intros r [Hin Hb]%list_elem_of_In%List.filter_In. unfold has_id in Hb. bool_to_prop.
    split; [by apply list_elem_of_In|done]. }
  revert v. induction (List.filter _ t) as [|r l IH]; [done|]; simpl.
  intros v Hv. assert (forall x, x ∈ l -> x ∈ t /\ row_id x = id) as Hl by (intros; apply Hf; set_solver).
  specialize (IH Hl). destruct (foldr _ _ l) as [v'|]; simplify_eq.
  - destruct (Z.max_spec (row_version r) v') as [[_ ->]|[_ ->]]; [by apply IH|].
    exists r. destruct (Hf r); [set_solver|done].
  - exists r. destruct (Hf r); [set_solver|done].
Qed.

Lemma max_version_latest id t v :
  pk_ok t -> max_version id t = Some v <-> latest (abs t) id v.
Proof.
  intros Hok. split.
  - intros Hm. destruct (max_version_attained _ _ _ Hm) as (r & Hin & <- & <-). split.
    + by rewrite (abs_elem t r).
    + intros v' [r' Hr']. apply abs_Some in Hr' as [Hin' Hpk]. unfold pk in Hpk; simplify_eq.
      destruct (max_version_bound (row_id r) t r' Hin' ltac:(done)) as (v & Hv & ?). by simplify_eq.
  - intros [[r Hr] Hmax]. apply abs_Some in Hr as [Hin Hpk]. unfold pk in Hpk; simplify_eq.
    destruct (max_version_bound (row_id r) t r Hin eq_refl) as (v & Hv & Hle). rewrite Hv. f_equal.
    destruct (max_version_attained _ _ _ Hv) as (r' & Hin' & E & <-).
    assert (row_version r' <= row_version r); [|lia]. apply Hmax. rewrite <-E. by rewrite (abs_elem t r').
Qed.

Lemma max_version_absent id t : max_version id t = None <-> ~ present (abs t) id.
Proof.
  split.
  - intros Hn (v & r & [Hin Hpk]%abs_Some). unfold pk in Hpk; simplify_eq.
    by destruct (max_version_bound (row_id r) t r Hin eq_refl) as (? & ? & ?); simplify_eq.
  - intros Hp. destruct (max_version id t) as [v|] eqn:E; [|done].
    destruct (max_version_attained _ _ _ E) as (r & Hin & <- & <-). exfalso. apply Hp.
    exists (row_version r). destruct (abs t _ _) eqn:E'; [done|].
    apply abs_None in E'. exfalso. apply E', list_elem_of_fmap. by exists r.
Qed.

Lemma latest_unique s id v v' : latest s id v -> latest s id v' -> v = v'.
Proof. intros [H1 H2] [H3 H4]. apply H2 in H3. apply H4 in H1. lia. Qed.

(** ** Statements as steps of the store *)

Lemma abs_update_where (c : Row -> bool) (P : KeyID -> Z -> bool) (f : Row -> Row) t :
  (forall r, pk (f r) = pk r) -> (forall r, r ∈ t -> c r = P (row_id r) (row_version r)) ->
  abs (map (λ r, if c r then f r else r) t) ≡ s_alter P f (abs t).
Proof.
  intros Hf Hc id v. rewrite abs_map by (intros r; destruct (c r); [apply Hf|done]).
  unfold s_alter. destruct (abs t id v) as [r|] eqn:E; simpl; [|by destruct (P id v)].
  apply abs_Some in E as [Hin Hpk]. rewrite (Hc r Hin). unfold pk in Hpk; simplify_eq.
  by destruct (P _ _).
Qed.

Lemma pk_ok_update_where (c : Row -> bool) (f : Row -> Row) t :
  (forall r, pk (f r) = pk r) -> pk_ok t -> pk_ok (map (λ r, if c r then f r else r) t).
Proof. intros Hf. apply pk_ok_map. intros r. destruct (c r); [apply Hf|done]. Qed.

Lemma is_latest_only id t v r :
  max_version id t = Some v -> is_latest id t r = only id v (row_id r) (row_version r).
Proof.
  intros Hv. unfold is_latest, only, has_id. rewrite Hv.
  destruct (decide (row_id r = id)) as [->|Hne].
  - rewrite bool_decide_eq_true_2 by done. simpl. apply bool_decide_ext. naive_solver.
  - rewrite (bool_decide_eq_false_2 (row_id r = id)) by done. symmetry.
    apply bool_decide_eq_false_2. naive_solver.
Qed.

Lemma is_latest_none id t r : max_version id t = None -> is_latest id t r = false.
Proof. unfold is_latest. intros ->. by destruct (has_id id r). Qed.

Lemma filter_length_0 {A} (c : A -> bool) l :
  length (List.filter c l) = 0%nat <-> forall x, x ∈ l -> c x = false.
Proof.
  induction l as [|a l IH]; simpl; [split; [intros _ x Hx; by apply elem_of_nil in Hx|done]|].
  destruct (c a) eqn:E; simpl.
  - split; [done|]. intros Hx. rewrite (Hx a) in E; [done|set_solver].
  - rewrite IH. split; [|intros Hx x ?; apply Hx; set_solver].
    intros Hx x [->|?]%elem_of_cons; auto.
Qed.

Lemma map_unchanged (c : Row -> bool) f t :
  (forall r, r ∈ t -> c r = false) -> map (λ r, if c r then f r else r) t = t.
Proof.
  induction t as [|r t IH]; intros Hc; [done|]; simpl.
  rewrite (Hc r) by set_solver. f_equal. apply IH. set_solver.
Qed.

Lemma update_metadata_step ts id j t n t' :
  pk_ok t -> StmtUpdateMetadata j ts id t = (n, t') ->
  pk_ok t' /\ s_update ts id j (abs t) (abs t')
  /\ (n = Ok 0 -> t' = t) /\ (n <> Ok 0 -> present (abs t) id).
Proof.
  unfold StmtUpdateMetadata, sql_update. intros Hok E. simplify_eq.
  split; [by apply pk_ok_update_where|].
  destruct (max_version id t) as [v|] eqn:Hm.
  - split; [|split].
    + eapply S_update_hit; [by apply max_version_latest|].
      apply abs_update_where; [done|]. intros. by apply is_latest_only.
    + intros E. simplify_eq. apply map_unchanged, filter_length_0. lia.
    + intros _. exists v. by apply max_version_latest.
  - assert (forall r, r ∈ t -> is_latest id t r = false) as Hl by (intros; by apply is_latest_none).
    rewrite (map_unchanged _ _ _ Hl). split_and!; [| done |].
    + by apply S_update_miss; [apply max_version_absent|].
    + intros Hne. exfalso. apply Hne. by rewrite (proj2 (filter_length_0 _ _) Hl).
Qed.

Lemma present_has_id t id : present (abs t) id <-> exists r, r ∈ t /\ has_id id r = true.
Proof.
  unfold has_id. setoid_rewrite bool_decide_eq_true. split.
  - intros (v & r & [Hin Hpk]%abs_Some). unfold pk in Hpk. exists r. naive_solver.
  - intros (r & Hin & <-). exists (row_version r).
    destruct (abs t (row_id r) (row_version r)) eqn:E; [done|].
    apply abs_None in E. exfalso. apply E, list_elem_of_fmap. by exists r.
Qed.

Lemma revoke_key_step ts id t n t' :
  pk_ok t -> StmtRevokeKey KeyStatusRevoked ts id t = (Ok n, t') ->
  pk_ok t' /\ abs t' ≡ s_alter (λ i _, bool_decide (i = id)) (upd_revoked KeyStatusRevoked ts) (abs t)
  /\ (n = 0 -> t' = t /\ ~ present (abs t) id) /\ (n <> 0 -> present (abs t) id).
Proof.
  unfold StmtRevokeKey, sql_update. intros Hok E. simplify_eq. split_and!.
  - by apply pk_ok_update_where.
  - by apply abs_update_where.
  - intros E. assert (forall r, r ∈ t -> has_id id r = false) as Hf by (apply filter_length_0; lia).
    split; [by apply map_unchanged|]. intros (r & Hin & Hr)%present_has_id. by rewrite Hf in Hr.
  - intros Hn. destruct (decide (Exists (λ r, has_id id r = true) t)) as [He|He].
    + apply Exists_exists in He. by apply present_has_id.
    + exfalso. apply Hn. rewrite (proj2 (filter_length_0 (has_id id) t)); [done|].
      intros r Hr. destruct (has_id id r) eqn:E; [|done]. exfalso. apply He, Exists_exists. by exists r.
Qed.

Lemma pk_clash_spec new t :
  pk_clash new t = false <->
  NoDup (map pk new) /\ forall r, r ∈ new -> abs t (row_id r) (row_version r) = None.
Proof.
  revert t. induction new as [|r new IH]; intros t; simpl.
  { split; [intros _; split; [constructor|intros r Hr; by apply elem_of_nil in Hr]|done]. }
  assert (existsb (same_pk r) t = false <-> abs t (row_id r) (row_version r) = None) as Hex.
  { rewrite abs_None, list_elem_of_fmap, <-not_true_iff_false, existsb_exists.
    apply not_iff_compat. unfold same_pk, pk.
    split; intros (r' & H1 & H2); exists r'.
    - bool_to_prop. split; [congruence|by apply list_elem_of_In].
    - injection H1 as E1 E2. rewrite E1, E2, bool_decide_eq_true_2, Z.eqb_refl by done.
      split; [by apply list_elem_of_In|done]. }
  rewrite orb_false_iff, IH, Hex, NoDup_cons.
  split.
  - intros (Hr & Hnd & Hn). split_and!; [|done|].
    + intros Hin%list_elem_of_fmap. destruct Hin as (r' & E & Hin'). specialize (Hn r' Hin').
      rewrite abs_app, abs_single in Hn. rewrite decide_True in Hn by (rewrite E; done).
      by destruct (abs t (row_id r') (row_version r')).
    + intros r' [->|Hin']%elem_of_cons; [done|]. specialize (Hn r' Hin'). rewrite abs_app in Hn.
      by destruct (abs t (row_id r') (row_version r')).
  - intros ((Hni & Hnd) & Hn). split_and!; [by apply Hn; left|done|].
    intros r' Hin'. rewrite abs_app, abs_single, Hn by (by right). case_decide as E; [|done].
    exfalso. apply Hni. rewrite E. apply list_elem_of_fmap. by exists r'.
Qed.

Lemma abs_insert_all new t :
  NoDup (map pk new) -> (forall r, r ∈ new -> abs t (row_id r) (row_version r) = None) ->
  abs (t ++ new) ≡ foldr s_insert (abs t) new.
Proof.
  intros Hnd Hn id v. rewrite abs_app. induction new as [|r new IH]; simpl.
  { by destruct (abs t id v). }
  apply NoDup_cons in Hnd as [Hni Hnd].
  unfold s_insert at 1. case_decide as E.
  - unfold pk in E; simplify_eq. rewrite (Hn r) by set_solver.
    by rewrite abs_cons, decide_True.
  - rewrite <-IH by set_solver. destruct (abs t id v); [done|].
    by rewrite abs_cons, decide_False.
Qed.

Lemma copy_from_step new t r t' :
  pk_ok t -> CopyFrom new t = (r, t') ->
  pk_ok t' /\ match r with
              | Ok _ => NoDup (map pk new)
                        /\ (forall x, x ∈ new -> abs t (row_id x) (row_version x) = None)
                        /\ abs t' ≡ foldr s_insert (abs t) new
              | _ => t' = t
              end.
Proof.
  unfold CopyFrom. intros Hok E. destruct (pk_clash new t) eqn:Hc; simplify_eq; [done|].
  apply pk_clash_spec in Hc as [Hnd Hn]. split_and!; try done; [|by apply abs_insert_all].
  unfold pk_ok. rewrite map_app. apply NoDup_app. split_and!; [done| |done].
  intros p Hp (x & -> & Hx)%list_elem_of_fmap. by apply Hn, abs_None in Hx.
Qed.

Lemma rotate_step dek ts id t r t' :
  pk_ok t -> rotateQuery KeyStatusRotated id dek KeyStatusActive ts t = (r, t') ->
  pk_ok t' /\ match r with
              | Ok (Some new) => exists v old n, latest (abs t) id v /\ abs t id v = Some old
                  /\ json_version (row_metadata old) = Some n /\ n < int32_max
                  /\ abs t id (n + 1) = None /\ new = successor old n dek ts
                  /\ abs t' ≡ s_insert new (s_alter (only id v) (upd_rotated KeyStatusRotated ts) (abs t))
              | _ => t' = t
              end.
Proof.
  intros Hok. unfold rotateQuery. set (f := upd_rotated KeyStatusRotated ts).
  destruct (List.find (is_latest id t) t) as [old|] eqn:Hfind; [|by intros; simplify_eq].
  apply List.find_some in Hfind as [Hin%list_elem_of_In Hl].
  unfold is_latest, has_id in Hl. apply andb_true_iff in Hl as [Hid Hmax].
  apply bool_decide_eq_true_1 in Hid, Hmax.
  destruct (json_version (row_metadata old)) as [n|] eqn:Hj; [|by intros; simplify_eq].
  destruct (int32_max <? n + 1) eqn:Hn; [by intros; simplify_eq|].
  fold (successor old n dek ts). set (new := successor old n dek ts).
  set (t1 := map (λ r, if is_latest id t r then f r else r) t).
  assert (abs t1 ≡ s_alter (only id (row_version old)) f (abs t)) as Ht1.
  { apply abs_update_where; [done|]. intros. by apply is_latest_only. }
  assert (pk_ok t1) as Hok1 by by apply pk_ok_update_where.
  destruct (existsb (same_pk new) t1) eqn:Hex; [by intros; simplify_eq|].
  assert (abs t1 (row_id new) (row_version new) = None) as Hfresh.
  { apply (pk_clash_spec [new] t1); [|set_solver]. simpl. by rewrite Hex. }
  intros E; simplify_eq. split; [by apply pk_ok_snoc|].
  exists (row_version old), old, n. bool_to_prop.
  split_and!; try done; [by apply max_version_latest|by apply abs_elem|lia| |].
  - rewrite (Ht1 _ _) in Hfresh. unfold s_alter in Hfresh. simpl in Hfresh.
    by destruct (only _ _ _ _), (abs t _ _).
  - intros i v. rewrite (abs_snoc t1 new Hfresh i v). unfold s_insert. case_decide; [done|]. apply Ht1.
Qed.

(** ** Statements of the adapter *)

Lemma db_stmt_run {A} (f : list Row -> res A * list Row) w r w' :
  db_stmt f w = (r, w') ->
  clock w' = clock w /\ heap w' = heap w /\ next w' = next w
  /\ ((exists e, r = Err e /\ DB (repo w') = DB (repo w))
      \/ exists t, f (DB (repo w)) = (r, t)
                   /\ DB (repo w') = match r with Ok _ => t | _ => DB (repo w) end).
Proof.
  unfold db_stmt. destruct (faults (repo w)) as [|[e|] fs]; simpl.
  2: { intros E; simplify_eq/=. split_and!; try done. left. eauto. }
  all: destruct (f (DB (repo w))) as [r0 t] eqn:Hf; intros E; simplify_eq/=;
    split_and!; try done; right; by exists t.
Qed.

Lemma db_query_run {A} (f : list Row -> A) w r w' :
  db_query f w = (r, w') ->
  clock w' = clock w /\ heap w' = heap w /\ next w' = next w /\ DB (repo w') = DB (repo w)
  /\ (r = Ok (f (DB (repo w))) \/ exists e, r = Err e).
Proof.
  intros (Hc & Hh & Hn & [(e & -> & HD)|(t & E & HD)])%db_stmt_run; [eauto 10|].
  simplify_eq. split_and!; auto.
Qed.

Lemma on_err_run {A} (g : error -> error) (m : M W A) w r w' :
  on_err g m w = (r, w') -> exists r0, m w = (r0, w') /\ r = map_err g r0.
Proof. unfold on_err. destruct (m w) as [r0 w0]. intros; simplify_eq. eauto. Qed.

(** ** transaction_manager.go *)

Lemma backoff_bound i : (i < maxRetries)%nat ->
  baseDelay <= backoff i <= 160 * Millisecond.
Proof.
  unfold maxRetries. intros Hi. do 5 (destruct i as [|i]; [vm_compute; split; congruence|]). lia.
Qed.

(** What a transaction leaves behind, for a body that does not move the clock. *)
Definition tx_effect {A} (fn : M W A) (w : W) (r : res A) (w' : W) : Prop :=
  match r with
  | Ok a => exists w0 w1, fn w0 = (Ok a, w1) /\ DB (repo w0) = DB (repo w)
            /\ DB (repo w') = DB (repo w1) /\ clock w <= clock w0 /\ clock w' = clock w0
            /\ heap w' = heap w1 /\ next w' = next w1
  | Err _ => DB (repo w') = DB (repo w)
  | Panic why => exists w0 w1, fn w0 = (Panic why, w1)
  end.

Definition keeps_clock {A} (fn : M W A) : Prop :=
  forall w r w', fn w = (r, w') -> clock w' = clock w.

Lemma tx_attempt_run {A} i (fn : M W A) w r w' :
  keeps_clock fn -> (i < maxRetries)%nat -> tx_attempt i fn w = (r, w') ->
  match r with
  | Ok (Return r0) => clock w' = clock w /\ tx_effect fn w r0 w'
  | Ok (Retry e) => DB (repo w') = DB (repo w) /\ serialization_failure e = true
      /\ backoff i <= clock w' - clock w < backoff i + backoff i / 10
  | Err _ => False
  | Panic why => clock w' = clock w /\ exists w0 w1, fn w0 = (Panic why, w1)
  end.
Proof.
  intros Hfn Hi. unfold tx_attempt, commit_or_fail. go_unfold.
  destruct (db_query (λ _, tt) w) as [rb w1] eqn:Hb.
  apply db_query_run in Hb as (Hc1 & Hh1 & Hn1 & HD1 & Hr).
  destruct rb as [[]|eb|]; [|intros; simplify_eq; by rewrite Hc1|destruct Hr as [|[]]; done].
  clear Hr. destruct (fn w1) as [rf w2] eqn:Hf. pose proof (Hfn _ _ _ Hf) as Hc2.
  destruct rf as [a|e|why]; simpl; [|clear Hf|intros; simplify_eq; split; [congruence|eauto]].
  - destruct (db_query (λ _, tt) w2) as [rc w3] eqn:Hcm.
    apply db_query_run in Hcm as (Hc3 & Hh3 & Hn3 & HD3 & Hr).
    destruct rc as [[]|ec|]; [| |destruct Hr as [|[]]; done].
    + intros; simplify_eq. split; [congruence|]. exists w1, w2. split_and!; try congruence. lia.
    + destruct (serialization_failure ec) eqn:Hs; simpl.
      * rewrite Hs. intros; simplify_eq/=. split_and!; try done; [|].
        all: pose proof (Z.mod_pos_bound (hd 0 (rand (repo w3))) (backoff i / 10)) as Hm.
        all: pose proof (backoff_bound i Hi) as Hbk; unfold baseDelay, Millisecond in Hbk.
        all: assert (0 < backoff i / 10) by (apply Z.div_str_pos; lia); lia.
      * intros; simplify_eq/=. split; [congruence|done].
  - destruct (serialization_failure e) eqn:Hs; intros; simplify_eq/=.
    + split_and!; try done.
      all: pose proof (Z.mod_pos_bound (hd 0 (rand (repo w2))) (backoff i / 10)) as Hm.
      all: pose proof (backoff_bound i Hi) as Hbk; unfold baseDelay, Millisecond in Hbk.
      all: assert (0 < backoff i / 10) by (apply Z.div_str_pos; lia); lia.
    + split; [congruence|done].
Qed.

(** The longest a loop with [n] passes left can sleep. *)
Definition backoff_total (n : nat) : Z :=
  foldr (λ i acc, backoff i + backoff i / 10 + acc) 0 (seq (maxRetries - n) n).

Lemma backoff_total_S n : (n < maxRetries)%nat ->
  backoff_total (S n) = backoff (maxRetries - S n) + backoff (maxRetries - S n) / 10 + backoff_total n.
Proof.
  intros Hn. unfold backoff_total. cbn [seq foldr].
  replace (S (maxRetries - S n)) with (maxRetries - n)%nat by lia. lia.
Qed.

Lemma tx_loop_run {A} n err (fn : M W A) w r w' :
  keeps_clock fn -> (n <= maxRetries)%nat -> tx_loop n err fn w = (r, w') ->
  tx_effect fn w r w' /\ 0 <= clock w' - clock w <= backoff_total n.
Proof.
  intros Hfn. revert err w. induction n as [|n IH]; intros err w Hn; cbn [tx_loop].
  { go_unfold. intros; simplify_eq. split; [done|]. unfold backoff_total. simpl. lia. }
  rewrite backoff_total_S by lia. unfold mbind, GoM_bind.
  destruct (tx_attempt (maxRetries - S n) fn w) as [ra w1] eqn:Ha.
  apply tx_attempt_run in Ha; [|done|lia].
  pose proof (backoff_bound (maxRetries - S n) ltac:(lia)) as Hb.
  assert (0 <= backoff (maxRetries - S n) / 10) by (apply Z.div_pos; unfold baseDelay, Millisecond in Hb; lia).
  assert (0 <= backoff_total n) as Hpos.
  { clear -Hn. unfold backoff_total. generalize (maxRetries - n)%nat. intros k.
    induction (seq k n) as [|i l IHl]; simpl; [lia|].
    assert (0 <= backoff i). { unfold backoff, baseDelay, maxDelay, Millisecond.
      assert (0 <= Z.shiftl 1 (Z.of_nat i)) by (apply Z.shiftl_nonneg; lia). lia. }
    assert (0 <= backoff i / 10) by (apply Z.div_pos; lia). lia. }
  unfold baseDelay, Millisecond in Hb.
  destruct ra as [[r0|e]|e|why]; [|  |done|].
  - destruct Ha as [Hc He]. unfold lift_res. intros; simplify_eq. split; [done|lia].
  - destruct Ha as (HD & Hs & Hc). intros Hl. apply IH in Hl as [He Hcl]; [|lia]. split; [|lia].
    destruct r; simpl in *; [|congruence|done].
    destruct He as (w0 & w2 & ? & ? & ? & ? & ? & ? & ?). exists w0, w2. split_and!; try congruence. lia.
  - destruct Ha. intros; simplify_eq. split; [done|lia].
Qed.

(** ** The writing methods *)

Section Ops.
Context `{UuidPkgOk}.

Lemma ScanKeyRowWithID_ok r m :
  unmarshal_ptr (row_metadata r) = Ok m -> ScanKeyRowWithID r = Ok (key_of_row (row_id r) r m).
Proof.
  intros Hm. unfold ScanKeyRowWithID. fold (KeyID_String (row_id r)).
  rewrite KeyIDFromString_String. simpl. by rewrite Hm.
Qed.

Lemma ScanKeyRowWithID_no_panic r why : ScanKeyRowWithID r <> Panic why.
Proof.
  unfold ScanKeyRowWithID. fold (KeyID_String (row_id r)).
  rewrite KeyIDFromString_String. by destruct (row_metadata r).
Qed.

Lemma rotateKeyInTx_run id dek w r w' :
  Adapter.rotateKeyInTx id dek w = (r, w') ->
  clock w' = clock w
  /\ match r with
     | Ok l => exists new m, rotateQuery KeyStatusRotated id dek KeyStatusActive (clock w) (DB (repo w))
                            = (Ok (Some new), DB (repo w'))
                          /\ unmarshal_ptr (row_metadata new) = Ok m
                          /\ heap w' = <[l := key_of_row (row_id new) new m]> (heap w)
                          /\ l = next w /\ next w' = S (next w)
     | Err _ => True
     | Panic _ => False
     end.
Proof.
  unfold Adapter.rotateKeyInTx, TryAcquireLock. go_unfold.
  destruct (db_query _ w) as [rl w1] eqn:Hl.
  apply db_query_run in Hl as (Hc1 & Hh1 & Hn1 & HD1 & Hr1).
  destruct rl as [locked|e|]; simpl; [|intros; by simplify_eq|destruct Hr1 as [|[]]; done].
  destruct locked; simpl; [|intros; by simplify_eq].
  destruct (db_stmt _ w1) as [rr w2] eqn:Hq.
  apply db_stmt_run in Hq as (Hc2 & Hh2 & Hn2 & Hr2). rewrite HD1, Hc1 in Hr2.
  destruct rr as [[new|]|e|why]; simpl; [|intros; simplify_eq; split; [congruence|done]..|].
  - destruct Hr2 as [(? & ? & ?)|(t & Ht & HD2)]; [done|].
    destruct (ScanKeyRowWithID new) as [k|e|why] eqn:Hs; simpl.
    + unfold alloc. intros; simplify_eq/=. split; [congruence|].
      destruct (unmarshal_ptr (row_metadata new)) as [m|e|why] eqn:Hm.
      * rewrite (ScanKeyRowWithID_ok _ _ Hm) in Hs. simplify_eq. exists new, m. split_and!; congruence.
      * exfalso. unfold ScanKeyRowWithID in Hs. destruct (map_err _ (KeyIDFromString _)); by rewrite ?Hm in Hs.
      * exfalso. unfold ScanKeyRowWithID in Hs. destruct (map_err _ (KeyIDFromString _)); by rewrite ?Hm in Hs.
    + intros; simplify_eq. split; [congruence|done].
    + by apply ScanKeyRowWithID_no_panic in Hs.
  - exfalso. destruct Hr2 as [(? & ? & _)|(t & Ht & _)]; [done|].
    unfold rotateQuery in Ht. repeat case_match; simplify_eq.
Qed.

Lemma rotate_key_step id dek w r w' :
  pk_ok (DB (repo w)) -> Adapter.RotateKey id dek w = (r, w') ->
  pk_ok (DB (repo w')) /\ clock w <= clock w'
  /\ match r with
     | Ok _ => store_step (clock w') (heap w) (st w) (WRotate id dek) (st w')
     | _ => DB (repo w') = DB (repo w)
     end.
Proof.
  intros Hok. unfold Adapter.RotateKey. case_bool_decide as Hd.
  { unfold fail. intros; simplify_eq. split_and!; [done|lia|done]. }
  intros Hx. apply tx_loop_run in Hx as [He Hc];
    [|by intros ??? []%rotateKeyInTx_run|done].
  destruct r as [l|e|why]; simpl in He.
  - destruct He as (w0 & w1 & Hf & HD0 & HD1 & Hc0 & Hc1 & _).
    apply rotateKeyInTx_run in Hf as (_ & new & m & Hq & _).
    rewrite HD0, <-HD1, <-Hc1 in Hq.
    apply rotate_step in Hq as (Hok' & v & old & n & Hl & Ho & Hj & Hn & Hf & -> & Ha); [|done].
    split_and!; [done|lia|]. by eapply S_rotate.
  - rewrite He. split_and!; [done|lia|done].
  - destruct He as (w0 & w1 & Hf). by apply rotateKeyInTx_run in Hf as [_ []].
Qed.

Lemma create_step new key_err w r w' :
  pk_ok (DB (repo w)) ->
  on_err (Adapter.already_exists_or key_err) (db_stmt (CopyFrom new)) w = (r, w') ->
  clock w' = clock w /\ pk_ok (DB (repo w'))
  /\ match r with
     | Ok _ => NoDup (map pk new) /\ (forall x, x ∈ new -> st w (row_id x) (row_version x) = None)
               /\ st w' ≡ foldr s_insert (st w) new
     | _ => DB (repo w') = DB (repo w)
     end.
Proof.
  intros Hok (r0 & Hs & ->)%on_err_run.
  apply db_stmt_run in Hs as (Hc & _ & _ & [(e & -> & HD)|(t & Ht & HD)]).
  - simpl. by rewrite HD.
  - apply copy_from_step in Ht as [Hok' Hr]; [|done]. unfold st.
    destruct r0; simpl; rewrite HD; naive_solver.
Qed.

Lemma exec_updates_run ks batch now w r w' :
  pk_ok (DB (repo w)) -> Adapter.queue_updates ks = Ok batch ->
  Adapter.exec_updates now batch w = (r, w') ->
  clock w' = clock w /\ heap w' = heap w
  /\ match r with
     | Ok _ => pk_ok (DB (repo w')) /\ s_updates now ks (st w) (st w')
     | Err _ => True
     | Panic _ => False
     end.
Proof.
  revert batch w. induction ks as [|k ks IH]; intros batch w Hok; simpl.
  { intros; simplify_eq/=. go_unfold. simplify_eq. split_and!; try done. by constructor. }
  destruct (Metadata k) as [m|] eqn:Hm; [|done]. intros Hq. go_unfold.
  destruct (Adapter.queue_updates ks) as [q|e|]; simplify_eq. simpl. go_unfold.
  destruct (db_stmt _ w) as [r1 w1] eqn:Hs.
  apply db_stmt_run in Hs as (Hc & Hh & _ & [(e & -> & HD)|(t & Ht & HD)]); [by intros; simplify_eq|].
  destruct r1 as [n|e|]; [|by intros; simplify_eq|by unfold StmtUpdateMetadata, sql_update in Ht].
  apply update_metadata_step in Ht as (Hok1 & Hu & _); [|done].
  intros Hx. apply (IH q) in Hx as (Hc2 & Hh2 & Hr); [|by rewrite HD|done].
  split_and!; [congruence..|]. destruct r; [|done..].
  destruct Hr as [? Hr]. split; [done|]. eapply S_updates_cons; [done|exact Hu|].
  unfold st in *. by rewrite HD in Hr.
Qed.

Lemma deref_all_run ls (w : W) r w' :
  deref_all ls w = (r, w') ->
  w' = w /\ forall ks, r = Ok ks -> mapM (λ l, heap w !! l) ls = Some ks.
Proof.
  revert r w'. induction ls as [|l ls IH]; intros r w'; simpl.
  { go_unfold. intros; simplify_eq. split; [done|]. intros; by simplify_eq. }
  go_unfold. unfold deref. destruct (heap w !! l) as [k|] eqn:Hl; [|by intros; simplify_eq].
  destruct (deref_all ls w) as [r1 w1] eqn:Hd. destruct (IH _ _ eq_refl) as [-> Hr].
  destruct r1 as [ks|e|]; intros; simplify_eq; (split; [done|]); intros; simplify_eq.
  specialize (Hr _ eq_refl).
  simpl. by rewrite Hr.
Qed.

End Ops.

(** ** Reads *)

#[export] Instance version_desc_total : Total version_desc.
Proof. intros r1 r2. unfold version_desc. lia. Qed.
#[export] Instance version_desc_trans : Transitive version_desc.
Proof. intros r1 r2 r3. unfold version_desc. lia. Qed.

(** [ORDER BY version DESC LIMIT 1] finds the latest version. *)
Lemma latest_key_abs id t :
  pk_ok t -> StmtGetLatestKey id t = v ← max_version id t; abs t id v.
Proof.
  intros Hok. unfold StmtGetLatestKey, StmtGetVersions.
  pose proof (StronglySorted_merge_sort version_desc (rows_of id t)) as Hs.
  pose proof (merge_sort_Permutation version_desc (rows_of id t)) as Hp.
  assert (forall r, r ∈ merge_sort version_desc (rows_of id t) <-> r ∈ t /\ row_id r = id) as Hin.
  { intros r. rewrite Hp. unfold rows_of, has_id. rewrite !list_elem_of_In, List.filter_In.
    by rewrite bool_decide_eq_true. }
  destruct (merge_sort version_desc (rows_of id t)) as [|r l]; simpl.
  - destruct (max_version id t) as [v|] eqn:E; [|done]. exfalso.
    destruct (max_version_attained _ _ _ E) as (r & Hr & Hid & _).
    apply (not_elem_of_nil r), Hin. done.
  - destruct (proj1 (Hin r)) as [Hr Hid]; [set_solver|].
    assert (max_version id t = Some (row_version r)) as Hm.
    { apply max_version_latest; [done|]. subst id. split; [by rewrite (abs_elem t r)|].
      intros v' [r' [Hr' Hpk]%abs_Some]. unfold pk in Hpk; simplify_eq.
      assert (r' ∈ r :: l) as [->|Hl]%elem_of_cons by (by apply Hin); [lia|].
      apply StronglySorted_inv in Hs as [_ Hf]. rewrite Forall_forall in Hf.
      specialize (Hf r' Hl). unfold version_desc in Hf. lia. }
    rewrite Hm. simpl. subst id. by rewrite (abs_elem t r).
Qed.

(** No statement fails. *)
Definition quiet (w : W) : Prop := faults (repo w) = [].

Lemma db_stmt_quiet {A} (f : list Row -> res A * list Row) w :
  quiet w ->
  db_stmt f w = (fst (f (DB (repo w))),
                 set_repo (set_faults [] (set_DB (match fst (f (DB (repo w))) with
                   Ok _ => snd (f (DB (repo w))) | _ => DB (repo w) end) (repo w))) w).
Proof. unfold quiet, db_stmt. intros ->. by destruct (f (DB (repo w))). Qed.

Lemma quiet_same w : quiet w -> set_repo (set_faults [] (set_DB (DB (repo w)) (repo w))) w = w.
Proof. destruct w as [c h n [d f l r]]. unfold quiet; simpl. by intros ->. Qed.

Lemma db_query_quiet {A} (f : list Row -> A) w : quiet w -> db_query f w = (Ok (f (DB (repo w))), w).
Proof.
  intros Hq. unfold db_query. rewrite db_stmt_quiet by done. simpl. by rewrite quiet_same.
Qed.

Section Reads.
Context `{UuidPkgOk}.

Lemma GetKeyByVersion_run id v w :
  quiet w -> 0 < v ->
  match st w id v with
  | None => Adapter.GetKeyByVersion id v w = (Err (Sentinel PsqlErrKeyNotFound), w)
  | Some r => forall m, unmarshal_ptr (row_metadata r) = Ok m ->
      Adapter.GetKeyByVersion id v w = alloc (key_of_row id r m) w
  end.
Proof.
  intros Hq Hv. unfold Adapter.GetKeyByVersion. destruct (v <=? 0) eqn:E; [lia|].
  unfold Adapter.query_key. go_unfold. rewrite db_query_quiet by done. simpl.
  unfold st. change (StmtGetKeyByVersion id v (DB (repo w))) with (abs (DB (repo w)) id v).
  destruct (abs (DB (repo w)) id v) as [r|] eqn:Ha; simpl; [|done].
  intros m Hm. unfold ScanKeyRow. rewrite Hm. simpl. apply abs_Some in Ha as [_ Hpk].
  unfold pk in Hpk; simplify_eq. done.
Qed.

Lemma GetKey_run id w :
  quiet w -> pk_ok (DB (repo w)) ->
  (~ present (st w) id -> Adapter.GetKey id w = (Err (Sentinel PsqlErrKeyNotFound), w))
  /\ forall v r m, latest (st w) id v -> st w id v = Some r -> unmarshal_ptr (row_metadata r) = Ok m ->
     Adapter.GetKey id w = alloc (key_of_row id r m) w.
Proof.
  intros Hq Hok. unfold Adapter.GetKey, Adapter.query_key. go_unfold.
  rewrite db_query_quiet by done. simpl. rewrite latest_key_abs by done. split.
  - intros Hp%max_version_absent. by rewrite Hp.
  - intros v r m Hl Hr Hm. apply max_version_latest in Hl; [|done]. rewrite Hl. simpl.
    unfold st in Hr. rewrite Hr. simpl. unfold ScanKeyRow. by rewrite Hm.
Qed.

End Reads.

(** ** Properties *)

(** What the adapter owes the store for one call. *)
Definition op_ok `{UuidPkg} (o : write_op) (w : W) (r : res unit) (w' : W) : Prop :=
  pk_ok (DB (repo w')) /\ clock w <= clock w'
  /\ match r with
     | Ok _ => store_step (clock w') (heap w) (st w) o (st w')
     | _ => DB (repo w') = DB (repo w)
     end.

Section Steps.
Context `{UuidPkgOk}.

Lemma op_refused o e w r w' :
  pk_ok (DB (repo w)) -> fail e w = (r, w') -> op_ok o w r w'.
Proof. unfold fail. intros; simplify_eq. split_and!; [done|lia|done]. Qed.

Lemma create_ok k w r w' :
  pk_ok (DB (repo w)) -> Adapter.CreateKey k w = (r, w') -> op_ok (WCreate k) w r w'.
Proof.
  intros Hok. destruct k as [k|]; simpl; [|by apply op_refused].
  destruct (Metadata k) as [m|] eqn:Hm; [|by apply op_refused].
  case_bool_decide as Hd; [by apply op_refused|].
  intros (Hc & Hok' & Hr)%create_step; [|done]. split_and!; [done|lia|].
  destruct r; [|done..]. destruct Hr as (_ & Hn & Hs).
  constructor; [by eexists|done| |done]. apply (Hn (Adapter.row_of_key k)). set_solver.
Qed.

Lemma create_batch_ok ks w r w' :
  pk_ok (DB (repo w)) -> Adapter.CreateBatchKeys ks w = (r, w') -> op_ok (WCreateBatch ks) w r w'.
Proof.
  intros Hok. destruct ks as [|k ks].
  { simpl. unfold mret, GoM_ret. intros; simplify_eq. split_and!; [done|lia|].
    constructor; [set_solver|constructor|done]. }
  unfold Adapter.CreateBatchKeys. intros (Hc & Hok' & Hr)%create_step; [|done].
  split_and!; [done|lia|]. destruct r; [|done..]. destruct Hr as (Hnd & Hn & Hs). constructor.
  - intros k' Hk'. apply (Hn (Adapter.row_of_key k')). apply list_elem_of_In.
    by apply (in_map Adapter.row_of_key), list_elem_of_In.
  - rewrite List.map_map in Hnd. exact Hnd.
  - exact Hs.
Qed.

Lemma update_ok id m w r w' :
  pk_ok (DB (repo w)) -> Adapter.UpdateKeyMetadata id m w = (r, w') -> op_ok (WUpdate id m) w r w'.
Proof.
  intros Hok. destruct m as [m|]; simpl; [|by apply op_refused].
  unfold time_now. go_unfold. destruct (db_stmt _ w) as [r1 w1] eqn:Hs.
  apply db_stmt_run in Hs as (Hc & Hh & _ & [(e & -> & HD)|(t & Ht & HD)]); simpl.
  { intros; simplify_eq. unfold op_ok. rewrite HD. split_and!; [done|lia|done]. }
  destruct r1 as [n|e|]; [simpl|done..].
  apply update_metadata_step in Ht as (Hok1 & Hu & Hz & Hp); [|done].
  destruct (n =? 0) eqn:En; intros; simplify_eq; bool_to_prop; subst; unfold op_ok.
  - rewrite (Hz eq_refl) in *. split_and!; [done|lia|done].
  - split_and!; [done|lia|]. rewrite Hc. inversion Hu as [v s' Hl Hs|s' Hn]; subst.
    { by eapply S_update_key. }
    destruct Hn. apply Hp. congruence.
Qed.

Lemma revoke_ok id w r w' :
  pk_ok (DB (repo w)) -> Adapter.RevokeKey id w = (r, w') -> op_ok (WRevoke id) w r w'.
Proof.
  intros Hok. unfold Adapter.RevokeKey, time_now. go_unfold.
  destruct (db_stmt _ w) as [r1 w1] eqn:Hs.
  apply db_stmt_run in Hs as (Hc & Hh & _ & [(e & -> & HD)|(t & Ht & HD)]); simpl.
  { intros; simplify_eq. unfold op_ok. rewrite HD. split_and!; [done|lia|done]. }
  destruct r1 as [n|e|]; [simpl|done..].
  apply revoke_key_step in Ht as (Hok1 & Hu & Hz & Hp); [|done].
  destruct (n =? 0) eqn:En; intros; simplify_eq; bool_to_prop; subst; unfold op_ok.
  - destruct Hz as [-> _]; [done|]. split_and!; [done|lia|done].
  - split_and!; [done|lia|]. rewrite Hc. constructor; [by apply Hp|done].
Qed.

Lemma revoke_batch_ok ids w r w' :
  pk_ok (DB (repo w)) -> Adapter.RevokeBatchKeys ids w = (r, w') -> op_ok (WRevokeBatch ids) w r w'.
Proof.
  intros Hok. destruct ids as [|id ids]; simpl.
  { unfold mret, GoM_ret. intros; simplify_eq. split_and!; [done|lia|]. by constructor. }
  unfold time_now. go_unfold. destruct (db_stmt _ w) as [r1 w1] eqn:Hs.
  apply db_stmt_run in Hs as (Hc & Hh & _ & [(e & -> & HD)|(t & Ht & HD)]); simpl.
  { intros; simplify_eq. unfold op_ok. rewrite HD. split_and!; [done|lia|done]. }
  unfold StmtRevokeBatchKeys, sql_update in Ht. injection Ht as <- <-. simpl.
  intros E; injection E as <- <-. unfold op_ok, st. rewrite HD. split_and!; [by apply pk_ok_update_where|lia|].
  constructor. rewrite Hc. by apply abs_update_where.
Qed.

Lemma update_batch_ok ls w r w' :
  pk_ok (DB (repo w)) -> Adapter.UpdateBatchKeyMetadata ls w = (r, w') -> op_ok (WUpdateBatch ls) w r w'.
Proof.
  intros Hok. destruct ls as [|l ls]; unfold Adapter.UpdateBatchKeyMetadata.
  { unfold mret, GoM_ret. intros; simplify_eq. split_and!; [done|lia|]. by econstructor; [|constructor]. }
  remember (l :: ls) as all eqn:Eall. clear Eall l ls. go_unfold. destruct (deref_all all w) as [rk w1] eqn:Hd.
  apply deref_all_run in Hd as [-> Hks]. unfold op_ok.
  destruct rk as [ks|e|]; [|intros; simplify_eq; split_and!; [done|lia|done]..].
  destruct (Adapter.queue_updates ks) as [batch|e|] eqn:Hb;
    [|intros; simplify_eq; split_and!; [done|lia|done]..].
  destruct (Adapter.exec_updates (clock w) batch w) as [re w2] eqn:He.
  apply (exec_updates_run ks) in He as (Hc & Hh & Hr); [|done..].
  destruct re as [[]|e|]; [| |done]; intros; simplify_eq/=.
  - destruct Hr. split_and!; [done|lia|]. rewrite Hc. econstructor; [by apply Hks|done].
  - split_and!; [done|lia|done].
Qed.

End Steps.


(** *** A concrete table, for the witnesses *)

Definition ex_id (n : Z) (H : bool_decide (0 <= n < 2 ^ 128) = true) : KeyID := mkKeyID (mkUuid n H).
Definition ex_md (v : Z) : KeyMetadata := set_mdVersion v zeroMetadata.
Definition ex_row (id : KeyID) (v t : Z) : Row :=
  mkRow id v (JsonOf (ex_md v)) [1] KeyStatusActive StorageTypeStandard t t None.
Definition id_a : KeyID := ex_id 10 eq_refl.
Definition id_b : KeyID := ex_id 11 eq_refl.
Definition ex_w (t : list Row) (fs : list (option error)) : W := mkSt (5 * Second) ∅ O (mkPSQL t fs [] []).
#[local] Existing Instance HexUuid.
#[local] Existing Instance HexUuidOk.

(** A rotation whose first attempt meets a serialization failure on commit. *)
Definition ex_conflict : W :=
  ex_w [ex_row id_a 1 1000] [None; None; None; Some (PgError "40001" "could not serialize access")].


(** C14: [ExecuteInTransaction] is atomic and its retry loop is bounded: for
    any body that does not itself wait, a call that returns an error leaves the
    table as it found it, a call that succeeds has exactly the effect of one
    successful run of the body from the table it found, and the five attempts
    with their backoff and jitter sleep at most 341 ms in all. *)
Theorem transaction_atomic {A} (fn : M W A) w r w' :
  keeps_clock fn -> ExecuteInTransaction fn w = (r, w') ->
  0 <= clock w' - clock w <= 341 * Millisecond
  /\ match r with
     | Ok a => exists w0 w1, fn w0 = (Ok a, w1) /\ DB (repo w0) = DB (repo w)
               /\ DB (repo w') = DB (repo w1) /\ heap w' = heap w1 /\ next w' = next w1
     | Err _ => DB (repo w') = DB (repo w)
     | Panic why => exists w0 w1, fn w0 = (Panic why, w1)
     end.
Proof.
  intros Hfn Hx. apply tx_loop_run in Hx as [He Hc]; [|done|done].
  change (backoff_total maxRetries) with (341 * Millisecond) in Hc. split; [done|].
  destruct r; simpl in He; [|done..]. naive_solver.
Qed.

Lemma transaction_atomic_witness :
  let w' := snd (ExecuteInTransaction (Adapter.rotateKeyInTx id_a [2]) ex_conflict) in
  clock w' - clock ex_conflict <= 341 * Millisecond /\ 10 * Millisecond <= clock w' - clock ex_conflict.
Proof.
  destruct (ExecuteInTransaction (Adapter.rotateKeyInTx id_a [2]) ex_conflict) as [r w'] eqn:E. simpl.
  assert (keeps_clock (Adapter.rotateKeyInTx id_a [2])) as Hk
    by (intros ??? []%rotateKeyInTx_run; done).
  split; [apply (transaction_atomic _ _ _ _ Hk E)|].
  vm_compute in E. injection E as <- <-. vm_compute. congruence.
Defined.

(** ** Round trips *)

Section RoundTrip.
Context `{UuidPkgOk}.

Lemma quiet_set_repo t w : quiet w -> quiet (set_repo (set_faults [] (set_DB t (repo w))) w).
Proof. done. Qed.

Lemma CreateKey_run k m w :
  quiet w -> Metadata k = Some m -> EncryptedDEK k <> [] -> st w (ID k) (Version k) = None ->
  Adapter.CreateKey (Some k) w
  = (Ok tt, set_repo (set_faults [] (set_DB (DB (repo w) ++ [Adapter.row_of_key k]) (repo w))) w).
Proof.
  intros Hq Hm Hd Hn. unfold Adapter.CreateKey. rewrite Hm.
  rewrite bool_decide_eq_false_2 by done. unfold on_err. rewrite db_stmt_quiet by done.
  assert (pk_clash [Adapter.row_of_key k] (DB (repo w)) = false) as Hc.
  { apply pk_clash_spec. split; [apply NoDup_singleton|].
    intros r ->%list_elem_of_singleton. exact Hn. }
  unfold CopyFrom. by rewrite Hc.
Qed.

Lemma rotateQuery_ok id dek ts t v old m :
  pk_ok t -> latest (abs t) id v -> abs t id v = Some old -> row_metadata old = JsonOf m ->
  mdVersion m = v -> 0 < v < int32_max ->
  exists t', rotateQuery KeyStatusRotated id dek KeyStatusActive ts t
             = (Ok (Some (successor old v dek ts)), t').
Proof.
  intros Hok Hl Ho Hm Hv Hr. pose proof (abs_Some _ _ _ _ Ho) as [Hin Hpk].
  apply max_version_latest in Hl as Hmax; [|done]. unfold rotateQuery.
  destruct (List.find (is_latest id t) t) as [o|] eqn:Hf.
  2: { apply list_elem_of_In in Hin. pose proof (List.find_none _ _ Hf _ Hin) as Hb; simpl in Hb.
       rewrite (is_latest_only _ _ _ _ Hmax) in Hb. unfold only, pk in *.
       rewrite Hpk in Hb. by rewrite bool_decide_eq_true_2 in Hb. }
  apply List.find_some in Hf as [Ho'%list_elem_of_In Hlo].
  rewrite (is_latest_only _ _ _ _ Hmax) in Hlo. unfold only in Hlo. apply bool_decide_eq_true_1 in Hlo.
  assert (o = old) as ->.
  { apply (abs_elem t o) in Ho'; [|done]. injection Hlo as E1 E2. rewrite E1, E2 in Ho'. congruence. }
  rewrite Hm. simpl. destruct (mdVersion m =? 0) eqn:E0; [lia|].
  destruct (int32_max <? mdVersion m + 1) eqn:E1; [lia|]. rewrite Hv.
  destruct (existsb _ _) eqn:Hex.
  - exfalso. apply existsb_exists in Hex as (x & Hx & Hs). apply in_map_iff in Hx as (y & Ey & Hy).
    unfold same_pk in Hs. simpl in Hs. bool_to_prop. apply list_elem_of_In in Hy.
    assert (row_id y = id /\ row_version y = v + 1) as [E2 E3].
    { unfold pk in Hpk. destruct (is_latest id t y); subst x; simpl in *; naive_solver congruence. }
    apply (abs_elem t y) in Hy; [|done]. rewrite E2, E3 in Hy.
    assert (v + 1 <= v); [|lia]. apply (proj2 Hl). by rewrite Hy.
  - eexists. unfold successor. by rewrite Hm.
Qed.

Lemma ExecuteInTransaction_quiet {A} (fn : M W A) w a w1 :
  quiet w -> quiet w1 -> fn w = (Ok a, w1) -> ExecuteInTransaction fn w = (Ok a, w1).
Proof.
  intros Hq Hq1 Hf. unfold ExecuteInTransaction. change maxRetries with (S 4). cbn [tx_loop].
  apply bind_eq with (a := Return (Ok a)) (w1 := w1).
  unfold tx_attempt, commit_or_fail. go_unfold. rewrite db_query_quiet by done. rewrite Hf.
  by rewrite db_query_quiet.
Qed.

Lemma RotateKey_run id dek w new t' m :
  quiet w -> dek <> [] -> contains (locks (repo w)) (GetLockID id) = false ->
  rotateQuery KeyStatusRotated id dek KeyStatusActive (clock w) (DB (repo w)) = (Ok (Some new), t') ->
  unmarshal_ptr (row_metadata new) = Ok m ->
  Adapter.RotateKey id dek w
  = (Ok (next w), mkSt (clock w) (<[next w := key_of_row (row_id new) new m]> (heap w)) (S (next w))
                    (set_faults [] (set_DB t' (repo w)))).
Proof.
  intros Hq Hd Hlk Hr Hm. unfold Adapter.RotateKey. rewrite bool_decide_eq_false_2 by done.
  apply ExecuteInTransaction_quiet; [done..|].
  unfold Adapter.rotateKeyInTx, TryAcquireLock, time_now. go_unfold.
  rewrite db_query_quiet by done. simpl. rewrite Hlk. simpl.
  rewrite db_stmt_quiet by done. rewrite Hr. simpl.
  by rewrite (ScanKeyRowWithID_ok _ _ Hm).
Qed.

End RoundTrip.

(** What reading back a created key gives: PostgreSQL keeps microseconds, and
    [tier] and [revoked_at] are not stored. *)
Definition stored (k : Key) : Key :=
  mkKey (ID k) (Version k) (Metadata k) (EncryptedDEK k) (Status k) None
    (pg_ts (CreatedAt k)) (pg_ts (UpdatedAt k)) None.

(** C18: a key that [CreateKey] accepts is read back by [GetKeyByVersion] with
    the same material, metadata and status and its timestamps at PostgreSQL's
    resolution; every other version of every key reads as before; creating it
    a second time reports [ErrKeyAlreadyExists]. *)
Theorem create_read_roundtrip `{UuidPkgOk} k m w :
  quiet w -> Metadata k = Some m -> EncryptedDEK k <> [] -> 0 < Version k ->
  st w (ID k) (Version k) = None ->
  exists w', Adapter.CreateKey (Some k) w = (Ok tt, w')
    /\ Adapter.GetKeyByVersion (ID k) (Version k) w' = alloc (stored k) w'
    /\ (forall id v, (id, v) <> (ID k, Version k) -> st w' id v = st w id v)
    /\ fst (Adapter.CreateKey (Some k) w') = Err (Sentinel PsqlErrKeyAlreadyExists).
Proof.
  intros Hq Hm Hd Hv Hn. pose proof (CreateKey_run _ _ _ Hq Hm Hd Hn) as Hrun.
  set (w' := set_repo _ w) in Hrun. assert (quiet w') as Hq' by done. exists w'.
  assert (st w' ≡ s_insert (Adapter.row_of_key k) (st w)) as Hs by (by apply abs_snoc).
  split; [done|]. split; [|split].
  - pose proof (GetKeyByVersion_run (ID k) (Version k) w' Hq' Hv) as Hg.
    rewrite (Hs _ _) in Hg. unfold s_insert in Hg. rewrite decide_True in Hg by done.
    rewrite (Hg (Some m)) by (simpl; by rewrite Hm). unfold stored, key_of_row. simpl. by rewrite Hm.
  - intros id v Hne. rewrite (Hs id v). unfold s_insert. by rewrite decide_False by (intros [=]; congruence).
  - unfold Adapter.CreateKey. rewrite Hm, bool_decide_eq_false_2 by done.
    unfold on_err. rewrite db_stmt_quiet by done.
    assert (pk_clash [Adapter.row_of_key k] (DB (repo w')) = true) as Hc.
    { apply not_false_iff_true. intros [_ Hc]%pk_clash_spec.
      specialize (Hc (Adapter.row_of_key k) ltac:(set_solver)).
      change (st w' (ID k) (Version k) = None) in Hc. rewrite (Hs _ _) in Hc. unfold s_insert in Hc.
      by rewrite decide_True in Hc. }
    unfold CopyFrom. by rewrite Hc.
Qed.

Definition ex_key (id : KeyID) (v : Z) : Key :=
  mkKey id v (Some (ex_md v)) [7] KeyStatusActive (Some TierPro) 1234567 1234567 None.

Lemma create_read_roundtrip_witness :
  exists w', Adapter.CreateKey (Some (ex_key id_b 1)) (ex_w [ex_row id_a 1 1000] []) = (Ok tt, w')
    /\ exists l w2, Adapter.GetKeyByVersion id_b 1 w' = (Ok l, w2)
    /\ (CreatedAt <$> heap w2 !! l) = Some 1234000.
Proof.
  destruct (create_read_roundtrip (ex_key id_b 1) (ex_md 1) (ex_w [ex_row id_a 1 1000] []))
    as (w' & Hc & Hg & _); [done|done|discriminate|done|vm_compute; reflexivity|].
  exists w'. split; [exact Hc|].
  vm_compute in Hc. injection Hc as <-.
  eexists _, _. split; [exact Hg|]. vm_compute. reflexivity.
Defined.

Lemma latest_successor s id v old n dek ts f :
  latest s id v -> row_id old = id -> v <= n ->
  latest (s_insert (successor old n dek ts) (s_alter (only id v) f s)) id (n + 1).
Proof.
  intros [Hp Hmax] Hid Hn. unfold latest, s_insert, s_alter, pk. simpl. rewrite Hid.
  rewrite decide_True by done. split; [done|]. intros v'.
  case_decide as E; [injection E; lia|]. intros Hs. assert (v' <= v); [|lia].
  apply Hmax. destruct (only id v id v'); [by apply fmap_is_Some in Hs|done].
Qed.

Definition rotated_key (id : KeyID) (v : Z) (m : KeyMetadata) (dek : bytes) (ts : Z) : Key :=
  mkKey id (v + 1) (Some (set_mdVersion (v + 1) m)) dek KeyStatusActive None (pg_ts ts) (pg_ts ts) None.

(** What rotation does to a consistent key. *)
Lemma rotate_effect `{UuidPkgOk} id dek w v old m :
  quiet w -> pk_ok (DB (repo w)) -> latest (st w) id v -> st w id v = Some old ->
  row_metadata old = JsonOf m -> mdVersion m = v -> 0 < v < int32_max -> dek <> [] ->
  contains (locks (repo w)) (GetLockID id) = false ->
  exists l w', Adapter.RotateKey id dek w = (Ok l, w')
    /\ heap w' !! l = Some (rotated_key id v m dek (clock w))
    /\ Adapter.GetKey id w' = alloc (rotated_key id v m dek (clock w)) w'
    /\ Adapter.GetKeyByVersion id v w'
       = alloc (key_of_row id (upd_rotated KeyStatusRotated (clock w) old) (Some m)) w'
    /\ forall i u, (i, u) <> (id, v) -> (i, u) <> (id, v + 1) -> st w' i u = st w i u.
Proof.
  intros Hq Hok Hl Ho Hm Hv Hr Hd Hlk.
  destruct (rotateQuery_ok id dek (clock w) _ v old m Hok Hl Ho Hm Hv Hr) as (t' & Ht).
  assert (row_id old = id) as Hid by (apply abs_Some in Ho as [_ [=]]; done).
  set (new := successor old v dek (clock w)) in *.
  assert (unmarshal_ptr (row_metadata new) = Ok (Some (set_mdVersion (v + 1) m))) as Hu
    by (simpl; by rewrite Hm).
  pose proof (RotateKey_run id dek w new t' _ Hq Hd Hlk Ht Hu) as Hrun.
  assert (key_of_row id new (Some (set_mdVersion (v + 1) m)) = rotated_key id v m dek (clock w)) as Hk by done.
  change (row_id new) with (row_id old) in Hrun. rewrite Hid, Hk in Hrun.
  set (w' := mkSt _ _ _ _) in Hrun. assert (quiet w') as Hq' by done.
  apply rotate_step in Ht as (Hok' & v1 & old1 & n1 & Hl1 & Ho1 & Hj1 & _ & _ & Hnew & Ha); [|done].
  assert (v1 = v) as -> by (by eapply latest_unique).
  assert (st w' ≡ s_insert new (s_alter (only id v) (upd_rotated KeyStatusRotated (clock w)) (st w))) as Hs
    by (exact Ha).
  exists (next w), w'. split; [done|]. split; [apply lookup_insert_eq|]. split_and!.
  - rewrite <-Hk. apply (proj2 (GetKey_run id w' Hq' Hok')) with (v := v + 1); [| |done].
    + pose proof (latest_successor (st w) id v old v dek (clock w) (upd_rotated KeyStatusRotated (clock w))
        Hl Hid ltac:(lia)) as [Hsome Hmax]. split; [by rewrite (Hs _ _)|].
      intros u. rewrite (Hs _ _). apply Hmax.
    + rewrite (Hs _ _). unfold s_insert, pk. simpl. by rewrite Hid, decide_True.
  - pose proof (GetKeyByVersion_run id v w' Hq' ltac:(lia)) as Hg. rewrite (Hs _ _) in Hg.
    unfold s_insert, s_alter, pk, only in Hg. simpl in Hg.
    rewrite decide_False, bool_decide_eq_true_2, Ho in Hg by (try done; intros [=]; lia).
    simpl in Hg. rewrite (Hg (Some m)) by (by rewrite Hm). done.
  - intros i u H1 H2. rewrite (Hs _ _). unfold s_insert, s_alter, pk, only. simpl.
    rewrite Hid. rewrite decide_False, bool_decide_eq_false_2 by (try done; congruence). done.
Qed.

(** C15: rotating a key whose latest row carries its own version number [v]
    succeeds: it returns version [v + 1], active, with the new material and the
    old metadata renumbered; [GetKey] then returns that version, [v] itself is
    still readable with its old material and status "rotated", and no other
    row has changed. *)
Theorem rotate_succeeds `{UuidPkgOk} id dek w v old m :
  quiet w -> pk_ok (DB (repo w)) -> latest (st w) id v -> st w id v = Some old ->
  row_metadata old = JsonOf m -> mdVersion m = v -> 0 < v < int32_max -> dek <> [] ->
  contains (locks (repo w)) (GetLockID id) = false ->
  exists l w', Adapter.RotateKey id dek w = (Ok l, w')
    /\ heap w' !! l = Some (rotated_key id v m dek (clock w))
    /\ Adapter.GetKey id w' = alloc (rotated_key id v m dek (clock w)) w'
    /\ Adapter.GetKeyByVersion id v w'
       = alloc (key_of_row id (upd_rotated KeyStatusRotated (clock w) old) (Some m)) w'
    /\ forall i u, (i, u) <> (id, v) -> (i, u) <> (id, v + 1) -> st w' i u = st w i u.
Proof. apply rotate_effect. Qed.

Definition ex_two : W := ex_w [ex_row id_a 1 1000; ex_row id_b 4 2000] [].

Lemma ex_two_pk : pk_ok (DB (repo ex_two)).
Proof. apply NoDup_cons. split; [|apply NoDup_singleton]. intros E%list_elem_of_singleton. discriminate. Qed.

Lemma ex_two_latest : latest (st ex_two) id_a 1.
Proof. apply max_version_latest; [apply ex_two_pk|vm_compute; reflexivity]. Qed.

Lemma rotate_succeeds_witness :
  exists l w', Adapter.RotateKey id_a [9] ex_two = (Ok l, w')
    /\ exists k, heap w' !! l = Some k /\ Version k = 2.
Proof.
  assert (st ex_two id_a 1 = Some (ex_row id_a 1 1000)) as Ho by (vm_compute; reflexivity).
  assert (0 < 1 < int32_max) as Hv by (vm_compute; split; congruence).
  assert ([9] <> @nil Z) as Hd by discriminate.
  assert (contains (locks (repo ex_two)) (GetLockID id_a) = false) as Hlk by (vm_compute; reflexivity).
  destruct (rotate_succeeds id_a [9] ex_two 1 (ex_row id_a 1 1000) (ex_md 1) eq_refl ex_two_pk ex_two_latest Ho
              eq_refl eq_refl Hv Hd Hlk) as (l & w' & Hr & Hh & _).
  exists l, w'. split; [exact Hr|]. eexists. split; [exact Hh|reflexivity].
Defined.

(** ** Revocation is not final *)

Lemma RevokeKey_quiet `{UuidPkgOk} id v old w :
  quiet w -> pk_ok (DB (repo w)) -> latest (st w) id v -> st w id v = Some old ->
  exists w1, Adapter.RevokeKey id w = (Ok tt, w1) /\ quiet w1 /\ pk_ok (DB (repo w1)) /\ latest (st w1) id v
    /\ st w1 id v = Some (upd_revoked KeyStatusRevoked (clock w) old)
    /\ locks (repo w1) = locks (repo w) /\ clock w1 = clock w.
Proof.
  intros Hq Hok [Hp Hmax] Ho. unfold Adapter.RevokeKey, time_now.
  destruct (StmtRevokeKey KeyStatusRevoked (clock w) id (DB (repo w))) as [r t'] eqn:Es.
  assert (exists n, r = Ok n) as [n ->] by (unfold StmtRevokeKey, sql_update in Es; simplify_eq; by eexists).
  destruct (revoke_key_step _ _ _ _ _ Hok Es) as (Hok1 & Ha & Hz & _).
  erewrite bind_eq by done. erewrite bind_eq; last first.
  { unfold on_err. rewrite db_stmt_quiet by done. rewrite Es. done. }
  destruct (Z.eqb_spec n 0) as [Hn|_]; [destruct (Hz Hn) as [_ Habs]; exfalso; apply Habs; by exists v|].
  eexists. split; [done|].
  assert (forall u, abs t' id u = upd_revoked KeyStatusRevoked (clock w) <$> st w id u) as Hrow.
  { intros u. rewrite (Ha id u). unfold s_alter. by rewrite bool_decide_eq_true_2. }
  split_and!; try done; unfold st; simpl.
  - split; [rewrite Hrow; by apply fmap_is_Some|]. intros u. rewrite Hrow, fmap_is_Some. apply Hmax.
  - by rewrite Hrow, Ho.
Qed.

(** revocation is undone by rotation.  [RevokeKey] revokes every version,
    but rotating the key afterwards is accepted, makes a new active version
    that [GetKey] returns, and turns the status of the version it replaces
    from "revoked" into "rotated". *)
Theorem rotation_revives `{UuidPkgOk} id dek w v old m :
  quiet w -> pk_ok (DB (repo w)) -> latest (st w) id v -> st w id v = Some old ->
  row_metadata old = JsonOf m -> mdVersion m = v -> 0 < v < int32_max -> dek <> [] ->
  contains (locks (repo w)) (GetLockID id) = false ->
  exists w1 l w2 k k', Adapter.RevokeKey id w = (Ok tt, w1)
    /\ Adapter.GetKey id w1 = alloc k w1 /\ Status k = KeyStatusRevoked
    /\ Adapter.RotateKey id dek w1 = (Ok l, w2)
    /\ Adapter.GetKey id w2 = alloc (rotated_key id v m dek (clock w)) w2
    /\ Adapter.GetKeyByVersion id v w2 = alloc k' w2
    /\ EncryptedDEK k' = row_dek old /\ Status k' = KeyStatusRotated.
Proof.
  intros Hq Hok Hl Ho Hm Hv Hr Hd Hlk.
  destruct (RevokeKey_quiet id v old w Hq Hok Hl Ho) as (w1 & Hrev & Hq1 & Hok1 & Hl1 & Ho1 & Hlk1 & Hc1).
  rewrite <- Hlk1 in Hlk.
  destruct (rotate_effect id dek w1 v _ m Hq1 Hok1 Hl1 Ho1 Hm Hv Hr Hd Hlk) as (l & w2 & Hrot & _ & Hg & Hgv & _).
  rewrite Hc1 in Hg. exists w1, l, w2. do 2 eexists. split_and!; [done| | |done|done|exact Hgv|done|done].
  - apply (proj2 (GetKey_run id w1 Hq1 Hok1) v _ (Some m) Hl1 Ho1). simpl. by rewrite Hm.
  - done.
Qed.

Lemma rotation_revives_witness :
  exists w1 l w2, Adapter.RevokeKey id_a ex_two = (Ok tt, w1) /\ Adapter.RotateKey id_a [9] w1 = (Ok l, w2)
    /\ Adapter.GetKey id_a w2 = alloc (rotated_key id_a 1 (ex_md 1) [9] (clock ex_two)) w2.
Proof.
  assert (0 < 1 < int32_max) as Hv by (vm_compute; split; congruence).
  destruct (rotation_revives id_a [9] ex_two 1 (ex_row id_a 1 1000) (ex_md 1) eq_refl ex_two_pk ex_two_latest
    ltac:(vm_compute; reflexivity) eq_refl eq_refl Hv ltac:(discriminate) ltac:(vm_compute; reflexivity))
    as (w1 & l & w2 & k & k' & H1 & _ & _ & H2 & H3 & _).
  exists w1, l, w2. split; [exact H1|split; [exact H2|exact H3]].
Defined.
