(* ===== verification/Listing.v ===== *)
(** * Listing keys page by page

    [StmtListKeys] of [internal/constants/queries.go] returns the latest
    version of each key, newest first, below a cursor; [ListKeys] of
    [internal/service/key_lister.go] hands out the creation time of the last
    key of a full page as the next cursor.  This file proves what a client
    that follows the cursors sees. *)

From S2P Require Import Prelude Errors Domain Repo Psql PsqlSpec.

(** A client that asks for pages of [limit] keys until a short one comes. *)
Fixpoint list_pages (fuel : nat) (cursor : option Z) (limit : Z) (t : list Row) : list Row :=
  match fuel with
  | O => []
  | S fuel' =>
      match fst (StmtListKeys cursor limit t) with
      | Ok page =>
          page ++ (if Z.of_nat (length page) =? limit then
                     match last page with
                     | Some r => list_pages fuel' (Some (row_created_at r)) limit t
                     | None => []
                     end
                   else [])
      | _ => []
      end
  end.

(** ** The latest row of each key *)

#[export] Instance id_version_total : Total id_version_desc.
Proof.
  intros r1 r2. unfold id_version_desc.
  destruct (Z.lt_total (uuid_bits (value (row_id r1))) (uuid_bits (value (row_id r2)))) as [|[E|]];
    [by left; left| |by right; left].
  assert (row_id r1 = row_id r2) as Hid.
  { destruct (row_id r1), (row_id r2); simpl in *. f_equal. by apply uuid_eq. }
  destruct (Z.le_ge_cases (row_version r1) (row_version r2)); [right|left]; right; split; congruence || lia.
Qed.

#[export] Instance id_version_trans : Transitive id_version_desc.
Proof.
  intros r1 r2 r3. unfold id_version_desc.
  intros [?|[E1 ?]] [?|[E2 ?]]; [left; lia|left; congruence|left; congruence|right; split; [congruence|lia]].
Qed.

Definition max_in (l : list Row) (r : Row) : Prop :=
  forall r', r' ∈ l -> row_id r' = row_id r -> row_version r' <= row_version r.

Lemma distinct_on_id_spec last l r :
  StronglySorted id_version_desc l -> NoDup (map pk l) ->
  (forall i r', last = Some i -> r' ∈ l -> uuid_bits (value i) <= uuid_bits (value (row_id r'))) ->
  r ∈ distinct_on_id last l <-> r ∈ l /\ last <> Some (row_id r) /\ max_in l r.
Proof.
  revert last. induction l as [|a l IH]; intros last Hs Hnd Hlast; simpl.
  { rewrite elem_of_nil. naive_solver. }
  apply StronglySorted_inv in Hs as [Hs Hall]. rewrite Forall_forall in Hall.
  apply NoDup_cons in Hnd as [Hni Hnd].
  case_bool_decide as E.
  - rewrite IH; [|done|done|intros; apply Hlast; [done|by right]]. unfold max_in. rewrite elem_of_cons. split.
    + intros (Hin & Hne & Hmax). split_and!; [by right|done|]. intros r' [->|Hr']%elem_of_cons; [congruence|auto].
    + intros ([->|Hin] & Hne & Hmax); [done|]. split_and!; try done. intros r' Hr'. apply Hmax. by right.
  - rewrite elem_of_cons, IH; [|done|done|].
    2: { intros i r' [= <-] Hr'. specialize (Hall r' Hr'). unfold id_version_desc in Hall.
         destruct Hall as [?|[-> _]]; lia. }
    unfold max_in. rewrite elem_of_cons. split.
    + intros [->|(Hin & Hne & Hmax)].
      * split_and!; [by left|done|]. intros r' [->|Hr']%elem_of_cons Hid; [lia|].
        specialize (Hall r' Hr'). unfold id_version_desc in Hall. rewrite Hid in Hall. lia.
      * split_and!; [by right| |].
        -- intros ->. specialize (Hlast _ a eq_refl ltac:(by left)).
           specialize (Hall r Hin). unfold id_version_desc in Hall. destruct Hall as [?|[? _]]; [lia|congruence].
        -- intros r' [->|Hr']%elem_of_cons; [congruence|auto].
    + intros ([->|Hin] & Hne & Hmax); [by left|]. right. split_and!; [done| |].
      * intros [= Hid]. apply Hni, list_elem_of_fmap. exists r. split; [|done]. unfold pk. f_equal; [done|].
        specialize (Hall r Hin). unfold id_version_desc in Hall. rewrite Hid in Hall.
        specialize (Hmax a ltac:(by left) Hid). lia.
      * intros r' Hr'. apply Hmax. by right.
Qed.

Lemma latest_keys_spec t r :
  pk_ok t -> r ∈ latest_keys t <-> r ∈ t /\ latest (abs t) (row_id r) (row_version r).
Proof.
  intros Hok. unfold latest_keys. pose proof (merge_sort_Permutation id_version_desc t) as Hp.
  rewrite distinct_on_id_spec.
  - unfold max_in. setoid_rewrite Hp. split.
    + intros (Hin & _ & Hmax). split; [done|]. split; [by rewrite abs_elem|].
      intros v' [r' [Hr' Hpk]%abs_Some]. unfold pk in Hpk; simplify_eq. auto.
    + intros (Hin & _ & Hmax). split_and!; try done. intros r' Hr' Hid. apply Hmax.
      rewrite <-Hid. by rewrite abs_elem.
  - apply StronglySorted_merge_sort; apply _.
  - unfold pk_ok in Hok. rewrite <-Hp in Hok. exact Hok.
  - done.
Qed.

Lemma latest_keys_NoDup_id t : NoDup (map row_id (latest_keys t)).
Proof.
  unfold latest_keys.
  assert (forall last l, StronglySorted id_version_desc l ->
    (forall i r', last = Some i -> r' ∈ l -> uuid_bits (value i) <= uuid_bits (value (row_id r'))) ->
    NoDup (map row_id (distinct_on_id last l))
    /\ forall r, r ∈ distinct_on_id last l -> r ∈ l /\ last <> Some (row_id r)) as Hg.
  { intros last l. revert last. induction l as [|a l IH]; intros last Hs Hl; simpl.
    { split; [constructor|]. intros r Hr. by apply elem_of_nil in Hr. }
    apply StronglySorted_inv in Hs as [Hs Hall]. rewrite Forall_forall in Hall. case_bool_decide as E.
    - destruct (IH last Hs) as [Hn Hin]; [intros; apply Hl; [done|by right]|].
      split; [done|]. intros r [? ?]%Hin. split; [by right|done].
    - destruct (IH (Some (row_id a)) Hs) as [Hn Hin].
      { intros i r' [= <-] Hr'. specialize (Hall r' Hr'). unfold id_version_desc in Hall.
        destruct Hall as [?|[-> _]]; lia. }
      split.
      + simpl. constructor; [|done]. intros (r & Hid & Hr)%list_elem_of_fmap. apply Hin in Hr as [_ Hne]. congruence.
      + intros r [->|Hr]%elem_of_cons; [split; [by left|done]|]. apply Hin in Hr as [Hr Hne]. split; [by right|].
        intros ->. specialize (Hl _ a eq_refl ltac:(by left)). specialize (Hall r Hr).
        unfold id_version_desc in Hall. destruct Hall as [?|[? _]]; [lia|congruence]. }
  apply Hg; [apply StronglySorted_merge_sort; apply _|done].
Qed.

Lemma latest_keys_length t : (length (latest_keys t) <= length t)%nat.
Proof.
  unfold latest_keys. rewrite <-(merge_sort_Permutation id_version_desc t) at 2.
  generalize (merge_sort id_version_desc t) (@None KeyID). intros l.
  induction l as [|a l IH]; intros last; simpl; [lia|].
  case_bool_decide; simpl; [specialize (IH last)|specialize (IH (Some (row_id a)))]; lia.
Qed.

(** ** Following the cursor *)

#[export] Instance created_desc_total : Total created_desc.
Proof. intros r1 r2. unfold created_desc. lia. Qed.
#[export] Instance created_desc_trans : Transitive created_desc.
Proof. intros r1 r2 r3. unfold created_desc. lia. Qed.

(** The whole listing, newest first. *)
Definition listing (t : list Row) : list Row := merge_sort created_desc (latest_keys t).

Definition newer (r1 r2 : Row) : Prop := row_created_at r2 < row_created_at r1.

(** Rows written through the adapter carry microsecond timestamps. *)
Definition aligned (t : list Row) : Prop := forall r, r ∈ t -> pg_ts (row_created_at r) = row_created_at r.

Lemma sorted_strict l :
  NoDup (map row_created_at l) -> StronglySorted newer (merge_sort created_desc l).
Proof.
  intros Hnd. pose proof (StronglySorted_merge_sort created_desc l) as Hs.
  rewrite <-(merge_sort_Permutation created_desc l) in Hnd.
  induction Hs as [|r l' Hs IH Hf]; [constructor|].
  apply NoDup_cons in Hnd as [Hni Hnd]. constructor; [by apply IH|].
  rewrite Forall_forall in Hf |- *. intros r' Hr'. specialize (Hf r' Hr').
  unfold created_desc in Hf. unfold newer.
  assert (row_created_at r' <> row_created_at r); [|lia].
  intros E. apply Hni. rewrite <-E. apply list_elem_of_fmap. by exists r'.
Qed.

(** Below the cursor is what comes after it. *)
Lemma filter_after l1 r l2 :
  StronglySorted newer (l1 ++ r :: l2) ->
  List.filter (λ x, row_created_at x <? row_created_at r) (l1 ++ r :: l2) = l2.
Proof.
  induction l1 as [|a l1 IH]; simpl; intros Hs; apply StronglySorted_inv in Hs as [Hs Hf];
    rewrite Forall_forall in Hf.
  - rewrite Z.ltb_irrefl. clear Hs. induction l2 as [|b l2 IH2]; [done|]; simpl.
    pose proof (Hf b ltac:(by left)) as Hb. unfold newer in Hb.
    rewrite (proj2 (Z.ltb_lt _ _) Hb). f_equal. apply IH2. intros x Hx. apply Hf. by right.
  - pose proof (Hf r ltac:(apply elem_of_app; right; by left)) as Hr. unfold newer in Hr.
    rewrite (proj2 (Z.ltb_ge _ _)) by lia. by apply IH.
Qed.

#[local] Instance newer_antisymm : AntiSymm (=) newer.
Proof. intros r1 r2. unfold newer. lia. Qed.

Lemma filter_NoDup_map {A B} (g : A -> B) (c : A -> bool) l : NoDup (map g l) -> NoDup (map g (List.filter c l)).
Proof.
  induction l as [|a l IH]; simpl; [done|]. intros [Hni Hnd]%NoDup_cons.
  destruct (c a); simpl; [|auto]. constructor; [|auto].
  intros (b & E & Hb)%list_elem_of_fmap. apply Hni, list_elem_of_fmap. exists b. split; [done|].
  apply list_elem_of_In in Hb. apply filter_In in Hb as [Hb _]. by apply list_elem_of_In.
Qed.

Lemma filter_Permutation {A} (c : A -> bool) l l' :
  Permutation l l' -> Permutation (List.filter c l) (List.filter c l').
Proof.
  induction 1 as [|a l l' _ IH|a b l|l1 l2 l3 _ IH1 _ IH2]; simpl.
  - done.
  - destruct (c a); [by constructor|done].
  - destruct (c a), (c b); try done. constructor.
  - by etrans.
Qed.

Lemma filter_sorted (c : Row -> bool) l : StronglySorted newer l -> StronglySorted newer (List.filter c l).
Proof.
  induction 1 as [|a l Hs IH Hf]; simpl; [constructor|]. destruct (c a); [|done]. constructor; [done|].
  rewrite Forall_forall in Hf |- *. intros x Hx. apply Hf.
  apply list_elem_of_In in Hx. apply filter_In in Hx as [Hx _]. by apply list_elem_of_In.
Qed.

Lemma merge_sort_filter (c : Row -> bool) l :
  NoDup (map row_created_at l) ->
  merge_sort created_desc (List.filter c l) = List.filter c (merge_sort created_desc l).
Proof.
  intros Hnd. apply (StronglySorted_unique newer).
  - by apply sorted_strict, filter_NoDup_map.
  - by apply filter_sorted, sorted_strict.
  - rewrite (merge_sort_Permutation created_desc (List.filter c l)).
    by apply filter_Permutation; rewrite merge_sort_Permutation.
Qed.

Lemma list_page cursor limit t :
  NoDup (map row_created_at (latest_keys t)) -> 0 <= limit ->
  fst (StmtListKeys cursor limit t)
  = Ok (take (Z.to_nat limit) (List.filter (before_cursor cursor) (listing t))).
Proof.
  intros Hnd Hl. unfold StmtListKeys. rewrite (proj2 (Z.ltb_ge _ _) Hl). simpl.
  by rewrite merge_sort_filter.
Qed.

Lemma list_pages_after fuel cursor limit t rest :
  NoDup (map row_created_at (latest_keys t)) -> aligned (listing t) -> 0 < limit ->
  List.filter (before_cursor cursor) (listing t) = rest -> (exists done_, listing t = done_ ++ rest) ->
  (length rest < fuel)%nat -> list_pages fuel cursor limit t = rest.
Proof.
  intros Hnd Hal Hlim. revert cursor rest.
  induction fuel as [|fuel IH]; intros cursor rest Hf [done_ Hd] Hlen; [lia|].
  cbn [list_pages]. rewrite list_page by (done || lia). rewrite Hf.
  rewrite <-(take_drop (Z.to_nat limit) rest) at 4. f_equal.
  destruct (Z.of_nat (length (take (Z.to_nat limit) rest)) =? limit) eqn:E.
  - apply Z.eqb_eq in E. rewrite length_take in E.
    destruct (last (take (Z.to_nat limit) rest)) as [r|] eqn:Hlast.
    2: { apply last_None in Hlast. rewrite <-length_zero_iff_nil, length_take in Hlast. lia. }
    apply last_Some in Hlast as [pre Hpre].
    assert (listing t = (done_ ++ pre) ++ r :: drop (Z.to_nat limit) rest) as Hsplit.
    { rewrite Hd. rewrite <-(take_drop (Z.to_nat limit) rest) at 1. rewrite Hpre.
      by rewrite <-!app_assoc. }
    apply IH; [|by exists ((done_ ++ pre) ++ [r]); rewrite Hsplit, <-!app_assoc|rewrite length_drop; lia].
    unfold before_cursor. rewrite Hal by (rewrite Hsplit; apply elem_of_app; right; by left).
    rewrite Hsplit at 1. apply filter_after. rewrite <-Hsplit. by apply sorted_strict.
  - apply Z.eqb_neq in E. rewrite length_take in E. symmetry. apply drop_ge. lia.
Qed.


Definition ex_table : list Row :=
  [ex_row id_a 1 1000; ex_row id_b 1 3000; ex_row id_a 2 4000].


(** Two keys created in the same microsecond, listed one per page. *)
Definition ex_tie : list Row := [ex_row id_a 1 1000; ex_row id_b 1 1000].

(** the hypothesis of distinct creation times is needed: with two keys of
    one creation time and a page size of one, following the tokens ends after
    the first key, because the next page asks for strictly older keys. *)
Theorem page_tie_loses_key :
  length (latest_keys ex_tie) = 2%nat /\ length (list_pages 10 None 1 ex_tie) = 1%nat.
Proof. split; vm_compute; reflexivity. Qed.
