(* ===== verification/PsqlLaws.v ===== *)
(** * The PostgreSQL repository keeps the promises of the interface

    Discharges [RepoLaws] of [Repo.v] for the adapter of [Psql.v]: the view
    of the table is what [GetKey] ([0]) and [GetKeyByVersion] read, and each
    method moves it only for the keys it names. *)

From S2P Require Import Prelude Errors Domain Repo Psql PsqlSpec.

Definition key_of (id : KeyID) (r : Row) : option Key :=
  match unmarshal_ptr (row_metadata r) with Ok m => Some (key_of_row id r m) | _ => None end.

Definition psql_view (a : PSQLAdapter) (id : KeyID) (v : Z) : option Key :=
  r ← (if v =? 0 then u ← max_version id (DB a); abs (DB a) id u
       else if v <? 0 then None else abs (DB a) id v);
  key_of id r.

Definition psql_inv (a : PSQLAdapter) : Prop := pk_ok (DB a).

(** The view of a key depends on its rows only. *)
Lemma max_version_ext id t t' :
  pk_ok t -> pk_ok t' -> (forall v, abs t' id v = abs t id v) -> max_version id t' = max_version id t.
Proof.
  intros Hok Hok' E.
  assert (forall v, latest (abs t') id v <-> latest (abs t) id v) as Hl
    by (intros v; unfold latest; setoid_rewrite E; done).
  destruct (max_version id t) as [v|] eqn:Ev.
  - apply max_version_latest in Ev; [|done]. apply Hl in Ev. by apply max_version_latest.
  - apply max_version_absent in Ev. apply max_version_absent. intros [v Hv]. apply Ev.
    exists v. by rewrite <-E.
Qed.

Lemma psql_view_ext a a' id v :
  psql_inv a -> psql_inv a' -> (forall u, abs (DB a') id u = abs (DB a) id u) ->
  psql_view a' id v = psql_view a id v.
Proof.
  intros Hi Hi' E. unfold psql_view. rewrite (max_version_ext id (DB a) (DB a')) by done.
  destruct (v =? 0); [|by rewrite E]. by destruct (max_version id (DB a)); simpl; rewrite ?E.
Qed.

Lemma psql_view_DB a a' id v : DB a' = DB a -> psql_view a' id v = psql_view a id v.
Proof. unfold psql_view. by intros ->. Qed.

(** ** Reads *)

Lemma grows_refl (w : W) (w' : W) :
  heap_wf w -> clock w' = clock w -> heap w' = heap w -> next w' = next w -> grows w w'.
Proof.
  unfold grows, heap_wf. intros Hw -> -> ->. split_and!; [done|lia|done].
Qed.

Lemma alloc_grows k (w w1 : W) :
  heap_wf w -> clock w1 = clock w -> heap w1 = heap w -> next w1 = next w -> grows w (snd (alloc k w1)).
Proof.
  intros Hw Hc Hh Hn. split_and!; simpl.
  - unfold heap_wf. simpl. rewrite Hh, Hn. intros l. rewrite lookup_insert. case_decide; [lia|].
    intros ?%Hw. lia.
  - lia.
  - rewrite Hh, Hn. apply insert_subseteq. by apply heap_wf_next.
Qed.

Lemma alloc_all_grows ks (w w1 : W) r w' :
  heap_wf w -> grows w w1 -> alloc_all ks w1 = (r, w') -> grows w w' /\ repo w' = repo w1.
Proof.
  intros Hw. revert w1 r w'. induction ks as [|k ks IH]; intros w1 r w' Hg; simpl.
  { go_unfold. intros; by simplify_eq. }
  unfold mbind, GoM_bind, mret, GoM_ret. destruct (alloc k w1) as [ra w2] eqn:Ha.
  assert (grows w1 w2) as Hg2.
  { replace w2 with (snd (alloc k w1)) by (by rewrite Ha). apply alloc_grows; [by destruct Hg|done..]. }
  assert (repo w2 = repo w1) as Hr2 by (unfold alloc in Ha; by simplify_eq).
  assert (grows w w2) as Hg3.
  { destruct Hg as (? & ? & ?), Hg2 as (? & ? & ?). split_and!; [done|lia|by etrans]. }
  destruct ra as [l|e|]; [|intros; simplify_eq; (split; [done|congruence])..].
  destruct (alloc_all ks w2) as [rk w3] eqn:Hk. destruct (IH _ _ _ Hg3 Hk) as [Hg4 Hr4].
  destruct rk; intros; simplify_eq; (split; [done|congruence]).
Qed.

Section Laws.
Context `{UuidPkgOk}.

Abbreviation pframe := (frame psql_view psql_inv).

(** A call that keeps the table. *)
Lemma frame_keep {A} (m : M W A) :
  (forall w r w', heap_wf w -> m w = (r, w') -> grows w w' /\ DB (repo w') = DB (repo w)) ->
  pframe untouched m.
Proof.
  intros Hm w r w' Hw Hi E. destruct (Hm _ _ _ Hw E) as [Hg HD]. split_and!; [done| | |].
  - unfold psql_inv in *. by rewrite HD.
  - intros. right. by apply psql_view_DB.
  - intros. by apply psql_view_DB.
Qed.

(** A writing call, through its step of the store. *)
Lemma frame_write {A} (T : KeyID -> Prop) (m : M W A) :
  (forall w r w', heap_wf w -> psql_inv (repo w) -> m w = (r, w') ->
     grows w w' /\ psql_inv (repo w')
     /\ if is_ok r then forall id v, T id \/ st w' id v = st w id v else DB (repo w') = DB (repo w)) ->
  (forall id, Decision (T id)) -> pframe T m.
Proof.
  intros Hm HT w r w' Hw Hi E. destruct (Hm _ _ _ Hw Hi E) as (Hg & Hi' & Hr).
  split_and!; [done|done| |].
  - intros id v. destruct (HT id) as [|Hn]; [by left|right].
    destruct (is_ok r); [|by apply psql_view_DB].
    apply psql_view_ext; [done..|]. intros u. destruct (Hr id u) as [?|?]; done.
  - intros Hok. rewrite Hok in Hr. intros. by apply psql_view_DB.
Qed.

Lemma query_key_run q w r w' :
  Adapter.query_key q w = (r, w') ->
  clock w' = clock w /\ heap w' = heap w /\ next w' = next w /\ DB (repo w') = DB (repo w)
  /\ forall k, r = Ok k -> exists row, q (DB (repo w)) = Some row /\ ScanKeyRow row = Ok k.
Proof.
  unfold Adapter.query_key. go_unfold. destruct (db_query q w) as [rq w1] eqn:Hq.
  apply db_query_run in Hq as (Hc & Hh & Hn & HD & Hr).
  destruct rq as [o|e|]; [|intros; by simplify_eq..].
  destruct Hr as [[= ->]|[? ?]]; [|done].
  destruct (q (DB (repo w))) as [row|]; simpl; intros; simplify_eq; split_and!; try done.
  intros k Hk. by exists row.
Qed.

Lemma ScanKeyRow_key_of id row k :
  ScanKeyRow row = Ok k -> key_of id row = Some (set_ID id k) /\ Version k = row_version row.
Proof.
  unfold ScanKeyRow, key_of. destruct (unmarshal_ptr (row_metadata row)); simpl; intros; by simplify_eq.
Qed.

Lemma law_psql_GetKey id : pframe untouched (Adapter.GetKey id).
Proof.
  apply frame_keep. intros w r w' Hw. unfold Adapter.GetKey. go_unfold.
  destruct (Adapter.query_key _ w) as [rq w1] eqn:Hq.
  apply query_key_run in Hq as (Hc & Hh & Hn & HD & _).
  destruct rq as [k|e|]; simpl; intros E; [|injection E as <- <-; split; [by apply grows_refl|done]..].
  replace w' with (snd (alloc (set_ID id k) w1)) by (by rewrite E). split; [by apply alloc_grows|done].
Qed.

Lemma law_psql_GetKey_view id w r w' :
  psql_inv (repo w) -> Adapter.GetKey id w = (r, w') -> points_to_view psql_view w id 0 r w'.
Proof.
  intros Hi. unfold Adapter.GetKey. go_unfold. destruct (Adapter.query_key _ w) as [rq w1] eqn:Hq.
  apply query_key_run in Hq as (Hc & Hh & Hn & HD & Hr).
  destruct rq as [k|e|]; simpl; intros E l Hl; simplify_eq/=.
  destruct (Hr k eq_refl) as (row & Hrow & Hs).
  exists (set_ID id k). unfold alloc in E. simplify_eq/=. rewrite lookup_insert_eq. split_and!; try done.
  unfold psql_view. simpl. rewrite latest_key_abs in Hrow by done. rewrite Hrow. simpl.
  by apply ScanKeyRow_key_of.
Qed.

Lemma law_psql_GetKeyByVersion id v : pframe untouched (Adapter.GetKeyByVersion id v).
Proof.
  apply frame_keep. intros w r w' Hw. unfold Adapter.GetKeyByVersion. destruct (v <=? 0).
  { unfold fail. intros; simplify_eq. split; [by apply grows_refl|done]. }
  go_unfold. destruct (Adapter.query_key _ w) as [rq w1] eqn:Hq.
  apply query_key_run in Hq as (Hc & Hh & Hn & HD & _).
  destruct rq as [k|e|]; simpl; intros E; [|injection E as <- <-; split; [by apply grows_refl|done]..].
  replace w' with (snd (alloc (set_Version v (set_ID id k)) w1)) by (by rewrite E).
  split; [by apply alloc_grows|done].
Qed.

Lemma law_psql_GetKeyByVersion_view id v w r w' :
  psql_inv (repo w) -> Adapter.GetKeyByVersion id v w = (r, w') -> points_to_view psql_view w id v r w'.
Proof.
  intros Hi. unfold Adapter.GetKeyByVersion. destruct (v <=? 0) eqn:Hv.
  { unfold fail. intros; simplify_eq. by intros l. }
  go_unfold. destruct (Adapter.query_key _ w) as [rq w1] eqn:Hq.
  apply query_key_run in Hq as (Hc & Hh & Hn & HD & Hr).
  destruct rq as [k|e|]; simpl; intros E l Hl; simplify_eq/=.
  destruct (Hr k eq_refl) as (row & Hrow & Hs).
  exists (set_Version v (set_ID id k)). unfold alloc in E. simplify_eq/=. rewrite lookup_insert_eq.
  split_and!; try done. bool_to_prop. unfold psql_view.
  rewrite (proj2 (Z.eqb_neq v 0)), (proj2 (Z.ltb_ge v 0)) by lia.
  change (StmtGetKeyByVersion id v (DB (repo w))) with (abs (DB (repo w)) id v) in Hrow.
  rewrite Hrow. simpl. destruct (ScanKeyRow_key_of id row k Hs) as [-> Hver]. f_equal.
  apply abs_Some in Hrow as [_ Hpk]. unfold pk in Hpk. destruct k; simpl in *. simplify_eq. done.
Qed.

(** ** Calls that only send statements *)

Definition keeps_heap {A} (m : M W A) : Prop :=
  forall w r w', m w = (r, w') -> clock w' = clock w /\ heap w' = heap w /\ next w' = next w.

Lemma keeps_bind {A B} (m : M W A) (f : A -> M W B) :
  keeps_heap m -> (forall a, keeps_heap (f a)) -> keeps_heap (m ≫= f).
Proof.
  intros Hm Hf w r w'. unfold mbind, GoM_bind. destruct (m w) as [[a|e|why] w1] eqn:E; apply Hm in E.
  - intros H1%Hf. destruct E as (-> & -> & ->) in H1 |- *. destruct H1 as (-> & -> & ->). naive_solver.
  - intros; by simplify_eq.
  - intros; by simplify_eq.
Qed.

Lemma keeps_stmt {A} (f : list Row -> res A * list Row) : keeps_heap (db_stmt f).
Proof. intros w r w' (? & ? & ? & _)%db_stmt_run. done. Qed.

Lemma keeps_on_err {A} g (m : M W A) : keeps_heap m -> keeps_heap (on_err g m).
Proof. intros Hm w r w' (r0 & E & _)%on_err_run. by apply Hm in E. Qed.

Lemma keeps_try {A} (m : M W A) : keeps_heap m -> keeps_heap (try_ m).
Proof.
  intros Hm w r w'. unfold try_. destruct (m w) as [[] w1] eqn:E; apply Hm in E; intros; by simplify_eq.
Qed.

Lemma keeps_lift {A} (r0 : res A) : keeps_heap (lift_res r0).
Proof. intros w r w'. unfold lift_res. intros; by simplify_eq. Qed.

Lemma keeps_ret {A} (a : A) : keeps_heap (mret a).
Proof. intros w r w'. unfold mret, GoM_ret. intros; by simplify_eq. Qed.

Lemma keeps_fail {A} e : keeps_heap (@fail _ _ A e).
Proof. intros w r w'. unfold fail. intros; by simplify_eq. Qed.

Lemma keeps_gets {A} (f : W -> A) : keeps_heap (gets f).
Proof. intros w r w'. unfold gets. intros; by simplify_eq. Qed.

Lemma keeps_rollback t : keeps_heap (Rollback t).
Proof. intros w r w'. unfold Rollback, modify. intros; by simplify_eq. Qed.

Lemma keeps_deref_all ls : keeps_heap (@deref_all PSQLAdapter ls).
Proof. intros w r w' [-> _]%deref_all_run. done. Qed.

Lemma keeps_if {A} (c : bool) (m1 m2 : M W A) :
  keeps_heap m1 -> keeps_heap m2 -> keeps_heap (if c then m1 else m2).
Proof. by destruct c. Qed.

Lemma keeps_grows {A} (m : M W A) w r w' :
  keeps_heap m -> heap_wf w -> m w = (r, w') -> grows w w'.
Proof. intros Hm Hw (? & ? & ?)%Hm. by apply grows_refl. Qed.

End Laws.

Create HintDb keeps discriminated.
#[export] Hint Resolve keeps_bind keeps_stmt keeps_on_err keeps_try keeps_lift keeps_ret keeps_fail
  keeps_gets keeps_rollback keeps_deref_all keeps_if : keeps.
#[export] Hint Unfold db_query db_rows time_now TryAcquireLock : keeps.

Section MoreLaws.
Context `{UuidPkgOk}.
Abbreviation pframe := (frame psql_view psql_inv).

Lemma keeps_exec_updates now batch : keeps_heap (Adapter.exec_updates now batch).
Proof. induction batch as [|[j id] batch IH]; simpl; auto with keeps. Qed.

Lemma keeps_UpdateBatch ls : keeps_heap (Adapter.UpdateBatchKeyMetadata ls).
Proof.
  destruct ls; unfold Adapter.UpdateBatchKeyMetadata; [apply keeps_ret|].
  apply keeps_bind; [auto with keeps|]. intros ks. apply keeps_bind; [auto with keeps|]. intros q.
  apply keeps_bind; [apply keeps_gets|]. intros now. apply keeps_bind; [auto with keeps|]. intros t.
  apply keeps_bind; [apply keeps_try, keeps_exec_updates|]. intros [[]|e]; auto with keeps.
Qed.

(** A write known by its step of the store. *)
Lemma frame_op o (T : KeyID -> Prop) (m : M W unit) :
  m = run_op o -> keeps_heap m -> (forall id, Decision (T id)) ->
  (forall ts h s s', store_step ts h s o s' -> forall id v, T id \/ s' id v = s id v) ->
  pframe T m.
Proof.
  intros -> Hk HT Hstep. apply frame_write; [|done]. intros w r w' Hw Hi E.
  split; [by eapply keeps_grows|].
  assert (op_ok o w r w') as (Hok & _ & Hr).
  { destruct o; simpl in E;
      [by apply create_ok | by apply create_batch_ok | by apply update_ok | | by apply revoke_ok
      | by apply revoke_batch_ok | by apply update_batch_ok].
    go_unfold. destruct (Adapter.RotateKey id dek w) as [r1 w1] eqn:Hr.
    apply rotate_key_step in Hr as (? & ? & Hs); [|done]. destruct r1; simplify_eq; done. }
  split; [done|]. destruct r; simpl; [|done..]. by eapply Hstep.
Qed.

Lemma s_alter_other P f s id v : P id v = false -> s_alter P f s id v = s id v.
Proof. unfold s_alter. by intros ->. Qed.

Lemma only_other id u i v : i <> id -> only id u i v = false.
Proof. intros. apply bool_decide_eq_false_2. congruence. Qed.

Lemma law_psql_CreateKey k :
  pframe (λ id, exists k', k = Some k' /\ ID k' = id) (Adapter.CreateKey k).
Proof.
  apply (frame_op (WCreate k)); [done| | |].
  - destruct k as [k|]; simpl; [|apply keeps_fail]. destruct (Metadata k); [|apply keeps_fail].
    auto with keeps.
  - intros id. destruct k as [k|]; [|right; naive_solver].
    destruct (decide (ID k = id)); [left; eauto|right; naive_solver].
  - intros ts h s s' Hs id v. inversion Hs as [k0 s0 _ _ _ E| | | | | |]; subst. rewrite (E id v).
    unfold s_insert. case_decide as Hp; [|by right]. left. injection Hp as <- <-. eauto.
Qed.

Lemma foldr_insert_other rows s id v :
  (forall r, r ∈ rows -> row_id r <> id) -> foldr s_insert s rows id v = s id v.
Proof.
  induction rows as [|r rows IH]; intros Hr; simpl; [done|]. unfold s_insert at 1.
  rewrite decide_False; [apply IH; intros; apply Hr; by right|]. intros [= E _]. by apply (Hr r); [left|].
Qed.

Lemma law_psql_CreateBatchKeys ks :
  pframe (λ id, exists k, k ∈ ks /\ ID k = id) (Adapter.CreateBatchKeys ks).
Proof.
  apply (frame_op (WCreateBatch ks)); [done| | |].
  - destruct ks; simpl; auto with keeps.
  - intros id. destruct (decide (Exists (λ k, ID k = id) ks)) as [He|He]; [left|right];
      rewrite Exists_exists in He; naive_solver.
  - intros ts h s s' Hs id v. inversion Hs as [|ks0 s0 _ _ E| | | | |]; subst. rewrite (E id v).
    destruct (decide (Exists (λ k, ID k = id) ks)) as [He|He]; rewrite Exists_exists in He;
      [left; naive_solver|right].
    apply foldr_insert_other. intros r (k & -> & Hk)%list_elem_of_fmap. naive_solver.
Qed.

Lemma law_psql_UpdateKeyMetadata id m : pframe (λ i, i = id) (Adapter.UpdateKeyMetadata id m).
Proof.
  apply (frame_op (WUpdate id m)); [done| |apply _|].
  - destruct m; simpl; [|apply keeps_fail]. unfold time_now. auto with keeps.
  - intros ts h s s' Hs i v. inversion Hs as [| |? ? u ? _ E| | | |]; subst. rewrite (E i v).
    destruct (decide (i = id)); [by left|right]. by apply s_alter_other, only_other.
Qed.

Lemma law_psql_RevokeKey id : pframe (λ i, i = id) (Adapter.RevokeKey id).
Proof.
  apply (frame_op (WRevoke id)); [done| |apply _|].
  - unfold Adapter.RevokeKey, time_now. auto with keeps.
  - intros ts h s s' Hs i v. inversion Hs as [| | | |? ? _ E| |]; subst. rewrite (E i v).
    destruct (decide (i = id)); [by left|right]. by apply s_alter_other, bool_decide_eq_false_2.
Qed.

Lemma law_psql_RevokeBatchKeys ids : pframe (λ i, i ∈ ids) (Adapter.RevokeBatchKeys ids).
Proof.
  apply (frame_op (WRevokeBatch ids)); [done| |apply _|].
  - destruct ids; simpl; [apply keeps_ret|]. unfold time_now. auto with keeps.
  - intros ts h s s' Hs i v. inversion Hs as [| | | | |? ? E|]; subst. rewrite (E i v).
    destruct (contains ids i) eqn:Hc; [left; by apply contains_spec|right]. by apply s_alter_other.
Qed.

(** ** Rotation *)

Definition grows_all {A} (m : M W A) : Prop := forall w r w', heap_wf w -> m w = (r, w') -> grows w w'.

Lemma grows_all_bind {A B} (m : M W A) (f : A -> M W B) :
  grows_all m -> (forall a, grows_all (f a)) -> grows_all (m ≫= f).
Proof.
  intros Hm Hf w r w' Hw. unfold mbind, GoM_bind. destruct (m w) as [[a|e|why] w1] eqn:E.
  - apply Hm in E; [|done]. intros Hx. eapply grows_trans; [done|]. eapply Hf; [by destruct E|done].
  - intros; simplify_eq. by eapply Hm.
  - intros; simplify_eq. by eapply Hm.
Qed.

Lemma grows_all_keeps {A} (m : M W A) : keeps_heap m -> grows_all m.
Proof. intros Hm w r w' Hw E. by eapply keeps_grows. Qed.

Lemma grows_all_try {A} (m : M W A) : grows_all m -> grows_all (try_ m).
Proof.
  intros Hm w r w' Hw. unfold try_. destruct (m w) as [[] w1] eqn:E; intros; simplify_eq; by eapply Hm.
Qed.

Lemma grows_all_sleep d : 0 <= d -> grows_all (sleep d).
Proof. intros Hd w r w' Hw. unfold sleep. intros; simplify_eq. split_and!; [done|simpl; lia|done]. Qed.

Lemma keeps_rand n : keeps_heap (rand_Intn n).
Proof. intros w r w'. unfold rand_Intn. intros; by simplify_eq. Qed.

Lemma rand_Intn_bound n w r w' : rand_Intn n w = (r, w') -> 0 < n -> exists j, r = Ok j /\ 0 <= j.
Proof.
  unfold rand_Intn. intros; simplify_eq. eexists; split; [done|].
  by apply Z.mod_pos_bound.
Qed.

Lemma grows_tx_loop {A} (fn : M W A) n err :
  grows_all fn -> (n <= maxRetries)%nat -> grows_all (tx_loop n err fn).
Proof.
  intros Hfn. revert err. induction n as [|n IH]; intros err Hn; cbn [tx_loop].
  { apply grows_all_keeps, keeps_fail. }
  apply grows_all_bind; [|intros [r|e]; [apply grows_all_keeps, keeps_lift|apply IH; lia]].
  unfold tx_attempt. apply grows_all_bind.
  { apply grows_all_keeps. unfold db_query. auto with keeps. }
  intros [[]|e]; [|apply grows_all_keeps, keeps_ret].
  apply grows_all_bind; [apply grows_all_keeps, keeps_gets|intros snap].
  apply grows_all_bind; [by apply grows_all_try|intros ra].
  apply grows_all_bind.
  { apply grows_all_keeps. destruct ra; simpl; [|apply keeps_ret]. unfold db_query. auto with keeps. }
  intros [[a|e|why]|e]; [apply grows_all_keeps, keeps_ret|apply grows_all_keeps; auto with keeps..|].
  apply grows_all_bind; [apply grows_all_keeps, keeps_rollback|intros _].
  destruct (serialization_failure e); [|apply grows_all_keeps, keeps_ret].
  intros w r w' Hw. unfold mbind at 1, GoM_bind at 1.
  destruct (rand_Intn _ w) as [rj w1] eqn:Hj.
  pose proof (backoff_bound (maxRetries - S n) ltac:(lia)) as Hb. unfold baseDelay, Millisecond in Hb.
  assert (0 < backoff (maxRetries - S n) / 10) by (apply Z.div_str_pos; lia).
  pose proof (keeps_grows _ _ _ _ (keeps_rand _) Hw Hj) as Hg1.
  apply rand_Intn_bound in Hj as (j & -> & Hj); [|done].
  intros Hx. eapply grows_trans; [exact Hg1|].
  assert (grows_all (_ ← sleep (backoff (maxRetries - S n) + j); mret (Retry e) : M W (attempt A))) as Hs.
  { apply grows_all_bind; [apply grows_all_sleep; lia|intros _; apply grows_all_keeps, keeps_ret]. }
  eapply Hs; [by destruct Hg1|done].
Qed.

Lemma grows_alloc k : grows_all (@alloc PSQLAdapter k).
Proof.
  intros w r w' Hw E. replace w' with (snd (alloc k w)) by (by rewrite E). by apply alloc_grows.
Qed.

Lemma grows_RotateKey id dek : grows_all (Adapter.RotateKey id dek).
Proof.
  unfold Adapter.RotateKey. case_bool_decide; [apply grows_all_keeps, keeps_fail|].
  apply grows_tx_loop; [|done]. unfold Adapter.rotateKeyInTx. apply grows_all_bind.
  { apply grows_all_keeps. unfold TryAcquireLock, db_query. auto with keeps. }
  intros [|]; simpl; [|apply grows_all_keeps, keeps_fail].
  apply grows_all_bind; [apply grows_all_keeps, keeps_gets|intros now].
  apply grows_all_bind; [apply grows_all_keeps; auto with keeps|intros k]. apply grows_alloc.
Qed.

Lemma law_psql_RotateKey id dek : pframe (λ i, i = id) (Adapter.RotateKey id dek).
Proof.
  apply frame_write; [|apply _]. intros w r w' Hw Hi E. split; [by eapply grows_RotateKey|].
  apply rotate_key_step in E as (Hok & _ & Hr); [|done]. split; [done|].
  destruct r; simpl; [|done..]. intros i v. inversion Hr as [| | |? ? u old n ? _ _ Ho _ _ _ Es| | |]; subst.
  destruct (decide (i = id)) as [|Hne]; [by left|right]. rewrite (Es i v).
  apply abs_Some in Ho as [_ [= Hid _]]. unfold s_insert, pk. simpl. rewrite Hid.
  rewrite decide_False by congruence. by apply s_alter_other, only_other.
Qed.

(** ** Batch updates *)

Lemma s_update_other ts id j s s' i v : s_update ts id j s s' -> i <> id -> s' i v = s i v.
Proof.
  intros [u s1 _ E|s1 _ E] Hne; rewrite (E i v); [|done]. by apply s_alter_other, only_other.
Qed.

Lemma s_updates_other ts ks s s' i v :
  s_updates ts ks s s' -> (forall k, k ∈ ks -> ID k <> i) -> s' i v = s i v.
Proof.
  induction 1 as [s s' E|k ks m s s1 s' _ Hu _ IH]; intros Hne; [by rewrite (E i v)|].
  rewrite IH by (intros; apply Hne; by right). eapply s_update_other; [done|].
  intros ->. by apply (Hne k); [left|].
Qed.

Lemma law_psql_UpdateBatch ls w r w' :
  heap_wf w -> psql_inv (repo w) -> Adapter.UpdateBatchKeyMetadata ls w = (r, w') ->
  grows w w' /\ psql_inv (repo w')
  /\ (forall id v, (exists l k, l ∈ ls /\ heap w !! l = Some k /\ ID k = id)
        \/ psql_view (repo w') id v = psql_view (repo w) id v)
  /\ (is_ok r = false -> forall id v, psql_view (repo w') id v = psql_view (repo w) id v).
Proof.
  intros Hw Hi E. split; [by eapply keeps_grows; [apply keeps_UpdateBatch| |]|].
  apply update_batch_ok in E as (Hok & _ & Hr); [|done]. split; [done|]. split.
  - intros id v. destruct r; [|right; by apply psql_view_DB..].
    inversion Hr as [| | | | | |? ks ? Hm Hu]; subst.
    destruct (decide (Exists (λ k, ID k = id) ks)) as [He|He]; rewrite Exists_exists in He.
    + left. destruct He as (k & Hk & Hid). apply mapM_Some in Hm.
      apply list_elem_of_split in Hk as (ks1 & ks2 & ->).
      apply Forall2_app_inv_r in Hm as (l1 & l2 & _ & H2 & ->).
      apply Forall2_cons_inv_r in H2 as (l & l2' & Hl & _ & ->).
      exists l, k. split_and!; [|done|done]. apply elem_of_app. right. by left.
    + right. apply psql_view_ext; [done..|]. intros u. eapply s_updates_other; [done|]. naive_solver.
  - intros Hf id v. destruct r; [done|by apply psql_view_DB..].
Qed.

(** ** The other reads *)

Lemma frame_keeps_query {A} (m : M W A) :
  keeps_heap m -> (forall w r w', m w = (r, w') -> DB (repo w') = DB (repo w)) -> pframe untouched m.
Proof.
  intros Hk HD. apply frame_keep. intros w r w' Hw E. split; [by eapply keeps_grows|by eapply HD].
Qed.

Lemma law_psql_query_metadata msg q : pframe untouched (Adapter.query_metadata msg q).
Proof.
  apply frame_keeps_query.
  - unfold Adapter.query_metadata, db_query. auto 10 with keeps.
  - intros w r w'. unfold Adapter.query_metadata. go_unfold.
    destruct (db_query q w) as [rq w1] eqn:Hq. apply db_query_run in Hq as (_ & _ & _ & HD & _).
    intros; repeat case_match; simplify_eq; done.
Qed.

Lemma law_psql_GetKeyMetadata id : pframe untouched (Adapter.GetKeyMetadata id).
Proof. apply law_psql_query_metadata. Qed.

Lemma law_psql_GetKeyMetadataByVersion id v : pframe untouched (Adapter.GetKeyMetadataByVersion id v).
Proof.
  unfold Adapter.GetKeyMetadataByVersion. destruct (v <=? 0); [|apply law_psql_query_metadata].
  apply frame_keeps_query; [apply keeps_fail|]. intros w r w'. unfold fail. intros; by simplify_eq.
Qed.

Lemma law_psql_Exists id : pframe untouched (Adapter.Exists_ id).
Proof.
  apply frame_keeps_query.
  - unfold Adapter.Exists_, db_query. auto with keeps.
  - intros w r w' (r0 & Hq & _)%on_err_run. by apply db_query_run in Hq as (_ & _ & _ & HD & _).
Qed.

(** Rows read and objects made of them. *)
Lemma db_rows_run {A} p q (f : list Row -> res A * list Row) w r w' :
  (forall t, snd (f t) = t) -> db_rows p q f w = (r, w') ->
  clock w' = clock w /\ heap w' = heap w /\ next w' = next w /\ DB (repo w') = DB (repo w).
Proof.
  intros Hf. unfold db_rows. go_unfold. destruct (db_query _ w) as [r1 w1] eqn:Hq.
  apply db_query_run in Hq as (Hc & Hh & Hn & HD & _).
  destruct r1; simpl; [|intros; by simplify_eq..].
  destruct (db_stmt f w1) as [r2 w2] eqn:Hs.
  apply db_stmt_run in Hs as (Hc2 & Hh2 & Hn2 & [(e & -> & HD2)|(t & Ht & HD2)]);
    intros; simplify_eq/=; split_and!; try congruence.
  rewrite HD2. specialize (Hf (DB (repo w1))). rewrite Ht in Hf. simpl in Hf. destruct r2; congruence.
Qed.

Lemma frame_rows {A} p q (f : list Row -> res A * list Row) (g : A -> list Key) :
  (forall t, snd (f t) = t) -> pframe untouched (rs ← db_rows p q f; alloc_all (g rs)).
Proof.
  intros Hf. apply frame_keep. intros w r w' Hw. unfold mbind, GoM_bind.
  destruct (db_rows p q f w) as [r1 w1] eqn:Hd. apply db_rows_run in Hd as (Hc & Hh & Hn & HD); [|done].
  assert (grows w w1) as Hg by (by apply grows_refl).
  destruct r1; [|intros; by simplify_eq..].
  intros Ha. apply (alloc_all_grows _ w) in Ha as [? ->]; done.
Qed.

Lemma frame_nothing {A} (a : A) : pframe untouched (mret a).
Proof. apply frame_keeps_query; [apply keeps_ret|]. intros w r w'. unfold mret, GoM_ret. intros; by simplify_eq. Qed.

Lemma law_psql_ListKeys c n : pframe untouched (Adapter.ListKeys c n).
Proof. apply frame_rows. intros t. unfold StmtListKeys. by case_match. Qed.

Lemma law_psql_GetKeyVersions id : pframe untouched (Adapter.GetKeyVersions id).
Proof.
  unfold Adapter.GetKeyVersions.
  apply (frame_rows _ _ _ (λ rs, map (set_ID id) (scan_all ScanKeyRow rs))). done.
Qed.

Lemma law_psql_GetBatchKeys ids : pframe untouched (Adapter.GetBatchKeys ids).
Proof. destruct ids; [apply frame_nothing|]. by apply frame_rows. Qed.

Lemma law_psql_GetBatchKeyMetadata ids : pframe untouched (Adapter.GetBatchKeyMetadata ids).
Proof.
  destruct ids as [|id ids]; [apply frame_nothing|]. unfold Adapter.GetBatchKeyMetadata.
  apply frame_keep. intros w r w' Hw. unfold mbind, GoM_bind, mret, GoM_ret.
  destruct (db_rows _ _ _ w) as [r1 w1] eqn:Hd. apply db_rows_run in Hd as (Hc & Hh & Hn & HD); [|done].
  assert (grows w w1) as Hg by (by apply grows_refl). destruct r1; intros; by simplify_eq.
Qed.

End MoreLaws.

#[export] Instance PSQLLaws `{UuidPkgOk} : RepoLaws PSQLAdapter.
Proof.
  refine {| view := psql_view; repo_inv := psql_inv |}.
  - apply law_psql_GetKey.
  - apply law_psql_GetKey_view.
  - apply law_psql_GetKeyByVersion.
  - apply law_psql_GetKeyByVersion_view.
  - intros id v w r w'. simpl. unfold Adapter.GetKeyByVersion. destruct (v <=? 0) eqn:E.
    + unfold fail. intros; by simplify_eq.
    + intros _ _. bool_to_prop. lia.
  - apply law_psql_GetKeyMetadata.
  - apply law_psql_GetKeyMetadataByVersion.
  - apply law_psql_CreateKey.
  - done.
  - apply law_psql_CreateBatchKeys.
  - apply law_psql_ListKeys.
  - apply law_psql_UpdateKeyMetadata.
  - apply law_psql_RotateKey.
  - apply law_psql_RevokeKey.
  - apply law_psql_GetKeyVersions.
  - apply law_psql_Exists.
  - apply law_psql_GetBatchKeys.
  - apply law_psql_GetBatchKeyMetadata.
  - apply law_psql_RevokeBatchKeys.
  - apply law_psql_UpdateBatch.
Defined.
