(* ===== verification/CachedRepo.v ===== *)
(** * The caching decorator

    Models [internal/infra/persistence/cached_repository.go]: a cache of
    [*domain.Key] pointers in front of any [domain.KeyRepository], with an
    index from a key id to the cache keys of its entries. *)

From S2P Require Import Prelude Errors Domain Cache Repo Psql PsqlSpec PsqlLaws.

Definition defaultCacheTTL : Z := 2 * Minute.
Definition cacheCleanupInterval : Z := 5 * Minute.

Record CachedRepository (S : Type) := mkCached {
  cache : Cache string loc;
  cacheIndex : gmap string (gset string);
  inner : S
}.
Arguments mkCached {S}.
Arguments cache {S}.
Arguments cacheIndex {S}.
Arguments inner {S}.

Definition NewCachedRepository {S} (repo : S) : CachedRepository S :=
  mkCached (Cache.New [WithDefaultTTL defaultCacheTTL; WithCleanupInterval cacheCleanupInterval])
    ∅ repo.

Definition set_inner {S} (s : S) (cr : CachedRepository S) : CachedRepository S :=
  mkCached (cache cr) (cacheIndex cr) s.

Section Helpers.
Context `{UuidPkg} {S : Type}.
Implicit Types w : St (CachedRepository S).

(** The builder of the pool is written and reset; the string is this. *)
Definition getCacheKey (id : KeyID) (version : Z) : string :=
  KeyID_String id +:+ (if version =? 0 then ":latest" else ":v" +:+ pretty version).

(** [cacheKey] leaves the index entry of the evicted key's id, and an empty
    entry leaves the index. *)
Definition onCacheEvict (h : gmap loc Key) (cacheKey : string) (l : loc)
    (index : gmap string (gset string)) : gmap string (gset string) :=
  match h !! l with
  | None => index
  | Some key =>
      match index !! KeyID_String (ID key) with
      | None => index
      | Some keys =>
          let keys' := keys ∖ {[ cacheKey ]} in
          if bool_decide (keys' = ∅) then delete (KeyID_String (ID key)) index
          else <[KeyID_String (ID key) := keys']> index
      end
  end.

Definition cache_Get (cacheKey : string) : M (St (CachedRepository S)) (option loc) := λ w,
  (Ok (Cache.Get (clock w) cacheKey (cache (repo w))), w).

Definition storeInCache (cacheKey : string) (l : loc) : M (St (CachedRepository S)) unit :=
  _ ← modify (λ w, set_repo (mkCached (Cache.Set_ (clock w) cacheKey l 0 (cache (repo w)))
                               (cacheIndex (repo w)) (inner (repo w))) w);
  k ← deref l;
  modify (λ w, let keyIDStr := KeyID_String (ID k) in
    set_repo (mkCached (cache (repo w))
      (<[keyIDStr := {[ cacheKey ]} ∪ default ∅ (cacheIndex (repo w) !! keyIDStr)]>
         (cacheIndex (repo w))) (inner (repo w))) w).

(** The cache keys are copied under the read lock and then deleted one by
    one, each deletion calling back into the index. *)
Definition invalidate (id : KeyID) w : St (CachedRepository S) :=
  let keysToDel := default ∅ (cacheIndex (repo w) !! KeyID_String id) in
  let '(c, index) := foldl (λ cs cacheKey, Cache.Delete (Some (onCacheEvict (heap w))) cacheKey cs)
                       (cache (repo w), cacheIndex (repo w)) (elements keysToDel) in
  set_repo (mkCached c index (inner (repo w))) w.

Definition invalidateCache (id : KeyID) : M (St (CachedRepository S)) unit := modify (invalidate id).

(** One tick of the cache's clean-up goroutine. *)
Definition cleanup : M (St (CachedRepository S)) unit :=
  modify (λ w, let '(c, index) := Cache.deleteExpired (Some (onCacheEvict (heap w))) (clock w)
                                    (cache (repo w), cacheIndex (repo w)) in
    set_repo (mkCached c index (inner (repo w))) w).

(** [cr.repo.Method(..)] *)
Definition through {A} (m : M (St S) A) : M (St (CachedRepository S)) A := with_inner inner set_inner m.

End Helpers.

Module Cached.
Section Ops.
Context `{UuidPkg} {S : Type} `{KeyRepository S}.
Abbreviation W := (St (CachedRepository S)).

Definition GetKey (id : KeyID) : M W loc :=
  let cacheKey := getCacheKey id 0 in
  found ← cache_Get cacheKey;
  match found with
  | Some key => mret key
  | None =>
      key ← through (Repo.GetKey id);
      _ ← storeInCache cacheKey key;
      mret key
  end.

Definition GetKeyByVersion (id : KeyID) (version : Z) : M W loc :=
  let cacheKey := getCacheKey id version in
  found ← cache_Get cacheKey;
  match found with
  | Some key => mret key
  | None =>
      key ← through (Repo.GetKeyByVersion id version);
      _ ← storeInCache cacheKey key;
      mret key
  end.

Definition GetKeyMetadata (id : KeyID) : M W (option KeyMetadata) :=
  found ← cache_Get (getCacheKey id 0);
  match found with
  | Some key => k ← deref key; mret (Metadata k)
  | None => through (Repo.GetKeyMetadata id)
  end.

Definition GetKeyMetadataByVersion (id : KeyID) (version : Z) : M W (option KeyMetadata) :=
  found ← cache_Get (getCacheKey id version);
  match found with
  | Some key => k ← deref key; mret (Metadata k)
  | None => through (Repo.GetKeyMetadataByVersion id version)
  end.

Definition CreateKey (key : option Key) : M W unit :=
  _ ← through (Repo.CreateKey key);
  match key with
  | Some k => invalidateCache (ID k)
  | None => panic "nil pointer dereference"
  end.

Fixpoint invalidate_all (keys : list Key) : M W unit :=
  match keys with
  | [] => mret tt
  | key :: keys' => _ ← invalidateCache (ID key); invalidate_all keys'
  end.

Definition CreateBatchKeys (keys : list Key) : M W unit :=
  _ ← through (Repo.CreateBatchKeys keys); invalidate_all keys.

Definition ListKeys (lastCreatedAt : option Z) (limit : Z) : M W (list loc) :=
  through (Repo.ListKeys lastCreatedAt limit).

Definition UpdateKeyMetadata (id : KeyID) (metadata : option KeyMetadata) : M W unit :=
  _ ← through (Repo.UpdateKeyMetadata id metadata); invalidateCache id.

Definition RotateKey (id : KeyID) (newEncryptedDEK : bytes) : M W loc :=
  rotatedKey ← through (Repo.RotateKey id newEncryptedDEK);
  _ ← invalidateCache id;
  mret rotatedKey.

Definition RevokeKey (id : KeyID) : M W unit :=
  _ ← through (Repo.RevokeKey id); invalidateCache id.

Definition GetKeyVersions (id : KeyID) : M W (list loc) := through (Repo.GetKeyVersions id).

Definition Exists_ (id : KeyID) : M W bool :=
  found ← cache_Get (getCacheKey id 0);
  match found with
  | Some _ => mret true
  | None => through (Repo.Exists_ id)
  end.

Definition GetBatchKeys (ids : list KeyID) : M W (list loc) := through (Repo.GetBatchKeys ids).
Definition GetBatchKeyMetadata (ids : list KeyID) : M W (list KeyMetadata) :=
  through (Repo.GetBatchKeyMetadata ids).

(** The batch writes bypass the cache. *)
Definition RevokeBatchKeys (ids : list KeyID) : M W unit := through (Repo.RevokeBatchKeys ids).
Definition UpdateBatchKeyMetadata (updates : list loc) : M W unit :=
  through (Repo.UpdateBatchKeyMetadata updates).

End Ops.
End Cached.

#[export] Instance CachedKeyRepository `{UuidPkg} {S} `{KeyRepository S}
  : KeyRepository (CachedRepository S) := {|
  Repo.GetKey := Cached.GetKey;
  Repo.GetKeyByVersion := Cached.GetKeyByVersion;
  Repo.GetKeyMetadata := Cached.GetKeyMetadata;
  Repo.GetKeyMetadataByVersion := Cached.GetKeyMetadataByVersion;
  Repo.CreateKey := Cached.CreateKey;
  Repo.CreateBatchKeys := Cached.CreateBatchKeys;
  Repo.ListKeys := Cached.ListKeys;
  Repo.UpdateKeyMetadata := Cached.UpdateKeyMetadata;
  Repo.RotateKey := Cached.RotateKey;
  Repo.RevokeKey := Cached.RevokeKey;
  Repo.GetKeyVersions := Cached.GetKeyVersions;
  Repo.Exists_ := Cached.Exists_;
  Repo.GetBatchKeys := Cached.GetBatchKeys;
  Repo.GetBatchKeyMetadata := Cached.GetBatchKeyMetadata;
  Repo.RevokeBatchKeys := Cached.RevokeBatchKeys;
  Repo.UpdateBatchKeyMetadata := Cached.UpdateBatchKeyMetadata
|}.

(** ** Cache keys *)

Lemma getCacheKey_inj `{UuidPkgOk} id v id' v' :
  getCacheKey id v = getCacheKey id' v' -> id = id' /\ v = v'.
Proof.
  unfold getCacheKey. intros E. apply app_inj_str in E as [E1%KeyID_String_inj E2].
  2: { unfold KeyID_String. by rewrite !uuid_String_length. }
  split; [done|]. destruct (v =? 0) eqn:Ev, (v' =? 0) eqn:Ev'; bool_to_prop.
  - lia.
  - discriminate.
  - discriminate.
  - apply app_inj_str in E2 as [_ E2]; [|done]. by apply (inj pretty) in E2.
Qed.

(** ** Coherence *)

Section Coherence.
Context `{UuidPkgOk} {S : Type} `{RepoLaws S}.
Implicit Types w : St (CachedRepository S).

(** A cached pointer is what a read of its version would yield, unless its
    key is among the suspects [T], and the index knows its cache key. *)
Definition entry_ok (T : KeyID -> Prop) (h : gmap loc Key) (index : gmap string (gset string)) (s : S)
    (ck : string) (l : loc) : Prop :=
  exists id v k ks, ck = getCacheKey id v /\ h !! l = Some k /\ ID k = id
    /\ (T id \/ view s id v = Some k) /\ index !! KeyID_String id = Some ks /\ ck ∈ ks.

(** Index entries are cache keys of the id they are filed under. *)
Definition index_ok (index : gmap string (gset string)) : Prop :=
  forall s ks ck, index !! s = Some ks -> ck ∈ ks ->
    exists id v, s = KeyID_String id /\ ck = getCacheKey id v.

Definition coherent_but (T : KeyID -> Prop) w : Prop :=
  heap_wf w /\ repo_inv (inner (repo w)) /\ index_ok (cacheIndex (repo w))
  /\ forall ck it, items (cache (repo w)) !! ck = Some it ->
       entry_ok T (heap w) (cacheIndex (repo w)) (inner (repo w)) ck (it_value it).

Definition coherent w : Prop := coherent_but untouched w.

Lemma coherent_mono (T T' : KeyID -> Prop) w :
  (forall i, T i -> T' i) -> coherent_but T w -> coherent_but T' w.
Proof.
  intros HT (Hw & Hi & Hx & Hc). split_and!; [done..|]. intros ck it Hit.
  destruct (Hc _ _ Hit) as (id & v & k & ks & ? & ? & ? & Hv & ? & ?).
  exists id, v, k, ks. split_and!; try done. destruct Hv; auto.
Qed.

Lemma coherent_New (w : St S) :
  heap_wf w -> repo_inv (repo w) -> coherent (set_repo (NewCachedRepository (repo w)) w).
Proof.
  intros Hw Hi. split_and!; [done|done|done|]. intros ck it Hit.
  unfold NewCachedRepository in Hit. cbn [set_repo repo cache] in Hit. by rewrite New_items in Hit.
Qed.

Lemma through_run {A} (m : M (St S) A) w r w' :
  through m w = (r, w') ->
  exists wi, m (set_repo (inner (repo w)) w) = (r, wi) /\ w' = set_repo (set_inner (repo wi) (repo w)) wi.
Proof.
  unfold through, with_inner. destruct (m _) as [r0 wi] eqn:E. intros; simplify_eq. eauto.
Qed.

(** After a call of the inner repository the keys it is about join the
    suspects, and none does when it failed. *)
Lemma through_suspects {A} (T0 T : KeyID -> Prop) (m : M (St S) A) w r w' :
  coherent_but T0 w -> frame view repo_inv T m -> through m w = (r, w') ->
  coherent_but (λ i, T0 i \/ T i) w' /\ grows w w' /\ cache (repo w') = cache (repo w)
  /\ (is_ok r = false -> coherent_but T0 w')
  /\ exists wi, m (set_repo (inner (repo w)) w) = (r, wi) /\ inner (repo w') = repo wi.
Proof.
  intros (Hw & Hi & Hx & Hc) Hfr (wi & Hm & ->)%through_run.
  destruct (Hfr (set_repo (inner (repo w)) w) r wi Hw Hi Hm) as (Hg & Hi' & Hv & Hv').
  destruct Hg as (Hw' & Hclk & Hh).
  assert (forall T', (forall id v, T' id \/ view (repo wi) id v = view (inner (repo w)) id v) ->
    (forall id, T0 id -> T' id) -> coherent_but T' (set_repo (set_inner (repo wi) (repo w)) wi)) as Hgen.
  { intros T' HT HT0. split_and!; [done..|]. simpl. intros ck it Hit.
    destruct (Hc _ _ Hit) as (id & v & k & ks & -> & Hl & Hid & Hview & Hks & Hin).
    exists id, v, k, ks. split_and!; try done; [by eapply lookup_weaken|].
    destruct Hview as [Hs|Hview]; [left; by apply HT0|].
    destruct (HT id v) as [?|E]; [by left|right; by rewrite E]. }
  split_and!; [|by unfold grows|done| |by exists wi].
  - apply Hgen; [|by left]. intros id v. destruct (Hv id v) as [?|?]; [left; by right|by right].
  - intros Hr. apply Hgen; [|done]. intros id v. right. by apply Hv'.
Qed.

Lemma through_coherent {A} (T : KeyID -> Prop) (m : M (St S) A) w r w' :
  coherent w -> frame view repo_inv T m -> through m w = (r, w') ->
  coherent_but T w' /\ grows w w' /\ cache (repo w') = cache (repo w)
  /\ (is_ok r = false -> coherent w')
  /\ exists wi, m (set_repo (inner (repo w)) w) = (r, wi) /\ inner (repo w') = repo wi.
Proof.
  intros Hc Hf E. destruct (through_suspects _ T m w r w' Hc Hf E) as (? & ? & ? & ? & ?).
  split_and!; try done. eapply coherent_mono; [|done]. by intros i [[]|].
Qed.

Lemma evict_other h ck l id (index : gmap string (gset string)) :
  (forall k, h !! l = Some k -> ID k = id) ->
  (forall s, s <> KeyID_String id -> onCacheEvict h ck l index !! s = index !! s)
  /\ (forall ks, onCacheEvict h ck l index !! KeyID_String id = Some ks ->
        exists ks0, index !! KeyID_String id = Some ks0 /\ ks ⊆ ks0).
Proof.
  intros Hk. unfold onCacheEvict. destruct (h !! l) as [k|]; [|naive_solver].
  rewrite (Hk k eq_refl). destruct (index !! KeyID_String id) as [ks0|] eqn:E; [|naive_solver].
  case_bool_decide; split.
  - intros s Hs. by rewrite lookup_delete_ne.
  - intros ks. by rewrite lookup_delete_eq.
  - intros s Hs. by rewrite lookup_insert_ne.
  - intros ks. rewrite lookup_insert_eq. intros [= <-]. exists ks0. set_solver.
Qed.

Lemma invalidate_fold h id (l : list string) (c : Cache string loc) (index : gmap string (gset string)) :
  (forall ck it k, ck ∈ l -> items c !! ck = Some it -> h !! it_value it = Some k -> ID k = id) ->
  let '(c', index') := foldl (λ cs ck, Cache.Delete (Some (onCacheEvict h)) ck cs) (c, index) l in
  (forall ck, items c' !! ck = if bool_decide (ck ∈ l) then None else items c !! ck)
  /\ (forall s, s <> KeyID_String id -> index' !! s = index !! s)
  /\ (forall ks, index' !! KeyID_String id = Some ks ->
        exists ks0, index !! KeyID_String id = Some ks0 /\ ks ⊆ ks0).
Proof.
  revert c index. induction l as [|ck l IH]; intros c index Hl; cbn [foldl]; [naive_solver|].
  destruct (Delete _ ck (c, index)) as [c1 index1] eqn:Ed.
  assert (items c1 = delete ck (items c)) as Hc1.
  { rewrite <-(delete_items (Some (onCacheEvict h)) ck c index). unfold Delete in Ed. by rewrite Ed. }
  assert ((forall s, s <> KeyID_String id -> index1 !! s = index !! s)
    /\ (forall ks, index1 !! KeyID_String id = Some ks ->
        exists ks0, index !! KeyID_String id = Some ks0 /\ ks ⊆ ks0)) as [Hs1 Hk1].
  { unfold Delete, delete_ in Ed. destruct (items c !! ck) as [it|] eqn:Eit; simplify_eq; [|naive_solver].
    apply evict_other. intros k Hk. eapply Hl; [by left|done|done]. }
  specialize (IH c1 index1). destruct (foldl _ _ l) as [c' index'].
  destruct IH as (Hi & Hs & Hk).
  { intros ck' it k Hin Hit. rewrite Hc1 in Hit. apply lookup_delete_Some in Hit as [_ Hit].
    eapply Hl; [by right|done]. }
  split_and!.
  - intros ck'. rewrite Hi, Hc1. destruct (decide (ck' = ck)) as [->|Hne].
    + rewrite lookup_delete_eq. rewrite (bool_decide_eq_true_2 (ck ∈ ck :: l)) by (by left). by case_match.
    + rewrite lookup_delete_ne by done.
      rewrite (bool_decide_ext (ck' ∈ ck :: l) (ck' ∈ l)); [done|]. rewrite elem_of_cons. naive_solver.
  - intros s Hne. rewrite Hs by done. auto.
  - intros ks Hks. destruct (Hk _ Hks) as (ks1 & Hks1 & ?). destruct (Hk1 _ Hks1) as (ks0 & ? & ?).
    exists ks0. split; [done|]. by etrans.
Qed.

(** Invalidating a key clears it of suspicion. *)
Lemma invalidate_coherent T id w :
  coherent_but T w -> coherent_but (λ i, T i /\ i <> id) (invalidate id w).
Proof.
  intros (Hw & Hi & Hx & Hc). unfold invalidate.
  set (ks := default ∅ (cacheIndex (repo w) !! KeyID_String id)).
  pose proof (invalidate_fold (heap w) id (elements ks) (cache (repo w)) (cacheIndex (repo w))) as Hf.
  destruct (foldl _ _ _) as [c index]. destruct Hf as (Hit & Hother & Hsub).
  { intros ck it k Hin Hck Hk.
    destruct (Hc _ _ Hck) as (id' & v & k' & ks' & -> & Hl & Hid & _).
    simplify_eq. unfold ks in Hin. apply elem_of_elements in Hin.
    destruct (cacheIndex (repo w) !! KeyID_String id) as [ks0|] eqn:Eks; [|set_solver].
    destruct (Hx _ _ _ Eks Hin) as (id1 & v1 & E1%KeyID_String_inj & E2). subst id1.
    by apply getCacheKey_inj in E2 as [-> _]. }
  split_and!; [done|done| |]; simpl.
  - intros s ks1 ck Hs Hck. destruct (decide (s = KeyID_String id)) as [->|Hne].
    + destruct (Hsub _ Hs) as (ks0 & Hs0 & Hss). eapply Hx; [done|set_solver].
    + rewrite Hother in Hs by done. by eapply Hx.
  - intros ck it. rewrite Hit. case_bool_decide as Hin; [done|]. intros Hck.
    destruct (Hc _ _ Hck) as (id1 & v1 & k & ks' & -> & Hl & Hid & Hv & Hks & Hin').
    assert (id1 <> id) as Hne.
    { intros ->. apply Hin. apply elem_of_elements. unfold ks. by rewrite Hks. }
    exists id1, v1, k, ks'. split_and!; try done; [naive_solver|].
    rewrite Hother; [done|]. by intros ?%KeyID_String_inj.
Qed.

Lemma invalidate_frame id w :
  heap (invalidate id w) = heap w /\ clock (invalidate id w) = clock w
  /\ next (invalidate id w) = next w /\ inner (repo (invalidate id w)) = inner (repo w).
Proof. unfold invalidate. by destruct (foldl _ _ _). Qed.

Lemma grows_invalidate id w : heap_wf w -> grows w (invalidate id w).
Proof.
  intros Hw. destruct (invalidate_frame id w) as (Hh & Hc & Hn & _). unfold grows, heap_wf in *.
  rewrite Hh, Hc, Hn. split_and!; [done|lia|done].
Qed.

(** A single-key write followed by the invalidation of that key. *)
Lemma write_invalidate {A} id (m : M (St S) A) (T : KeyID -> Prop) w r w' :
  coherent w -> frame view repo_inv T m -> (forall i, T i -> i = id) ->
  (a ← through m; _ ← invalidateCache id; mret a) w = (r, w') ->
  coherent w' /\ grows w w'
  /\ exists wi, m (set_repo (inner (repo w)) w) = (r, wi) /\ inner (repo w') = repo wi.
Proof.
  intros Hcoh Hfr Ht. go_unfold. destruct (through m w) as [r0 w1] eqn:Hth.
  destruct (through_coherent T m w r0 w1 Hcoh Hfr Hth) as (Hb & Hg & _ & He & Hex).
  destruct r0 as [a|e|why]; unfold invalidateCache; go_unfold; intros; simplify_eq; [|auto..].
  split_and!.
  - eapply coherent_mono; [|by apply invalidate_coherent]. intros i [Hi Hne]. naive_solver.
  - eapply grows_trans; [done|]. apply grows_invalidate. by destruct Hb.
  - destruct (invalidate_frame id w1) as (_ & _ & _ & ->). done.
Qed.

(** Evicting one entry keeps the others indexed. *)
Lemma delete_coherent T ck c index w s :
  coherent_but T (set_repo (mkCached c index s) w) ->
  let '(c', index') := Cache.delete_ (Some (onCacheEvict (heap w))) ck (c, index) in
  coherent_but T (set_repo (mkCached c' index' s) w).
Proof.
  intros (Hw & Hi & Hx & Hc). simpl in *. unfold delete_.
  destruct (items c !! ck) as [it0|] eqn:E0; [|by split_and!].
  destruct (Hc _ _ E0) as (id0 & v0 & k0 & ks0 & -> & Hl0 & Hid0 & _ & Hks0 & Hin0).
  unfold onCacheEvict. rewrite Hl0, Hid0, Hks0.
  set (ks' := ks0 ∖ {[getCacheKey id0 v0]}).
  split_and!; [done|done| |]; simpl.
  - intros s' ks ck'. case_bool_decide.
    + intros [_ Hs]%lookup_delete_Some. by apply Hx.
    + intros [[<- <-]|[_ Hs]]%lookup_insert_Some; [|by apply Hx].
      intros Hck. eapply Hx; [done|]. set_solver.
  - intros ck' it [Hne Hit]%lookup_delete_Some.
    destruct (Hc _ _ Hit) as (id & v & k & ks & -> & Hl & Hid & Hv & Hks & Hin).
    destruct (decide (id = id0)) as [->|Hne'].
    + assert (getCacheKey id0 v ∈ ks') as Hin' by (unfold ks'; rewrite Hks in Hks0; set_solver).
      rewrite bool_decide_eq_false_2 by (intros E; rewrite E in Hin'; set_solver).
      exists id0, v, k, ks'. rewrite lookup_insert_eq. by split_and!.
    + exists id, v, k, ks. split_and!; try done.
      case_bool_decide; [rewrite lookup_delete_ne|rewrite lookup_insert_ne]; try done;
        by intros ?%KeyID_String_inj.
Qed.

Lemma cleanup_coherent T w r w' : coherent_but T w -> cleanup w = (r, w') -> coherent_but T w' /\ grows w w'.
Proof.
  intros Hcoh. unfold cleanup, modify, deleteExpired.
  generalize (map_to_list (items (cache (repo w), cacheIndex (repo w)).1)).*1 as order.
  intros order.
  assert (coherent_but T (set_repo (mkCached (cache (repo w)) (cacheIndex (repo w)) (inner (repo w))) w)) as Hstart
    by done.
  assert (forall cs, coherent_but T (set_repo (mkCached cs.1 cs.2 (inner (repo w))) w) ->
    let cs' := deleteExpired_in (Some (onCacheEvict (heap w))) order (clock w) cs in
    coherent_but T (set_repo (mkCached cs'.1 cs'.2 (inner (repo w))) w)) as Hfold.
  { unfold deleteExpired_in. induction order as [|ck order IH]; intros cs Hcs; cbn [foldl]; [done|].
    apply IH. destruct (items cs.1 !! ck) as [it|]; [|done]. destruct (expired _ it); [|done].
    destruct cs as [c index]. pose proof (delete_coherent T ck c index w (inner (repo w)) Hcs) as Hd.
    by destruct (delete_ _ ck (c, index)). }
  specialize (Hfold (cache (repo w), cacheIndex (repo w)) Hstart). destruct (deleteExpired_in _ _ _ _) as [c index]. intros; simplify_eq.
  split; [done|]. destruct Hcoh. split_and!; [done|simpl; lia|done].
Qed.

Lemma store_coherent T id v l k w r w' :
  coherent_but T w -> heap w !! l = Some k -> ID k = id -> T id \/ view (inner (repo w)) id v = Some k ->
  storeInCache (getCacheKey id v) l w = (r, w') ->
  r = Ok tt /\ coherent_but T w' /\ grows w w' /\ heap w' = heap w /\ inner (repo w') = inner (repo w).
Proof.
  intros (Hw & Hi & Hx & Hc) Hl Hid Hv. unfold storeInCache, deref. go_unfold. rewrite Hl, Hid.
  intros; simplify_eq/=. split_and!; try done.
  split_and!; [done|done| |]; simpl.
  - intros s ks ck [[<- <-]|[_ Hs]]%lookup_insert_Some; [|by apply Hx].
    intros [->%elem_of_singleton|Hin]%elem_of_union; [by eauto|].
    destruct (cacheIndex (repo w) !! KeyID_String (ID k)) as [ks|] eqn:E; simpl in Hin; [by eapply Hx|set_solver].
  - unfold Set_. simpl. intros ck it [[<- <-]|[Hne Hit]]%lookup_insert_Some.
    + eexists (ID k), v, k, _. rewrite lookup_insert_eq. split_and!; [done..|set_solver].
    + destruct (Hc _ _ Hit) as (id' & v' & k' & ks' & -> & Hl' & Hid' & Hv' & Hks' & Hin').
      destruct (decide (id' = ID k)) as [->|Hne'].
      * exists (ID k), v', k', ({[getCacheKey (ID k) v]} ∪ ks').
        rewrite Hks', lookup_insert_eq. split_and!; try done. set_solver.
      * exists id', v', k', ks'. split_and!; try done. rewrite lookup_insert_ne; [done|].
        by intros ?%KeyID_String_inj.
Qed.

End Coherence.

(** ** The operations *)

Inductive cached_op : Type :=
| OpGetKey (id : KeyID) | OpGetKeyByVersion (id : KeyID) (v : Z)
| OpGetKeyMetadata (id : KeyID) | OpGetKeyMetadataByVersion (id : KeyID) (v : Z)
| OpCreateKey (k : option Key) | OpCreateBatchKeys (ks : list Key)
| OpListKeys (c : option Z) (n : Z)
| OpUpdateKeyMetadata (id : KeyID) (m : option KeyMetadata)
| OpRotateKey (id : KeyID) (d : bytes) | OpRevokeKey (id : KeyID)
| OpGetKeyVersions (id : KeyID) | OpExists (id : KeyID)
| OpGetBatchKeys (ids : list KeyID) | OpGetBatchKeyMetadata (ids : list KeyID)
| OpCleanup.

Definition forget {E W A} (m : GoM E W A) : GoM E W unit := _ ← m; mret tt.

Definition run_cached `{UuidPkg} {S} `{KeyRepository S} (o : cached_op)
  : M (St (CachedRepository S)) unit :=
  match o with
  | OpGetKey id => forget (Cached.GetKey id)
  | OpGetKeyByVersion id v => forget (Cached.GetKeyByVersion id v)
  | OpGetKeyMetadata id => forget (Cached.GetKeyMetadata id)
  | OpGetKeyMetadataByVersion id v => forget (Cached.GetKeyMetadataByVersion id v)
  | OpCreateKey k => Cached.CreateKey k
  | OpCreateBatchKeys ks => Cached.CreateBatchKeys ks
  | OpListKeys c n => forget (Cached.ListKeys c n)
  | OpUpdateKeyMetadata id m => Cached.UpdateKeyMetadata id m
  | OpRotateKey id d => forget (Cached.RotateKey id d)
  | OpRevokeKey id => Cached.RevokeKey id
  | OpGetKeyVersions id => forget (Cached.GetKeyVersions id)
  | OpExists id => forget (Cached.Exists_ id)
  | OpGetBatchKeys ids => forget (Cached.GetBatchKeys ids)
  | OpGetBatchKeyMetadata ids => forget (Cached.GetBatchKeyMetadata ids)
  | OpCleanup => cleanup
  end.

Section Operations.
Context `{UuidPkgOk} {S : Type} `{RepoLaws S}.
Implicit Types w : St (CachedRepository S).

Definition keeps_coherent {A} (m : M (St (CachedRepository S)) A) : Prop :=
  forall w r w', coherent w -> m w = (r, w') -> coherent w' /\ grows w w'.

Lemma coherent_grows w : coherent w -> grows w w.
Proof. intros [Hw _]. split_and!; [done|lia|done]. Qed.

Lemma keeps_through {A} (m : M (St S) A) : frame view repo_inv untouched m -> keeps_coherent (through m).
Proof.
  intros Hf w r w' Hc E. by destruct (through_coherent untouched m w r w' Hc Hf E) as (? & ? & _).
Qed.

Lemma keeps_forget {A} (m : M (St (CachedRepository S)) A) : keeps_coherent m -> keeps_coherent (forget m).
Proof.
  intros Hm w r w' Hc. unfold forget. go_unfold. destruct (m w) as [[] w1] eqn:E; intros; simplify_eq; by eapply Hm.
Qed.

Lemma miss_store id v (m : M (St S) loc) w r w' :
  coherent w -> frame view repo_inv untouched m ->
  (forall (wi : St S) ri wi', repo_inv (repo wi) -> m wi = (ri, wi') -> points_to_view view wi id v ri wi') ->
  (key ← through m; _ ← storeInCache (getCacheKey id v) key; mret key) w = (r, w') ->
  coherent w' /\ grows w w'
  /\ forall l, r = Ok l -> exists k, heap w' !! l = Some k /\ view (inner (repo w)) id v = Some k.
Proof.
  intros Hcoh Hfr Hpt. unfold mbind, GoM_bind, mret, GoM_ret. destruct (through m w) as [r0 w1] eqn:Hth.
  destruct (through_coherent untouched m w r0 w1 Hcoh Hfr Hth) as (Hb & Hg & _ & _ & wi & Hm & Hin).
  destruct r0 as [l0|e|why]; [|intros; by simplify_eq..].
  apply through_run in Hth as (wi' & Hm' & ->). rewrite Hm in Hm'. injection Hm' as <-.
  destruct Hcoh as (Hw & Hinv & _).
  destruct (Hpt (set_repo (inner (repo w)) w) _ _ Hinv Hm l0 eq_refl) as (k & Hl & Hid & Hview).
  destruct (Hfr (set_repo (inner (repo w)) w) _ _ Hw Hinv Hm) as (_ & _ & Hsame & _).
  destruct (Hsame id v) as [[]|Esame]. simpl in Esame, Hview.
  destruct (storeInCache _ l0 _) as [rs w2] eqn:Hst.
  apply (store_coherent untouched id v l0 k) in Hst as (-> & Hc2 & Hg2 & Hh2 & _); [|done|done|done|right; simpl; congruence].
  intros; simplify_eq. split_and!; [done|by eapply grows_trans|].
  intros l [= <-]. exists k. rewrite Hh2. done.
Qed.

(** The read-through pattern of [GetKey] and [GetKeyByVersion]. *)
Lemma read_through id v (m : M (St S) loc) w r w' :
  coherent w -> frame view repo_inv untouched m ->
  (forall (wi : St S) ri wi', repo_inv (repo wi) -> m wi = (ri, wi') -> points_to_view view wi id v ri wi') ->
  (found ← cache_Get (getCacheKey id v);
   match found with
   | Some key => mret key
   | None => key ← through m; _ ← storeInCache (getCacheKey id v) key; mret key
   end) w = (r, w') ->
  coherent w' /\ grows w w'
  /\ forall l, r = Ok l -> exists k, heap w' !! l = Some k /\ view (inner (repo w)) id v = Some k.
Proof.
  intros Hcoh Hfr Hpt. unfold mbind at 1, GoM_bind at 1, cache_Get, Cache.Get.
  destruct (items (cache (repo w)) !! getCacheKey id v) as [it|] eqn:Eit;
    [destruct (expired (clock w) it)|]; [by apply miss_store| |by apply miss_store].
  unfold mret, GoM_ret. intros E; simplify_eq. split_and!; [done|by apply coherent_grows|].
  intros l [= <-]. destruct Hcoh as (_ & _ & _ & Hc).
  destruct (Hc _ _ Eit) as (id' & v' & k & ks & Eck & Hl & _ & [[]|Hv] & _).
  apply getCacheKey_inj in Eck as [<- <-]. eauto.
Qed.

(** The metadata reads and [Exists]. *)
Lemma keeps_peek {A} ck (f : loc -> M (St (CachedRepository S)) A) (m : M (St S) A) :
  (forall l w, snd (f l w) = w) -> frame view repo_inv untouched m ->
  keeps_coherent (found ← cache_Get ck; match found with Some l => f l | None => through m end).
Proof.
  intros Hf Hm w r w' Hc. unfold mbind, GoM_bind, cache_Get.
  destruct (Cache.Get _ _ _) as [l|]; [|by apply keeps_through].
  intros E. replace w' with w by (by rewrite <-(Hf l w), E). split; [done|by apply coherent_grows].
Qed.

Lemma peek_metadata l w :
  snd ((k ← deref l; mret (Metadata k) : M (St (CachedRepository S)) _) w) = w.
Proof. unfold deref. go_unfold. by destruct (heap w !! l). Qed.

Lemma keeps_write id (m : M (St S) unit) :
  frame view repo_inv (λ i, i = id) m -> keeps_coherent (_ ← through m; invalidateCache id).
Proof.
  intros Hf w r w' Hc E.
  destruct (write_invalidate id m (λ i, i = id) w r w' Hc Hf (λ _ E, E)) as (? & ? & _); [|done].
  revert E. unfold invalidateCache, modify. go_unfold.
  destruct (through m w) as [[[]|?|?] ?]; done.
Qed.

Lemma keeps_invalidate_all ks T w r w' :
  coherent_but T w -> (forall i, T i -> exists k, k ∈ ks /\ ID k = i) ->
  Cached.invalidate_all ks w = (r, w') -> coherent w' /\ grows w w'.
Proof.
  revert T w. induction ks as [|k ks IH]; intros T w Hc HT; cbn [Cached.invalidate_all].
  { unfold mret, GoM_ret. intros; simplify_eq. split.
    - eapply coherent_mono; [|done]. intros i (k & Hk & _)%HT. by apply elem_of_nil in Hk.
    - destruct Hc as [Hw _]. split_and!; [done|lia|done]. }
  unfold mbind, GoM_bind, invalidateCache, modify. intros E.
  destruct (IH (λ i, T i /\ i <> ID k) (invalidate (ID k) w)) as [? Hg]; [by apply invalidate_coherent| |done|].
  { intros i [(k' & Hk' & <-)%HT Hne]. apply elem_of_cons in Hk' as [->|Hk']; [done|eauto]. }
  split; [done|]. eapply grows_trans; [|done]. apply grows_invalidate. by destruct Hc.
Qed.

Lemma keeps_CreateBatch ks : keeps_coherent (Cached.CreateBatchKeys ks).
Proof.
  intros w r w' Hc. unfold Cached.CreateBatchKeys, mbind, GoM_bind.
  destruct (through (Repo.CreateBatchKeys ks) w) as [r0 w1] eqn:Hth.
  destruct (through_coherent _ _ w r0 w1 Hc (law_CreateBatchKeys ks) Hth) as (Hb & Hg & _ & He & _).
  destruct r0; [|intros E; injection E as <- <-; (split; [by apply He|done])..]. intros E.
  eapply keeps_invalidate_all in E as [? ?]; [|done|auto]. split; [done|by eapply grows_trans].
Qed.

Lemma keeps_Create k : keeps_coherent (Cached.CreateKey k).
Proof.
  destruct k as [k|]; simpl; intros w r w' Hc.
  - apply (keeps_write (ID k) (Repo.CreateKey (Some k))); [|done]. intros w0 r0 w0' Hw Hi E.
    destruct (law_CreateKey (Some k) w0 r0 w0' Hw Hi E) as (? & ? & Hv & ?).
    split_and!; try done. intros i v. destruct (Hv i v) as [(? & ? & ?)|?]; [left; naive_solver|by right].
  - unfold Cached.CreateKey, mbind, GoM_bind. destruct (through (Repo.CreateKey None) w) as [r0 w1] eqn:Hth.
    destruct (through_coherent _ _ w r0 w1 Hc (law_CreateKey None) Hth) as (Hb & Hg & _ & He & wi & Hm & _).
    pose proof (law_CreateKey_nil (set_repo (inner (repo w)) w)) as Hnil. rewrite Hm in Hnil. simpl in Hnil.
    destruct r0; [done|intros E; injection E as <- <-; (split; [by apply He|done])..].
Qed.

Lemma run_cached_coherent o : keeps_coherent (run_cached o).
Proof.
  destruct o; simpl; try apply keeps_forget.
  - intros w r w' Hc E. eapply read_through in E as (? & ? & _); try done;
      [apply law_GetKey|apply law_GetKey_view].
  - intros w r w' Hc E. eapply read_through in E as (? & ? & _); try done;
      [apply law_GetKeyByVersion|apply law_GetKeyByVersion_view].
  - apply keeps_peek; [apply peek_metadata|apply law_GetKeyMetadata].
  - apply keeps_peek; [apply peek_metadata|apply law_GetKeyMetadataByVersion].
  - apply keeps_Create.
  - apply keeps_CreateBatch.
  - apply keeps_through, law_ListKeys.
  - apply keeps_write, law_UpdateKeyMetadata.
  - intros w r w' Hc E. by eapply write_invalidate in E as (? & ? & _); [|done|apply law_RotateKey|].
  - apply keeps_write, law_RevokeKey.
  - apply keeps_through, law_GetKeyVersions.
  - apply keeps_peek; [done|apply law_Exists].
  - apply keeps_through, law_GetBatchKeys.
  - apply keeps_through, law_GetBatchKeyMetadata.
  - intros w r w' Hc E. by eapply cleanup_coherent.
Qed.

End Operations.

(** ** Properties *)

(** C9: the cache stays coherent: starting from a new one over any
    repository that keeps the promises of [RepoLaws], every sequence of calls
    (single-key writes, creations, reads, clean-up ticks) leaves each cached
    pointer equal to what the repository underneath would return for its id
    and version, and each entry findable through the index, whatever the calls
    return. *)
Theorem cache_stays_coherent `{UuidPkgOk} {S} `{RepoLaws S} (w0 : St S) (ops : list cached_op) w' :
  heap_wf w0 -> repo_inv (repo w0) ->
  foldl (λ w o, snd (run_cached o w)) (set_repo (NewCachedRepository (repo w0)) w0) ops = w' ->
  coherent w'.
Proof.
  intros Hw Hi. pose proof (coherent_New w0 Hw Hi) as Hc. revert Hc.
  generalize (set_repo (NewCachedRepository (repo w0)) w0) as w.
  induction ops as [|o ops IH]; intros w Hc; cbn [foldl]; [by intros <-|].
  apply IH. destruct (run_cached o w) as [r w1] eqn:E. by apply run_cached_coherent in E as [? _].
Qed.

(** a coherent cache is transparent to readers: the key that [GetKey]
    returns, from the cache or not, is the one the repository underneath
    holds, and likewise for [GetKeyByVersion]; no other object changes. *)
Theorem cached_reads_current `{UuidPkgOk} {S} `{RepoLaws S} id v l (w w' : St (CachedRepository S)) :
  coherent w ->
  (Cached.GetKey id w = (Ok l, w') ->
     grows w w' /\ exists k, heap w' !! l = Some k /\ view (inner (repo w)) id 0 = Some k)
  /\ (Cached.GetKeyByVersion id v w = (Ok l, w') ->
     grows w w' /\ exists k, heap w' !! l = Some k /\ view (inner (repo w)) id v = Some k).
Proof.
  intros Hc. split; intros E.
  - eapply read_through in E as (_ & Hg & Hv); [|done|apply law_GetKey|apply law_GetKey_view]. auto.
  - eapply read_through in E as (_ & Hg & Hv);
      [|done|apply law_GetKeyByVersion|apply law_GetKeyByVersion_view]. auto.
Qed.

(** *** Revocation through the cache *)

Lemma revoked_view (a a' : PSQLAdapter) ts id v k :
  psql_inv a -> psql_inv a' ->
  abs (DB a') ≡ s_alter (λ i _, bool_decide (i = id)) (upd_revoked KeyStatusRevoked ts) (abs (DB a)) ->
  psql_view a' id v = Some k -> Status k = KeyStatusRevoked.
Proof.
  intros Hi Hi' E. assert (forall u, abs (DB a') id u = upd_revoked KeyStatusRevoked ts <$> abs (DB a) id u) as Hu.
  { intros u. rewrite (E id u). unfold s_alter. by rewrite bool_decide_eq_true_2. }
  assert (forall o : option Row, (upd_revoked KeyStatusRevoked ts <$> o) ≫= key_of id = Some k ->
    Status k = KeyStatusRevoked) as Hk.
  { intros [r|]; simpl; [|done]. unfold key_of. simpl.
    destruct (unmarshal_ptr (row_metadata r)); intros; simplify_eq; done. }
  unfold psql_view. destruct (v =? 0).
  - destruct (max_version id (DB a')) as [u|]; simpl; [|done]. rewrite Hu. apply Hk.
  - destruct (v <? 0); simpl; [done|]. rewrite Hu. apply Hk.
Qed.

(** Reads that find the key after [RevokeKey] find it revoked. *)
Lemma revoked_reads `{UuidPkgOk} id (w w1 : St (CachedRepository PSQLAdapter)) :
  coherent w -> Cached.RevokeKey id w = (Ok tt, w1) ->
  coherent w1 /\ forall u k, view (inner (repo w1)) id u = Some k -> Status k = KeyStatusRevoked.
Proof.
  intros Hc Hr.
  assert ((a ← through (Repo.RevokeKey id); _ ← invalidateCache id; mret a) w = (Ok tt, w1)) as Hr'.
  { revert Hr. unfold Cached.RevokeKey, invalidateCache, modify. go_unfold.
    destruct (through _ w) as [[[]|?|?] ?]; done. }
  destruct (write_invalidate id _ _ w _ w1 Hc (law_RevokeKey id) (λ _ E, E) Hr')
    as (Hc1 & _ & wi & Hm & Hin).
  pose proof Hc as (_ & Hinv & _). apply (revoke_ok id) in Hm as (Hok & _ & Hst); [|exact Hinv].
  inversion Hst as [| | | |? ? _ Es| |]; subst. split; [done|]. intros u k Hv. rewrite Hin in Hv.
  exact (revoked_view (inner (repo w)) (repo wi) _ id u k Hinv Hok Es Hv).
Qed.

Lemma GetKey_view `{UuidPkgOk} {S} `{RepoLaws S} id l (w w' : St (CachedRepository S)) :
  coherent w -> Cached.GetKey id w = (Ok l, w') ->
  exists k, heap w' !! l = Some k /\ view (inner (repo w)) id 0 = Some k.
Proof.
  intros Hc E. eapply read_through in E as (_ & _ & Hv); [|done|apply law_GetKey|apply law_GetKey_view]. auto.
Qed.

Lemma GetKeyByVersion_view `{UuidPkgOk} {S} `{RepoLaws S} id v l (w w' : St (CachedRepository S)) :
  coherent w -> Cached.GetKeyByVersion id v w = (Ok l, w') ->
  exists k, heap w' !! l = Some k /\ view (inner (repo w)) id v = Some k.
Proof.
  intros Hc E. eapply read_through in E as (_ & _ & Hv);
    [|done|apply law_GetKeyByVersion|apply law_GetKeyByVersion_view]. auto.
Qed.

(** once [RevokeKey] through the cache over PostgreSQL has returned
    without error, [GetKey] and [GetKeyByVersion] of any version of the key
    return it with status "revoked" or not at all: no cached entry survives
    the revocation. *)
Theorem revocation_visible `{UuidPkgOk} id v l (w w1 w2 : St (CachedRepository PSQLAdapter)) :
  coherent w -> Cached.RevokeKey id w = (Ok tt, w1) ->
  Cached.GetKey id w1 = (Ok l, w2) \/ Cached.GetKeyByVersion id v w1 = (Ok l, w2) ->
  exists k, heap w2 !! l = Some k /\ Status k = KeyStatusRevoked.
Proof.
  intros Hc Hr Hg. destruct (revoked_reads id w w1 Hc Hr) as [Hc1 Hv].
  destruct Hg as [Hg|Hg];
    [apply GetKey_view in Hg as (k & Hk & Hvk)|apply GetKeyByVersion_view in Hg as (k & Hk & Hvk)]; try done;
    exists k; split; eauto.
Qed.

(** the batch revocation lacks that guarantee: it does not touch the
    cache, so when a key is cached, [RevokeBatchKeys] of it succeeds and the
    next [GetKey] still returns the same, unrevoked object, while the
    repository underneath holds it as revoked. *)
Theorem batch_revocation_stale `{UuidPkgOk} id l k (w w1 : St (CachedRepository PSQLAdapter)) :
  coherent w -> Cache.Get (clock w) (getCacheKey id 0) (cache (repo w)) = Some l ->
  heap w !! l = Some k -> Status k = KeyStatusActive ->
  Cached.RevokeBatchKeys [id] w = (Ok tt, w1) ->
  Cached.GetKey id w1 = (Ok l, w1) /\ heap w1 !! l = Some k
  /\ forall k', view (inner (repo w1)) id 0 = Some k' -> Status k' = KeyStatusRevoked.
Proof.
  intros Hc Hget Hl Hs Hr. pose proof Hc as (Hw & Hinv & _).
  apply through_run in Hr as (wi & Hm & ->).
  assert (clock wi = clock w /\ heap wi = heap w) as [Hclk Hh].
  { assert (keeps_heap (Adapter.RevokeBatchKeys [id])) as Hk.
    { simpl. unfold time_now. auto with keeps. }
    by apply Hk in Hm as (? & ? & _). }
  apply (revoke_batch_ok [id]) in Hm as (Hok & _ & Hst); [|exact Hinv].
  inversion Hst as [| | | | |? ? Es|]; subst. split_and!.
  - unfold Cached.GetKey, cache_Get, mbind, GoM_bind, mret, GoM_ret.
    cbn [clock repo set_repo cache set_inner]. by rewrite Hclk, Hget.
  - simpl. by rewrite Hh.
  - intros k' Hv. refine (revoked_view (inner (repo w)) (repo wi) _ id 0 k' Hinv Hok _ Hv).
    intros i u. change (abs (DB (repo wi)) i u) with (st wi i u). rewrite (Es i u).
    unfold s_alter, contains. simpl. by rewrite orb_false_r.
Qed.

(** A cached repository over one active key, read once. *)
#[local] Existing Instance HexUuid.
#[local] Existing Instance HexUuidOk.
Definition ex_start : St PSQLAdapter := ex_w [ex_row id_a 1 1000] [].
Definition ex_cached : St (CachedRepository PSQLAdapter) :=
  snd (run_cached (OpGetKey id_a) (set_repo (NewCachedRepository (repo ex_start)) ex_start)).

Lemma ex_start_wf : heap_wf ex_start /\ repo_inv (repo ex_start).
Proof. split; [|apply NoDup_singleton]. intros l [k Hk]. discriminate Hk. Qed.

Lemma cache_stays_coherent_witness : coherent ex_cached.
Proof.
  destruct ex_start_wf as [Hw Hi].
  exact (cache_stays_coherent ex_start [OpGetKey id_a] ex_cached Hw Hi eq_refl).
Defined.

Lemma ex_cached_coherent : coherent ex_cached.
Proof.
  destruct ex_start_wf as [Hw Hi]. pose proof (coherent_New ex_start Hw Hi) as Hc.
  unfold ex_cached. destruct (run_cached _ _) as [r w'] eqn:E. by apply run_cached_coherent in E as [? _].
Qed.

Lemma cached_reads_current_witness :
  exists k, view (inner (repo ex_cached)) id_a 0 = Some k /\ Version k = 1.
Proof.
  destruct (cached_reads_current id_a 1 0%nat ex_cached ex_cached ex_cached_coherent) as [Hg _].
  destruct (Hg ltac:(vm_compute; reflexivity)) as (_ & k & Hk & Hv).
  exists k. split; [exact Hv|]. vm_compute in Hk. by injection Hk as <-.
Defined.

Lemma revocation_visible_witness :
  let w1 := snd (Cached.RevokeKey id_a ex_cached) in
  exists l w2 k, Cached.GetKey id_a w1 = (Ok l, w2) /\ heap w2 !! l = Some k /\ Status k = KeyStatusRevoked.
Proof.
  destruct (Cached.RevokeKey id_a ex_cached) as [r w1] eqn:E. simpl.
  assert (r = Ok tt) as -> by (vm_compute in E; by injection E as <- <-).
  destruct (Cached.GetKey id_a w1) as [r2 w2] eqn:E2.
  assert (exists l, r2 = Ok l) as [l ->].
  { vm_compute in E. injection E as <-. vm_compute in E2. injection E2 as <- <-. eauto. }
  destruct (revocation_visible id_a 1 l ex_cached w1 w2 ex_cached_coherent E (or_introl E2)) as (k & ? & ?).
  exists l, w2, k. auto.
Defined.

Lemma batch_revocation_stale_witness :
  exists k w1, Cached.RevokeBatchKeys [id_a] ex_cached = (Ok tt, w1)
    /\ Cached.GetKey id_a w1 = (Ok 0%nat, w1) /\ heap w1 !! 0%nat = Some k /\ Status k = KeyStatusActive.
Proof.
  destruct (Cached.RevokeBatchKeys [id_a] ex_cached) as [r w1] eqn:E.
  assert (r = Ok tt) as -> by (vm_compute in E; by injection E as <- <-).
  destruct (heap ex_cached !! 0%nat) as [k|] eqn:Hk; [|vm_compute in Hk; discriminate].
  assert (Status k = KeyStatusActive) as Hs by (vm_compute in Hk; by injection Hk as <-).
  destruct (batch_revocation_stale id_a 0%nat k ex_cached w1 ex_cached_coherent
              ltac:(vm_compute; reflexivity) Hk Hs E) as (Hg & Hh & _).
  exists k, w1. auto.
Defined.
