(* ===== verification/BreakerRepo.v ===== *)
(** * The circuit-breaker decorator

    Models [internal/infra/persistence/key_repository_circuit_breaker.go]:
    every method of the repository underneath runs inside [Execute] of one
    shared breaker.  [calls] says how the next calls end (the method returned,
    or its context was done first); past its end calls complete. *)

From S2P Require Import Prelude Errors Domain Breaker Repo Psql PsqlSpec PsqlLaws.

Record KeyRepositoryCircuitBreaker (S : Type) := mkBreakerRepo {
  cb_repo : S;
  voidBreaker : Breaker;
  calls : list CallEvent
}.
Arguments mkBreakerRepo {S}.
Arguments cb_repo {S}.
Arguments voidBreaker {S}.
Arguments calls {S}.

Definition NewKeyRepositoryCircuitBreaker {S} (repo : S) (maxFailures resetTimeout : Z)
    (calls : list CallEvent) : KeyRepositoryCircuitBreaker S :=
  mkBreakerRepo repo (Breaker.New maxFailures [WithResetTimeout resetTimeout]) calls.

Section Decorator.
Context {S : Type}.
Abbreviation CB := (KeyRepositoryCircuitBreaker S).

Definition set_cb_repo (s : S) (c : CB) : CB := mkBreakerRepo s (voidBreaker c) (calls c).

Definition getB (w : St CB) : Breaker := voidBreaker (repo w).
Definition setB (b : Breaker) (w : St CB) : St CB :=
  set_repo (mkBreakerRepo (cb_repo (repo w)) b (calls (repo w))) w.

(** How this call ends. *)
Definition next_call : M (St CB) CallEvent := λ w,
  (Ok (hd Completes (calls (repo w))),
   set_repo (mkBreakerRepo (cb_repo (repo w)) (voidBreaker (repo w)) (tl (calls (repo w)))) w).

(** [cb.voidBreaker.Execute(ctx, func(ctx) { return cb.repo.Method(..) })].
    The type assertions on the result succeed: the closure returns a value of
    the asserted type. *)
Definition guarded {A} (m : M (St S) A) : M (St CB) A :=
  ev ← next_call;
  Execute getB setB clock ev (with_inner cb_repo set_cb_repo m).

End Decorator.

Module Guarded.
Section Ops.
Context {S : Type} `{KeyRepository S}.
Abbreviation W := (St (KeyRepositoryCircuitBreaker S)).

Definition GetKey (id : KeyID) : M W loc := guarded (Repo.GetKey id).
Definition GetKeyByVersion (id : KeyID) (version : Z) : M W loc := guarded (Repo.GetKeyByVersion id version).
Definition GetKeyMetadata (id : KeyID) : M W (option KeyMetadata) := guarded (Repo.GetKeyMetadata id).
Definition GetKeyMetadataByVersion (id : KeyID) (version : Z) : M W (option KeyMetadata) :=
  guarded (Repo.GetKeyMetadataByVersion id version).
Definition CreateKey (key : option Key) : M W unit := guarded (Repo.CreateKey key).
Definition CreateBatchKeys (keys : list Key) : M W unit := guarded (Repo.CreateBatchKeys keys).
Definition ListKeys (lastCreatedAt : option Z) (limit : Z) : M W (list loc) :=
  guarded (Repo.ListKeys lastCreatedAt limit).
Definition UpdateKeyMetadata (id : KeyID) (metadata : option KeyMetadata) : M W unit :=
  guarded (Repo.UpdateKeyMetadata id metadata).
Definition RotateKey (id : KeyID) (newEncryptedDEK : bytes) : M W loc :=
  guarded (Repo.RotateKey id newEncryptedDEK).
Definition RevokeKey (id : KeyID) : M W unit := guarded (Repo.RevokeKey id).
Definition GetKeyVersions (id : KeyID) : M W (list loc) := guarded (Repo.GetKeyVersions id).
Definition Exists_ (id : KeyID) : M W bool := guarded (Repo.Exists_ id).
Definition GetBatchKeys (ids : list KeyID) : M W (list loc) := guarded (Repo.GetBatchKeys ids).
Definition GetBatchKeyMetadata (ids : list KeyID) : M W (list KeyMetadata) :=
  guarded (Repo.GetBatchKeyMetadata ids).
Definition RevokeBatchKeys (ids : list KeyID) : M W unit := guarded (Repo.RevokeBatchKeys ids).
Definition UpdateBatchKeyMetadata (updates : list loc) : M W unit :=
  guarded (Repo.UpdateBatchKeyMetadata updates).
End Ops.
End Guarded.

#[export] Instance GuardedKeyRepository {S} `{KeyRepository S}
  : KeyRepository (KeyRepositoryCircuitBreaker S) := {|
  Repo.GetKey := Guarded.GetKey;
  Repo.GetKeyByVersion := Guarded.GetKeyByVersion;
  Repo.GetKeyMetadata := Guarded.GetKeyMetadata;
  Repo.GetKeyMetadataByVersion := Guarded.GetKeyMetadataByVersion;
  Repo.CreateKey := Guarded.CreateKey;
  Repo.CreateBatchKeys := Guarded.CreateBatchKeys;
  Repo.ListKeys := Guarded.ListKeys;
  Repo.UpdateKeyMetadata := Guarded.UpdateKeyMetadata;
  Repo.RotateKey := Guarded.RotateKey;
  Repo.RevokeKey := Guarded.RevokeKey;
  Repo.GetKeyVersions := Guarded.GetKeyVersions;
  Repo.Exists_ := Guarded.Exists_;
  Repo.GetBatchKeys := Guarded.GetBatchKeys;
  Repo.GetBatchKeyMetadata := Guarded.GetBatchKeyMetadata;
  Repo.RevokeBatchKeys := Guarded.RevokeBatchKeys;
  Repo.UpdateBatchKeyMetadata := Guarded.UpdateBatchKeyMetadata
|}.

(** ** Lemmas *)

Section Calls.
Context {S : Type}.
Implicit Types w : St (KeyRepositoryCircuitBreaker S).

(** A call that the closed breaker lets through and that completes with an
    error is recorded and reported. *)
Lemma guarded_failure {A} (m : M (St S) A) w e wi :
  state (getB w) = StateClosed -> calls (repo w) = [] ->
  m (set_repo (cb_repo (repo w)) w) = (Err e, wi) ->
  guarded m w = (Err e, set_repo (mkBreakerRepo (repo wi)
                   (recordResult (clock wi) (Some e) (getB w)) []) wi).
Proof.
  unfold getB. intros Hs Hc Hm. unfold guarded, next_call, mbind, GoM_bind. rewrite Hc.
  unfold Execute, getB, canExecute. cbn [repo set_repo voidBreaker hd tl]. rewrite Hs. simpl.
  unfold with_inner, set_repo in *. simpl in *. by rewrite Hm.
Qed.

(** An open breaker answers at once; nothing below it runs. *)
Lemma guarded_open {A} (m : M (St S) A) w :
  canExecute (clock w) (getB w) = (false, getB w) ->
  guarded m w = (Err (Sentinel ErrOpen),
                 set_repo (mkBreakerRepo (cb_repo (repo w)) (getB w) (tl (calls (repo w)))) w).
Proof.
  intros Hc. unfold guarded, next_call, mbind, GoM_bind, Execute.
  cbn [repo set_repo voidBreaker clock]. unfold getB in *. cbn [repo set_repo voidBreaker].
  by rewrite Hc.
Qed.

End Calls.

Definition repeat_call {E W A} (n : nat) (m : GoM E W A) (w : W) : W := Nat.iter n (λ w, snd (m w)) w.

Section Missing.
Context `{UuidPkgOk}.
Implicit Types w : St (KeyRepositoryCircuitBreaker PSQLAdapter).

(** The world when a breaker has recorded the failures [errs]. *)
Definition with_failures (errs : list (Z * error)) w : St (KeyRepositoryCircuitBreaker PSQLAdapter) :=
  setB (fail_all errs (getB w)) w.

Lemma missing_calls n id w :
  calls (repo w) = [] -> state (getB w) = StateClosed -> failures (getB w) = 0 ->
  Z.of_nat n <= maxFailures (getB w) < 2^63 ->
  faults (cb_repo (repo w)) = [] -> psql_inv (cb_repo (repo w)) ->
  ~ present (abs (DB (cb_repo (repo w)))) id ->
  repeat_call n (Guarded.GetKey id) w
  = with_failures (replicate n (clock w, Sentinel PsqlErrKeyNotFound)) w.
Proof.
  intros Hc Hs Hf Hn Hq Hi Hp. induction n as [|n IH].
  { unfold with_failures, setB, getB. simpl. destruct w as [c h nx [r b cs]]. simpl in *. by subst. }
  unfold repeat_call in *. rewrite Nat.iter_succ, IH by lia.
  set (e := (clock w, Sentinel PsqlErrKeyNotFound)).
  destruct (fail_all_closed (replicate n e) (getB w)) as [Hs1 _]; [done|lia|rewrite length_replicate; lia|].
  set (w1 := with_failures (replicate n e) w).
  assert (Adapter.GetKey id (set_repo (cb_repo (repo w1)) w1)
          = (Err (Sentinel PsqlErrKeyNotFound), set_repo (cb_repo (repo w1)) w1)) as Hg.
  { apply (GetKey_run id (set_repo (cb_repo (repo w1)) w1)); [exact Hq|exact Hi|exact Hp]. }
  assert (Guarded.GetKey id w1 = _) as Hrun by exact (guarded_failure _ w1 _ _ Hs1 Hc Hg).
  rewrite Hrun. cbn [snd]. unfold with_failures at 1. rewrite replicate_S_end. unfold fail_all.
  rewrite foldl_app. unfold setB. cbn [foldl]. by rewrite Hc.
Qed.

End Missing.

(** looking up a key that does not exist counts as a failure of the
    repository: [maxFailures] such calls through a new breaker over a healthy
    database open it, and until [resetTimeout] later every method, for any key,
    is answered with [ErrOpen] without reaching the database. *)
Theorem missing_key_opens_circuit `{UuidPkgOk} (n : nat) reset id (w0 : St PSQLAdapter) :
  (0 < n)%nat -> Z.of_nat n < 2^63 -> - 2^63 <= clock w0 + reset < 2^63 ->
  quiet w0 -> pk_ok (DB (repo w0)) -> ~ present (st w0) id ->
  let w := set_repo (NewKeyRepositoryCircuitBreaker (repo w0) (Z.of_nat n) reset []) w0 in
  let w' := repeat_call n (Guarded.GetKey id) w in
  cb_repo (repo w') = repo w0 /\ heap w' = heap w0
  /\ forall A (m : M (St PSQLAdapter) A) d, d <= reset ->
       let w1 := mkSt (clock w0 + d) (heap w') (next w') (repo w') in
       guarded m w1 = (Err (Sentinel ErrOpen), w1).
Proof.
  intros Hn Hmax Hr Hq Hok Hp w w'.
  destruct (New_fresh (Z.of_nat n) [WithResetTimeout reset]) as (Hm & Hs & Hf).
  assert (w' = with_failures (replicate n (clock w, Sentinel PsqlErrKeyNotFound)) w) as Hw'.
  { by apply missing_calls. }
  rewrite Hw'. unfold with_failures, setB. simpl. split; [done|]. split; [done|].
  intros A m d Hd. rewrite guarded_open; [done|]. unfold getB. simpl.
  destruct n as [|n]; [lia|].
  set (e := (clock w0, Sentinel PsqlErrKeyNotFound)).
  change (e :: replicate n e) with (replicate (S n) e). rewrite replicate_S_end.
  set (b0 := Breaker.New (Z.of_nat (S n)) [WithResetTimeout reset]).
  destruct (fail_all_closed (replicate n e) b0) as [Hs1 Hf1];
    [done|unfold b0; lia|rewrite length_replicate; unfold b0; lia|].
  rewrite length_replicate in Hf1.
  destruct (recordResult_closed_failure (clock w0) (Sentinel PsqlErrKeyNotFound) (fail_all (replicate n e) b0))
    as (Hl2 & Hf2 & Hs2); [done|unfold b0 in *; lia|].
  destruct (fail_all_config (replicate n e) b0) as (Hm1 & Hr1 & _).
  destruct (recordResult_config (clock w0) (Some (Sentinel PsqlErrKeyNotFound)) (fail_all (replicate n e) b0))
    as (_ & Hr2 & _).
  replace (fail_all (replicate n e ++ [e]) b0)
    with (recordResult (clock w0) (Some (Sentinel PsqlErrKeyNotFound)) (fail_all (replicate n e) b0))
    by (unfold fail_all; by rewrite foldl_app).
  assert (resetTimeout b0 = reset) as Hreset by done.
  destruct (Z.leb_spec (maxFailures (fail_all (replicate n e) b0)) (failures (fail_all (replicate n e) b0) + 1));
    [|unfold b0 in *; lia].
  apply canExecute_waiting; [done|lia|lia].
Qed.

#[local] Existing Instance HexUuid.
#[local] Existing Instance HexUuidOk.

Lemma missing_key_opens_circuit_witness :
  let w := set_repo (NewKeyRepositoryCircuitBreaker (repo ex_two) (Z.of_nat 3) (30 * Second) []) ex_two in
  let w' := repeat_call 3 (Guarded.GetKey KeyID_zero) w in
  let w1 := mkSt (clock ex_two + Second) (heap w') (next w') (repo w') in
  Guarded.GetKey id_a w1 = (Err (Sentinel ErrOpen), w1).
Proof.
  assert (- 2^63 <= clock ex_two + 30 * Second < 2^63) as Hr by (split; vm_compute; congruence).
  assert (~ present (st ex_two) KeyID_zero) as Hp by (apply max_version_absent; vm_compute; reflexivity).
  assert (Second <= 30 * Second) as Hd by (vm_compute; congruence).
  exact (proj2 (proj2 (missing_key_opens_circuit 3 (30 * Second) KeyID_zero ex_two ltac:(lia)
    ltac:(lia) Hr eq_refl ex_two_pk Hp)) loc (Repo.GetKey id_a) Second Hd).
Defined.
