(* ===== verification/Batch.v ===== *)
(** * Concurrent batches

    Models [pkg/patterns/batch/batch.go]: one goroutine per request, a
    semaphore of [MaxConcurrency] slots, and a result slot per index.  The
    goroutines are a step relation; [ProcessBatch] is the sequential reading,
    with the order in which the goroutines got their work done as an input. *)

From S2P Require Import Prelude Errors.

Section Batch.
Context {W TRequest TResult : Type}.

(** [Result]/[Error]; the zero value has neither. *)
Record BatchItem := mkItem { Result : option TResult; Error_ : option error }.

Definition zeroItem : BatchItem := mkItem None None.

Record BatchProcessor := mkProcessor {
  MaxConcurrency : nat;
  Validate : TRequest -> res unit;
  Process : TRequest -> M W TResult
}.

Variable bp : BatchProcessor.

(** The body of one goroutine between acquiring and releasing the
    semaphore.  A panic in it ends the program. *)
Definition run_item (request : TRequest) : M W BatchItem :=
  match Validate bp request with
  | Err err => mret (mkItem None (Some err))
  | Panic s => panic s
  | Ok _ =>
      r ← try_ (Process bp request);
      mret (match r with
            | inl result => mkItem (Some result) None
            | inr err => mkItem None (Some err)
            end)
  end.

(** Run the goroutines of the given indices one after the other. *)
Fixpoint run_order (order : list nat) (requests : list TRequest) (results : list BatchItem)
  : M W (list BatchItem) :=
  match order with
  | [] => mret results
  | i :: order' =>
      match requests !! i with
      | Some request => item ← run_item request; run_order order' requests (<[i := item]> results)
      | None => run_order order' requests results
      end
  end.

(** [continueOnError] is a parameter the code does not read. *)
Definition ProcessBatch (order : list nat) (requests : list TRequest) (continueOnError : bool)
  : M W (list BatchItem) :=
  run_order order requests (replicate (length requests) zeroItem).

(** ** The goroutines *)

Inductive slot : Type := Waiting | Running | Finished.

#[global] Instance slot_eq_dec : EqDecision slot.
Proof. solve_decision. Defined.

Record BatchConf := mkBatchConf { slots : list slot; results : list BatchItem; world : W }.

Definition running (c : BatchConf) : nat := length (List.filter (λ s, bool_decide (s = Running)) (slots c)).

Inductive batch_step (requests : list TRequest) : BatchConf -> BatchConf -> Prop :=
| batch_acquire i c :
    slots c !! i = Some Waiting -> (running c < MaxConcurrency bp)%nat ->
    batch_step requests c (mkBatchConf (<[i := Running]> (slots c)) (results c) (world c))
| batch_finish i c request item w' :
    slots c !! i = Some Running -> requests !! i = Some request ->
    run_item request (world c) = (Ok item, w') ->
    batch_step requests c (mkBatchConf (<[i := Finished]> (slots c)) (<[i := item]> (results c)) w').

Definition batch_init (requests : list TRequest) (w : W) : BatchConf :=
  mkBatchConf (replicate (length requests) Waiting) (replicate (length requests) zeroItem) w.

(** [wg.Wait()] has returned. *)
Definition all_done (c : BatchConf) : Prop := Forall (λ s, s = Finished) (slots c).

(** ** Lemmas *)

Lemma run_order_app order1 order2 requests rs w rs1 w1 :
  run_order order1 requests rs w = (Ok rs1, w1) ->
  run_order (order1 ++ order2) requests rs w = run_order order2 requests rs1 w1.
Proof.
  revert rs w. induction order1 as [|i order1 IH]; intros rs w; simpl.
  { unfold mret, GoM_ret. intros; by simplify_eq. }
  destruct (requests !! i) as [request|]; [|apply IH].
  unfold mbind, GoM_bind. destruct (run_item request w) as [[item|e|s] w2]; [apply IH|done..].
Qed.

Lemma filter_insert_length {A} (f : A -> bool) l i x y :
  l !! i = Some x ->
  (length (List.filter f (<[i := y]> l)) + (if f x then 1 else 0)
   = length (List.filter f l) + (if f y then 1 else 0))%nat.
Proof.
  revert i. induction l as [|a l IH]; intros [|i] Hx; simplify_eq/=.
  - destruct (f x), (f y); simpl; lia.
  - specialize (IH i Hx). destruct (f a); simpl; lia.
Qed.

Definition batch_inv (requests : list TRequest) (w : W) (c : BatchConf) : Prop :=
  length (slots c) = length requests /\ (running c <= MaxConcurrency bp)%nat
  /\ exists order, NoDup order
     /\ (forall i, i ∈ order <-> slots c !! i = Some Finished)
     /\ run_order order requests (replicate (length requests) zeroItem) w = (Ok (results c), world c).

Lemma batch_inv_init requests w : batch_inv requests w (batch_init requests w).
Proof.
  split_and!; simpl; [by rewrite length_replicate| |].
  - unfold running. simpl. induction (length requests); simpl; [lia|]. done.
  - exists []. split_and!; [constructor| |done]. intros i. split; [intros Hi; by apply elem_of_nil in Hi|].
    intros [? _]%lookup_replicate. done.
Qed.

Lemma batch_inv_step requests w c c' :
  batch_inv requests w c -> batch_step requests c c' -> batch_inv requests w c'.
Proof.
  intros (Hlen & Hrun & order & Hnd & Hord & Hro) Hs. destruct Hs as [i c Hi Hlt|i c request item w' Hi Hreq Hit].
  - split_and!; simpl; [by rewrite length_insert| |].
    + pose proof (filter_insert_length (λ s, bool_decide (s = Running)) _ i Waiting Running Hi) as Hf.
      unfold running in *. simpl in *. lia.
    + exists order. split_and!; [done| |done]. intros j. rewrite Hord.
      destruct (decide (i = j)) as [->|Hne]; [|by rewrite list_lookup_insert_ne].
      rewrite list_lookup_insert_eq by (by eapply lookup_lt_Some). rewrite Hi. done.
  - split_and!; simpl; [by rewrite length_insert| |].
    + pose proof (filter_insert_length (λ s, bool_decide (s = Running)) _ i Running Finished Hi) as Hf.
      unfold running in *. simpl in *. lia.
    + exists (order ++ [i]). split_and!.
      * apply NoDup_app. split_and!; [done| |apply NoDup_singleton].
        intros j Hj ->%list_elem_of_singleton. apply Hord in Hj. congruence.
      * intros j. rewrite elem_of_app, list_elem_of_singleton, Hord.
        destruct (decide (i = j)) as [->|Hne].
        -- rewrite list_lookup_insert_eq by (by eapply lookup_lt_Some). naive_solver.
        -- rewrite list_lookup_insert_ne by done. naive_solver.
      * rewrite (run_order_app _ _ _ _ _ _ _ Hro). simpl. rewrite Hreq.
        unfold mbind, GoM_bind. by rewrite Hit.
Qed.

Lemma batch_inv_reachable requests w c :
  rtc (batch_step requests) (batch_init requests w) c -> batch_inv requests w c.
Proof.
  intros Hr. pose proof (batch_inv_init requests w) as Hi. induction Hr; [done|].
  apply IHHr. by eapply batch_inv_step.
Qed.

Lemma all_done_order requests w c :
  batch_inv requests w c -> all_done c ->
  exists order, Permutation order (seq 0 (length requests))
    /\ run_order order requests (replicate (length requests) zeroItem) w = (Ok (results c), world c).
Proof.
  intros (Hlen & _ & order & Hnd & Hord & Hro) Hd. exists order. split; [|done].
  apply NoDup_Permutation; [done|apply NoDup_seq|]. intros i. rewrite Hord, elem_of_seq.
  unfold all_done in Hd. rewrite Forall_lookup in Hd. split.
  - intros Hi%lookup_lt_Some. lia.
  - intros [_ Hi]. destruct (slots c !! i) as [s|] eqn:E; [by rewrite (Hd _ _ E)|].
    apply lookup_ge_None in E. lia.
Qed.

(** Steps still to be taken. *)
Definition batch_todo (c : BatchConf) : nat :=
  (2 * length (List.filter (λ s, bool_decide (s = Waiting)) (slots c)) + running c)%nat.

Lemma batch_step_todo requests c c' : batch_step requests c c' -> batch_todo c = S (batch_todo c').
Proof.
  intros [i c0 Hi _|i c0 request item w' Hi _ _]; unfold batch_todo, running; simpl.
  - pose proof (filter_insert_length (λ s, bool_decide (s = Waiting)) _ i Waiting Running Hi).
    pose proof (filter_insert_length (λ s, bool_decide (s = Running)) _ i Waiting Running Hi).
    simpl in *. lia.
  - pose proof (filter_insert_length (λ s, bool_decide (s = Waiting)) _ i Running Finished Hi).
    pose proof (filter_insert_length (λ s, bool_decide (s = Running)) _ i Running Finished Hi).
    simpl in *. lia.
Qed.

Lemma batch_progress requests w c :
  (0 < MaxConcurrency bp)%nat -> (forall r w, exists item w', run_item r w = (Ok item, w')) ->
  batch_inv requests w c -> ~ all_done c -> exists c', batch_step requests c c'.
Proof.
  intros Hmax Hrun (Hlen & _ & _) Hnd. unfold all_done in Hnd.
  apply not_Forall_Exists in Hnd; [|apply _]. apply Exists_exists in Hnd as (s & Hin & Hs).
  destruct (decide (Exists (λ s, s = Running) (slots c))) as [He|He]; rewrite Exists_exists in He.
  - destruct He as (s' & Hin' & ->). apply list_elem_of_lookup in Hin' as [i Hi].
    destruct (lookup_lt_is_Some_2 requests i) as [req Hreq]; [rewrite <-Hlen; by eapply lookup_lt_Some|].
    destruct (Hrun req (world c)) as (item & w' & Hit). eexists. by eapply batch_finish.
  - apply list_elem_of_lookup in Hin as [i Hi]. exists (mkBatchConf (<[i := Running]> (slots c)) (results c) (world c)).
    apply batch_acquire; [destruct s; [done| |by destruct Hs]|].
    + exfalso. apply He. exists Running. split; [by eapply list_elem_of_lookup_2|done].
    + assert (running c = 0%nat) as ->; [|done]. unfold running.
      destruct (List.filter _ (slots c)) as [|x l] eqn:E; [done|]. exfalso. apply He.
      assert (In x (x :: l)) as Hx by (by left). rewrite <-E in Hx. apply filter_In in Hx as [Hx Hb].
      bool_to_prop. subst. exists Running. split; [by apply list_elem_of_In|done].
Qed.

End Batch.
Arguments BatchItem : clear implicits.
Arguments BatchProcessor : clear implicits.


(** C28: no deadlock and no livelock: with a positive concurrency limit and
    handlers that do not panic, every execution of a batch of [n] requests can
    be extended until all are done, and every maximal one has exactly [2 n]
    steps. *)
Theorem batch_terminates {W TRequest TResult} (bp : BatchProcessor W TRequest TResult) requests w n c :
  (0 < MaxConcurrency bp)%nat ->
  (forall r w, exists item w', run_item bp r w = (Ok item, w')) ->
  nsteps (batch_step bp requests) n (batch_init requests w) c ->
  (n <= 2 * length requests)%nat
  /\ (n = 2 * length requests <-> all_done c)%nat
  /\ (~ all_done c -> exists c', batch_step bp requests c c').
Proof.
  intros Hmax Hrun Hn.
  assert (batch_inv bp requests w c) as Hi by (apply batch_inv_reachable; by eapply rtc_nsteps_2).
  assert (batch_todo (@batch_init W TRequest TResult requests w) = 2 * length requests)%nat as H0.
  { unfold batch_todo, running. simpl. clear. induction (length requests) as [|k IH]; simpl in *; lia. }
  assert (forall c0, nsteps (batch_step bp requests) n c0 c -> batch_todo c0 = n + batch_todo c)%nat as Hsum.
  { clear. induction n as [|n IH]; intros c0 Hn; inversion Hn as [|? ? c1 ? Hs Hn']; subst; [done|].
    apply batch_step_todo in Hs. specialize (IH _ Hn'). lia. }
  specialize (Hsum _ Hn). rewrite H0 in Hsum. split; [lia|]. split; [|by apply (batch_progress bp requests w c)].
  assert (batch_todo c = 0%nat <-> all_done c) as Hz;
    [|rewrite <-Hz; lia]. unfold batch_todo, running, all_done.
  induction (slots c) as [|s l IH]; simpl; [done|]. rewrite Forall_cons, <-IH.
  destruct s; simpl; split; naive_solver lia.
Qed.

(** The two-request batches of the witnesses: a counter as the world. *)
Definition ex_bp : BatchProcessor nat nat nat :=
  mkProcessor 1 (λ r, if Nat.eqb r 0 then Err (ErrorsNew "zero") else Ok tt)
    (λ r w, (Ok (r + w)%nat, S w)).

Definition ex_done : BatchConf :=
  mkBatchConf [Finished; Finished] [mkItem None (Some (ErrorsNew "zero")); mkItem (Some 7%nat) None] 1%nat.

Lemma ex_batch_run : nsteps (batch_step ex_bp [0%nat; 7%nat]) 4 (batch_init [0%nat; 7%nat] 0%nat) ex_done.
Proof.
  eapply nsteps_l; [apply (batch_acquire _ _ 1); [done|vm_compute; lia]|].
  eapply nsteps_l; [apply (batch_finish _ _ 1) with (request := 7%nat); done|].
  eapply nsteps_l; [apply (batch_acquire _ _ 0); [done|vm_compute; lia]|].
  eapply nsteps_l; [apply (batch_finish _ _ 0) with (request := 0%nat); done|].
  apply nsteps_O.
Qed.


Lemma batch_terminates_witness : (4 <= 2 * length [0%nat; 7%nat])%nat /\ all_done ex_done.
Proof.
  destruct (batch_terminates ex_bp [0%nat; 7%nat] 0%nat 4 ex_done) as (Hle & Hiff & _).
  - vm_compute. lia.
  - intros r w. unfold run_item. simpl. destruct (Nat.eqb r 0); eexists _, _; reflexivity.
  - exact ex_batch_run.
  - split; [exact Hle|]. apply Hiff. reflexivity.
Defined.

(** [continueOnError] makes no difference: when a request fails, the
    others are processed all the same and no error is returned for the batch,
    with the flag set or not. *)
Theorem continue_on_error_ignored {W TRequest TResult} (bp : BatchProcessor W TRequest TResult) order requests w :
  ProcessBatch bp order requests false w = ProcessBatch bp order requests true w
  /\ forall e, fst (ProcessBatch bp order requests false w) <> Err e.
Proof.
  split; [done|]. intros e. unfold ProcessBatch. generalize (replicate (length requests) (@zeroItem TResult)).
  revert w. induction order as [|i order IH]; intros w rs; simpl; [done|].
  destruct (requests !! i) as [request|]; [|apply IH]. unfold mbind, GoM_bind.
  destruct (run_item bp request w) as [[item|e'|s] w'] eqn:E; [apply IH| |done].
  exfalso. unfold run_item in E. destruct (Validate bp request) as [|e0|]; [|by inversion E..].
  go_unfold. by destruct (Process bp request w) as [[]].
Qed.
