(* ===== verification/Kms.v ===== *)
(** * Key-encryption providers

    Models [internal/kms/] ([kdf.go], [local_kms_provider.go],
    [aws_kms_provider.go]), [pkg/execution/] ([retry.go], [timeout.go]) and
    the buffer pools of [pkg/memory/].

    AES-GCM, HKDF and the AWS service are parameters ([CryptoPkg],
    [AwsKms]); the laws the code relies on are [CryptoOk] and [AwsKmsOk]. *)

From S2P Require Import Prelude Errors Domain Cache.

(** ** pkg/memory *)

(** [SecureZeroBytes]: every byte of the slice becomes 0. *)
Definition SecureZeroBytes (b : bytes) : bytes := map (λ _, 0) b.

Record SecureDEKPool := mkPool { pool : list bytes; size_ : nat }.

Definition NewSecureDEKPool (size : nat) : SecureDEKPool := mkPool [] size.

(** [sync.Pool] hands out any pooled buffer, or a new one: [pick] chooses. *)
Definition pool_Get (pick : nat) (p : SecureDEKPool) : bytes * SecureDEKPool :=
  match pool p !! pick with
  | Some b => (b, mkPool (delete pick (pool p)) (size_ p))
  | None => (replicate (size_ p) 0, p)
  end.

Definition pool_Put (buf : bytes) (p : SecureDEKPool) : SecureDEKPool :=
  mkPool (SecureZeroBytes buf :: pool p) (size_ p).

(** ** The environment of the providers: the clock, the entropy pool (a
    [None] is a failing read), the draws of [math/rand], the calls made to
    AWS so far. *)

Record KEnv := mkEnv {
  k_clock : Z;
  k_entropy : list (option bytes);
  k_jitter : list Z;
  k_aws : nat
}.

(** [rand.Read(buf)] of crypto/rand for a buffer of [n] bytes. *)
Definition rand_Read (n : nat) : M KEnv bytes := λ e,
  let e' := mkEnv (k_clock e) (tl (k_entropy e)) (k_jitter e) (k_aws e) in
  match k_entropy e with
  | None :: _ => (Err (ErrorsNew "entropy source failed"), e')
  | Some bs :: _ => (Ok (take n (bs ++ replicate n 0)), e')
  | [] => (Ok (replicate n 0), e')
  end.

Definition env_sleep (d : Z) : M KEnv unit := λ e,
  (Ok tt, mkEnv (k_clock e + d) (k_entropy e) (k_jitter e) (k_aws e)).

Definition math_Intn (n : Z) : M KEnv Z := λ e,
  (Ok (hd 0 (k_jitter e) `mod` n), mkEnv (k_clock e) (k_entropy e) (tl (k_jitter e)) (k_aws e)).

(** ** pkg/execution *)

(** [WithTimeout] runs [fn] under a deadline [fn] itself has to watch. *)
Definition WithTimeout {A} (timeout : Z) (fn : M KEnv A) : M KEnv A := fn.

Definition retry_backoff (initialBackoff maxBackoff : Z) (i : nat) : Z :=
  Z.min (initialBackoff * Z.shiftl 1 (Z.of_nat i)) maxBackoff.

(** [last] is the pair [(result, err)] the loop leaves behind. *)
Fixpoint retry_loop {A} (todo i : nat) (initialBackoff maxBackoff : Z) (last : res A) (fn : M KEnv A)
  : M KEnv A :=
  match todo with
  | O => lift_res last
  | S todo' =>
      r ← try_ fn;
      match r with
      | inl a => mret a
      | inr err =>
          jitter ← math_Intn 100;
          _ ← env_sleep (retry_backoff initialBackoff maxBackoff i + jitter * Millisecond);
          retry_loop todo' (S i) initialBackoff maxBackoff (Err err) fn
      end
  end.

(** With no attempts at all the zero value and a nil error are returned. *)
Definition WithRetry {A} (zero : A) (maxRetries : nat) (initialBackoff maxBackoff : Z) (fn : M KEnv A)
  : M KEnv A :=
  retry_loop maxRetries 0 initialBackoff maxBackoff (Ok zero) fn.

(** ** Cryptography *)

Class CryptoPkg := {
  hkdf_Read : bytes -> bytes -> bytes -> nat -> res bytes;
  gcm_Seal : bytes -> bytes -> bytes -> bytes;
  gcm_Open : bytes -> bytes -> bytes -> res bytes;
  base64_DecodeString : string -> res bytes
}.

(** [aes.NewCipher] accepts keys of 16, 24 and 32 bytes. *)
Definition aes_key_ok (key : bytes) : bool :=
  bool_decide (length key = 16 \/ length key = 24 \/ length key = 32)%nat.

(** [cipher.NewGCM]: the standard nonce size. *)
Definition NonceSize : nat := 12.

Class CryptoOk `{CryptoPkg} := {
  Open_Seal k n p :
    aes_key_ok k = true -> length n = NonceSize -> gcm_Open k n (gcm_Seal k n p) = Ok p;
  (* HKDF with SHA-256 gives up to 255 * 32 bytes *)
  hkdf_total m s i n : (n <= 255 * 32)%nat -> exists k, hkdf_Read m s i n = Ok k /\ length k = n
}.

Definition NewCipher (key : bytes) : res unit :=
  if aes_key_ok key then Ok tt else Err (ErrorsNew "crypto/aes: invalid key size").

Definition string_bytes (s : string) : bytes :=
  map (λ a, Z.of_N (Ascii.N_of_ascii a)) (String.list_ascii_of_string s).

(** ** kdf.go *)

Definition DeriveKey `{CryptoPkg} (masterKey salt info : bytes) (keyLength : nat) : res bytes :=
  if bool_decide (masterKey = []) then Err (ErrorsNew "master key cannot be empty")
  else if bool_decide (salt = []) then Err (ErrorsNew "salt cannot be empty")
  else map_err (Wrap "failed to derive key using HKDF") (hkdf_Read masterKey salt info keyLength).

(** ** local_kms_provider.go *)

Definition derivedKeyCacheTTL : Z := Hour.
Definition derivedKeyCacheClean : Z := 5 * Minute.
Definition localKmsTimeout : Z := Second.

Record LocalKMSProvider := mkLocal {
  masterKey : bytes;
  derivedKeyCache : Cache string bytes
}.

Definition NewLocalKMSProvider `{CryptoPkg} (masterKey : string) : res LocalKMSProvider :=
  key ← map_err (Wrap "failed to decode master key") (base64_DecodeString masterKey);
  Ok (mkLocal key (Cache.New [WithDefaultTTL derivedKeyCacheTTL; WithCleanupInterval derivedKeyCacheClean])).

Section Local.
Context `{UuidPkg} `{CryptoPkg}.

(** Provider code over its environment and its own state. *)
Abbreviation L := (M (KEnv * LocalKMSProvider)).

Definition in_env {A} (m : M KEnv A) : L A := λ ep,
  let '(r, e') := m (fst ep) in (r, (e', snd ep)).

Definition getDerivedKey (key : Key) : L bytes :=
  let cacheKey := KeyID_String (ID key) in
  found ← gets (λ ep, Cache.Get (k_clock (fst ep)) cacheKey (derivedKeyCache (snd ep)));
  match found with
  | Some derivedKey => mret derivedKey
  | None =>
      p ← gets snd;
      let info := string_bytes (KeyID_String (ID key)) in
      let salt := string_bytes ("polykey-salt:" +:+ KeyID_String (ID key)) in
      derivedKey ← lift_res (map_err (Wrap "failed to derive key") (DeriveKey (masterKey p) salt info 32));
      _ ← modify (λ ep, (fst ep, mkLocal (masterKey (snd ep))
            (Cache.Set_ (k_clock (fst ep)) cacheKey derivedKey 0 (derivedKeyCache (snd ep)))));
      mret derivedKey
  end.

Definition encryptWithKey (key plaintext : bytes) : L bytes :=
  _ ← lift_res (map_err (Wrap "failed to create cipher") (NewCipher key));
  nonce ← on_err (Wrap "failed to generate nonce") (in_env (rand_Read NonceSize));
  mret (nonce ++ gcm_Seal key nonce plaintext).

Definition decryptWithKey (key ciphertext : bytes) : res bytes :=
  if bool_decide (ciphertext = []) then Err (ErrorsNew "no encrypted DEK found in key")
  else
    _ ← map_err (Wrap "failed to create cipher") (NewCipher key);
    if bool_decide (length ciphertext < NonceSize)%nat then Err (ErrorsNew "encrypted DEK too short")
    else gcm_Open key (take NonceSize ciphertext) (drop NonceSize ciphertext).

Definition Local_EncryptDEK (plaintextDEK : bytes) (key : Key) : L bytes :=
  derivedKey ← getDerivedKey key;
  encryptWithKey derivedKey plaintextDEK.

Definition Local_DecryptDEK (key : Key) : L bytes :=
  derivedKey ← getDerivedKey key;
  match decryptWithKey derivedKey (EncryptedDEK key) with
  | Ok plaintextDEK => mret plaintextDEK
  | Panic s => panic s
  | Err _ => p ← gets snd; lift_res (decryptWithKey (masterKey p) (EncryptedDEK key))
  end.

Definition Local_HealthCheck (p : LocalKMSProvider) : M KEnv unit := mret tt.

End Local.

(** ** aws_kms_provider.go *)

Class AwsKms := {
  aws_Encrypt : nat -> string -> bytes -> res bytes;
  aws_Decrypt : nat -> string -> bytes -> res bytes
}.

Class AwsKmsOk `{AwsKms} := {
  aws_Decrypt_Encrypt n m arn p c p' :
    aws_Encrypt n arn p = Ok c -> aws_Decrypt m arn c = Ok p' -> p' = p
}.

Definition awsKmsTimeout : Z := 5 * Second.
Definition awsMaxRetries : nat := 3.
Definition initialBackoff : Z := 100 * Millisecond.
Definition maxBackoff : Z := Second.

Record AWSKMSProvider := mkAWS { kmsKeyARN : string }.

(** One request to the service; its answer may differ from call to call. *)
Definition aws_call {A} (f : nat -> res A) : M KEnv A := λ e,
  (f (k_aws e), mkEnv (k_clock e) (k_entropy e) (k_jitter e) (S (k_aws e))).

Section Aws.
Context `{AwsKms}.

Definition Aws_EncryptDEK (p : AWSKMSProvider) (plaintextDEK : bytes) (key : Key) : M KEnv bytes :=
  WithRetry [] awsMaxRetries initialBackoff maxBackoff
    (WithTimeout awsKmsTimeout (aws_call (λ n, aws_Encrypt n (kmsKeyARN p) plaintextDEK))).

Definition Aws_DecryptDEK (p : AWSKMSProvider) (key : Key) : M KEnv bytes :=
  WithRetry [] awsMaxRetries initialBackoff maxBackoff
    (WithTimeout awsKmsTimeout (aws_call (λ n, aws_Decrypt n (kmsKeyARN p) (EncryptedDEK key)))).

(** [ListKeys] with a limit of one: only whether it answers matters. *)
Definition Aws_HealthCheck (aws_ListKeys : nat -> res unit) (p : AWSKMSProvider) : M KEnv unit :=
  WithRetry tt awsMaxRetries initialBackoff maxBackoff (WithTimeout awsKmsTimeout (aws_call aws_ListKeys)).
End Aws.

(** ** The interface: the two implementations behind [kms.KMSProvider] *)

Inductive KMSProvider : Type :=
| LocalP (p : LocalKMSProvider)
| AwsP (p : AWSKMSProvider).

Section Provider.
Context `{UuidPkg} `{CryptoPkg} `{AwsKms}.

Definition EncryptDEK (plaintextDEK : bytes) (key : Key) : M (KEnv * KMSProvider) bytes := λ ep,
  match snd ep with
  | LocalP p => let '(r, (e', p')) := Local_EncryptDEK plaintextDEK key (fst ep, p) in (r, (e', LocalP p'))
  | AwsP p => let '(r, e') := Aws_EncryptDEK p plaintextDEK key (fst ep) in (r, (e', AwsP p))
  end.

Definition DecryptDEK (key : Key) : M (KEnv * KMSProvider) bytes := λ ep,
  match snd ep with
  | LocalP p => let '(r, (e', p')) := Local_DecryptDEK key (fst ep, p) in (r, (e', LocalP p'))
  | AwsP p => let '(r, e') := Aws_DecryptDEK p key (fst ep) in (r, (e', AwsP p))
  end.
End Provider.

(** ** Properties *)

Section LocalProofs.
Context `{UuidPkg} `{CryptoOk}.

(** The key derived for an id, from its string. *)
Definition derived (master : bytes) (s : string) : res bytes :=
  DeriveKey master (string_bytes ("polykey-salt:" +:+ s)) (string_bytes s) 32.

(** Whatever is cached is what would be derived. *)
Definition derived_cache_ok (p : LocalKMSProvider) : Prop :=
  forall s it, items (derivedKeyCache p) !! s = Some it -> derived (masterKey p) s = Ok (it_value it).

Lemma derived_total master s : master <> [] -> exists k, derived master s = Ok k /\ length k = 32%nat.
Proof.
  intros Hm. unfold derived, DeriveKey. rewrite !bool_decide_eq_false_2 by done.
  destruct (hkdf_total master (string_bytes ("polykey-salt:" +:+ s)) (string_bytes s) 32) as (k & -> & Hl);
    [lia|]. eauto.
Qed.

Lemma getDerivedKey_run key e p :
  derived_cache_ok p -> masterKey p <> [] ->
  exists dk p', getDerivedKey key (e, p) = (Ok dk, (e, p'))
    /\ derived (masterKey p) (KeyID_String (ID key)) = Ok dk /\ length dk = 32%nat
    /\ derived_cache_ok p' /\ masterKey p' = masterKey p.
Proof.
  intros Hc Hm. set (s := KeyID_String (ID key)).
  destruct (derived_total (masterKey p) s Hm) as (dk & Hd & Hlen).
  unfold getDerivedKey. fold s. unfold mbind, GoM_bind, gets, mret, GoM_ret. cbn [fst snd].
  destruct (Cache.Get (k_clock e) s (derivedKeyCache p)) as [v|] eqn:Eg.
  - exists dk, p. unfold Cache.Get in Eg. destruct (items (derivedKeyCache p) !! s) as [it|] eqn:Eit; [|done].
    destruct (expired (k_clock e) it); [done|]. injection Eg as <-.
    pose proof (Hc _ _ Eit). split_and!; try done. congruence.
  - unfold lift_res. pose proof Hd as Hd'. unfold derived in Hd'. cbv zeta. cbn [snd].
    rewrite Hd'. simpl.
    eexists dk, _. split_and!; [done|done|done| |done].
    intros s' it. simpl. intros [[<- <-]|[_ Hit]]%lookup_insert_Some; [done|]. by apply Hc.
Qed.

Lemma decrypt_encrypted k n dek :
  aes_key_ok k = true -> length n = NonceSize -> decryptWithKey k (n ++ gcm_Seal k n dek) = Ok dek.
Proof.
  intros Hk Hn. unfold decryptWithKey, NewCipher.
  rewrite bool_decide_eq_false_2 by (intros E%(f_equal length); rewrite length_app in E; simpl in E; unfold NonceSize in *; lia).
  rewrite Hk. cbn [map_err mbind outcome_bind].
  rewrite bool_decide_eq_false_2 by (rewrite length_app; lia).
  rewrite take_app_length', drop_app_length' by done. by apply Open_Seal.
Qed.

Lemma rand_Read_length n e bs e' : rand_Read n e = (Ok bs, e') -> length bs = n.
Proof.
  unfold rand_Read. destruct (k_entropy e) as [|[b|] l]; intros; simplify_eq; rewrite ?length_replicate; [done|].
  rewrite length_take, length_app, length_replicate. lia.
Qed.

End LocalProofs.

Lemma encrypt_then_decrypt `{UuidPkg} `{CryptoOk} dek key e p r e' p' :
  derived_cache_ok p -> masterKey p <> [] ->
  Local_EncryptDEK dek key (e, p) = (r, (e', p')) ->
  derived_cache_ok p' /\ masterKey p' = masterKey p
  /\ (head (k_entropy e) <> Some None -> is_ok r = true)
  /\ forall ct, r = Ok ct -> ct <> []
       /\ forall key2 e2 p2, ID key2 = ID key -> EncryptedDEK key2 = ct ->
            derived_cache_ok p2 -> masterKey p2 = masterKey p ->
            fst (Local_DecryptDEK key2 (e2, p2)) = Ok dek.
Proof.
  intros Hc Hm. unfold Local_EncryptDEK. unfold mbind at 1, GoM_bind at 1.
  destruct (getDerivedKey_run key e p Hc Hm) as (dk & p1 & -> & Hd & Hlen & Hc1 & Hm1).
  assert (aes_key_ok dk = true) as Hk by (apply bool_decide_eq_true_2; auto).
  unfold encryptWithKey, NewCipher. rewrite Hk. unfold in_env. go_unfold.
  destruct (rand_Read NonceSize e) as [[nonce|err|why] e1] eqn:Er; simpl; intros; simplify_eq.
  - split_and!; [done|done|done|]. intros ct [= <-]. apply rand_Read_length in Er as Hn. split.
    { intros E%(f_equal length). rewrite length_app in E. simpl in E. unfold NonceSize in *. lia. }
    intros key2 e2 p2 Hid Hct Hc2 Hm2. unfold Local_DecryptDEK, mbind, GoM_bind.
    destruct (getDerivedKey_run key2 e2 p2 Hc2 ltac:(congruence)) as (dk2 & p3 & -> & Hd2 & _).
    rewrite Hid, Hm2, Hd in Hd2. injection Hd2 as <-. rewrite Hct, decrypt_encrypted by done. done.
  - split_and!; [done|done| |done]. intros Hent. unfold rand_Read in Er.
    by destruct (k_entropy e) as [|[b|] l]; simplify_eq/=.
  - unfold rand_Read in Er. destruct (k_entropy e) as [|[b|] l]; simplify_eq.
Qed.

(** C32: with a non-empty master key and a cache that holds derived keys
    only, the local provider encrypts every DEK unless the entropy source
    fails; the result is not empty, and from then on it decrypts back to the
    DEK for any key object with the same id, at any later time, whether the
    derived key is still cached, has expired or belongs to another provider
    object with the same master key; the caches stay correct. *)
Theorem local_roundtrip `{UuidPkg} `{CryptoOk} dek key e p r e' p' :
  derived_cache_ok p -> masterKey p <> [] ->
  Local_EncryptDEK dek key (e, p) = (r, (e', p')) ->
  derived_cache_ok p' /\ masterKey p' = masterKey p
  /\ (head (k_entropy e) <> Some None -> is_ok r = true)
  /\ forall ct, r = Ok ct -> ct <> []
       /\ forall key2 e2 p2, ID key2 = ID key -> EncryptedDEK key2 = ct ->
            derived_cache_ok p2 -> masterKey p2 = masterKey p ->
            fst (Local_DecryptDEK key2 (e2, p2)) = Ok dek.
Proof. apply encrypt_then_decrypt. Qed.

(** A toy instance of the primitives: the seal carries key and nonce in
    clear, so that opening can check them. *)
Definition ToyCrypto : CryptoPkg := {|
  hkdf_Read := λ m s i n, Ok (take n (m ++ i ++ replicate n 7));
  gcm_Seal := λ k n p, k ++ n ++ p;
  gcm_Open := λ k n c,
    if bool_decide (take (length k + length n) c = k ++ n) then Ok (drop (length k + length n) c)
    else Err (ErrorsNew "cipher: message authentication failed");
  base64_DecodeString := λ s, Ok (string_bytes s)
|}.

Lemma ToyCryptoOk : @CryptoOk ToyCrypto.
Proof.
  split.
  - intros k n p _ _. simpl. rewrite app_assoc, <-length_app.
    rewrite take_app_length, drop_app_length. by rewrite bool_decide_eq_true_2.
  - intros m s i n _. eexists. split; [done|]. rewrite length_take, !length_app, length_replicate. lia.
Qed.

#[local] Existing Instance HexUuid.
#[local] Existing Instance ToyCrypto.
#[local] Existing Instance ToyCryptoOk.

Definition ex_local : LocalKMSProvider := mkLocal [1; 2; 3] (Cache.New []).
Definition ex_env (t : Z) : KEnv := mkEnv t [Some [9; 9]] [] 0.
Definition ex_kms_key (dek : bytes) : Key :=
  mkKey KeyID_zero 1 None dek KeyStatusActive None 0 0 None.

(** Encrypt now, decrypt two hours later with the derived key expired. *)
Lemma local_roundtrip_witness :
  exists ct e' p', Local_EncryptDEK [5; 6] (ex_kms_key []) (ex_env 0, ex_local) = (Ok ct, (e', p'))
    /\ fst (Local_DecryptDEK (ex_kms_key ct) (ex_env (2 * Hour), p')) = Ok [5; 6].
Proof.
  assert (derived_cache_ok ex_local) as Hc by (intros s it Hit; unfold ex_local in Hit; cbn [derivedKeyCache] in Hit; by rewrite New_items in Hit).
  assert (masterKey ex_local <> []) as Hm by discriminate.
  destruct (Local_EncryptDEK [5; 6] (ex_kms_key []) (ex_env 0, ex_local)) as [r [e' p']] eqn:E.
  destruct (local_roundtrip [5; 6] (ex_kms_key []) (ex_env 0) ex_local r e' p' Hc Hm E)
    as (Hc' & Hm' & Hok & Hrt).
  destruct r as [ct|err|why]; [|specialize (Hok ltac:(discriminate)); discriminate Hok..].
  exists ct, e', p'. split; [reflexivity|].
  destruct (Hrt ct eq_refl) as [_ Hdec]. apply Hdec; [reflexivity|reflexivity|exact Hc'|exact Hm'].
Defined.

(** ** Retries *)

Definition env_keeps_clock {A} (fn : M KEnv A) : Prop :=
  forall e r e', fn e = (r, e') -> k_clock e' = k_clock e.

(** Bounds on the time slept in [k] passes from pass [i] on. *)
Definition retry_sleep (ib mb : Z) (extra : Z) (i k : nat) : Z :=
  foldr (λ j acc, retry_backoff ib mb j + extra + acc) 0 (seq i k).

Lemma retry_loop_run {A} todo i ib mb last (fn : M KEnv A) e r e' :
  env_keeps_clock fn -> retry_loop todo i ib mb last fn e = (r, e') ->
  match r with
  | Ok a => (todo = O /\ last = Ok a /\ e' = e)
            \/ exists k e0, (k < todo)%nat /\ fn e0 = (Ok a, e')
                 /\ retry_sleep ib mb 0 i k <= k_clock e' - k_clock e
                      <= retry_sleep ib mb (99 * Millisecond) i k
  | Err err => (todo = O /\ last = Err err /\ e' = e)
            \/ (exists e0 e1, fn e0 = (Err err, e1))
                /\ retry_sleep ib mb 0 i todo <= k_clock e' - k_clock e
                     <= retry_sleep ib mb (99 * Millisecond) i todo
  | Panic why => (todo = O /\ last = Panic why) \/ exists e0 e1, fn e0 = (Panic why, e1)
  end.
Proof.
  intros Hfn. revert i last e. induction todo as [|todo IH]; intros i last e; cbn [retry_loop].
  { unfold lift_res. intros; simplify_eq. destruct r; auto. }
  unfold mbind, GoM_bind, try_, math_Intn, env_sleep, mret, GoM_ret.
  destruct (fn e) as [[a|err|why] e1] eqn:Ef; apply Hfn in Ef as Hclk.
  - intros; simplify_eq. right. exists 0%nat, e. split_and!; [lia|done|unfold retry_sleep; simpl; lia..].
  - pose proof (Z.mod_pos_bound (hd 0 (k_jitter e1)) 100 ltac:(lia)) as Hj.
    intros Hx. apply IH in Hx. clear IH. cbn [k_clock] in Hx.
    unfold Millisecond in *. destruct r as [a|err'|why].
    + destruct Hx as [(_ & ? & _)|(k & e0 & Hk & He0 & Hs)]; [done|]. right. exists (S k), e0.
      split_and!; [lia|done|unfold retry_sleep in *; cbn [seq foldr]; lia..].
    + right. destruct Hx as [(-> & [= <-] & ->)|(He & Hs)].
      * split; [by exists e, e1|]. unfold retry_sleep. simpl. lia.
      * split; [done|]. unfold retry_sleep in *. cbn [seq foldr]. lia.
    + right. destruct Hx as [(_ & ?)|?]; done.
  - intros; simplify_eq. right. eauto.
Qed.

(** [WithRetry] with a positive number of attempts returns the value of
    the first attempt that succeeds, after at most that many attempts, or the
    error of an attempt when all fail; with the settings of the AWS provider
    the time slept is at most 997 ms on the way to a success or a failure. *)
Theorem retry_bounded {A} (zero : A) n ib mb (fn : M KEnv A) e r e' :
  env_keeps_clock fn -> (0 < n)%nat -> WithRetry zero n ib mb fn e = (r, e') ->
  match r with
  | Ok a => exists k e0, (k < n)%nat /\ fn e0 = (Ok a, e')
              /\ retry_sleep ib mb 0 0 k <= k_clock e' - k_clock e <= retry_sleep ib mb (99 * Millisecond) 0 k
  | Err err => (exists e0 e1, fn e0 = (Err err, e1))
              /\ k_clock e' - k_clock e <= retry_sleep ib mb (99 * Millisecond) 0 n
  | Panic why => exists e0 e1, fn e0 = (Panic why, e1)
  end
  /\ retry_sleep initialBackoff maxBackoff (99 * Millisecond) 0 awsMaxRetries = 997 * Millisecond.
Proof.
  intros Hfn Hn Hr. split; [|reflexivity]. apply retry_loop_run in Hr; [|done].
  destruct r; [destruct Hr as [(-> & _)|?]|destruct Hr as [(-> & _)|[? []]]|destruct Hr as [(-> & _)|?]];
    lia || naive_solver.
Qed.

Definition ex_flaky : M KEnv nat := aws_call (λ n, if Nat.leb 1 n then Ok n else Err (ErrorsNew "throttled")).

Lemma retry_bounded_witness :
  exists e', WithRetry 0%nat 3 initialBackoff maxBackoff ex_flaky (ex_env 0) = (Ok 1%nat, e')
    /\ exists k e0, (k < 3)%nat /\ ex_flaky e0 = (Ok 1%nat, e').
Proof.
  destruct (WithRetry 0%nat 3 initialBackoff maxBackoff ex_flaky (ex_env 0)) as [r e'] eqn:E.
  assert (env_keeps_clock ex_flaky) as Hk by (intros ? ? ? [= _ <-]; reflexivity).
  pose proof (retry_bounded 0%nat 3 initialBackoff maxBackoff ex_flaky _ _ _ Hk ltac:(lia) E) as [Hb _].
  assert (r = Ok 1%nat) as -> by (vm_compute in E; by injection E as <- <-).
  destruct Hb as (k & e0 & ? & ? & _). exists e'. split; [reflexivity|]. exists k, e0. auto.
Defined.

(** ** Pools *)

Definition pool_clean (p : SecureDEKPool) : Prop :=
  Forall (λ b, b = replicate (size_ p) 0) (pool p).

Lemma zero_bytes b : SecureZeroBytes b = replicate (length b) 0.
Proof. induction b; simpl; [done|]. by f_equal. Qed.

(** the DEK pool never hands out key material: from a new pool, after
    any sequence of [Get]s and [Put]s of full-size buffers, whatever was
    written into them, every buffer [Get] returns is all zero and of the
    pool's size. *)
Theorem dek_pool_clean size (ops : list (nat + bytes)) pick p' :
  Forall (λ o, match o with inr b => length b = size | inl _ => True end) ops ->
  foldl (λ p o, match o with inl i => snd (pool_Get i p) | inr b => pool_Put b p end)
    (NewSecureDEKPool size) ops = p' ->
  fst (pool_Get pick p') = replicate size 0.
Proof.
  intros Hops <-.
  assert (forall p, pool_clean p -> size_ p = size ->
    let p' := foldl (λ p o, match o with inl i => snd (pool_Get i p) | inr b => pool_Put b p end) p ops in
    pool_clean p' /\ size_ p' = size) as Hinv.
  { induction Hops as [|o ops Ho _ IH]; intros p Hc Hs; cbn [foldl]; [done|]. apply IH.
    - destruct o as [i|b]; unfold pool_clean in *; simpl in *.
      + unfold pool_Get. destruct (pool p !! i); simpl; [|done]. by apply Forall_delete.
      + constructor; [|done]. by rewrite zero_bytes, Ho, Hs.
    - destruct o as [i|b]; [|done]. unfold pool_Get. by destruct (pool p !! i). }
  destruct (Hinv (NewSecureDEKPool size)) as [Hc Hs]; [constructor|done|].
  unfold pool_Get. set (p := foldl _ _ _) in *. destruct (pool p !! pick) as [b|] eqn:E; simpl; [|by rewrite Hs].
  unfold pool_clean in Hc. rewrite Forall_lookup in Hc. by rewrite (Hc _ _ E), Hs.
Qed.

Lemma dek_pool_clean_witness :
  fst (pool_Get 0 (pool_Put [1; 2] (NewSecureDEKPool 2))) = [0; 0].
Proof. exact (dek_pool_clean 2 [inr [1; 2]] 0 _ ltac:(repeat constructor) eq_refl). Defined.
