(* ===== verification/Authorizer.v ===== *)
(** * The authorizer

    Models [internal/infra/auth/authorizer.go], [internal/domain/auth.go] and
    [internal/domain/transport.go]: role checks, identity checks, per-key
    checks and the cache of granted decisions, over any
    [domain.KeyRepository].  The span attributes of the tracer are left out. *)

From S2P Require Import Prelude Errors Domain Cache Repo Psql PsqlSpec.

(** ** Data *)

Record AuthenticatedUser := mkUser { user_ID : string; Permissions : list string }.

(** What the interceptors put in the context. *)
Record Ctx := mkCtx {
  UserFromContext : option AuthenticatedUser;
  PeerCertFromContext : option string        (* cert.Subject.CommonName *)
}.

Record AuthorizationConfig := mkAuthzConfig {
  Roles : gmap string (list string);         (* RoleConfig.AllowedOperations *)
  EnforceMTLSIdentityMatch : bool
}.

Record realAuthorizer (S : Type) := mkAuthorizer {
  cfg : AuthorizationConfig;
  az_keyRepo : S;
  policyCache : Cache string bool;
  az_audit : list AuditEntry
}.
Arguments mkAuthorizer {S}.
Arguments cfg {S}.
Arguments az_keyRepo {S}.
Arguments policyCache {S}.
Arguments az_audit {S}.

Definition NewAuthorizer {S} (c : AuthorizationConfig) (keyRepo : S) : realAuthorizer S :=
  mkAuthorizer c keyRepo (Cache.New [WithDefaultTTL (5 * Minute); WithCleanupInterval (10 * Minute)]) [].

(** ** Operations *)

Definition contains (l : list string) (s : string) : bool := bool_decide (s ∈ l).

(** The first loop of [checkAuthorization]. *)
Definition admin_role (c : AuthorizationConfig) (user : AuthenticatedUser) : bool :=
  existsb (λ roleName,
    String.eqb roleName "*"
    || match Roles c !! roleName with Some ops => contains ops "*" | None => false end) (Permissions user).

(** The loop of [authenticateAndAuthorize]. *)
Definition role_allows (c : AuthorizationConfig) (user : AuthenticatedUser) (operation : string) : bool :=
  existsb (λ roleName,
    String.eqb roleName "*"
    || match Roles c !! roleName with
       | Some ops => contains ops "*" || contains ops operation
       | None => false
       end) (Permissions user).

Definition authenticateAndAuthorize (c : AuthorizationConfig) (ctx : Ctx) (operation : string)
  : option AuthenticatedUser * bool * string :=
  match UserFromContext ctx with
  | None => (None, false, "missing_user_identity"%string)
  | Some user =>
      if role_allows c user operation then (Some user, true, "authorized"%string)
      else (None, false, "operation_not_allowed"%string)
  end.

Definition checkIdentityMatch (ctx : Ctx) (user : AuthenticatedUser) : bool * string :=
  match PeerCertFromContext ctx with
  | None => (false, "missing_peer_certificate_for_identity_check")
  | Some cn =>
      if String.eqb cn (user_ID user) then (true, "identity_match_ok")
      else (false, "mismatched_identity_cn=" +:+ cn +:+ "_user=" +:+ user_ID user)
  end.

(** The cases of the [switch]. *)
Definition key_operation (operation : string) : bool :=
  contains [AuthKeysRead; AuthKeysRotate; AuthKeysRevoke; AuthKeysUpdate] operation.

(** [reqContext.GetClientTier()] *)
Definition tier_of (rc : RequesterContext) : KeyTier := FromProtoTier (rcClientTier rc).

Section Authorizer.
Context `{UuidPkg} {S : Type} `{KeyRepository S}.
Abbreviation W := (St (realAuthorizer S)).

Definition policyKey (userID operation : string) (keyID : KeyID) : string :=
  userID +:+ ":" +:+ operation +:+ ":" +:+ KeyID_String keyID.

Definition az_repo {A} (m : M (St S) A) : M W A :=
  with_inner az_keyRepo (λ r a, mkAuthorizer (cfg a) r (policyCache a) (az_audit a)) m.

Definition az_AuditLog (client op key : string) (success : bool) (err : option error) : M W unit :=
  modify (λ w, let a := repo w in
    set_repo (mkAuthorizer (cfg a) (az_keyRepo a) (policyCache a)
                (az_audit a ++ [mkAudit client op key success err])) w).

(** What the key itself demands of the request. *)
Definition key_permits (user : AuthenticatedUser) (reqContext : option RequesterContext) (key : Key)
  : bool * string :=
  match Metadata key with
  | None => (false, "key_missing_metadata"%string)
  | Some md =>
      if negb (contains (AuthorizedContexts md) (user_ID user)) then (false, "insufficient_key_permissions"%string)
      else match reqContext with
      | None => (false, "requester_context_is_required_for_tier_validation"%string)
      | Some rc =>
          match ValidateTierForProfile (tier_of rc) (StorageType md) with
          | Err err => (false, Error err)
          | _ => (true, "authorized"%string)
          end
      end
  end.

Definition checkAuthorization (user : AuthenticatedUser) (operation : string) (keyID : KeyID)
    (reqContext : option RequesterContext) : M W (bool * string) :=
  c ← gets (λ w, cfg (repo w));
  if admin_role c user then mret (true, "authorized_by_admin_role"%string)
  else if KeyID_IsZero keyID then mret (true, "authorized"%string)
  else if key_operation operation then
    r ← try_ (az_repo (Repo.GetKey keyID));
    match r with
    | inr err => mret (false, if Is err PsqlErrKeyNotFound then "key_not_found"%string
                              else "internal_error_accessing_key"%string)
    | inl l => key ← deref l; mret (key_permits user reqContext key)
    end
  else mret (true, "authorized"%string).

(** [a.auditLogger.AuditLog(.., false, errors.New(reason)); return false, reason] *)
Definition deny (userID operation : string) (keyID : KeyID) (reason : string) : M W (bool * string) :=
  _ ← az_AuditLog userID operation (KeyID_String keyID) false (Some (ErrorsNew reason));
  mret (false, reason).

Definition grant (userID operation : string) (keyID : KeyID) (reason : string) : M W (bool * string) :=
  _ ← az_AuditLog userID operation (KeyID_String keyID) true None;
  mret (true, reason).

Definition mismatch (user : AuthenticatedUser) (reqContext : option RequesterContext) : option string :=
  match reqContext with
  | Some rc =>
      if negb (String.eqb (ClientIdentity rc) "") && negb (String.eqb (ClientIdentity rc) (user_ID user))
      then Some ("mismatched_requester_identity_token=" +:+ user_ID user +:+ "_requester=" +:+ ClientIdentity rc)
      else None
  | None => None
  end.

Definition cache_grant (cacheKey : string) : M W unit :=
  modify (λ w, let a := repo w in
    set_repo (mkAuthorizer (cfg a) (az_keyRepo a) (Cache.Set_ (clock w) cacheKey true 0 (policyCache a))
                (az_audit a)) w).

(** The part of [Authorize] from the look-up in the policy cache on. *)
Definition decide_cached (user : AuthenticatedUser) (reqContext : option RequesterContext) (operation : string)
    (keyID : KeyID) : M W (bool * string) :=
  let cacheKey := policyKey (user_ID user) operation keyID in
  found ← gets (λ w, Cache.Get (clock w) cacheKey (policyCache (repo w)));
  match found with
  | Some authorized =>
      if negb authorized then deny (user_ID user) operation keyID "operation_not_allowed_by_cache"
      else grant (user_ID user) operation keyID "authorized_by_cache"
  | None =>
      '(authorized, reason) ← checkAuthorization user operation keyID reqContext;
      if (authorized : bool) then
        _ ← cache_grant cacheKey;
        grant (user_ID user) operation keyID reason
      else deny (user_ID user) operation keyID reason
  end.

Definition Authorize (ctx : Ctx) (reqContext : option RequesterContext) (operation : string) (keyID : KeyID)
  : M W (bool * string) :=
  c ← gets (λ w, cfg (repo w));
  let '(user, ok, reason) := authenticateAndAuthorize c ctx operation in
  match ok, user with
  | false, _ =>
      deny (match user with Some u => user_ID u | None => "" end) operation keyID reason
  | true, None => panic "nil pointer dereference"
  | true, Some user =>
      match mismatch user reqContext with
      | Some reason => deny (user_ID user) operation keyID reason
      | None =>
          let '(ok, reason) :=
            if EnforceMTLSIdentityMatch c then checkIdentityMatch ctx user else (true, ""%string) in
          if negb ok then deny (user_ID user) operation keyID reason
          else decide_cached user reqContext operation keyID
      end
  end.

(** The cleanup goroutine of the cache. *)
Definition az_cleanup : M W unit :=
  modify (λ w, let a := repo w in
    set_repo (mkAuthorizer (cfg a) (az_keyRepo a)
                (deleteExpired None (clock w) (policyCache a, tt)).1 (az_audit a)) w).

End Authorizer.

(** ** The cache key determines the decision *)

Definition auth_ops : list string :=
  [AuthKeysRead; AuthKeysCreate; AuthKeysList; AuthKeysRotate; AuthKeysRevoke; AuthKeysUpdate].

Lemma rev_string_app (a b : string) :
  rev (String.list_ascii_of_string (a +:+ b))
  = rev (String.list_ascii_of_string b) ++ rev (String.list_ascii_of_string a).
Proof.
  rewrite <- rev_app_distr. f_equal. induction a as [|x a IH]; simpl; [done|]. by f_equal.
Qed.

Lemma list_ascii_inj (a b : string) :
  String.list_ascii_of_string a = String.list_ascii_of_string b -> a = b.
Proof.
  intros E. rewrite <- (String.string_of_list_ascii_of_string a), E.
  apply String.string_of_list_ascii_of_string.
Qed.

(** No operation name is a suffix of another. *)
Lemma user_op_inj u op u' op' :
  op ∈ auth_ops -> op' ∈ auth_ops -> u +:+ (":" +:+ op) = u' +:+ (":" +:+ op') -> u = u' /\ op = op'.
Proof.
  intros Hop Hop' E. apply (f_equal (λ s, rev (String.list_ascii_of_string s))) in E.
  rewrite !rev_string_app in E.
  unfold auth_ops in Hop, Hop'. rewrite !elem_of_cons, elem_of_nil in Hop, Hop'.
  destruct_or! Hop; try done; destruct_or! Hop'; try done; subst; cbn in E; simplify_eq; try done.
  all: split; [|done]; by apply list_ascii_inj, rev_inj.
Qed.

Lemma policyKey_inj `{UuidPkgOk} u op id u' op' id' :
  op ∈ auth_ops -> op' ∈ auth_ops -> policyKey u op id = policyKey u' op' id' ->
  u = u' /\ op = op' /\ id = id'.
Proof.
  unfold policyKey. intros Hop Hop' E.
  assert (u +:+ (":" +:+ op) = u' +:+ (":" +:+ op') /\ KeyID_String id = KeyID_String id') as [E1 E2].
  { pose proof (f_equal String.length E) as El. rewrite !length_app_str in El.
    pose proof (uuid_String_length (value id)) as L1. pose proof (uuid_String_length (value id')) as L2.
    unfold KeyID_String in *.
    assert ((u +:+ (":" +:+ op)) +:+ (":" +:+ uuid_String (value id))
      = (u' +:+ (":" +:+ op')) +:+ (":" +:+ uuid_String (value id'))) as E' by (by rewrite !app_assoc_str).
    apply app_inj_str in E' as [E1 E2]; [|rewrite !length_app_str; lia].
    split; [done|]. by apply app_inj_str in E2 as [_ ?]. }
  apply user_op_inj in E1 as [-> ->]; [|done..]. split_and!; try done. by apply KeyID_String_inj.
Qed.

(** ** How fresh a grant is *)

Ltac authz := unfold grant, deny, az_AuditLog, cache_grant in *; go_unfold; simplify_eq/=; eauto.

Section Fresh.
Context `{UuidPkgOk} {S : Type} `{KeyRepository S}.
Abbreviation W := (St (realAuthorizer S)).

(** A call of [Authorize] and the world it started in. *)
Record Call := mkCall {
  c_ctx : Ctx; c_req : option RequesterContext; c_op : string; c_key : KeyID; c_world : W
}.

(** Runs of the authorizer: calls, the cleanup of the cache, and whatever the
    rest of the program does to the keys, the clock and the audit log in
    between; the policy cache is private. *)
Inductive reached : list Call -> W -> Prop :=
| r_start w : policyCache (repo w) = policyCache (NewAuthorizer (cfg (repo w)) (az_keyRepo (repo w))) -> reached [] w
| r_env h w w' : reached h w -> policyCache (repo w') = policyCache (repo w) -> reached h w'
| r_cleanup h w r w' : reached h w -> az_cleanup w = (r, w') -> reached h w'
| r_call h w ctx rc op id r w' :
    reached h w -> op ∈ auth_ops -> Authorize ctx rc op id w = (r, w') ->
    reached (mkCall ctx rc op id w :: h) w'.

(** [c] granted [user]'s operation on the key by checking it, and [w1] is the
    world right after. *)
Definition checked (c : Call) (userID op : string) (id : KeyID) (w1 : W) : Prop :=
  c_op c = op /\ c_key c = id /\ op ∈ auth_ops /\ exists user why,
    UserFromContext (c_ctx c) = Some user /\ user_ID user = userID
    /\ checkAuthorization user op id (c_req c) (c_world c) = (Ok (true, why), w1).

Definition fresh_cache (h : list Call) (c : Cache string bool) : Prop :=
  defaultTTL c = 5 * Minute /\ forall ck it, items c !! ck = Some it ->
    permanent it = false /\ it_value it = true /\ exists call userID op id w1,
      call ∈ h /\ checked call userID op id w1 /\ ck = policyKey userID op id
      /\ expiresAt it = clock w1 + 5 * Minute.

Lemma fresh_mono h h' c : h ⊆ h' -> fresh_cache h c -> fresh_cache h' c.
Proof.
  intros Hh [Ht Hc]. split; [done|]. intros ck it (? & ? & call & userID & op & id & w1 & ? & ?)%Hc.
  split_and!; [done..|]. exists call, userID, op, id, w1. naive_solver.
Qed.

Lemma fresh_set h c call userID op id w1 :
  fresh_cache h c -> call ∈ h -> checked call userID op id w1 ->
  fresh_cache h (Cache.Set_ (clock w1) (policyKey userID op id) true 0 c).
Proof.
  intros [Ht Hc] Hin Hch. split; [done|]. intros ck it. simpl. rewrite lookup_insert.
  case_decide as E; [|apply Hc]. intros [= <-]. simpl. rewrite Ht. naive_solver.
Qed.

(** Checking reads the keys and nothing else of the authorizer's. *)
Lemma checkAuthorization_keeps user op id rc (w : W) r w' :
  checkAuthorization user op id rc w = (r, w') ->
  policyCache (repo w') = policyCache (repo w) /\ az_audit (repo w') = az_audit (repo w)
  /\ cfg (repo w') = cfg (repo w).
Proof.
  unfold checkAuthorization. go_unfold. destruct (admin_role _ _); [intros; by simplify_eq|].
  destruct (KeyID_IsZero id); [intros; by simplify_eq|].
  destruct (key_operation op); [|intros; by simplify_eq].
  unfold az_repo, with_inner. destruct (Repo.GetKey id _) as [[l|e|p] wi]; simpl; try (intros; by simplify_eq).
  unfold deref. simpl. destruct (heap wi !! l); intros; by simplify_eq.
Qed.

(** How a call ends once the identity checks are passed. *)
Lemma decide_cached_cases user rc op id (w : W) r w' :
  decide_cached user rc op id w = (r, w') ->
  (exists b, Cache.Get (clock w) (policyKey (user_ID user) op id) (policyCache (repo w)) = Some b
     /\ (exists why, r = Ok (b, why)) /\ policyCache (repo w') = policyCache (repo w))
  \/ exists r1 w1, checkAuthorization user op id rc w = (r1, w1)
     /\ is_ok r = is_ok r1
     /\ match r1 with
        | Ok (true, why) => r = Ok (true, why)
            /\ policyCache (repo w') = Cache.Set_ (clock w1) (policyKey (user_ID user) op id) true 0 (policyCache (repo w))
        | Ok (false, why) => r = Ok (false, why) /\ policyCache (repo w') = policyCache (repo w)
        | _ => policyCache (repo w') = policyCache (repo w)
        end.
Proof.
  unfold decide_cached. unfold mbind at 1, GoM_bind at 1, gets.
  destruct (Cache.Get _ _ _) as [b|] eqn:Hget.
  - intros E. left. exists b. destruct b; authz.
  - intros E. right. unfold mbind at 1, GoM_bind at 1 in E.
    destruct (checkAuthorization user op id rc w) as [r1 w1] eqn:Hc. exists r1, w1. split; [done|].
    destruct (checkAuthorization_keeps _ _ _ _ _ _ _ Hc) as (Hp & _).
    destruct r1 as [[[] why]|e|p]; authz; by rewrite ?Hp.
Qed.

Lemma Authorize_cases ctx rc op id (w : W) r w' :
  Authorize ctx rc op id w = (r, w') ->
  (exists uid why, deny uid op id why w = (r, w'))
  \/ exists user, UserFromContext ctx = Some user /\ role_allows (cfg (repo w)) user op = true
     /\ mismatch user rc = None
     /\ (EnforceMTLSIdentityMatch (cfg (repo w)) = true -> PeerCertFromContext ctx = Some (user_ID user))
     /\ decide_cached user rc op id w = (r, w').
Proof.
  unfold Authorize. unfold mbind at 1, GoM_bind at 1, gets, authenticateAndAuthorize.
  destruct (UserFromContext ctx) as [user|]; [|intros E; left; eexists _, _; exact E].
  destruct (role_allows _ user op) eqn:Hr; [|intros E; left; eexists _, _; exact E].
  destruct (mismatch user rc) eqn:Hm; [intros E; left; eexists _, _; exact E|].
  destruct (EnforceMTLSIdentityMatch _) eqn:Hmt; [|intros; right; naive_solver].
  unfold checkIdentityMatch. destruct (PeerCertFromContext ctx) as [cn|] eqn:Hcn;
    [|intros E; left; eexists _, _; exact E].
  destruct (String.eqb_spec cn (user_ID user)) as [->|];
    [intros; right; naive_solver|intros E; left; eexists _, _; exact E].
Qed.

(** [Authorize] has no error result. *)
Lemma Authorize_no_err ctx rc op id (w : W) e w' : Authorize ctx rc op id w <> (Err e, w').
Proof.
  intros [(? & ? & E)|(user & _ & _ & _ & _ & E)]%Authorize_cases; [by authz|].
  unfold decide_cached in E. unfold mbind at 1, GoM_bind at 1, gets in E.
  destruct (Cache.Get _ _ _) as [[]|]; [by authz..|]. unfold mbind at 1, GoM_bind at 1 in E.
  destruct (checkAuthorization user op id rc w) as [r1 w1] eqn:Hc.
  destruct r1 as [[[] why]|e1|p]; [by authz..| |done].
  unfold checkAuthorization in Hc. unfold mbind, GoM_bind, gets, try_, deref in Hc.
  repeat case_match; by simplify_eq.
Qed.

Lemma reached_fresh h w : reached h w -> fresh_cache h (policyCache (repo w)).
Proof.
  induction 1 as [w E|h w w' Hr IH E|h w r w' Hr IH E|h w ctx rc op id r w' Hr IH Hop E].
  - rewrite E. split; [done|]. intros ck it. simpl. by rewrite lookup_empty.
  - by rewrite E.
  - unfold az_cleanup, modify in E. simplify_eq/=. destruct IH as [Ht Hc]. split.
    + by rewrite deleteExpired_ttl.
    + intros ck it. rewrite deleteExpired_items. destruct (items _ !! ck) as [it'|] eqn:Hi; [|done].
      destruct (expired _ it'); [done|]. intros [= <-]. by eapply Hc.
  - assert (fresh_cache (mkCall ctx rc op id w :: h) (policyCache (repo w))) as IH'
      by (eapply fresh_mono; [|done]; set_solver).
    apply Authorize_cases in E as [(uid & why & E)|(user & Hu & _ & _ & _ & E)]; [by authz|].
    apply decide_cached_cases in E as [(b & _ & _ & ->)|(r1 & w1 & Hck & _ & E)]; [done|].
    destruct r1 as [[[] why]|e|p]; [|destruct E as [_ ->]; done|by rewrite E..].
    destruct E as [_ ->]. eapply fresh_set; [done|by left|]. split_and!; [done..|]. eauto.
Qed.

End Fresh.

(** C7: whoever is authorized is authenticated, holds a role that allows the
    operation, speaks in their own name and, where the configuration demands
    it, over a certificate of that name; and the policy was checked for that
    user, operation and key by this call or by an earlier one at most five
    minutes ago, however calls, cache clean-ups and changes to the keys were
    interleaved. *)
Theorem authorize_fresh `{UuidPkgOk} {S} `{KeyRepository S} h (w w' : St (realAuthorizer S)) ctx rc op id reason :
  reached h w -> op ∈ auth_ops -> Authorize ctx rc op id w = (Ok (true, reason), w') ->
  exists user, UserFromContext ctx = Some user /\ role_allows (cfg (repo w)) user op = true
    /\ mismatch user rc = None
    /\ (EnforceMTLSIdentityMatch (cfg (repo w)) = true -> PeerCertFromContext ctx = Some (user_ID user))
    /\ exists call w1, (call = mkCall ctx rc op id w \/ call ∈ h /\ clock w <= clock w1 + 5 * Minute)
         /\ checked call (user_ID user) op id w1.
Proof.
  intros Hr Hop Ha. destruct (Authorize_cases _ _ _ _ _ _ _ Ha) as [(? & ? & E)|(user & Hu & Hro & Hm & Hmt & E)]; [by authz|].
  exists user. split_and!; try done.
  destruct (decide_cached_cases _ _ _ _ _ _ _ E) as [(b & Hg & _ & _)|(r1 & w1 & Hck & Hok & Hr1)].
  - unfold Cache.Get in Hg. destruct (items _ !! _) as [it|] eqn:Hit; [|done].
    destruct (expired _ it) eqn:Hex; [done|].
    destruct (reached_fresh _ _ Hr) as [_ Hc].
    destruct (Hc _ _ Hit) as (Hperm & _ & call & userID & op' & id' & w1 & Hin & Hch & Hk & Hexp).
    apply policyKey_inj in Hk as (<- & <- & <-); [|done|apply Hch].
    exists call, w1. split; [|done]. right. split; [done|]. unfold expired in Hex. rewrite Hperm in Hex. simpl in Hex.
    lia.
  - exists (mkCall ctx rc op id w), w1. split; [by left|].
    destruct r1 as [[[] why]|e|p]; try (destruct Hr1; congruence); try discriminate Hok.
    split_and!; [done..|]. eauto.
Qed.

(** every call of [Authorize] that returns is audited exactly once, with
    the operation, the key and the decision it returned; a grant is audited
    under the id of the authenticated user. *)
Theorem authorize_audited `{UuidPkg} {S} `{KeyRepository S} ctx rc op id (w w' : St (realAuthorizer S)) ok reason :
  Authorize ctx rc op id w = (Ok (ok, reason), w') ->
  exists e, az_audit (repo w') = az_audit (repo w) ++ [e]
    /\ au_operation e = op /\ au_key e = KeyID_String id /\ au_success e = ok
    /\ (ok = true -> au_error e = None /\ exists user, UserFromContext ctx = Some user /\ au_client e = user_ID user)
    /\ (ok = false -> au_error e = Some (ErrorsNew reason)).
Proof.
  intros [(uid & why & E)|(user & Hu & _ & _ & _ & E)]%Authorize_cases; [authz; eexists; naive_solver|].
  unfold decide_cached in E. unfold mbind at 1, GoM_bind at 1, gets in E.
  destruct (Cache.Get _ _ _) as [[]|]; [authz; eexists; naive_solver..|].
  unfold mbind at 1, GoM_bind at 1 in E.
  destruct (checkAuthorization user op id rc w) as [r1 w1] eqn:Hc.
  destruct (checkAuthorization_keeps _ _ _ _ _ _ _ Hc) as (_ & Ha & _).
  destruct r1 as [[[] why]|e|p]; authz; rewrite Ha; eexists; naive_solver.
Qed.

(** a grant sticks.  For five minutes after the policy was checked, every
    request of the same user for the same operation on the same key is
    granted without looking at the key or at the request: whatever tier the
    client now claims, whatever has become of the key and of its authorized
    contexts. *)
Theorem grant_is_sticky `{UuidPkg} {S} `{KeyRepository S} ctx rc ctx2 rc2 op id user user2 reason
    (w w1 w2 : St (realAuthorizer S)) :
  defaultTTL (policyCache (repo w)) = 5 * Minute ->
  UserFromContext ctx = Some user -> Authorize ctx rc op id w = (Ok (true, reason), w1) ->
  reason <> "authorized_by_cache"%string ->
  policyCache (repo w2) = policyCache (repo w1) -> clock w2 <= clock w1 + 5 * Minute ->
  UserFromContext ctx2 = Some user2 -> user_ID user2 = user_ID user ->
  role_allows (cfg (repo w2)) user2 op = true -> mismatch user2 rc2 = None ->
  (EnforceMTLSIdentityMatch (cfg (repo w2)) = true -> PeerCertFromContext ctx2 = Some (user_ID user2)) ->
  fst (Authorize ctx2 rc2 op id w2) = Ok (true, "authorized_by_cache"%string).
Proof.
  intros Ht Hu E Hr Hp Hc Hu2 Hid Hro Hm Hmt.
  apply Authorize_cases in E as [(? & ? & E)|(user' & Hu' & _ & _ & _ & E)]; [by authz|].
  assert (user' = user) as -> by congruence.
  assert (policyCache (repo w1) = Cache.Set_ (clock w1) (policyKey (user_ID user) op id) true 0 (policyCache (repo w)))
    as Hset.
  { unfold decide_cached in E. unfold mbind at 1, GoM_bind at 1, gets in E.
    destruct (Cache.Get _ _ _) as [[]|]; [by authz..|]. unfold mbind at 1, GoM_bind at 1 in E.
    destruct (checkAuthorization user op id rc w) as [r1 w0] eqn:Hck.
    destruct (checkAuthorization_keeps _ _ _ _ _ _ _ Hck) as (Hpc & _).
    destruct r1 as [[[] why]|e|p]; authz. by rewrite Hpc. }
  assert (Cache.Get (clock w2) (policyKey (user_ID user2) op id) (policyCache (repo w2)) = Some true) as Hget.
  { rewrite Hp, Hset, Hid, Get_Set, decide_True by done. simpl. rewrite Ht.
    destruct (Z.ltb_spec (clock w1 + 5 * Minute) (clock w2)); [lia|done]. }
  assert (decide_cached user2 rc2 op id w2 = grant (user_ID user2) op id "authorized_by_cache" w2) as Hd.
  { unfold decide_cached. unfold mbind at 1, GoM_bind at 1, gets. by rewrite Hget. }
  unfold Authorize, authenticateAndAuthorize, checkIdentityMatch. erewrite bind_eq by done. cbv beta.
  rewrite Hu2, Hro, Hm. destruct (EnforceMTLSIdentityMatch _).
  - rewrite (Hmt eq_refl), String.eqb_refl. simpl. by rewrite Hd.
  - simpl. by rewrite Hd.
Qed.

(** ** Concrete runs *)

#[local] Existing Instance HexUuid.
#[local] Existing Instance HexUuidOk.

(** A hardened key that [alice] may use. *)
Definition ex_hard : Row :=
  mkRow id_a 1 (JsonOf (mkMetadata "" KEY_TYPE_AES_256 KEY_STATUS_ACTIVE 1 None None None None "alice" ["alice"] ∅
    "" ∅ "" "" 0 STORAGE_PROFILE_HARDENED)) [1] KeyStatusActive StorageTypeHardened 1000 1000 None.
Definition ex_az : St (realAuthorizer PSQLAdapter) :=
  set_repo (NewAuthorizer (mkAuthzConfig {[ "user" := [AuthKeysRead] ]} false) (mkPSQL [ex_hard] [] [] []))
    (ex_w [] []).
Definition ex_ctx : Ctx := mkCtx (Some (mkUser "alice" ["user"])) None.
Definition ex_rc (t : ClientTier) : option RequesterContext := Some (mkRequester "alice" t).

Lemma authorize_fresh_witness :
  exists call w1, (call = mkCall ex_ctx (ex_rc CLIENT_TIER_PRO) AuthKeysRead id_a ex_az \/ call ∈ []
     /\ clock ex_az <= clock w1 + 5 * Minute) /\ checked call "alice" AuthKeysRead id_a w1.
Proof.
  destruct (authorize_fresh [] ex_az (snd (Authorize ex_ctx (ex_rc CLIENT_TIER_PRO) AuthKeysRead id_a ex_az))
    ex_ctx (ex_rc CLIENT_TIER_PRO) AuthKeysRead id_a "authorized") as (user & Hu & _ & _ & _ & call & w1 & Hc).
  - by apply r_start.
  - by left.
  - vm_compute. reflexivity.
  - exists call, w1. injection Hu as <-. exact Hc.
Defined.

Lemma authorize_audited_witness :
  exists e, az_audit (repo (snd (Authorize ex_ctx (ex_rc CLIENT_TIER_FREE) AuthKeysRead id_a ex_az))) = [e]
    /\ au_success e = false.
Proof.
  destruct (authorize_audited ex_ctx (ex_rc CLIENT_TIER_FREE) AuthKeysRead id_a ex_az
    (snd (Authorize ex_ctx (ex_rc CLIENT_TIER_FREE) AuthKeysRead id_a ex_az)) false
    "tier 'free' is not permitted to use the 'STORAGE_PROFILE_HARDENED' storage profile")
    as (e & He & _ & _ & Hs & _).
  - vm_compute. reflexivity.
  - exists e. split; [exact He|exact Hs].
Defined.

(** Refused as a free client, served as one after a request as a pro client. *)
Lemma grant_is_sticky_witness :
  let w1 := snd (Authorize ex_ctx (ex_rc CLIENT_TIER_PRO) AuthKeysRead id_a ex_az) in
  (exists why, fst (Authorize ex_ctx (ex_rc CLIENT_TIER_FREE) AuthKeysRead id_a ex_az) = Ok (false, why))
  /\ fst (Authorize ex_ctx (ex_rc CLIENT_TIER_FREE) AuthKeysRead id_a w1) = Ok (true, "authorized_by_cache"%string).
Proof.
  split; [eexists; vm_compute; reflexivity|].
  refine (grant_is_sticky ex_ctx (ex_rc CLIENT_TIER_PRO) ex_ctx (ex_rc CLIENT_TIER_FREE) AuthKeysRead id_a
    (mkUser "alice" ["user"]) (mkUser "alice" ["user"]) "authorized" ex_az _ _ eq_refl eq_refl _ _ eq_refl _ eq_refl
    eq_refl _ _ _).
  - vm_compute. reflexivity.
  - discriminate.
  - vm_compute. discriminate.
  - vm_compute. reflexivity.
  - vm_compute. reflexivity.
  - vm_compute. discriminate.
Defined.
