(* ===== verification/Service.v ===== *)
(** * The key service

    Models [internal/service/]: [key_service.go], [key_creator.go],
    [key_retriever.go], [key_lister.go] and [key_manager.go], over any
    [domain.KeyRepository].  Each RPC handler is one definition over the
    world: the heap of key objects, the clock and the fields of
    [keyServiceImpl]. *)

From S2P Require Import Prelude Errors Domain Repo Batch Kms.

(** ** Messages *)

Record CreateKeyItem := mkCreateItem {
  ci_KeyType : Z;
  ci_Description : string;
  ci_Tags : gmap string string;
  ci_ExpiresAt : option Z;
  ci_InitialAuthorizedContexts : list string;
  ci_AccessPolicies : gmap string string;
  ci_DataClassification : string
}.

Record CreateKeyRequest := mkCreateReq {
  cr_RequesterContext : option RequesterContext;
  cr_KeyType : Z;
  cr_Description : string;
  cr_Tags : gmap string string;
  cr_ExpiresAt : option Z;
  cr_InitialAuthorizedContexts : list string;
  cr_AccessPolicies : gmap string string;
  cr_DataClassification : string
}.

Record KeyMaterial := mkMaterial {
  EncryptedKeyData : bytes;
  EncryptionAlgorithm : string;
  KeyChecksum : string
}.

Record CreateKeyResponse := mkCreateResp {
  cresp_KeyId : string;
  cresp_Metadata : option KeyMetadata;
  cresp_KeyMaterial : option KeyMaterial;
  cresp_Timestamp : option Z
}.

Record GetKeyRequest := mkGetReq {
  gr_RequesterContext : option RequesterContext;
  gr_KeyId : string;
  gr_Version : Z;
  gr_SkipMetadata : bool
}.

Record GetKeyResponse := mkGetResp {
  gresp_KeyMaterial : KeyMaterial;
  gresp_Metadata : option KeyMetadata;
  gresp_Timestamp : Z
}.

Record GetKeyMetadataRequest := mkMetaReq {
  mr_RequesterContext : option RequesterContext;
  mr_KeyId : string;
  mr_Version : Z
}.

Record ListKeysResponse := mkListResp {
  lk_Keys : list (option KeyMetadata);
  lk_NextPageToken : string;
  lk_Timestamp : Z
}.

Record RotateKeyResponse := mkRotateResp {
  rr_KeyId : string;
  rr_NewVersion : Z;
  rr_PreviousVersion : Z;
  rr_NewKeyMaterial : KeyMaterial;
  rr_Metadata : option KeyMetadata;
  rr_RotationTimestamp : Z;
  rr_OldVersionExpiresAt : Z
}.

(** [KeyRequestItem] and [RotateKeyItem] *)
Record KeyRequestItem := mkKeyItem { ki_KeyId : string; ki_SkipMetadata : bool }.
Record RotateKeyItem := mkRotateItem { ri_KeyId : string; ri_GracePeriodSeconds : Z }.

(** The common part of the batch requests. *)
Record BatchRequest (A : Type) := mkBatchReq {
  bq_RequesterContext : option RequesterContext;
  bq_Keys : list A;
  bq_ContinueOnError : bool
}.
Arguments mkBatchReq {A}.
Arguments bq_RequesterContext {A}.
Arguments bq_Keys {A}.
Arguments bq_ContinueOnError {A}.

Record UpdateItem := mkUpdate {
  u_KeyId : string;
  u_Description : option string;
  u_ExpiresAt : option Z;
  u_DataClassification : option string;
  u_TagsToAdd : gmap string string;
  u_TagsToRemove : list string;
  u_PoliciesToUpdate : gmap string string
}.

(** A per-key outcome of a batch response: [Result_Success]/[Result_Error]. *)
Record BatchOutcome (A : Type) := mkOutcome { bo_KeyId : string; bo_Result : A + string }.
Arguments mkOutcome {A}.
Arguments bo_KeyId {A}.
Arguments bo_Result {A}.

Record BatchResponse (A : Type) := mkBatchResp {
  br_Results : list (BatchOutcome A);
  br_SuccessfulCount : Z;
  br_FailedCount : Z;
  br_Timestamp : Z
}.
Arguments mkBatchResp {A}.
Arguments br_Results {A}.
Arguments br_SuccessfulCount {A}.
Arguments br_FailedCount {A}.
Arguments br_Timestamp {A}.

(** [hex.EncodeToString(sha256.Sum256(b))] *)
Class Sha256Pkg := { sha256_hex : bytes -> string }.

(** [time.RFC3339Nano]: [t.Format] and [time.Parse]. *)
Class TimeFormat := { time_Format : Z -> string; time_Parse : string -> res Z }.

(** ** State *)

Record keyServiceImpl (S : Type) := mkSvc {
  keyRepo : S;
  kmsProviders : gmap string KMSProvider;
  DefaultKMSProvider : string;          (* cfg.DefaultKMSProvider *)
  dekPools : gmap Z SecureDEKPool;
  auditLog : list AuditEntry;           (* what auditLogger was told *)
  entropy : list (option bytes);        (* crypto/rand *)
  jitter : list Z;                      (* math/rand *)
  awsCalls : nat;
  newIds : list uuid;                   (* uuid.New() *)
  picks : list nat                      (* which pooled buffer Get finds *)
}.
Arguments mkSvc {S}.
Arguments keyRepo {S}.
Arguments kmsProviders {S}.
Arguments DefaultKMSProvider {S}.
Arguments dekPools {S}.
Arguments auditLog {S}.
Arguments entropy {S}.
Arguments jitter {S}.
Arguments awsCalls {S}.
Arguments newIds {S}.
Arguments picks {S}.

Section State.
Context {S : Type}.
Abbreviation W := (St (keyServiceImpl S)).

Definition set_keyRepo (r : S) (s : keyServiceImpl S) : keyServiceImpl S :=
  mkSvc r (kmsProviders s) (DefaultKMSProvider s) (dekPools s) (auditLog s) (entropy s) (jitter s)
    (awsCalls s) (newIds s) (picks s).
Definition set_dekPools (p : gmap Z SecureDEKPool) (s : keyServiceImpl S) : keyServiceImpl S :=
  mkSvc (keyRepo s) (kmsProviders s) (DefaultKMSProvider s) p (auditLog s) (entropy s) (jitter s)
    (awsCalls s) (newIds s) (picks s).

(** [s.keyRepo.Method(..)] *)
Definition with_repo {A} (m : M (St S) A) : M W A := with_inner keyRepo set_keyRepo m.

Definition AuditLog (client op key : string) (success : bool) (err : option error) : M W unit :=
  modify (λ w, let s := repo w in
    set_repo (mkSvc (keyRepo s) (kmsProviders s) (DefaultKMSProvider s) (dekPools s)
      (auditLog s ++ [mkAudit client op key success err]) (entropy s) (jitter s) (awsCalls s)
      (newIds s) (picks s)) w).

(** Run provider code: the environment is spread over the world. *)
Definition with_env {A} (m : M KEnv A) : M W A := λ w,
  let s := repo w in
  let '(r, e) := m (mkEnv (clock w) (entropy s) (jitter s) (awsCalls s)) in
  (r, mkSt (k_clock e) (heap w) (next w)
        (mkSvc (keyRepo s) (kmsProviders s) (DefaultKMSProvider s) (dekPools s) (auditLog s)
           (k_entropy e) (k_jitter e) (k_aws e) (newIds s) (picks s))).

Definition with_provider {A} (name : string) (m : M (KEnv * KMSProvider) A) : M W A := λ w,
  let s := repo w in
  match kmsProviders s !! name with
  | None => (Panic "nil pointer dereference", w)
  | Some p =>
      let '(r, (e, p')) := m (mkEnv (clock w) (entropy s) (jitter s) (awsCalls s), p) in
      (r, mkSt (k_clock e) (heap w) (next w)
            (mkSvc (keyRepo s) (<[name := p']> (kmsProviders s)) (DefaultKMSProvider s) (dekPools s)
               (auditLog s) (k_entropy e) (k_jitter e) (k_aws e) (newIds s) (picks s)))
  end.

(** [domain.NewKeyID()] *)
Definition fresh_id : M W KeyID := λ w,
  let s := repo w in
  (Ok (NewKeyID (hd uuid_Nil (newIds s))),
   set_repo (mkSvc (keyRepo s) (kmsProviders s) (DefaultKMSProvider s) (dekPools s) (auditLog s)
     (entropy s) (jitter s) (awsCalls s) (tl (newIds s)) (picks s)) w).

Definition next_pick : M W nat := λ w,
  let s := repo w in
  (Ok (hd O (picks s)),
   set_repo (mkSvc (keyRepo s) (kmsProviders s) (DefaultKMSProvider s) (dekPools s) (auditLog s)
     (entropy s) (jitter s) (awsCalls s) (newIds s) (tl (picks s))) w).

(** [dek := dekPool.Get(); defer dekPool.Put(dek)] around the body, which
    receives the buffer; the deferred call runs however the body ends. *)
Definition with_pooled {A} (keyType : Z) (body : bytes -> M W A) : M W A := λ w0,
  match next_pick w0 with
  | (Ok pick, w) =>
      match dekPools (repo w) !! keyType with
      | None => (Panic "nil pointer dereference", w)
      | Some p =>
          let '(buf, p1) := pool_Get pick p in
          let '(r, w1) := body buf (set_repo (set_dekPools (<[keyType := p1]> (dekPools (repo w))) (repo w)) w) in
          let p2 := default p1 (dekPools (repo w1) !! keyType) in
          (r, set_repo (set_dekPools (<[keyType := pool_Put buf p2]> (dekPools (repo w1))) (repo w1)) w1)
      end
  | (Err e, w) => (Err e, w)
  | (Panic s, w) => (Panic s, w)
  end.

End State.

(** ** key_service.go *)

Definition GetClientIdentity (rc : option RequesterContext) : string :=
  match rc with Some rc => ClientIdentity rc | None => "" end.

(** [req.RequesterContext == nil || ..GetClientIdentity() == ""] *)
Definition no_requester (rc : option RequesterContext) : bool :=
  match rc with Some rc => String.eqb (ClientIdentity rc) "" | None => true end.

Section Service.
Context `{UuidPkg} `{CryptoPkg} `{AwsKms} `{Sha256Pkg} `{TimeFormat} {S : Type} `{KeyRepository S}.
Abbreviation W := (St (keyServiceImpl S)).

Definition NewKeyService (defaultProvider : string) (repo : S) (providers : gmap string KMSProvider)
    : keyServiceImpl S :=
  mkSvc repo providers defaultProvider
    (match GetCryptoDetails KEY_TYPE_AES_256 with
     | Ok (size, _) => {[ KEY_TYPE_AES_256 := NewSecureDEKPool (Z.to_nat size) ]}
     | _ => ∅
     end) [] [] [] O [] [].

Definition getKMSProvider (profile : Z) : M W string :=
  s ← gets repo;
  let providerName := if profile =? STORAGE_PROFILE_HARDENED then "aws" else DefaultKMSProvider s in
  match kmsProviders s !! providerName with
  | None => fail (ErrorsNew (providerName +:+ " kms provider not found"))
  | Some _ => mret providerName
  end.

Definition getKeyByRequest (keyID : KeyID) (version : Z) : M W loc :=
  on_err (λ err, if Is err PsqlErrKeyNotFound then Sentinel ErrKeyNotFound else err)
    (if 0 <? version then with_repo (Repo.GetKeyByVersion keyID version)
     else with_repo (Repo.GetKey keyID)).

(** ** key_creator.go *)

Definition unsupported_type : error := WrapSuf (Sentinel SvcErrInvalidKeyType) "unsupported key type for pooling".

Definition createKeyObject (item : CreateKeyItem) (clientIdentity : string) (storageProfile : Z) : M W Key :=
  description ← lift_res (map_err (Wrap2 (Sentinel ErrInvalidInput)) (NewDescription (ci_Description item)));
  pools ← gets (λ w, dekPools (repo w));
  match pools !! ci_KeyType item with
  | None => fail unsupported_type
  | Some _ =>
      with_pooled (ci_KeyType item) (λ buf,
        dek ← on_err (Wrap2 (Sentinel ErrKeyGenerationFail)) (with_env (rand_Read (length buf)));
        keyID ← fresh_id;
        now ← time_now;
        provider ← getKMSProvider storageProfile;
        let md := mkMetadata (KeyID_String keyID) (ci_KeyType item) KEY_STATUS_ACTIVE 1 (Some now) (Some now)
                    (ci_ExpiresAt item) None clientIdentity (ci_InitialAuthorizedContexts item)
                    (ci_AccessPolicies item) (Description_String description) (ci_Tags item)
                    (ci_DataClassification item) "" 0 storageProfile in
        let finalKey := mkKey keyID 1 (Some md) [] KeyStatusActive None now now None in
        encryptedDEK ← on_err (Wrap "failed to encrypt DEK") (with_provider provider (EncryptDEK dek finalKey));
        mret (set_EncryptedDEK encryptedDEK finalKey))
  end.

Definition CreateKey (req : option CreateKeyRequest) : M W CreateKeyResponse :=
  match req with
  | None => fail (Sentinel ErrInvalidInput)
  | Some req =>
    if no_requester (cr_RequesterContext req) then fail (Sentinel ErrInvalidInput)
    else
      let clientTier := FromProtoTier (match cr_RequesterContext req with
                                       | Some rc => rcClientTier rc | None => CLIENT_TIER_OTHER 0 end) in
      let storageProfile := GetStorageProfileForTier clientTier in
      details ← lift_res (map_err (Wrap2 (Sentinel ErrInvalidInput)) (GetCryptoDetails (cr_KeyType req)));
      let item := mkCreateItem (cr_KeyType req) (cr_Description req) (cr_Tags req) (cr_ExpiresAt req)
                    (cr_InitialAuthorizedContexts req) (cr_AccessPolicies req) (cr_DataClassification req) in
      finalKey ← createKeyObject item (GetClientIdentity (cr_RequesterContext req)) storageProfile;
      _ ← on_err (Wrap "failed to create key") (with_repo (Repo.CreateKey (Some finalKey)));
      now ← time_now;
      mret (mkCreateResp (KeyID_String (ID finalKey)) (Metadata finalKey)
              (Some (mkMaterial (EncryptedDEK finalKey) (snd details) "sha256")) (Some now))
  end.

(** The rows of a batch result, with the key ids of the request. *)
Definition batch_outcomes {R A} (key : nat -> string) (f : R -> A) (items : list (BatchItem R))
  : list (BatchOutcome A) :=
  imap (λ i it, mkOutcome (key i)
          (match Error_ it, Result it with
           | Some e, _ => inr (Error e)
           | None, Some r => inl (f r)
           | None, None => inr ""
           end)) items.

(** [successCount++] and [failedCount++] on int32. *)
Definition count32 {A} (c : A -> bool) (l : list A) : Z :=
  foldl (λ n x, if c x then wrap32 (n + 1) else n) 0 l.

Definition item_failed {R} (it : BatchItem R) : bool := bool_decide (is_Some (Error_ it)).

(** What becomes of the requests is decided by [order], the order in which
    the goroutines of the batch run. *)
Definition BatchCreateKeys (order : list nat) (req : option (BatchRequest CreateKeyItem))
  : M W (list (CreateKeyResponse + string)) :=
  match req with
  | None => fail (Sentinel ErrInvalidInput)
  | Some req =>
    if no_requester (bq_RequesterContext req) then fail (Sentinel ErrInvalidInput)
    else
      let clientTier := FromProtoTier (match bq_RequesterContext req with
                                       | Some rc => rcClientTier rc | None => CLIENT_TIER_OTHER 0 end) in
      let storageProfile := GetStorageProfileForTier clientTier in
      let processor := mkProcessor 10
        (λ item, _ ← map_err (Wrap2 (Sentinel ErrInvalidInput)) (GetCryptoDetails (ci_KeyType item));
                 _ ← map_err (Wrap2 (Sentinel ErrInvalidInput)) (NewDescription (ci_Description item));
                 Ok tt)
        (λ item, createKeyObject item (GetClientIdentity (bq_RequesterContext req)) storageProfile) in
      items ← ProcessBatch processor order (bq_Keys req) (bq_ContinueOnError req);
      let createdKeys := omap (λ it : BatchItem Key, if item_failed it then None else Result it) items in
      let batchResults := map (λ it : BatchItem Key, match Error_ it, Result it with
          | Some e, _ => inr (Error e)
          | None, Some k => inl (mkCreateResp (KeyID_String (ID k)) (Metadata k) None None)
          | None, None => inr ""
          end) items in
      _ ← on_err (Wrap "failed to create keys in batch") (with_repo (Repo.CreateBatchKeys createdKeys));
      mret batchResults
  end.

(** ** key_retriever.go *)

Definition GetKey (req : option GetKeyRequest) : M W GetKeyResponse :=
  match req with
  | None => fail (Sentinel ErrInvalidInput)
  | Some req =>
      keyID ← lift_res (map_err (Wrap2 (Sentinel ErrInvalidInput)) (KeyIDFromString (gr_KeyId req)));
      l ← getKeyByRequest keyID (gr_Version req);
      key ← deref l;
      if bool_decide (Status key = KeyStatusRevoked) then fail (Sentinel ErrKeyRevoked)
      else match Metadata key with
      | None => fail (Sentinel ErrMissingMetadata)
      | Some md =>
          provider ← on_err (Wrap "failed to get KMS provider") (getKMSProvider (StorageType md));
          r ← try_ (with_provider provider (DecryptDEK key));
          match r with
          | inr err =>
              _ ← AuditLog (GetClientIdentity (gr_RequesterContext req)) "GetKey" (KeyID_String keyID)
                    false (Some err);
              fail (Wrap2 (Sentinel ErrKMSFailure) err)
          | inl decryptedDEK =>
              details ← lift_res (GetCryptoDetails (KeyType md));
              now ← time_now;
              let resp := mkGetResp (mkMaterial (EncryptedDEK key) (snd details) (sha256_hex decryptedDEK))
                            (if gr_SkipMetadata req then None else Some md) now in
              _ ← AuditLog (GetClientIdentity (gr_RequesterContext req)) "GetKey" (KeyID_String keyID)
                    true None;
              mret resp
          end
      end
  end.

(** The log line at the end reads [metadata.Version]: a nil message panics. *)
Definition GetKeyMetadata (req : option GetKeyMetadataRequest) : M W (option KeyMetadata * Z) :=
  match req with
  | None => fail (Sentinel ErrInvalidInput)
  | Some req =>
      keyID ← lift_res (map_err (Wrap2 (Sentinel ErrInvalidInput)) (KeyIDFromString (mr_KeyId req)));
      metadata ← (if 0 <? mr_Version req then with_repo (Repo.GetKeyMetadataByVersion keyID (mr_Version req))
                  else with_repo (Repo.GetKeyMetadata keyID));
      now ← time_now;
      _ ← AuditLog (GetClientIdentity (mr_RequesterContext req)) "GetKeyMetadata" (KeyID_String keyID) true None;
      match metadata with
      | None => panic "nil pointer dereference"
      | Some _ => mret (metadata, now)
      end
  end.

Fixpoint parse_ids (ids : list string) : res (list KeyID) :=
  match ids with
  | [] => Ok []
  | s :: ids' =>
      id ← map_err (Wrap "invalid key ID in batch request") (KeyIDFromString s);
      rest ← parse_ids ids'; Ok (id :: rest)
  end.

(** [keyMap[key.ID.String()] = key] for each key: the last one wins. *)
Definition key_map (keys : list (loc * Key)) : gmap string loc :=
  foldl (λ m lk, <[KeyID_String (ID (snd lk)) := fst lk]> m) ∅ keys.

Definition BatchGetKeys (order : list nat) (req : option (BatchRequest KeyRequestItem))
  : M W (BatchResponse GetKeyResponse) :=
  match req with
  | None => fail (Sentinel ErrInvalidInput)
  | Some req =>
    if no_requester (bq_RequesterContext req) then fail (Sentinel ErrInvalidInput)
    else
      keyIDs ← lift_res (parse_ids (map ki_KeyId (bq_Keys req)));
      ls ← on_err (Wrap "failed to retrieve batch keys from repository") (with_repo (Repo.GetBatchKeys keyIDs));
      ks ← deref_all ls;
      let keyMap := key_map (zip ls ks) in
      let client := GetClientIdentity (bq_RequesterContext req) in
      let processor := mkProcessor 10
        (λ item, match keyMap !! ki_KeyId item with
                 | None => Err (ErrorsNew ("key not found: " +:+ ki_KeyId item))
                 | Some _ => Ok tt
                 end)
        (λ item,
           match keyMap !! ki_KeyId item with
           | None => panic "nil pointer dereference"
           | Some l =>
               key ← deref l;
               provider ← on_err (Wrap "failed to get KMS provider")
                            (getKMSProvider (md_get StorageType (Metadata key)));
               r ← try_ (with_provider provider (DecryptDEK key));
               match r with
               | inr err =>
                   _ ← AuditLog client "BatchGetKeys" (KeyID_String (ID key)) false (Some err);
                   fail (Wrap2 (Sentinel ErrKMSFailure) err)
               | inl decryptedDEK =>
                   details ← lift_res (GetCryptoDetails (md_get KeyType (Metadata key)));
                   now ← time_now;
                   _ ← AuditLog client "BatchGetKeys" (KeyID_String (ID key)) true None;
                   mret (mkGetResp (mkMaterial (EncryptedDEK key) (snd details) (sha256_hex decryptedDEK))
                           (if ki_SkipMetadata item then None else Metadata key) now)
               end
           end) in
      items ← ProcessBatch processor order (bq_Keys req) (bq_ContinueOnError req);
      now ← time_now;
      mret (mkBatchResp
              (batch_outcomes (λ i, default "" (ki_KeyId <$> bq_Keys req !! i)) (λ r, r) items)
              (count32 (λ it, negb (item_failed it)) items) (count32 item_failed items) now)
  end.

(** The accumulated part of a batch response: results, successes, failures. *)
Record Tally (A : Type) := mkTally { ta_results : list (BatchOutcome A); ta_ok : Z; ta_failed : Z }.
Arguments mkTally {A}.
Arguments ta_results {A}.
Arguments ta_ok {A}.
Arguments ta_failed {A}.

Definition no_tally {A} : Tally A := mkTally [] 0 0.
Definition add_ok {A} (key : string) (a : A) (t : Tally A) : Tally A :=
  mkTally (ta_results t ++ [mkOutcome key (inl a)]) (wrap32 (ta_ok t + 1)) (ta_failed t).
Definition add_failed {A} (key msg : string) (t : Tally A) : Tally A :=
  mkTally (ta_results t ++ [mkOutcome key (inr msg)]) (ta_ok t) (wrap32 (ta_failed t + 1)).
Definition respond {A} (now : Z) (t : Tally A) : BatchResponse A :=
  mkBatchResp (ta_results t) (ta_ok t) (ta_failed t) now.

(** [keyIDs[i]] stays the zero id where parsing fails. *)
Fixpoint collect_ids (cont : bool) (ids : list string) (acc : list KeyID * Tally (KeyMetadata * Z))
  : res (list KeyID * Tally (KeyMetadata * Z)) :=
  match ids with
  | [] => Ok acc
  | s :: ids' =>
      match KeyIDFromString s with
      | Panic w => Panic w
      | Ok id => collect_ids cont ids' (fst acc ++ [id], snd acc)
      | Err err =>
          if negb cont then Err (Wrap "invalid key ID in batch request" err)
          else collect_ids cont ids' (fst acc ++ [KeyID_zero], add_failed s (Error err) (snd acc))
      end
  end.

(** [metadataMap[md.KeyId] = md]: the last one wins. *)
Definition metadata_map (mds : list KeyMetadata) : gmap string KeyMetadata :=
  foldl (λ m md, <[KeyId md := md]> m) ∅ mds.

Definition BatchGetKeyMetadata (req : option (BatchRequest string)) : M W (BatchResponse (KeyMetadata * Z)) :=
  match req with
  | None => fail (Sentinel ErrInvalidInput)
  | Some req =>
    if no_requester (bq_RequesterContext req) then fail (Sentinel ErrInvalidInput)
    else
      '(keyIDs, t) ← lift_res (collect_ids (bq_ContinueOnError req) (bq_Keys req) ([], no_tally));
      r ← try_ (with_repo (Repo.GetBatchKeyMetadata keyIDs));
      now ← time_now;
      match r with
      | inr err =>
          if negb (bq_ContinueOnError req)
          then fail (Wrap "failed to retrieve batch key metadata from repository" err)
          else mret (respond now (foldl (λ t id, add_failed (KeyID_String id) (Error err) t) t keyIDs))
      | inl metadataList =>
          let metadataMap := metadata_map metadataList in
          mret (respond now (foldl (λ t keyIDStr,
            match metadataMap !! keyIDStr with
            | Some metadata => add_ok keyIDStr (metadata, now) t
            | None => add_failed keyIDStr "key metadata not found or could not be processed" t
            end) t (bq_Keys req)))
      end
  end.

(** ** key_lister.go *)

Definition ListKeys (req : option (string * Z)) : M W ListKeysResponse :=
  match req with
  | None => fail (Sentinel ErrInvalidInput)
  | Some (pageToken, pageSize) =>
      cursor ← (if String.eqb pageToken "" then mret None
                else match time_Parse pageToken with
                     | Ok t => mret (Some t)
                     | Err _ => fail (Sentinel ErrInvalidInput)
                     | Panic w => panic w
                     end);
      let limit := if pageSize =? 0 then 100 else pageSize in
      ls ← with_repo (Repo.ListKeys cursor limit);
      keys ← deref_all ls;
      let nextPageToken :=
        if Z.of_nat (length keys) =? limit
        then match last keys with Some k => time_Format (CreatedAt k) | None => "" end
        else "" in
      now ← time_now;
      mret (mkListResp (map Metadata keys) nextPageToken now)
  end.

(** ** key_manager.go: rotation *)

Definition processRotation (keyID : KeyID) : M W (loc * loc) :=
  current ← on_err (Wrap "failed to get current key") (with_repo (Repo.GetKey keyID));
  currentKey ← deref current;
  provider ← getKMSProvider (md_get StorageType (Metadata currentKey));
  pools ← gets (λ w, dekPools (repo w));
  let keyType := md_get KeyType (Metadata currentKey) in
  match pools !! keyType with
  | None => fail unsupported_type
  | Some _ =>
      with_pooled keyType (λ buf,
        newDEK ← on_err (Wrap "failed to generate new DEK") (with_env (rand_Read (length buf)));
        encryptedNewDEK ← on_err (Wrap "failed to encrypt new DEK")
          (with_provider provider (EncryptDEK newDEK currentKey));
        rotated ← on_err (Wrap "failed to rotate key") (with_repo (Repo.RotateKey keyID encryptedNewDEK));
        mret (current, rotated))
  end.

(** The response of a rotation; the grace period only shows in it. *)
Definition rotate_response (keyId : string) (graceSeconds now : Z) (currentKey rotatedKey : Key)
  : RotateKeyResponse :=
  mkRotateResp keyId (Version rotatedKey) (Version currentKey)
    (mkMaterial (EncryptedDEK rotatedKey) "AES-256-GCM" "sha256") (Metadata rotatedKey)
    now (now + wrap64 (graceSeconds * Second)).

Definition BatchRotateKeys (order : list nat) (req : option (BatchRequest RotateKeyItem))
  : M W (BatchResponse RotateKeyResponse) :=
  match req with
  | None => fail (Sentinel ErrInvalidRequest)
  | Some req =>
    if no_requester (bq_RequesterContext req) then fail (Sentinel ErrInvalidRequest)
    else
      let processor := mkProcessor 10
        (λ item, _ ← KeyIDFromString (ri_KeyId item); Ok tt)
        (λ item,
           keyID ← lift_res (match KeyIDFromString (ri_KeyId item) with Err _ => Ok KeyID_zero | r => r end);
           '(current, rotated) ← processRotation keyID;
           currentKey ← deref current;
           rotatedKey ← deref rotated;
           now ← time_now;
           mret (rotate_response (ri_KeyId item) (ri_GracePeriodSeconds item) now currentKey rotatedKey)) in
      items ← ProcessBatch processor order (bq_Keys req) (bq_ContinueOnError req);
      now ← time_now;
      mret (mkBatchResp
              (batch_outcomes (λ i, default "" (ri_KeyId <$> bq_Keys req !! i)) (λ r, r) items)
              (count32 (λ it, negb (item_failed it)) items) (count32 item_failed items) now)
  end.

(** ** key_manager.go: revocation *)

Definition RevokeKey (req : option string) : M W unit :=
  match req with
  | None => fail (WrapSuf (Sentinel ErrInvalidRequest) "request is nil")
  | Some keyId =>
      keyID ← lift_res (KeyIDFromString keyId);
      on_err (Wrap "failed to revoke key") (with_repo (Repo.RevokeKey keyID))
  end.

(** The ids to revoke, each request string once, and the refused ones. *)
Fixpoint revoke_ids (cont : bool) (ids : list string) (seen : gset string) (acc : list KeyID * Tally unit)
  : res (list KeyID * Tally unit) :=
  match ids with
  | [] => Ok acc
  | s :: ids' =>
      match KeyIDFromString s with
      | Panic w => Panic w
      | Err err =>
          if negb cont then Err (Wrap "invalid key ID in batch request" err)
          else revoke_ids cont ids' seen (fst acc, add_failed s (Error err) (snd acc))
      | Ok id =>
          if bool_decide (s ∈ seen) then revoke_ids cont ids' seen acc
          else revoke_ids cont ids' ({[ s ]} ∪ seen) (fst acc ++ [id], snd acc)
      end
  end.

Definition BatchRevokeKeys (req : option (BatchRequest string)) : M W (BatchResponse unit) :=
  match req with
  | None => fail (Sentinel ErrInvalidRequest)
  | Some req =>
    if no_requester (bq_RequesterContext req) then fail (Sentinel ErrInvalidRequest)
    else
      '(keyIDs, t) ← lift_res (revoke_ids (bq_ContinueOnError req) (bq_Keys req) ∅ ([], no_tally));
      r ← try_ (with_repo (Repo.RevokeBatchKeys keyIDs));
      now ← time_now;
      match r with
      | inr err =>
          if negb (bq_ContinueOnError req)
          then fail (Wrap "failed to revoke batch keys from repository" err)
          else mret (respond now (foldl (λ t id, add_failed (KeyID_String id) (Error err) t) t keyIDs))
      | inl _ => mret (respond now (foldl (λ t id, add_ok (KeyID_String id) tt t) t keyIDs))
      end
  end.

(** ** key_manager.go: metadata *)

Definition update_tags (u : UpdateItem) (m : KeyMetadata) : KeyMetadata :=
  if bool_decide (u_TagsToAdd u = ∅) && bool_decide (u_TagsToRemove u = []) then m
  else set_Tags (foldl (λ tags tag, delete tag tags) (u_TagsToAdd u ∪ Tags m) (u_TagsToRemove u)) m.

Definition update_policies (u : UpdateItem) (m : KeyMetadata) : KeyMetadata :=
  set_AccessPolicies (u_PoliciesToUpdate u ∪ AccessPolicies m) m.

(** The assignments to [metadata] up to [UpdatedAt], the description having
    been validated. *)
Definition update_fields (u : UpdateItem) (description : option Description) (m : KeyMetadata) : KeyMetadata :=
  let m := match description with Some d => set_mdDescription (Description_String d) m | None => m end in
  let m := match u_ExpiresAt u with Some t => set_ExpiresAt (Some t) m | None => m end in
  let m := match u_DataClassification u with Some c => set_DataClassification c m | None => m end in
  update_tags u m.

Definition validated_description (u : UpdateItem) : res (option Description) :=
  match u_Description u with
  | None => Ok None
  | Some d => d ← NewDescription d; Ok (Some d)
  end.

(** [metadata] is the pointer inside the object [GetKey] returned: the
    assignments change that object, before the repository is told. *)
Definition UpdateKeyMetadata (req : option UpdateItem) : M W unit :=
  match req with
  | None => fail (WrapSuf (Sentinel ErrInvalidRequest) "request is nil")
  | Some u =>
      keyID ← lift_res (KeyIDFromString (u_KeyId u));
      l ← on_err (Wrap "failed to get key") (with_repo (Repo.GetKey keyID));
      key ← deref l;
      description ← lift_res (validated_description u);
      match Metadata key with
      | None => panic "nil pointer dereference"
      | Some m =>
          now ← time_now;
          let m' := set_mdUpdatedAt (Some now) (update_fields u description m) in
          _ ← assign l (set_Metadata (Some m') key);
          on_err (Wrap "failed to update metadata") (with_repo (Repo.UpdateKeyMetadata keyID (Some m')))
      end
  end.

(** One pass of the loop over the items: the key to write, or a refusal. *)
Definition prepare_update (u : UpdateItem) : M W (loc + (string * error)) :=
  match KeyIDFromString (u_KeyId u) with
  | Panic w => panic w
  | Err err => mret (inr (Error err, Wrap "invalid key ID in batch request" err))
  | Ok keyID =>
      r ← try_ (with_repo (Repo.GetKey keyID));
      match r with
      | inr err => mret (inr ("failed to get key for update: " +:+ Error err, Wrap "failed to get key for update" err))
      | inl l =>
          key ← deref l;
          match validated_description u with
          | Panic w => panic w
          | Err err => mret (inr ("invalid description: " +:+ Error err, Wrap "invalid description" err))
          | Ok description =>
              match Metadata key with
              | None => panic "nil pointer dereference"
              | Some m =>
                  now ← time_now;
                  let m' := set_mdUpdatedAt (Some now) (update_policies u (update_fields u description m)) in
                  _ ← assign l (set_UpdatedAt now (set_Metadata (Some m') key));
                  mret (inl l)
              end
          end
      end
  end.

Fixpoint prepare_updates (cont : bool) (items : list UpdateItem) (acc : list loc * Tally unit)
  : M W (list loc * Tally unit) :=
  match items with
  | [] => mret acc
  | u :: items' =>
      r ← prepare_update u;
      match r with
      | inl l => prepare_updates cont items' (fst acc ++ [l], snd acc)
      | inr (msg, err) =>
          if negb cont then fail err
          else prepare_updates cont items' (fst acc, add_failed (u_KeyId u) msg (snd acc))
      end
  end.

(** After the write every item of the request is reported, the refused ones
    a second time. *)
Definition BatchUpdateKeyMetadata (req : option (BatchRequest UpdateItem)) : M W (BatchResponse unit) :=
  match req with
  | None => fail (Sentinel ErrInvalidRequest)
  | Some req =>
    if no_requester (bq_RequesterContext req) then fail (Sentinel ErrInvalidRequest)
    else
      '(keysToUpdate, t) ← prepare_updates (bq_ContinueOnError req) (bq_Keys req) ([], no_tally);
      r ← try_ (with_repo (Repo.UpdateBatchKeyMetadata keysToUpdate));
      now ← time_now;
      match r with
      | inr err =>
          if negb (bq_ContinueOnError req)
          then fail (Wrap "failed to update batch key metadata in repository" err)
          else mret (respond now (foldl (λ t u, add_failed (u_KeyId u) (Error err) t) t (bq_Keys req)))
      | inl _ => mret (respond now (foldl (λ t u, add_ok (u_KeyId u) tt t) t (bq_Keys req)))
      end
  end.

End Service.
