(* ===== verification/ServiceSpec.v ===== *)
(** * What the key service guarantees

    Properties of the handlers of [Service.v], alone and over the cached
    PostgreSQL repository. *)

From S2P Require Import Prelude Errors Domain Cache Repo Psql PsqlSpec PsqlLaws CachedRepo Batch Kms Service.

(** ** Stepping through handlers *)

Section Steps.
Context {S : Type}.
Abbreviation W := (St (keyServiceImpl S)).

Lemma with_repo_run {A} (m : M (St S) A) (w : W) r w' :
  with_repo m w = (r, w') ->
  exists wi, m (set_repo (keyRepo (repo w)) w) = (r, wi)
    /\ w' = set_repo (set_keyRepo (repo wi) (repo w)) wi.
Proof.
  unfold with_repo, with_inner. destruct (m _) as [r0 wi]. intros; simplify_eq. eauto.
Qed.

Lemma with_repo_eq {A} (m : M (St S) A) (w : W) r wi :
  m (set_repo (keyRepo (repo w)) w) = (r, wi) ->
  with_repo m w = (r, set_repo (set_keyRepo (repo wi) (repo w)) wi).
Proof. unfold with_repo, with_inner. by intros ->. Qed.

Lemma deref_ok l (w : W) k w' : deref l w = (Ok k, w') -> heap w !! l = Some k /\ w' = w.
Proof. unfold deref. destruct (heap w !! l); intros; by simplify_eq. Qed.

Lemma try_inl {A} (m : M W A) (w : W) a w' : try_ m w = (Ok (inl a), w') -> m w = (Ok a, w').
Proof. unfold try_. destruct (m w) as [[] ?]; intros; by simplify_eq. Qed.

(** Provider code leaves the repository, the heap and the audit log alone. *)
Lemma with_provider_run {A} name (m : M (KEnv * KMSProvider) A) (w : W) r w' :
  with_provider name m w = (r, w') ->
  keyRepo (repo w') = keyRepo (repo w) /\ heap w' = heap w /\ next w' = next w
  /\ auditLog (repo w') = auditLog (repo w) /\ dekPools (repo w') = dekPools (repo w).
Proof.
  unfold with_provider. destruct (kmsProviders (repo w) !! name); [|intros; by simplify_eq].
  destruct (m _) as [r0 [e p']]. intros; by simplify_eq.
Qed.

Lemma getKMSProvider_run profile (w : W) r w' : getKMSProvider profile w = (r, w') -> w' = w.
Proof.
  unfold getKMSProvider. go_unfold. destruct (kmsProviders (repo w) !! _); intros; by simplify_eq.
Qed.
End Steps.

(** Take the next statement of a successful run. *)
Tactic Notation "step" hyp(H) "as" ident(a) ident(w) ident(Ha) :=
  apply bind_ok in H; destruct H as (a & w & Ha & H).

Lemma GetKey_ok_inv `{UuidPkg} `{CryptoPkg} `{AwsKms} `{Sha256Pkg} {S} `{KeyRepository S}
    req (w w' : St (keyServiceImpl S)) resp :
  GetKey (Some req) w = (Ok resp, w') ->
  exists id l k md w1,
    KeyIDFromString (gr_KeyId req) = Ok id /\ getKeyByRequest id (gr_Version req) w = (Ok l, w1)
    /\ heap w1 !! l = Some k /\ Status k <> KeyStatusRevoked /\ Metadata k = Some md
    /\ EncryptedKeyData (gresp_KeyMaterial resp) = EncryptedDEK k
    /\ (exists dek name w2, with_provider name (DecryptDEK k) w1 = (Ok dek, w2)
          /\ KeyChecksum (gresp_KeyMaterial resp) = sha256_hex dek)
    /\ gresp_Metadata resp = (if gr_SkipMetadata req then None else Some md)
    /\ auditLog (repo w') = auditLog (repo w1)
         ++ [mkAudit (GetClientIdentity (gr_RequesterContext req)) "GetKey" (KeyID_String id) true None].
Proof.
  unfold GetKey. intros E.
  step E as id w1 Q1. apply lift_ok in Q1 as [Hid%map_err_ok ->].
  step E as l w2 Q2. step E as k w3 Q3. apply deref_ok in Q3 as [Hk ->].
  case_bool_decide as Hs; [by inversion E|].
  destruct (Metadata k) as [md|] eqn:Hm; [|by inversion E].
  step E as name w4 Q4. apply on_err_ok in Q4. apply getKMSProvider_run in Q4 as Hw. subst w4.
  step E as r w5 Q5. destruct r as [dek|err].
  2: { step E as u w6 Q6. by inversion E. }
  apply try_inl in Q5. pose proof (with_provider_run _ _ _ _ _ Q5) as (_ & _ & _ & Ha & _).
  step E as d w6 Q6. apply lift_ok in Q6 as [_ ->]. step E as now w7 Q7. step E as u w8 Q8.
  unfold time_now, gets, AuditLog, modify, mret, GoM_ret in *. simplify_eq/=.
  exists id, l, k, md, w2. split_and!; try done; [|by rewrite Ha].
  by exists dek, name, w7.
Qed.


(** ** Revocation, end to end *)

(** The cache of the service's repository is coherent. *)
Definition svc_coherent `{UuidPkgOk} (w : St (keyServiceImpl (CachedRepository PSQLAdapter))) : Prop :=
  coherent (set_repo (keyRepo (repo w)) w).

(** after the service has revoked a key, no [GetKey] request for any
    version of it succeeds: a version still in the cache is not handed out
    either. *)
Theorem revoked_key_refused `{UuidPkgOk} `{CryptoPkg} `{AwsKms} `{Sha256Pkg}
    keyId req id (w w1 : St (keyServiceImpl (CachedRepository PSQLAdapter))) :
  svc_coherent w -> KeyIDFromString keyId = Ok id -> KeyIDFromString (gr_KeyId req) = Ok id ->
  RevokeKey (Some keyId) w = (Ok tt, w1) ->
  is_ok (fst (GetKey (Some req) w1)) = false.
Proof.
  intros Hc Hid Hid' Hr. destruct (GetKey (Some req) w1) as [[resp|e|s] w2] eqn:Hg; [|done|done].
  exfalso. apply GetKey_ok_inv in Hg as (i & l & k & md & w3 & Hi & Hget & Hk & Hst & _).
  assert (i = id) as -> by congruence.
  unfold RevokeKey in Hr. rewrite Hid in Hr. step Hr as x w4 Q1. apply lift_ok in Q1 as [[= <-] ->].
  apply on_err_ok in Hr. apply with_repo_run in Hr as (wi & Hrev & ->).
  apply (revoked_reads id) in Hrev as [Hc1 Hv]; [|exact Hc].
  unfold getKeyByRequest in Hget. apply on_err_ok in Hget. apply Hst.
  destruct (0 <? gr_Version req); apply with_repo_run in Hget as (wj & Hget & ->);
    [apply GetKeyByVersion_view in Hget as (k' & Hk' & Hvk)|apply GetKey_view in Hget as (k' & Hk' & Hvk)];
    simpl in Hk; try exact Hc1; eapply Hv; assert (k' = k) as <- by congruence; exact Hvk.
Qed.

(** ** Creating a key and reading it back *)

Section CreateGet.
Context `{UuidPkgOk} `{CryptoOk} `{AwsKms} `{Sha256Pkg}.
Abbreviation W := (St (keyServiceImpl PSQLAdapter)).

(** A service in working order whose default provider is the local one. *)
Record ready (w : W) (name : string) (p : LocalKMSProvider) : Prop := {
  rd_quiet : faults (keyRepo (repo w)) = [];
  rd_pk : pk_ok (DB (keyRepo (repo w)));
  rd_default : DefaultKMSProvider (repo w) = name;
  rd_provider : kmsProviders (repo w) !! name = Some (LocalP p);
  rd_cache : derived_cache_ok p;
  rd_master : masterKey p <> [];
  rd_pool : is_Some (dekPools (repo w) !! KEY_TYPE_AES_256);
  rd_entropy : Forall is_Some (entropy (repo w))
}.

Lemma with_provider_local {A} name p (m : M (KEnv * KMSProvider) A) (w : W) r e p' :
  kmsProviders (repo w) !! name = Some p ->
  m (mkEnv (clock w) (entropy (repo w)) (jitter (repo w)) (awsCalls (repo w)), p) = (r, (e, p')) ->
  with_provider name m w
  = (r, mkSt (k_clock e) (heap w) (next w)
          (mkSvc (keyRepo (repo w)) (<[name := p']> (kmsProviders (repo w))) (DefaultKMSProvider (repo w))
             (dekPools (repo w)) (auditLog (repo w)) (k_entropy e) (k_jitter e) (k_aws e)
             (newIds (repo w)) (picks (repo w)))).
Proof. intros Hp Hm. unfold with_provider. rewrite Hp, Hm. done. Qed.

Lemma rand_Read_some n e :
  Forall is_Some (k_entropy e) ->
  exists dek, length dek = n
    /\ rand_Read n e = (Ok dek, mkEnv (k_clock e) (tl (k_entropy e)) (k_jitter e) (k_aws e)).
Proof.
  intros Hf. destruct (rand_Read n e) as [r e'] eqn:E. pose proof E as E'. unfold rand_Read in E'.
  destruct (k_entropy e) as [|[b|] l] eqn:Ee; simplify_eq.
  - exists (replicate n 0). by rewrite length_replicate.
  - eexists. split; [by eapply rand_Read_length|done].
  - by apply Forall_cons in Hf as [[? ?] _].
Qed.

(** The key that creation builds, apart from its material. *)
Definition new_key (id : KeyID) (item : CreateKeyItem) (client : string) (profile now : Z) (d : Description)
    (dek : bytes) : Key :=
  mkKey id 1 (Some (mkMetadata (KeyID_String id) (ci_KeyType item) KEY_STATUS_ACTIVE 1 (Some now) (Some now)
    (ci_ExpiresAt item) None client (ci_InitialAuthorizedContexts item) (ci_AccessPolicies item)
    (Description_String d) (ci_Tags item) (ci_DataClassification item) "" 0 profile))
    dek KeyStatusActive None now now None.

Lemma local_encrypt dek key e p :
  derived_cache_ok p -> masterKey p <> [] -> Forall is_Some (k_entropy e) ->
  exists ct e' p', EncryptDEK dek key (e, LocalP p) = (Ok ct, (e', LocalP p')) /\ ct <> []
    /\ derived_cache_ok p' /\ masterKey p' = masterKey p
    /\ k_clock e' = k_clock e /\ k_jitter e' = k_jitter e /\ k_aws e' = k_aws e
    /\ forall key2 e2, ID key2 = ID key -> EncryptedDEK key2 = ct ->
         fst (DecryptDEK key2 (e2, LocalP p')) = Ok dek.
Proof.
  intros Hc Hm Hf. unfold EncryptDEK. simpl.
  destruct (Local_EncryptDEK dek key (e, p)) as [r [e' p']] eqn:E.
  destruct (encrypt_then_decrypt dek key e p r e' p' Hc Hm E) as (Hc' & Hm' & Hok & Hdec).
  assert (head (k_entropy e) <> Some None) as Hh.
  { destruct Hf as [|x l [? ->] _]; done. }
  specialize (Hok Hh). destruct r as [ct|err|why]; [|done..].
  destruct (Hdec ct eq_refl) as [Hne Hrt].
  exists ct, e', p'. split_and!; try done.
  1-3: unfold Local_EncryptDEK, mbind, GoM_bind in E;
    destruct (getDerivedKey_run key e p Hc Hm) as (dk & p1 & Hg & _); rewrite Hg in E;
    revert E; unfold encryptWithKey, in_env; go_unfold;
    destruct (rand_Read_some NonceSize e Hf) as (n & _ & Hr); rewrite Hr;
    destruct (NewCipher dk); simpl; intros; by simplify_eq.
  intros key2 e2 Hid Hct. unfold DecryptDEK. simpl.
  specialize (Hrt key2 e2 p' Hid Hct Hc' Hm').
  destruct (Local_DecryptDEK key2 (e2, p')) as [? [? ?]]. done.
Qed.

(** Everything but the pools and the choice of buffers is the same. *)
Definition same_but_pools (w w' : W) : Prop :=
  clock w' = clock w /\ heap w' = heap w /\ next w' = next w /\ keyRepo (repo w') = keyRepo (repo w)
  /\ kmsProviders (repo w') = kmsProviders (repo w)
  /\ DefaultKMSProvider (repo w') = DefaultKMSProvider (repo w)
  /\ entropy (repo w') = entropy (repo w) /\ newIds (repo w') = newIds (repo w)
  /\ jitter (repo w') = jitter (repo w) /\ awsCalls (repo w') = awsCalls (repo w).

Lemma with_pooled_run {A} kt (body : bytes -> M W A) (w : W) (Q : A -> W -> Prop) :
  is_Some (dekPools (repo w) !! kt) ->
  (forall a w1 w2, same_but_pools w1 w2 -> Q a w1 -> Q a w2) ->
  (forall buf w1, same_but_pools w w1 -> exists a w2, body buf w1 = (Ok a, w2) /\ Q a w2) ->
  exists a w', with_pooled kt body w = (Ok a, w') /\ Q a w'.
Proof.
  intros [pl Hpl] HQ Hbody. unfold with_pooled, next_pick. cbn [repo set_repo dekPools].
  rewrite Hpl. destruct (pool_Get _ pl) as [buf p1].
  match goal with |- context [body buf ?x] => destruct (Hbody buf x) as (a & w2 & E & Hq); [by repeat split|] end.
  rewrite E. eexists _, _. split; [done|]. eapply HQ; [|exact Hq]. by repeat split.
Qed.

(** What creation leaves behind: the key, and a provider that can decrypt it. *)
Definition created (w : W) name u item client d (k : Key) (w' : W) : Prop :=
  exists ct p' dek, k = new_key (mkKeyID u) item client STORAGE_PROFILE_STANDARD (clock w) d ct
    /\ ct <> [] /\ keyRepo (repo w') = keyRepo (repo w) /\ clock w' = clock w /\ heap w' = heap w
    /\ next w' = next w /\ DefaultKMSProvider (repo w') = name
    /\ kmsProviders (repo w') !! name = Some (LocalP p')
    /\ (exists n e, rand_Read n (mkEnv (clock w) (entropy (repo w)) (jitter (repo w)) (awsCalls (repo w))) = (Ok dek, e))
    /\ forall key2 e2, ID key2 = mkKeyID u -> EncryptedDEK key2 = ct ->
         fst (DecryptDEK key2 (e2, LocalP p')) = Ok dek.

Lemma createKeyObject_run item client d w name p u ids :
  ready w name p -> NewDescription (ci_Description item) = Ok d -> ci_KeyType item = KEY_TYPE_AES_256 ->
  newIds (repo w) = u :: ids ->
  exists k w', createKeyObject item client STORAGE_PROFILE_STANDARD w = (Ok k, w')
    /\ created w name u item client d k w'.
Proof.
  intros [Hq Hpk Hdef Hprov Hcache Hmaster [pl Hpool] Hent] Hd Hkt Hids.
  unfold createKeyObject. rewrite Hd, Hkt. unfold lift_res. cbn [map_err].
  erewrite bind_eq by done. erewrite bind_eq by done. cbv beta. rewrite Hpool.
  apply with_pooled_run; [by rewrite Hpool| |].
  { intros k w1 w2 (? & ? & ? & ? & Hp & ? & _) (ct & p' & dek & ?).
    exists ct, p', dek. rewrite Hp. naive_solver congruence. }
  intros buf w1 (Hck & Hh & Hn & Hk & Hp & Hdf & He & Hi & Hj & Ha).
  destruct (rand_Read_some (length buf) (mkEnv (clock w1) (entropy (repo w1)) (jitter (repo w1)) (awsCalls (repo w1))))
    as (dek & Hlen & Hrand); [by rewrite <- He in Hent|].
  erewrite bind_eq by (unfold on_err, with_env; by rewrite Hrand).
  erewrite bind_eq by done. erewrite bind_eq by done.
  erewrite bind_eq; last first.
  { unfold getKMSProvider. erewrite bind_eq by done. simpl. rewrite Hdf, Hdef, Hp, Hprov. done. }
  assert (Forall is_Some (tl (entropy (repo w1)))) as Hent'.
  { rewrite He. by destruct Hent. }
  match goal with |- context [EncryptDEK dek ?k] =>
    destruct (local_encrypt dek k (mkEnv (clock w1) (tl (entropy (repo w1))) (jitter (repo w1)) (awsCalls (repo w1)))
                p Hcache Hmaster Hent') as (ct & e' & p' & Henc & Hne & _ & _ & Hcl & _ & _ & Hdec) end.
  erewrite bind_eq; last first.
  { unfold on_err. erewrite with_provider_local; [| |exact Henc]; [done|]. done. }
  eexists _, _. split; [done|]. exists ct, p', dek. unfold new_key.
  rewrite Hi, Hids, <- Hkt in *. simpl in *. split_and!; try congruence.
  - unfold set_EncryptedDEK; simpl. by rewrite Hck.
  - by rewrite lookup_insert_eq.
  - rewrite Hck, He, Hj, Ha in Hrand. eauto.
  - done.
Qed.

(** A new first version is what every read of the key finds. *)
Lemma first_version_reads k m (w : St PSQLAdapter) :
  quiet w -> pk_ok (DB (repo w)) -> Metadata k = Some m -> EncryptedDEK k <> [] -> Version k = 1 ->
  ~ present (st w) (ID k) ->
  exists w', Adapter.CreateKey (Some k) w = (Ok tt, w')
    /\ forall v, v <= 1 -> (if 0 <? v then Repo.GetKeyByVersion (ID k) v else Repo.GetKey (ID k)) w' = alloc (stored k) w'.
Proof.
  intros Hq Hpk Hm Hd Hv Hn.
  assert (forall v', st w (ID k) v' = None) as Hnone.
  { intros v'. apply eq_None_not_Some. intros Hs. apply Hn. by exists v'. }
  eexists. split; [by eapply CreateKey_run|]. intros v Hle. set (w' := set_repo _ w).
  assert (st w' ≡ s_insert (Adapter.row_of_key k) (st w)) as Hs by (apply abs_snoc, Hnone).
  assert (st w' (ID k) 1 = Some (Adapter.row_of_key k)) as Hst.
  { rewrite (Hs _ _). unfold s_insert. rewrite decide_True; [done|]. unfold pk; simpl. by rewrite Hv. }
  assert (unmarshal_ptr (row_metadata (Adapter.row_of_key k)) = Ok (Some m)) as Hu by (simpl; by rewrite Hm).
  assert (key_of_row (ID k) (Adapter.row_of_key k) (Some m) = stored k) as <-.
  { unfold stored, key_of_row. simpl. by rewrite Hm. }
  destruct (Z.ltb_spec 0 v).
  - assert (v = 1) as -> by lia. pose proof (GetKeyByVersion_run (ID k) 1 w' ltac:(done) ltac:(lia)) as Hg.
    rewrite Hst in Hg. by apply Hg.
  - apply (proj2 (GetKey_run (ID k) w' ltac:(done) ltac:(apply pk_ok_snoc; [done|apply Hnone])) 1); [|done..].
    split; [by rewrite Hst|]. intros v'. rewrite (Hs _ _). unfold s_insert.
    case_decide as Hp; [|by rewrite Hnone; intros [? [=]]].
    unfold pk in Hp. simpl in Hp. simplify_eq. lia.
Qed.

(** The straight path through [GetKey]. *)
Lemma GetKey_serves req id l k md p dek (w w1 : W) :
  KeyIDFromString (gr_KeyId req) = Ok id -> getKeyByRequest id (gr_Version req) w = (Ok l, w1) ->
  heap w1 !! l = Some k -> Status k <> KeyStatusRevoked -> Metadata k = Some md ->
  StorageType md = STORAGE_PROFILE_STANDARD -> KeyType md = KEY_TYPE_AES_256 ->
  kmsProviders (repo w1) !! DefaultKMSProvider (repo w1) = Some p ->
  (forall e, fst (DecryptDEK k (e, p)) = Ok dek) ->
  exists t w', GetKey (Some req) w
    = (Ok (mkGetResp (mkMaterial (EncryptedDEK k) "AES-256-GCM" (sha256_hex dek))
             (if gr_SkipMetadata req then None else Some md) t), w').
Proof.
  intros Hid Hget Hl Hst Hmd Hty Hkt Hp Hdec. unfold GetKey, lift_res. rewrite Hid. cbn [map_err].
  erewrite bind_eq by done. erewrite bind_eq by exact Hget.
  erewrite bind_eq by (unfold deref; by rewrite Hl). cbv beta.
  rewrite bool_decide_eq_false_2, Hmd, Hty, Hkt by done.
  erewrite bind_eq; last first.
  { unfold on_err, getKMSProvider. erewrite bind_eq by done. simpl. rewrite Hp. done. }
  set (e := mkEnv (clock w1) (entropy (repo w1)) (jitter (repo w1)) (awsCalls (repo w1))).
  destruct (DecryptDEK k (e, p)) as [r [e' p']] eqn:Hd. specialize (Hdec e). rewrite Hd in Hdec. simpl in Hdec.
  subst r. erewrite bind_eq; last first.
  { unfold try_. erewrite with_provider_local; [|exact Hp|exact Hd]. done. }
  by eexists _, _.
Qed.

(** C3: a key created for a client of the standard profile can be read back
    at once, by version or as the latest one: on a working database and
    local provider, [CreateKey] succeeds, the id it answers with is found,
    and [GetKey] returns the same encrypted material and metadata with the
    checksum of the very DEK that was drawn. *)
Theorem create_then_get req d name p u ids (w : W) :
  ready w name p -> no_requester (cr_RequesterContext req) = false ->
  GetStorageProfileForTier (FromProtoTier (match cr_RequesterContext req with
     Some rc => rcClientTier rc | None => CLIENT_TIER_OTHER 0 end)) = STORAGE_PROFILE_STANDARD ->
  cr_KeyType req = KEY_TYPE_AES_256 -> NewDescription (cr_Description req) = Ok d ->
  newIds (repo w) = u :: ids -> ~ present (abs (DB (keyRepo (repo w)))) (mkKeyID u) ->
  exists resp mat w1 dek n e,
    CreateKey (Some req) w = (Ok resp, w1) /\ cresp_KeyMaterial resp = Some mat
    /\ cresp_KeyId resp = KeyID_String (mkKeyID u)
    /\ rand_Read n (mkEnv (clock w) (entropy (repo w)) (jitter (repo w)) (awsCalls (repo w))) = (Ok dek, e)
    /\ forall rc v skip, v <= 1 -> exists t w2,
         GetKey (Some (mkGetReq rc (cresp_KeyId resp) v skip)) w1
         = (Ok (mkGetResp (mkMaterial (EncryptedKeyData mat) (EncryptionAlgorithm mat) (sha256_hex dek))
                  (if skip then None else cresp_Metadata resp) t), w2).
Proof.
  intros Hrdy Hreq Hprof Hkt Hd Hids Hnew.
  set (item := mkCreateItem (cr_KeyType req) (cr_Description req) (cr_Tags req) (cr_ExpiresAt req)
                 (cr_InitialAuthorizedContexts req) (cr_AccessPolicies req) (cr_DataClassification req)).
  destruct (createKeyObject_run item (GetClientIdentity (cr_RequesterContext req)) d w name p u ids Hrdy Hd Hkt Hids)
    as (k & w1 & Hobj & ct & p' & dek & Hk & Hne & Hrepo & Hck & Hhp & Hnx & Hdef & Hprov & (n & e & Hrand) & Hdec).
  destruct Hrdy as [Hq Hpk _ _ _ _ _ _].
  unfold CreateKey. rewrite Hreq, Hprof, Hkt.
  erewrite bind_eq by done. subst item. rewrite Hkt in Hobj.
  erewrite bind_eq by exact Hobj.
  destruct (first_version_reads k _ (set_repo (keyRepo (repo w1)) w1) ltac:(unfold quiet; simpl; by rewrite Hrepo)
    ltac:(simpl; by rewrite Hrepo) ltac:(by rewrite Hk) ltac:(by rewrite Hk) ltac:(by rewrite Hk)
    ltac:(unfold st; simpl; by rewrite Hrepo, Hk)) as ([ci hi ni ri] & Hcreate & Hread).
  set (wi := mkSt ci hi ni ri) in *.
  erewrite bind_eq by (unfold on_err; by erewrite with_repo_eq by exact Hcreate).
  do 2 eexists. exists (set_repo (set_keyRepo (repo wi) (repo w1)) wi), dek, n, e.
  split; [done|]. split; [done|]. split; [by rewrite Hk|]. split; [done|].
  intros rc v skip Hv. cbn [cresp_KeyId cresp_Metadata EncryptedKeyData EncryptionAlgorithm snd].
  specialize (Hread v Hv). unfold alloc in Hread.
  assert (exists md, Metadata k = Some md /\ StorageType md = STORAGE_PROFILE_STANDARD
    /\ KeyType md = KEY_TYPE_AES_256) as (md & Hmd & Hty & Hkty) by (subst k; by eexists).
  rewrite Hmd. eapply (GetKey_serves (mkGetReq rc (KeyID_String (ID k)) v skip) (ID k) (next wi) (stored k));
    try done.
  - apply KeyIDFromString_String.
  - unfold getKeyByRequest, on_err. cbn [gr_Version].
    destruct (0 <? v); by erewrite with_repo_eq by exact Hread.
  - apply lookup_insert_eq.
  - by subst k.
  - simpl. by rewrite Hdef.
  - intros e2. apply Hdec; by subst k.
Qed.

End CreateGet.

(** ** Concrete services *)

Definition ToyAws : AwsKms := {| aws_Encrypt := λ _ _ p, Ok p; aws_Decrypt := λ _ _ c, Ok c |}.
Definition ToySha : Sha256Pkg := {| sha256_hex := λ b, pretty (foldr Z.add 0 b) |}.
#[local] Existing Instance HexUuid.
#[local] Existing Instance HexUuidOk.
#[local] Existing Instance ToyCrypto.
#[local] Existing Instance ToyCryptoOk.
#[local] Existing Instance ToyAws.
#[local] Existing Instance ToySha.

(** A new service with the local provider; the next key id is [id_b]. *)
Definition ex_service {S} (r : S) : keyServiceImpl S :=
  let s := NewKeyService "local" r {[ "local" := LocalP ex_local ]} in
  mkSvc r (kmsProviders s) "local" (dekPools s) [] [Some [1; 2; 3]; Some [4]] [] O [value id_b] [].

Definition ex_world : St (keyServiceImpl PSQLAdapter) :=
  mkSt (5 * Second) ∅ O (ex_service (mkPSQL [ex_row id_a 1 1000] [] [] [])).

Definition ex_create : CreateKeyRequest :=
  mkCreateReq (Some (mkRequester "client" CLIENT_TIER_FREE)) KEY_TYPE_AES_256 "signing key" ∅ None [] ∅ "secret".

Definition ex_get (id : KeyID) : GetKeyRequest :=
  mkGetReq (Some (mkRequester "client" CLIENT_TIER_FREE)) (KeyID_String id) 0 false.

Lemma ex_world_ready : ready ex_world "local" ex_local.
Proof.
  split; [reflexivity|apply NoDup_singleton|reflexivity|reflexivity| |discriminate| |by repeat constructor].
  - intros s it Hit. unfold ex_local in Hit. cbn [derivedKeyCache] in Hit. by rewrite New_items in Hit.
  - eexists. reflexivity.
Qed.

Lemma ex_fresh : ~ present (abs (DB (keyRepo (repo ex_world)))) id_b.
Proof.
  intros [v Hr]. change (is_Some (abs [ex_row id_a 1 1000] id_b v)) in Hr.
  rewrite abs_single in Hr. case_decide as Hc; [discriminate Hc|by destruct Hr].
Qed.

Lemma create_then_get_witness :
  exists resp w1 r w2, CreateKey (Some ex_create) ex_world = (Ok resp, w1)
    /\ GetKey (Some (ex_get id_b)) w1 = (Ok r, w2) /\ gresp_Metadata r = cresp_Metadata resp.
Proof.
  destruct (create_then_get ex_create (mkDescription "signing key") "local" ex_local (value id_b) [] ex_world
    ex_world_ready eq_refl eq_refl eq_refl eq_refl eq_refl ex_fresh)
    as (resp & mat & w1 & dek & n & e & Hc & _ & Hid & _ & Hget).
  destruct (Hget (Some (mkRequester "client" CLIENT_TIER_FREE)) 0 false ltac:(lia)) as (t & w2 & Hg).
  rewrite Hid in Hg. eexists resp, w1, _, w2. split; [exact Hc|]. split; [exact Hg|reflexivity].
Defined.

(** The service after that creation. *)
Definition ex_created : St (keyServiceImpl PSQLAdapter) := snd (CreateKey (Some ex_create) ex_world).


(** A service over the cached repository, the key already in the cache. *)
Definition ex_cached_service : St (keyServiceImpl (CachedRepository PSQLAdapter)) :=
  set_repo (ex_service (repo ex_cached)) ex_cached.

Lemma revoked_key_refused_witness :
  let w1 := snd (RevokeKey (Some (KeyID_String id_a)) ex_cached_service) in
  is_ok (fst (GetKey (Some (ex_get id_a)) w1)) = false.
Proof.
  destruct (RevokeKey (Some (KeyID_String id_a)) ex_cached_service) as [r w1] eqn:E. cbn [snd].
  assert (r = Ok tt) as -> by (vm_compute in E; by injection E as <- <-).
  refine (revoked_key_refused (KeyID_String id_a) (ex_get id_a) id_a ex_cached_service w1 _ _ _ E).
  - exact ex_cached_coherent.
  - apply KeyIDFromString_String.
  - apply KeyIDFromString_String.
Defined.
