(* ===== verification/Pipeline.v ===== *)
(** * The rotation pipeline

    Models [internal/pipelines/key_rotation.go] and the [RotateKey] handler of
    [internal/service/key_manager.go] that feeds it: a request channel, a
    result channel shared by all callers, and the workers between them.  The
    pipeline is started with the background context, so its workers never
    stop.  A handler up to its wait, a worker's [processRotation] and the
    delivery of a result are the atomic steps of [rotation_step]. *)

From S2P Require Import Prelude Errors Domain Repo Psql PsqlSpec Kms Service ServiceSpec.

(** ** Data *)

(** [KMSProvider] and [DEKPool] are pointers: the name of the provider and the
    key type of the pool.  [GracePeriodSeconds] and [KeyType] are never set. *)
Record KeyRotationRequest := mkRotation { q_KeyID : KeyID; q_KMSProvider : string; q_DEKPool : Z }.

Record KeyRotationResult := mkResult {
  res_KeyID : KeyID;
  res_RotatedKey : option loc;
  res_Error : option error
}.

(** A worker waits for a request or holds a result it is about to send. *)
Inductive worker : Type := Idle | Sending (r : KeyRotationResult).

Record KeyRotationPipeline := mkPipeline {
  requests : list KeyRotationRequest;
  results : list KeyRotationResult;
  workers : list worker;
  queueDepth : nat
}.

(** [NewKeyRotationPipeline] and [Start] *)
Definition NewKeyRotationPipeline (workerCount queueDepth : nat) : KeyRotationPipeline :=
  mkPipeline [] [] (replicate workerCount Idle) queueDepth.

(** [Enqueue]: [None] when the queue is full. *)
Definition Enqueue (req : KeyRotationRequest) (p : KeyRotationPipeline) : option KeyRotationPipeline :=
  if (length (requests p) <? queueDepth p)%nat
  then Some (mkPipeline (requests p ++ [req]) (results p) (workers p) (queueDepth p))
  else None.

Record RotateKeyRequest := mkRotateReq { rq_KeyId : string; rq_GracePeriodSeconds : Z }.

Section Rotation.
Context `{UuidPkg} `{CryptoPkg} `{AwsKms} {S : Type} `{KeyRepository S}.
Abbreviation W := (St (keyServiceImpl S)).

(** [KeyRotationPipeline.processRotation] *)
Definition pipeline_processRotation (req : KeyRotationRequest) : M W loc :=
  current ← on_err (Wrap "failed to get current key") (with_repo (Repo.GetKey (q_KeyID req)));
  currentKey ← deref current;
  with_pooled (q_DEKPool req) (λ buf,
    newDEK ← on_err (Wrap "failed to generate new DEK") (with_env (rand_Read (length buf)));
    encryptedNewDEK ← on_err (Wrap "failed to encrypt new DEK")
      (with_provider (q_KMSProvider req) (EncryptDEK newDEK currentKey));
    on_err (Wrap "failed to rotate key") (with_repo (Repo.RotateKey (q_KeyID req) encryptedNewDEK))).

(** The body of [worker] up to the send. *)
Definition worker_run (req : KeyRotationRequest) : M W KeyRotationResult :=
  r ← try_ (pipeline_processRotation req);
  mret (match r with
        | inl rotatedKey => mkResult (q_KeyID req) (Some rotatedKey) None
        | inr err => mkResult (q_KeyID req) None (Some err)
        end).

(** [RotateKey] up to [Enqueue]. *)
Definition RotateKey_begin (req : option RotateKeyRequest) : M W (loc * KeyRotationRequest) :=
  match req with
  | None => fail (WrapSuf (Sentinel ErrInvalidRequest) "request is nil")
  | Some req =>
      keyID ← lift_res (KeyIDFromString (rq_KeyId req));
      current ← on_err (Wrap "failed to get current key for rotation") (with_repo (Repo.GetKey keyID));
      currentKey ← deref current;
      provider ← getKMSProvider (md_get StorageType (Metadata currentKey));
      pools ← gets (λ w, dekPools (repo w));
      let keyType := md_get KeyType (Metadata currentKey) in
      match pools !! keyType with
      | None => fail unsupported_type
      | Some _ => mret (current, mkRotation keyID provider keyType)
      end
  end.

(** [RotateKey] from the result it received on. *)
Definition RotateKey_finish (req : RotateKeyRequest) (current : loc) (result : KeyRotationResult)
  : M W RotateKeyResponse :=
  match res_Error result, res_RotatedKey result with
  | Some err, _ => fail err
  | None, None => panic "nil pointer dereference"
  | None, Some rotated =>
      rotatedKey ← deref rotated;
      currentKey ← deref current;
      now ← time_now;
      mret (rotate_response (rq_KeyId req) (rq_GracePeriodSeconds req) now currentKey rotatedKey)
  end.

Definition queue_full : error :=
  StatusError ResourceExhausted "key rotation queue is full, please try again later".

(** ** Concurrent callers *)

(** A handler waits in its [select], or has returned; [key] is the key of the
    request it enqueued and [from] the key of the result it was given. *)
Inductive caller : Type :=
| Waiting (req : RotateKeyRequest) (key : KeyID) (current : loc)
| Returned (key : option KeyID) (from : option KeyID) (r : res RotateKeyResponse).

Record Conf := mkConf { world : W; pipe : KeyRotationPipeline; callers : list caller }.

(** A request arrives and runs up to its wait. *)
Definition call (req : option RotateKeyRequest) (c : Conf) : Conf :=
  let '(r, w) := RotateKey_begin req (world c) in
  match r, req with
  | Ok (current, q), Some req =>
      match Enqueue q (pipe c) with
      | Some p => mkConf w p (callers c ++ [Waiting req (q_KeyID q) current])
      | None => mkConf w (pipe c) (callers c ++ [Returned None None (Err queue_full)])
      end
  | Err e, _ => mkConf w (pipe c) (callers c ++ [Returned None None (Err e)])
  | Panic s, _ => mkConf w (pipe c) (callers c ++ [Returned None None (Panic s)])
  | Ok _, None => c
  end.

(** Worker [i] receives the oldest request and processes it.  A panic there
    would end the program, so such a step has no successor. *)
Definition take (i : nat) (c : Conf) : option Conf :=
  match workers (pipe c) !! i, requests (pipe c) with
  | Some Idle, q :: qs =>
      match worker_run q (world c) with
      | (Ok r, w) =>
          Some (mkConf w (mkPipeline qs (results (pipe c)) (<[i := Sending r]> (workers (pipe c)))
                            (queueDepth (pipe c))) (callers c))
      | _ => None
      end
  | _, _ => None
  end.

(** Worker [i] sends its result when the channel has room. *)
Definition send (i : nat) (c : Conf) : option Conf :=
  match workers (pipe c) !! i with
  | Some (Sending r) =>
      if (length (results (pipe c)) <? queueDepth (pipe c))%nat
      then Some (mkConf (world c) (mkPipeline (requests (pipe c)) (results (pipe c) ++ [r])
                   (<[i := Idle]> (workers (pipe c))) (queueDepth (pipe c))) (callers c))
      else None
  | _ => None
  end.

(** Caller [j] receives the oldest result. *)
Definition receive (j : nat) (c : Conf) : option Conf :=
  match callers c !! j, results (pipe c) with
  | Some (Waiting req key current), r :: rs =>
      let '(o, w) := RotateKey_finish req current r (world c) in
      Some (mkConf w (mkPipeline (requests (pipe c)) rs (workers (pipe c)) (queueDepth (pipe c)))
              (<[j := Returned (Some key) (Some (res_KeyID r)) o]> (callers c)))
  | _, _ => None
  end.

(** The context of caller [j] ends first: it returns [ctx.Err()]. *)
Definition cancel (why : sentinel) (j : nat) (c : Conf) : option Conf :=
  match callers c !! j with
  | Some (Waiting _ key _) =>
      Some (mkConf (world c) (pipe c)
              (<[j := Returned (Some key) None (Err (Sentinel why))]> (callers c)))
  | _ => None
  end.

Inductive rotation_step : Conf -> Conf -> Prop :=
| s_call c req : rotation_step c (call req c)
| s_take c i c' : take i c = Some c' -> rotation_step c c'
| s_send c i c' : send i c = Some c' -> rotation_step c c'
| s_receive c j c' : receive j c = Some c' -> rotation_step c c'
| s_cancel c why j c' :
    why ∈ [Canceled; DeadlineExceeded] -> cancel why j c = Some c' -> rotation_step c c'.

Definition conf_init (workerCount depth : nat) (w : W) : Conf :=
  mkConf w (NewKeyRotationPipeline workerCount depth) [].

(** ** Where requests are *)

Definition accepted (l : list caller) : list KeyID :=
  omap (λ k, match k with Waiting _ key _ => Some key | Returned key _ _ => key end) l.
Definition delivered (l : list caller) : list KeyID :=
  omap (λ k, match k with Waiting _ _ _ => None | Returned _ from _ => from end) l.
Definition in_hand (l : list worker) : list KeyID :=
  omap (λ k, match k with Idle => None | Sending r => Some (res_KeyID r) end) l.
Definition in_flight (p : KeyRotationPipeline) : list KeyID :=
  map q_KeyID (requests p) ++ in_hand (workers p) ++ map res_KeyID (results p).

(** Replacing one element changes the kept list at one place. *)
Lemma omap_insert_split {A B} (f : A -> option B) (l : list A) i x y :
  l !! i = Some x -> exists l1 l2,
    omap f l = l1 ++ option_list (f x) ++ l2 /\ omap f (<[i := y]> l) = l1 ++ option_list (f y) ++ l2.
Proof.
  intros Hi. exists (omap f (List.firstn i l)), (omap f (List.skipn (Datatypes.S i) l)).
  rewrite insert_take_drop by (by eapply lookup_lt_Some).
  split; [rewrite <- (take_drop_middle l i x Hi) at 1|]; rewrite omap_app; simpl; f_equal;
    by case_match.
Qed.

(** What a conservative run keeps. *)
Definition conserved (c : Conf) : Prop :=
  accepted (callers c) ≡ₚ delivered (callers c) ++ in_flight (pipe c)
  /\ (length (requests (pipe c)) <= queueDepth (pipe c))%nat
  /\ (length (results (pipe c)) <= queueDepth (pipe c))%nat.

Lemma worker_run_key q (w : W) r w' : worker_run q w = (Ok r, w') -> res_KeyID r = q_KeyID q.
Proof.
  unfold worker_run. go_unfold. destruct (pipeline_processRotation q w) as [[]]; intros; by simplify_eq.
Qed.

Lemma call_conserved req c : conserved c -> conserved (call req c).
Proof.
  intros (Hp & Hq & Hr). unfold call. destruct (RotateKey_begin req (world c)) as [r w].
  destruct r as [[current q]|e|s]; [destruct req as [req|]; [|done]|..].
  - unfold Enqueue. destruct (Nat.ltb_spec (length (requests (pipe c))) (queueDepth (pipe c))).
    + split_and!; simpl; [|rewrite length_app; simpl; lia|done].
      unfold accepted, delivered, in_flight in *. simpl. rewrite !omap_app, map_app. simpl.
      rewrite Hp. solve_Permutation.
    + split_and!; [|done..]. unfold accepted, delivered in *. simpl. rewrite !omap_app. simpl. by rewrite !app_nil_r.
  - split_and!; [|done..]. unfold accepted, delivered in *. simpl. rewrite !omap_app. simpl. by rewrite !app_nil_r.
  - split_and!; [|done..]. unfold accepted, delivered in *. simpl. rewrite !omap_app. simpl. by rewrite !app_nil_r.
Qed.

Lemma take_conserved i c c' : conserved c -> take i c = Some c' -> conserved c'.
Proof.
  intros (Hp & Hq & Hr). unfold take.
  destruct (workers (pipe c) !! i) as [[]|] eqn:Hi; try done.
  destruct (requests (pipe c)) as [|q qs] eqn:Hreq; [done|].
  destruct (worker_run q (world c)) as [[r|e|s] w] eqn:Hw; try done. intros [= <-].
  apply worker_run_key in Hw. split_and!; simpl in *; [|lia|done].
  unfold in_flight in *. simpl. rewrite Hreq in Hp. simpl in Hp. rewrite Hp. unfold in_hand.
  destruct (omap_insert_split (λ k, match k with Idle => None | Sending r => Some (res_KeyID r) end)
    (workers (pipe c)) i Idle (Sending r) Hi) as (l1 & l2 & E1 & E2).
  rewrite E1, E2. simpl. rewrite Hw. solve_Permutation.
Qed.

Lemma send_conserved i c c' : conserved c -> send i c = Some c' -> conserved c'.
Proof.
  intros (Hp & Hq & Hr). unfold send.
  destruct (workers (pipe c) !! i) as [[|r]|] eqn:Hi; try done.
  destruct (Nat.ltb_spec (length (results (pipe c))) (queueDepth (pipe c))); [|done]. intros [= <-].
  split_and!; simpl; [|done|rewrite length_app; simpl; lia].
  unfold in_flight in *. simpl. rewrite Hp. unfold in_hand.
  destruct (omap_insert_split (λ k, match k with Idle => None | Sending r => Some (res_KeyID r) end)
    (workers (pipe c)) i (Sending r) Idle Hi) as (l1 & l2 & E1 & E2).
  rewrite E1, E2, map_app. simpl. solve_Permutation.
Qed.

Lemma receive_conserved j c c' : conserved c -> receive j c = Some c' -> conserved c'.
Proof.
  intros (Hp & Hq & Hr). unfold receive.
  destruct (callers c !! j) as [[req key current|]|] eqn:Hj; try done.
  destruct (results (pipe c)) as [|r rs] eqn:Hres; [done|].
  destruct (RotateKey_finish req current r (world c)) as [o w]. intros [= <-].
  split_and!; simpl in *; [|done|lia].
  unfold in_flight, accepted, delivered in *. simpl. rewrite Hres in Hp. simpl in Hp.
  destruct (omap_insert_split (λ k, match k with Waiting _ key _ => Some key | Returned key _ _ => key end)
    (callers c) j _ (Returned (Some key) (Some (res_KeyID r)) o) Hj) as (l1 & l2 & E1 & E2).
  destruct (omap_insert_split (λ k, match k with Waiting _ _ _ => None | Returned _ from _ => from end)
    (callers c) j _ (Returned (Some key) (Some (res_KeyID r)) o) Hj) as (l3 & l4 & E3 & E4).
  rewrite E2, E4. rewrite E1, E3 in Hp. simpl in *. rewrite Hp. solve_Permutation.
Qed.

Lemma cancel_conserved why j c c' : conserved c -> cancel why j c = Some c' -> conserved c'.
Proof.
  intros (Hp & Hq & Hr). unfold cancel.
  destruct (callers c !! j) as [[req key current|]|] eqn:Hj; try done. intros [= <-].
  split_and!; simpl; [|done..]. unfold accepted, delivered in *.
  destruct (omap_insert_split (λ k, match k with Waiting _ key _ => Some key | Returned key _ _ => key end)
    (callers c) j _ (Returned (Some key) None (Err (Sentinel why))) Hj) as (l1 & l2 & E1 & E2).
  destruct (omap_insert_split (λ k, match k with Waiting _ _ _ => None | Returned _ from _ => from end)
    (callers c) j _ (Returned (Some key) None (Err (Sentinel why))) Hj) as (l3 & l4 & E3 & E4).
  rewrite E2, E4. rewrite E1, E3 in Hp. simpl in *. by rewrite Hp.
Qed.

Lemma steps_conserved c c' : rtc rotation_step c c' -> conserved c -> conserved c'.
Proof.
  induction 1 as [|c c1 c2 Hs _ IH]; [done|]. intros Hc. apply IH.
  destruct Hs; eauto using call_conserved, take_conserved, send_conserved, receive_conserved, cancel_conserved.
Qed.

Lemma conf_init_conserved n d w : conserved (conf_init n d w).
Proof.
  split_and!; simpl; try lia. unfold in_flight. simpl. rewrite app_nil_r.
  by induction n.
Qed.

(** ** Callers one at a time *)

Definition waiting (k : caller) : bool := match k with Waiting _ _ _ => true | _ => false end.

(** Runs in which a call starts only when no other waits, and none gives up. *)
Inductive alone_step : Conf -> Conf -> Prop :=
| a_call c req : forallb (negb ∘ waiting) (callers c) = true -> alone_step c (call req c)
| a_take c i c' : take i c = Some c' -> alone_step c c'
| a_send c i c' : send i c = Some c' -> alone_step c c'
| a_receive c j c' : receive j c = Some c' -> alone_step c c'.

Definition own_result (k : caller) : Prop :=
  match k with Waiting _ _ _ => True | Returned key from _ => from = key end.
Definition waiting_keys (l : list caller) : list KeyID :=
  omap (λ k, match k with Waiting _ key _ => Some key | Returned _ _ _ => None end) l.

Definition alone_inv (c : Conf) : Prop :=
  conserved c /\ Forall own_result (callers c) /\ (length (waiting_keys (callers c)) <= 1)%nat.

Lemma accepted_split l : Forall own_result l -> accepted l ≡ₚ delivered l ++ waiting_keys l.
Proof.
  induction 1 as [|k l Hk _ IH]; [done|]. unfold accepted, delivered, waiting_keys in *.
  destruct k as [req key cur|key from r]; simpl in *.
  - rewrite IH. solve_Permutation.
  - subst. destruct key; simpl; by rewrite IH.
Qed.

Lemma alone_flight c : alone_inv c -> in_flight (pipe c) = waiting_keys (callers c).
Proof.
  intros ((Hp & _) & Ho & Hl). rewrite (accepted_split _ Ho) in Hp. apply (inj _) in Hp.
  destruct (waiting_keys (callers c)) as [|k [|]]; simpl in Hl; [| |lia].
  - by apply Permutation_nil_l in Hp.
  - by apply Permutation_singleton_l in Hp.
Qed.

Lemma none_waiting l : forallb (negb ∘ waiting) l = true -> waiting_keys l = [].
Proof.
  induction l as [|[] l IH]; simpl; try done.
Qed.

Lemma call_alone req c : forallb (negb ∘ waiting) (callers c) = true -> alone_inv c -> alone_inv (call req c).
Proof.
  intros Hn (Hc & Ho & Hl). split; [by apply call_conserved|]. apply none_waiting in Hn.
  unfold call. destruct (RotateKey_begin req (world c)) as [r w].
  destruct r as [[current q]|e|s]; [destruct req as [req|]; [|done]; destruct (Enqueue q (pipe c))|..]; simpl.
  all: split; [apply Forall_app; split; [done|by repeat constructor]|].
  all: unfold waiting_keys in *; rewrite omap_app, Hn; simpl; lia.
Qed.

Lemma receive_alone j c c' : alone_inv c -> receive j c = Some c' -> alone_inv c'.
Proof.
  intros Hi Hr. pose proof (alone_flight _ Hi) as Hf. destruct Hi as (Hc & Ho & Hl).
  split; [by eapply receive_conserved|]. revert Hr. unfold receive.
  destruct (callers c !! j) as [[req key current|]|] eqn:Hj; try done.
  destruct (results (pipe c)) as [|r rs] eqn:Hres; [done|].
  destruct (RotateKey_finish req current r (world c)) as [o w]. intros [= <-]. simpl.
  unfold waiting_keys in *.
  destruct (omap_insert_split (λ k, match k with Waiting _ key _ => Some key | Returned _ _ _ => None end)
    (callers c) j _ (Returned (Some key) (Some (res_KeyID r)) o) Hj) as (l1 & l2 & E1 & E2).
  rewrite E2. rewrite E1 in Hf, Hl. rewrite !length_app in Hl. simpl in *.
  assert (l1 = [] /\ l2 = []) as [-> ->] by (by destruct l1, l2; simpl in Hl; try lia).
  assert (res_KeyID r = key) as ->.
  { unfold in_flight in Hf. rewrite Hres in Hf. simpl in Hf.
    assert (res_KeyID r ∈ [key]) as Hin by (rewrite <- Hf; set_solver). set_solver. }
  split; [by apply Forall_insert|simpl; lia].
Qed.

Lemma alone_keeps c c' : alone_step c c' -> alone_inv c -> alone_inv c'.
Proof.
  intros [c1 req Hn|c1 i c2 E|c1 i c2 E|c1 j c2 E] Hi.
  - by apply call_alone.
  - destruct Hi as (? & ? & ?). split; [by eapply take_conserved|]. unfold take in E. repeat case_match; by simplify_eq.
  - destruct Hi as (? & ? & ?). split; [by eapply send_conserved|]. unfold send in E. repeat case_match; by simplify_eq.
  - by eapply receive_alone.
Qed.

Lemma alone_runs c c' : rtc alone_step c c' -> alone_inv c -> alone_inv c'.
Proof. induction 1; eauto using alone_keeps. Qed.

(** The one way a lone accepted call can go, with the first worker. *)
Definition lone_run (req : RotateKeyRequest) (c : Conf) : option Conf :=
  c1 ← take 0 (call (Some req) c); c2 ← send 0 c1; receive (length (callers c)) c2.

End Rotation.

(** C24: the pipeline neither loses nor invents a rotation.  However callers
    arrive, workers run and callers give up, every accepted request is in
    exactly one place, the queue, a worker's hands, the result channel or the
    response of some caller, and neither channel holds more than its depth. *)
Theorem rotation_conserved `{UuidPkg} `{CryptoPkg} `{AwsKms} {S} `{KeyRepository S} workerCount depth
    (w : St (keyServiceImpl S)) c :
  rtc rotation_step (conf_init workerCount depth w) c ->
  accepted (callers c) ≡ₚ delivered (callers c) ++ in_flight (pipe c)
  /\ (length (requests (pipe c)) <= queueDepth (pipe c))%nat
  /\ (length (results (pipe c)) <= queueDepth (pipe c))%nat.
Proof. intros Hs. eapply steps_conserved; [exact Hs|]. apply conf_init_conserved. Qed.

(** callers that do not overlap and do not give up get their own result:
    in every run in which a call starts only when no other waits, each
    response to an accepted request was made from the rotation of that
    request's key, and the pipeline is empty whenever nobody waits. *)
Theorem lone_calls_own_result `{UuidPkg} `{CryptoPkg} `{AwsKms} {S} `{KeyRepository S} workerCount depth
    (w : St (keyServiceImpl S)) c :
  rtc alone_step (conf_init workerCount depth w) c ->
  (forall key from r, Returned (Some key) from r ∈ callers c -> from = Some key)
  /\ (forallb (negb ∘ waiting) (callers c) = true -> in_flight (pipe c) = []).
Proof.
  intros Hs. assert (alone_inv c) as Hi.
  { eapply alone_runs; [exact Hs|]. split; [apply conf_init_conserved|]. split; [constructor|simpl; lia]. }
  split.
  - intros key from r Hin. destruct Hi as (_ & Ho & _). rewrite Forall_forall in Ho. by specialize (Ho _ Hin).
  - intros Hn%none_waiting. by rewrite (alone_flight _ Hi).
Qed.

(** a call on a quiet pipeline completes.  With an idle worker and room
    in the channels, once the request is accepted and the worker has not
    panicked, three steps (the worker takes it, sends the result, the caller
    receives it) return to the caller what [RotateKey] makes of the rotation of
    its own key, and leave the pipeline quiet again. *)
Theorem lone_call_completes `{UuidPkg} `{CryptoPkg} `{AwsKms} {S} `{KeyRepository S} req (c : Conf (S := S)) ws
    current q w1 r w2 o w3 :
  requests (pipe c) = [] -> results (pipe c) = [] -> workers (pipe c) = Idle :: ws ->
  (0 < queueDepth (pipe c))%nat ->
  RotateKey_begin (Some req) (world c) = (Ok (current, q), w1) ->
  worker_run q w1 = (Ok r, w2) -> RotateKey_finish req current r w2 = (o, w3) ->
  res_KeyID r = q_KeyID q
  /\ lone_run req c
     = Some (mkConf w3 (pipe c) (callers c ++ [Returned (Some (q_KeyID q)) (Some (q_KeyID q)) o])).
Proof.
  intros Hq Hr Hw Hd Hb Hrun Hf. pose proof (worker_run_key _ _ _ _ Hrun) as Hk. split; [done|].
  destruct c as [w [rqs rss wks d] cs]. cbn [world pipe requests results workers queueDepth] in *. subst.
  unfold lone_run, call. cbn [world pipe callers]. rewrite Hb. unfold Enqueue. cbn [length requests queueDepth].
  destruct (Nat.ltb_spec 0 d); [|lia]. cbn [app results workers].
  unfold take at 1. cbn [pipe workers lookup list_lookup requests world]. rewrite Hrun. cbn [mbind option_bind].
  unfold send. cbn [pipe workers lookup list_lookup insert list_insert results queueDepth length].
  destruct (Nat.ltb_spec 0 d); [|lia]. cbn [option_bind app world requests callers].
  cbn [mbind option_bind]. unfold receive. cbn [callers pipe results].
  rewrite (list_lookup_middle cs []) by done. cbn [world].
  rewrite Hf. cbn [requests workers queueDepth]. rewrite insert_app_r_alt, Nat.sub_diag by lia. cbn. by rewrite Hk.
Qed.

(** ** Concrete runs *)

#[local] Existing Instance HexUuid.
#[local] Existing Instance HexUuidOk.
#[local] Existing Instance ToyCrypto.
#[local] Existing Instance ToyCryptoOk.
#[local] Existing Instance ToyAws.

Definition ex_aes (id : KeyID) (v : Z) : Row :=
  mkRow id v (JsonOf (mkMetadata (KeyID_String id) KEY_TYPE_AES_256 KEY_STATUS_ACTIVE v None None None None "" [] ∅
    "" ∅ "" "" 0 STORAGE_PROFILE_STANDARD)) [1] KeyStatusActive StorageTypeStandard 1000 1000 None.

(** Keys [id_a] at version 1 and [id_b] at version 4; 5 workers, depth 100. *)
Definition ex_conf : Conf :=
  conf_init 5 100 (mkSt (5 * Second) ∅ O (ex_service (mkPSQL [ex_aes id_a 1; ex_aes id_b 4] [] [] []))).

Definition ex_rotate (id : KeyID) : RotateKeyRequest := mkRotateReq (KeyID_String id) 60.

(** [alice] asks for [id_a] and gives up; [bob] then asks for [id_b]. *)
Definition ex_given_up : option Conf :=
  c1 ← cancel DeadlineExceeded 0 (call (Some (ex_rotate id_a)) ex_conf);
  c2 ← take 0 c1; c3 ← send 0 c2; receive 1 (call (Some (ex_rotate id_b)) c3).

(** Both ask at the same time and are served by two workers. *)
Definition ex_crossed : option Conf :=
  c1 ← take 0 (call (Some (ex_rotate id_b)) (call (Some (ex_rotate id_a)) ex_conf));
  c2 ← take 1 c1; c3 ← send 1 c2; c4 ← send 0 c3; c5 ← receive 0 c4; receive 1 c5.

(** Caller [j] asked for one key and was answered with another's new
    version and material, under the id of the key it asked for. *)
Definition wrong_answer (c : Conf (S := PSQLAdapter)) (j : nat) (asked got : KeyID) : Prop :=
  exists resp, callers c !! j = Some (Returned (Some asked) (Some got) (Ok resp))
    /\ rr_KeyId resp = KeyID_String asked /\ (KeyId <$> rr_Metadata resp) = Some (KeyID_String got).

(** the result channel is shared, so a caller can be handed the rotation
    of somebody else's key, encrypted material included: it happens to the
    next caller after one that gave up waiting, and to two callers at once
    whose workers finish in the other order. *)
Theorem results_are_shared :
  (exists c, rtc rotation_step ex_conf c /\ wrong_answer c 1 id_b id_a)
  /\ (exists c, rtc rotation_step ex_conf c /\ wrong_answer c 0 id_a id_b /\ wrong_answer c 1 id_b id_a).
Proof.
  assert (forall c c' : Conf (S := PSQLAdapter), rotation_step c c' -> forall c'', rtc rotation_step c' c'' -> rtc rotation_step c c'')
    as step by (intros; by eapply rtc_l).
  split.
  - destruct ex_given_up as [c|] eqn:E; [|by vm_compute in E]. exists c. split.
    + unfold ex_given_up in E. do 3 (apply bind_Some in E as (? & ? & E)).
      eapply step; [apply s_call|]. eapply step; [eapply (s_cancel _ DeadlineExceeded); [by repeat constructor|eassumption]|].
      eapply step; [eapply s_take; eassumption|]. eapply step; [eapply s_send; eassumption|].
      eapply step; [apply (s_call _ (Some (ex_rotate id_b)))|].
      eapply step; [eapply s_receive; eassumption|]. done.
    + vm_compute in E. injection E as <-. eexists. split; [reflexivity|]. split; reflexivity.
  - destruct ex_crossed as [c|] eqn:E; [|by vm_compute in E]. exists c. split.
    + unfold ex_crossed in E. do 5 (apply bind_Some in E as (? & ? & E)).
      eapply step; [apply s_call|]. eapply step; [apply s_call|].
      eapply step; [eapply s_take; eassumption|]. eapply step; [eapply s_take; eassumption|]. eapply step; [eapply s_send; eassumption|].
      eapply step; [eapply s_send; eassumption|]. eapply step; [eapply s_receive; eassumption|]. eapply step; [eapply s_receive; eassumption|].
      done.
    + vm_compute in E. injection E as <-. split; (eexists; split; [reflexivity|]; split; reflexivity).
Qed.

Lemma rotation_conserved_witness :
  accepted (callers (call (Some (ex_rotate id_a)) ex_conf))
  ≡ₚ delivered (callers (call (Some (ex_rotate id_a)) ex_conf))
     ++ in_flight (pipe (call (Some (ex_rotate id_a)) ex_conf)).
Proof.
  refine (proj1 (rotation_conserved 5 100 (world ex_conf) (call (Some (ex_rotate id_a)) ex_conf) _)).
  apply rtc_once, s_call.
Defined.

Lemma lone_calls_own_result_witness :
  exists c, lone_run (ex_rotate id_a) ex_conf = Some c
    /\ forall key from r, Returned (Some key) from r ∈ callers c -> from = Some key.
Proof.
  destruct (lone_run (ex_rotate id_a) ex_conf) as [c|] eqn:E; [|by vm_compute in E].
  exists c. split; [reflexivity|].
  refine (proj1 (lone_calls_own_result 5 100 (world ex_conf) c _)).
  unfold lone_run in E. do 2 (apply bind_Some in E as (? & ? & E)).
  eapply rtc_l; [by apply (a_call _ (Some (ex_rotate id_a)))|].
  eapply rtc_l; [eapply a_take; eassumption|]. eapply rtc_l; [eapply a_send; eassumption|]. eapply rtc_once, a_receive; eassumption.
Defined.

Lemma lone_call_completes_witness :
  exists w o, lone_run (ex_rotate id_b) ex_conf
    = Some (mkConf w (pipe ex_conf) [Returned (Some id_b) (Some id_b) (Ok o)]) /\ rr_NewVersion o = 5.
Proof.
  destruct (RotateKey_begin (Some (ex_rotate id_b)) (world ex_conf)) as [r1 w1] eqn:E1.
  destruct r1 as [[cur q]|e|s]; [|by vm_compute in E1..].
  destruct (worker_run q w1) as [r2 w2] eqn:E2.
  destruct r2 as [r|e|s]; [|by (vm_compute in E1; injection E1 as <- <- <-; vm_compute in E2)..].
  destruct (RotateKey_finish (ex_rotate id_b) cur r w2) as [o w3] eqn:E3.
  destruct (lone_call_completes (ex_rotate id_b) ex_conf (replicate 4 Idle) cur q w1 r w2 o w3 eq_refl eq_refl
    eq_refl ltac:(vm_compute; lia) E1 E2 E3) as [_ Hrun].
  vm_compute in E1. injection E1 as <- <- <-. vm_compute in E2. injection E2 as <- <-.
  vm_compute in E3. injection E3 as <- <-.
  eexists _, _. split; [exact Hrun|reflexivity].
Defined.
