(* ===== verification/Rpc.v ===== *)
(** * The gRPC handlers

    Models [internal/app/grpc/polykey_impl.go]: each handler authorizes the
    call and then runs the key service; every error it returns is sanitized.
    The authorizer and the service share the key repository and the audit
    log.  [Authenticate], [HealthCheck] and [RotateKey], which need the
    authentication service and the rotation pipeline, are in [Server.v]. *)

From S2P Require Import Prelude Errors Domain Cache Repo Psql PsqlSpec Batch Kms Authorizer Service ServiceSpec.

(** ** State *)

Record PolykeyService (S : Type) := mkPolykey {
  KeyService : keyServiceImpl S;
  authz_cfg : AuthorizationConfig;
  authz_cache : Cache string bool;
  ErrorClassifier : ClassifierState;
  errorPicks : list nat                   (* which pooled error object Get finds *)
}.
Arguments mkPolykey {S}.
Arguments KeyService {S}.
Arguments authz_cfg {S}.
Arguments authz_cache {S}.
Arguments ErrorClassifier {S}.
Arguments errorPicks {S}.

Section Rpc.
Context `{UuidPkg} `{CryptoPkg} `{AwsKms} `{Sha256Pkg} `{TimeFormat} {S : Type} `{KeyRepository S}.
Abbreviation W := (St (PolykeyService S)).

(** [s.deps.Authorizer.Method(..)] *)
Definition get_authorizer (s : PolykeyService S) : realAuthorizer S :=
  mkAuthorizer (authz_cfg s) (keyRepo (KeyService s)) (authz_cache s) (auditLog (KeyService s)).
Definition put_authorizer (a : realAuthorizer S) (s : PolykeyService S) : PolykeyService S :=
  let k := KeyService s in
  mkPolykey (mkSvc (az_keyRepo a) (kmsProviders k) (DefaultKMSProvider k) (dekPools k) (az_audit a) (entropy k)
               (jitter k) (awsCalls k) (newIds k) (picks k))
    (cfg a) (policyCache a) (ErrorClassifier s) (errorPicks s).
Definition with_authorizer {A} (m : M (St (realAuthorizer S)) A) : M W A := with_inner get_authorizer put_authorizer m.

(** [s.deps.KeyService.Method(..)] *)
Definition with_service {A} (m : M (St (keyServiceImpl S)) A) : M W A :=
  with_inner KeyService
    (λ k s, mkPolykey k (authz_cfg s) (authz_cache s) (ErrorClassifier s) (errorPicks s)) m.

(** [return zero, s.sanitizeError(ctx, method, err)] *)
Definition refuse {A} (method : string) (err : error) : M W (option A) := λ w,
  let s := repo w in
  let '(o, st) := sanitizeError (hd O (errorPicks s)) method (Some err) (ErrorClassifier s) in
  (match o with Some e => Err e | None => Ok None end,
   set_repo (mkPolykey (KeyService s) (authz_cfg s) (authz_cache s) st (tl (errorPicks s))) w).

(** [resp, err := fn(ctx); if err != nil {..}; return resp, nil] *)
Definition run_handler {A} (method : string) (fn : M (St (keyServiceImpl S)) A) : M W (option A) :=
  r ← try_ (with_service fn);
  match r with
  | inr err => refuse method err
  | inl resp => mret (Some resp)
  end.

Definition authorized_run {A} (method authOp : string) (keyID : KeyID) (ctx : Ctx)
    (reqContext : option RequesterContext) (fn : M (St (keyServiceImpl S)) A) : M W (option A) :=
  '(ok, reason) ← with_authorizer (Authorize ctx reqContext authOp keyID);
  if negb (ok : bool) then refuse method (WrapSuf (Sentinel ErrAuthorization) reason)
  else run_handler method fn.

Definition execWithAuth {A} (method authOp keyIDStr : string) (ctx : Ctx) (reqContext : option RequesterContext)
    (fn : M (St (keyServiceImpl S)) A) : M W (option A) :=
  match KeyIDFromString keyIDStr with
  | Panic w => panic w
  | Err err => refuse method err
  | Ok keyID => authorized_run method authOp keyID ctx reqContext fn
  end.

Definition execWithoutKey {A} (method authOp : string) (ctx : Ctx) (reqContext : option RequesterContext)
    (fn : M (St (keyServiceImpl S)) A) : M W (option A) :=
  authorized_run method authOp KeyID_zero ctx reqContext fn.

(** [cts.MethodScopes[method]] *)
Definition scope (method : string) : string := default "" (assoc method MethodScopes).

Definition rpc_GetKey (ctx : Ctx) (req : GetKeyRequest) : M W (option GetKeyResponse) :=
  execWithAuth "GetKey" (scope "GetKey") (gr_KeyId req) ctx (gr_RequesterContext req) (GetKey (Some req)).

Definition rpc_CreateKey (ctx : Ctx) (req : CreateKeyRequest) : M W (option CreateKeyResponse) :=
  execWithoutKey "CreateKey" (scope "CreateKey") ctx (cr_RequesterContext req) (CreateKey (Some req)).

Definition rpc_BatchCreateKeys (order : list nat) (ctx : Ctx) (req : BatchRequest CreateKeyItem)
  : M W (option (list (CreateKeyResponse + string))) :=
  execWithoutKey "CreateKey" (scope "CreateKey") ctx (bq_RequesterContext req) (BatchCreateKeys order (Some req)).

Definition rpc_BatchGetKeys (order : list nat) (ctx : Ctx) (req : BatchRequest KeyRequestItem)
  : M W (option (BatchResponse GetKeyResponse)) :=
  execWithoutKey "GetKey" (scope "GetKey") ctx (bq_RequesterContext req) (BatchGetKeys order (Some req)).

Definition rpc_BatchGetKeyMetadata (ctx : Ctx) (req : BatchRequest string)
  : M W (option (BatchResponse (KeyMetadata * Z))) :=
  execWithoutKey "GetKeyMetadata" (scope "GetKeyMetadata") ctx (bq_RequesterContext req)
    (BatchGetKeyMetadata (Some req)).

Definition rpc_BatchRotateKeys (order : list nat) (ctx : Ctx) (req : BatchRequest RotateKeyItem)
  : M W (option (BatchResponse RotateKeyResponse)) :=
  execWithoutKey "RotateKey" (scope "RotateKey") ctx (bq_RequesterContext req) (BatchRotateKeys order (Some req)).

Definition rpc_BatchRevokeKeys (ctx : Ctx) (req : BatchRequest string) : M W (option (BatchResponse unit)) :=
  execWithoutKey "RevokeKey" (scope "RevokeKey") ctx (bq_RequesterContext req) (BatchRevokeKeys (Some req)).

Definition rpc_BatchUpdateKeyMetadata (ctx : Ctx) (req : BatchRequest UpdateItem)
  : M W (option (BatchResponse unit)) :=
  execWithoutKey "UpdateKeyMetadata" (scope "UpdateKeyMetadata") ctx (bq_RequesterContext req)
    (BatchUpdateKeyMetadata (Some req)).

Definition rpc_ListKeys (ctx : Ctx) (reqContext : option RequesterContext) (pageToken : string) (pageSize : Z)
  : M W (option ListKeysResponse) :=
  execWithoutKey "ListKeys" (scope "ListKeys") ctx reqContext (ListKeys (Some (pageToken, pageSize))).

Definition rpc_RevokeKey (ctx : Ctx) (reqContext : option RequesterContext) (keyId : string) : M W (option unit) :=
  execWithAuth "RevokeKey" (scope "RevokeKey") keyId ctx reqContext (RevokeKey (Some keyId)).

Definition rpc_UpdateKeyMetadata (ctx : Ctx) (reqContext : option RequesterContext) (u : UpdateItem)
  : M W (option unit) :=
  execWithAuth "UpdateKeyMetadata" (scope "UpdateKeyMetadata") (u_KeyId u) ctx reqContext (UpdateKeyMetadata (Some u)).

Definition rpc_GetKeyMetadata (ctx : Ctx) (req : GetKeyMetadataRequest) : M W (option (option KeyMetadata * Z)) :=
  execWithAuth "GetKeyMetadata" (scope "GetKeyMetadata") (mr_KeyId req) ctx (mr_RequesterContext req)
    (GetKeyMetadata (Some req)).

(** ** Lemmas *)

Lemma refuse_run {A} method err (w : W) : exists w',
  refuse (A := A) method err w = (Err (StatusError (client_view err).1 (client_view err).2), w')
  /\ KeyService (repo w') = KeyService (repo w) /\ authz_cache (repo w') = authz_cache (repo w)
  /\ heap w' = heap w /\ clock w' = clock w.
Proof.
  unfold refuse. destruct (sanitizeError_view (hd O (errorPicks (repo w))) method err (ErrorClassifier (repo w)))
    as [st ->]. by eexists.
Qed.

Lemma refused_view reason : client_view (WrapSuf (Sentinel ErrAuthorization) reason) = (PermissionDenied, "Permission denied"%string).
Proof. reflexivity. Qed.

End Rpc.

(** C5: no handler acts without leave and no handler talks.  A call about a
    key succeeds only after the authorizer granted that very key and
    operation, and then answers what the service answered from there; a
    refused call is told "Permission denied", never reaches the service, and
    leaves it as the authorizer did; and any other error the caller sees is a
    gRPC status with one of the fixed client messages. *)
Theorem handlers_guarded `{UuidPkg} {S} `{KeyRepository S} {A} method op keyStr ctx rc
    (fn : M (St (keyServiceImpl S)) A) (w w' : St (PolykeyService S)) r :
  execWithAuth method op keyStr ctx rc fn w = (r, w') ->
  (forall resp, r = Ok resp -> exists id why w1 a,
      KeyIDFromString keyStr = Ok id
      /\ with_authorizer (Authorize ctx rc op id) w = (Ok (true, why), w1)
      /\ with_service fn w1 = (Ok a, w') /\ resp = Some a)
  /\ (forall e, r = Err e -> exists c msg, e = StatusError c msg /\ msg ∈ client_messages)
  /\ (forall id why w1, KeyIDFromString keyStr = Ok id ->
        with_authorizer (Authorize ctx rc op id) w = (Ok (false, why), w1) ->
        r = Err (StatusError PermissionDenied "Permission denied") /\ KeyService (repo w') = KeyService (repo w1)).
Proof.
  unfold execWithAuth, authorized_run, run_handler. intros E.
  destruct (KeyIDFromString keyStr) as [id|err|p] eqn:Hid.
  - unfold mbind at 1, GoM_bind at 1 in E.
    destruct (with_authorizer (Authorize ctx rc op id) w) as [[[[] why]|err|p] w1] eqn:Ha; cbn [negb] in E.
    + unfold mbind, GoM_bind, try_ in E.
      destruct (with_service fn w1) as [[a|err|p] w2] eqn:Hf.
      * unfold mret, GoM_ret in E. simplify_eq. split_and!; [|done|].
        -- intros resp [= <-]. exists id, why, w1, a. by rewrite Ha.
        -- intros ? ? ? [= <-] Hd. congruence.
      * destruct (refuse_run (A := A) method err w2) as (w3 & Hr & _). rewrite Hr in E. simplify_eq.
        split_and!; [done| |intros ? ? ? [= <-] Hd; congruence].
        intros e [= <-]. eauto using client_view_fixed.
      * simplify_eq. split_and!; [done..|]. intros ? ? ? [= <-] Hd. congruence.
    + destruct (refuse_run (A := A) method (WrapSuf (Sentinel ErrAuthorization) why) w1) as (w3 & Hr & Hk & _).
      rewrite Hr, refused_view in E. simplify_eq. split_and!; [done| |].
      * intros e [= <-]. eexists _, _. split; [done|]. by apply (client_view_fixed (Sentinel ErrAuthorization)).
      * intros id' why' w1' [= <-] Hd. rewrite Ha in Hd. simplify_eq. done.
    + exfalso. unfold with_authorizer, with_inner in Ha. destruct (Authorize _ _ _ _ _) as [r1 w2] eqn:E1.
      simplify_eq. by apply Authorize_no_err in E1.
    + simplify_eq. split_and!; [done..|]. intros ? ? ? [= <-] Hd. congruence.
  - destruct (refuse_run (A := A) method err w) as (w3 & Hr & _). rewrite Hr in E. simplify_eq.
    split_and!; [done| |done]. intros e [= <-]. eauto using client_view_fixed.
  - unfold panic in E. simplify_eq. done.
Qed.

(** C40: a client without an admin role is served a key by [GetKey] only if it
    is one of the key's authorized contexts and its tier reaches the key's
    storage profile, unless a grant for it is still in the policy cache. *)
Theorem GetKey_needs_permission `{UuidPkg} `{CryptoPkg} `{AwsKms} `{Sha256Pkg} {S} `{KeyRepository S}
    ctx req user id (w w' : St (PolykeyService S)) resp :
  rpc_GetKey ctx req w = (Ok resp, w') -> UserFromContext ctx = Some user ->
  KeyIDFromString (gr_KeyId req) = Ok id -> KeyID_IsZero id = false -> admin_role (authz_cfg (repo w)) user = false ->
  Cache.Get (clock w) (policyKey (user_ID user) AuthKeysRead id) (authz_cache (repo w)) = None ->
  exists l wi k md rc, Repo.GetKey id (set_repo (keyRepo (KeyService (repo w))) w) = (Ok l, wi)
    /\ heap wi !! l = Some k /\ Metadata k = Some md /\ user_ID user ∈ AuthorizedContexts md
    /\ gr_RequesterContext req = Some rc
    /\ StorageType md <= GetStorageProfileForTier (FromProtoTier (rcClientTier rc)).
Proof.
  unfold rpc_GetKey, execWithAuth, authorized_run. intros E Hu Hid Hz Had Hc. rewrite Hid in E.
  change (scope "GetKey") with AuthKeysRead in E. unfold mbind at 1, GoM_bind at 1 in E.
  destruct (with_authorizer _ w) as [[[[] why]|err|p] w1] eqn:Ha; try done.
  2: { cbn [negb] in E. by destruct (refuse_run (A := GetKeyResponse) "GetKey" (WrapSuf (Sentinel ErrAuthorization) why) w1)
         as (w3 & Hr & _); rewrite Hr in E. }
  clear E. unfold with_authorizer, with_inner in Ha.
  destruct (Authorize _ _ _ _ _) as [r1 w2] eqn:E1. injection Ha as -> _.
  apply Authorize_cases in E1 as [(? & ? & E1)|(user' & Hu' & _ & _ & _ & E1)]; [by authz|].
  assert (user' = user) as -> by congruence.
  apply decide_cached_cases in E1 as [(b & Hb & _)|(r2 & w3 & Hck & Hok & Hr2)]; [cbn [clock set_repo repo policyCache get_authorizer] in Hb; by rewrite Hc in Hb|].
  destruct r2 as [[[] why2]|e|p]; [|by destruct Hr2; simplify_eq|by simplify_eq..].
  unfold checkAuthorization in Hck. unfold mbind at 1, GoM_bind at 1, gets in Hck. cbn [repo set_repo cfg get_authorizer] in Hck.
  rewrite Had, Hz in Hck. change (key_operation AuthKeysRead) with true in Hck. cbv beta iota in Hck.
  unfold mbind, GoM_bind, try_, az_repo, with_inner in Hck. cbn [repo set_repo az_keyRepo get_authorizer] in Hck.
  destruct (Repo.GetKey id _) as [[l|e|p] wi] eqn:Hget; [| |done].
  2: { by unfold mret, GoM_ret in Hck; simplify_eq. }
  unfold deref in Hck. cbn [heap set_repo] in Hck. destruct (heap wi !! l) as [k|] eqn:Hl; [|done].
  unfold mret, GoM_ret in Hck. injection Hck as Hp _. unfold key_permits in Hp.
  destruct (Metadata k) as [md|] eqn:Hmd; [|done].
  unfold contains in Hp. case_bool_decide as Hin; [|done]. cbn [negb] in Hp.
  destruct (gr_RequesterContext req) as [rc|]; [|done].
  exists l, wi, k, md, rc. split_and!; try done.
  destruct (ValidateTierForProfile (tier_of rc) (StorageType md)) as [[]|e|p] eqn:Hv; [|done|].
  - by apply tier_profile_sound in Hv.
  - unfold ValidateTierForProfile in Hv. by case_match.
Qed.

(** ** Concrete calls *)

#[local] Existing Instance HexUuid.
#[local] Existing Instance HexUuidOk.
#[local] Existing Instance ToyCrypto.
#[local] Existing Instance ToyCryptoOk.
#[local] Existing Instance ToyAws.
#[local] Existing Instance ToySha.

Definition ex_polykey : St (PolykeyService PSQLAdapter) :=
  set_repo (mkPolykey (repo ex_world)
    (mkAuthzConfig {[ "user" := [AuthKeysRead; AuthKeysCreate; AuthKeysRevoke] ]} false)
    (policyCache (NewAuthorizer (mkAuthzConfig ∅ false) tt)) (mkCS [] []) []) ex_world.

Definition ex_client (name : string) : Ctx := mkCtx (Some (mkUser name ["user"%string])) None.
Definition ex_requester (name : string) : option RequesterContext := Some (mkRequester name CLIENT_TIER_FREE).

(** [alice] creates [id_b] for herself. *)
Definition ex_alices_key : CreateKeyRequest :=
  mkCreateReq (ex_requester "alice") KEY_TYPE_AES_256 "alice's" ∅ None ["alice"%string] ∅ "secret".
Definition ex_shared : St (PolykeyService PSQLAdapter) := snd (rpc_CreateKey (ex_client "alice") ex_alices_key ex_polykey).

Definition ex_get_by (name : string) : GetKeyRequest := mkGetReq (ex_requester name) (KeyID_String id_b) 0 false.
Definition ex_batch_by (name : string) : BatchRequest KeyRequestItem :=
  mkBatchReq (ex_requester name) [mkKeyItem (KeyID_String id_b) false] true.

(** The answer to a batch of one. *)
Definition only_answer (r : res (option (BatchResponse GetKeyResponse))) : option (GetKeyResponse + string) :=
  match r with Ok (Some resp) => bo_Result <$> head (br_Results resp) | _ => None end.

Definition ex_revoked : St (PolykeyService PSQLAdapter) :=
  snd (rpc_RevokeKey (ex_client "alice") (ex_requester "alice") (KeyID_String id_b) ex_shared).

(** the batch handlers authorize with the zero key id, for which the
    per-key rules are skipped: a client that [GetKey] turns away is given the
    material and metadata of the same key by [BatchGetKeys], even after the
    key was revoked. *)
Theorem batch_skips_key_rules :
  fst (rpc_GetKey (ex_client "mallory") (ex_get_by "mallory") ex_shared)
  = Err (StatusError PermissionDenied "Permission denied")
  /\ (exists resp, fst (rpc_GetKey (ex_client "alice") (ex_get_by "alice") ex_shared) = Ok (Some resp)
        /\ only_answer (fst (rpc_BatchGetKeys [0%nat] (ex_client "mallory") (ex_batch_by "mallory") ex_shared))
           = Some (inl resp))
  /\ fst (rpc_RevokeKey (ex_client "alice") (ex_requester "alice") (KeyID_String id_b) ex_shared) = Ok (Some tt)
  /\ is_ok (fst (rpc_GetKey (ex_client "alice") (ex_get_by "alice") ex_revoked)) = false
  /\ exists resp, only_answer (fst (rpc_BatchGetKeys [0%nat] (ex_client "mallory") (ex_batch_by "mallory") ex_revoked))
       = Some (inl resp).
Proof.
  split; [vm_compute; reflexivity|]. split; [eexists; split; vm_compute; reflexivity|].
  split; [vm_compute; reflexivity|]. split; [vm_compute; reflexivity|]. eexists. vm_compute. reflexivity.
Qed.

Lemma handlers_guarded_witness :
  let call := execWithAuth "GetKey" AuthKeysRead (KeyID_String id_b) (ex_client "mallory") (ex_requester "mallory")
      (GetKey (Some (ex_get_by "mallory"))) ex_shared in
  exists e c msg, fst call = Err e /\ e = StatusError c msg /\ msg ∈ client_messages.
Proof.
  intros call.
  assert (fst call = Err (StatusError PermissionDenied "Permission denied")) as Hr by (vm_compute; reflexivity).
  destruct (handlers_guarded "GetKey" AuthKeysRead (KeyID_String id_b) (ex_client "mallory") (ex_requester "mallory")
      (GetKey (Some (ex_get_by "mallory"))) ex_shared (snd call) (fst call) (surjective_pairing _)) as (_ & Hmsg & _).
  destruct (Hmsg _ Hr) as (c & msg & He & Hin). exists (StatusError PermissionDenied "Permission denied"), c, msg.
  split; [exact Hr|split; [exact He|exact Hin]].
Defined.

Lemma GetKey_needs_permission_witness :
  is_ok (fst (rpc_GetKey (ex_client "alice") (ex_get_by "alice") ex_shared)) = true
  /\ exists md, "alice"%string ∈ AuthorizedContexts md.
Proof.
  assert (exists resp, fst (rpc_GetKey (ex_client "alice") (ex_get_by "alice") ex_shared) = Ok resp) as [resp Hr].
  { eexists. vm_compute. reflexivity. }
  split; [by rewrite Hr|].
  destruct (GetKey_needs_permission (ex_client "alice") (ex_get_by "alice") (mkUser "alice" ["user"%string]) id_b
    ex_shared (snd (rpc_GetKey (ex_client "alice") (ex_get_by "alice") ex_shared)) resp
    ltac:(rewrite <- Hr; apply surjective_pairing) eq_refl (KeyIDFromString_String id_b) eq_refl
    ltac:(vm_compute; reflexivity) ltac:(vm_compute; reflexivity)) as (l & wi & k & md & rc & _ & _ & _ & Hin & _).
  exists md. exact Hin.
Defined.
