(* ===== verification/Regex.v ===== *)
(** * Regular expressions

    The part of Go's [regexp] that [internal/validation/validator.go] and
    [pkg/validator/validator.go] use: anchored patterns built from character
    classes, literals, repetition counts and [*], matched with [MatchString].
    The classes are ASCII and [.] excludes only the newline, so matching bytes
    decides the same strings as matching runes.  A pattern denotes a language
    ([matches]); [MatchString] decides it by derivatives. *)

From S2P Require Import Prelude Domain.

Abbreviation byte := Ascii.ascii.

Inductive regex : Type :=
| RVoid
| REps
| RClass (p : byte -> bool)
| RSeq (r1 r2 : regex)
| RAlt (r1 r2 : regex)
| RStar (r : regex).

Inductive matches : regex -> string -> Prop :=
| MEps : matches REps ""
| MClass p a : p a = true -> matches (RClass p) (String a "")
| MSeq r1 r2 s1 s2 : matches r1 s1 -> matches r2 s2 -> matches (RSeq r1 r2) (s1 +:+ s2)
| MAltL r1 r2 s : matches r1 s -> matches (RAlt r1 r2) s
| MAltR r1 r2 s : matches r2 s -> matches (RAlt r1 r2) s
| MStar0 r : matches (RStar r) ""
| MStarS r s1 s2 : matches r s1 -> matches (RStar r) s2 -> matches (RStar r) (s1 +:+ s2).
#[export] Hint Constructors matches : go.

(** [[x-y]], a literal, [r{n}], [r{0,n}], [r+]. *)
Definition rng (lo hi : N) (a : byte) : bool := ((lo <=? Ascii.N_of_ascii a) && (Ascii.N_of_ascii a <=? hi))%N.
Definition one_of (s : string) (a : byte) : bool := existsb (Ascii.eqb a) (String.list_ascii_of_string s).
Fixpoint lit (s : string) : regex :=
  match s with
  | EmptyString => REps
  | String a s' => RSeq (RClass (Ascii.eqb a)) (lit s')
  end.
Fixpoint exactly (n : nat) (r : regex) : regex :=
  match n with O => REps | S n' => RSeq r (exactly n' r) end.
Fixpoint up_to (n : nat) (r : regex) : regex :=
  match n with O => REps | S n' => RAlt REps (RSeq r (up_to n' r)) end.
Definition plus (r : regex) : regex := RSeq r (RStar r).

(** ** Matching *)

Fixpoint nullable (r : regex) : bool :=
  match r with
  | RVoid | RClass _ => false
  | REps | RStar _ => true
  | RSeq r1 r2 => nullable r1 && nullable r2
  | RAlt r1 r2 => nullable r1 || nullable r2
  end.

Definition seq_ (r1 r2 : regex) : regex :=
  match r1, r2 with
  | RVoid, _ | _, RVoid => RVoid
  | REps, _ => r2
  | _, REps => r1
  | _, _ => RSeq r1 r2
  end.
Definition alt_ (r1 r2 : regex) : regex :=
  match r1, r2 with
  | RVoid, _ => r2
  | _, RVoid => r1
  | _, _ => RAlt r1 r2
  end.

Fixpoint deriv (a : byte) (r : regex) : regex :=
  match r with
  | RVoid | REps => RVoid
  | RClass p => if p a then REps else RVoid
  | RSeq r1 r2 =>
      let d := seq_ (deriv a r1) r2 in
      if nullable r1 then alt_ d (deriv a r2) else d
  | RAlt r1 r2 => alt_ (deriv a r1) (deriv a r2)
  | RStar r1 => seq_ (deriv a r1) (RStar r1)
  end.

Fixpoint MatchString (r : regex) (s : string) : bool :=
  match s with
  | EmptyString => nullable r
  | String a s' => MatchString (deriv a r) s'
  end.

(** ** The matcher decides the language *)

Lemma matches_eps s : matches REps s <-> s = ""%string.
Proof. split; [by inversion 1|intros ->; constructor]. Qed.

Lemma matches_seq r1 r2 s : matches (RSeq r1 r2) s <-> exists s1 s2, s = s1 +:+ s2 /\ matches r1 s1 /\ matches r2 s2.
Proof. split; [inversion 1; eauto|intros (? & ? & -> & ? & ?); by constructor]. Qed.

Lemma matches_alt r1 r2 s : matches (RAlt r1 r2) s <-> matches r1 s \/ matches r2 s.
Proof. split; [inversion 1; auto|intros [?|?]; auto with go]. Qed.

Lemma matches_void s : ~ matches RVoid s.
Proof. inversion 1. Qed.

Lemma matches_seq_eps_l r s : matches (RSeq REps r) s <-> matches r s.
Proof.
  rewrite matches_seq. split; [by intros (s1 & s2 & -> & ->%matches_eps & ?)|].
  intros. exists ""%string, s. auto with go.
Qed.

Lemma matches_seq_eps_r r s : matches (RSeq r REps) s <-> matches r s.
Proof.
  rewrite matches_seq. split.
  - intros (s1 & s2 & -> & ? & ->%matches_eps). by rewrite app_nil_r_str.
  - intros. exists s, ""%string. rewrite app_nil_r_str. auto with go.
Qed.

Lemma matches_seq_void r1 r2 s : r1 = RVoid \/ r2 = RVoid -> ~ matches (RSeq r1 r2) s.
Proof. rewrite matches_seq. intros [->| ->] (? & ? & -> & ? & ?); by eapply matches_void. Qed.

Lemma matches_seq_ r1 r2 s : matches (seq_ r1 r2) s <-> matches (RSeq r1 r2) s.
Proof.
  destruct r1, r2; cbn [seq_];
    first [ done | by rewrite matches_seq_eps_l | by rewrite matches_seq_eps_r
          | split; [by intros ?%matches_void|by intros ?%matches_seq_void; auto] ].
Qed.

Lemma matches_alt_ r1 r2 s : matches (alt_ r1 r2) s <-> matches (RAlt r1 r2) s.
Proof.
  rewrite matches_alt.
  destruct r1, r2; cbn; rewrite ?matches_alt; try done; pose proof (matches_void s); naive_solver.
Qed.

Lemma nullable_spec r : nullable r = true <-> matches r "".
Proof.
  induction r as [| | |r1 IH1 r2 IH2|r1 IH1 r2 IH2|r IH]; cbn [nullable].
  - split; [done|by intros ?%matches_void].
  - split; auto with go.
  - split; [done|inversion 1].
  - rewrite andb_true_iff, IH1, IH2, matches_seq. split.
    + intros [? ?]. by exists ""%string, ""%string.
    + intros (s1 & s2 & Hs & ? & ?). by destruct s1, s2.
  - by rewrite orb_true_iff, IH1, IH2, matches_alt.
  - split; auto with go.
Qed.

(** A non-empty match of a star begins with a non-empty match of its body. *)
Lemma matches_star_cons r a s :
  matches (RStar r) (String a s) ->
  exists s1 s2, s = s1 +:+ s2 /\ matches r (String a s1) /\ matches (RStar r) s2.
Proof.
  intros Hm. remember (RStar r) as r' eqn:Hr. remember (String a s) as t eqn:Ht. revert a s Ht.
  induction Hm as [| | | | | |r' s1 s2 H1 _ H2 IH]; intros b t Ht; simplify_eq.
  destruct s1 as [|b' s1].
  - apply (IH eq_refl b t Ht).
  - rewrite app_cons_str in Ht. simplify_eq. eauto.
Qed.

Lemma deriv_spec a r s : matches (deriv a r) s <-> matches r (String a s).
Proof.
  revert s. induction r as [| |p|r1 IH1 r2 IH2|r1 IH1 r2 IH2|r IH]; intros s; cbn [deriv].
  - split; by intros ?%matches_void.
  - split; [by intros ?%matches_void|inversion 1].
  - destruct (p a) eqn:Hp.
    + rewrite matches_eps. split; [intros ->; by constructor|by inversion 1].
    + split; [by intros ?%matches_void|inversion 1; congruence].
  - assert (matches (seq_ (deriv a r1) r2) s <->
            exists s1 s2, s = s1 +:+ s2 /\ matches r1 (String a s1) /\ matches r2 s2) as Hd.
    { rewrite matches_seq_, matches_seq. by setoid_rewrite IH1. }
    rewrite matches_seq. destruct (nullable r1) eqn:Hn; rewrite ?matches_alt_, ?matches_alt, Hd, ?IH2; clear Hd.
    + apply nullable_spec in Hn. split.
      * intros [(s1 & s2 & -> & ? & ?)|?]; [by exists (String a s1), s2|by exists ""%string, (String a s)].
      * intros ([|b s1] & s2 & Hs & ? & ?); [right; by rewrite app_nil_str in Hs; subst|].
        rewrite app_cons_str in Hs. simplify_eq. left. eauto.
    + split.
      * intros (s1 & s2 & -> & ? & ?). by exists (String a s1), s2.
      * intros ([|b s1] & s2 & Hs & H1 & ?); [apply nullable_spec in H1; congruence|].
        rewrite app_cons_str in Hs. simplify_eq. eauto.
  - by rewrite matches_alt_, !matches_alt, IH1, IH2.
  - rewrite matches_seq_, matches_seq. setoid_rewrite IH. split.
    + intros (s1 & s2 & -> & ? & ?). rewrite <-app_cons_str. by constructor.
    + intros Hm%matches_star_cons. done.
Qed.

Lemma MatchString_spec r s : MatchString r s = true <-> matches r s.
Proof.
  revert r. induction s as [|a s IH]; intros r; cbn [MatchString]; [apply nullable_spec|].
  by rewrite IH, deriv_spec.
Qed.

(** ** Explicit checks for the shapes in use *)

Fixpoint all_chars (p : byte -> bool) (s : string) : bool :=
  match s with EmptyString => true | String a s' => p a && all_chars p s' end.

Lemma all_chars_app p s t : all_chars p (s +:+ t) = all_chars p s && all_chars p t.
Proof. induction s as [|a s IH]; [done|]. rewrite app_cons_str. cbn [all_chars]. by rewrite IH, andb_assoc. Qed.

Lemma matches_class p s : matches (RClass p) s <-> exists a, s = String a "" /\ p a = true.
Proof. split; [inversion 1; eauto|intros (? & -> & ?); by constructor]. Qed.

Lemma matches_class_seq p r s :
  matches (RSeq (RClass p) r) s <-> exists a s', s = String a s' /\ p a = true /\ matches r s'.
Proof.
  rewrite matches_seq. setoid_rewrite matches_class. split.
  - intros (s1 & s2 & -> & (a & -> & Hp) & Hm). by exists a, s2.
  - intros (a & s' & -> & Hp & Hm). exists (String a ""), s'. split_and!; [done| |done]. eauto.
Qed.

Lemma matches_exactly p n s :
  matches (exactly n (RClass p)) s <-> String.length s = n /\ all_chars p s = true.
Proof.
  revert s. induction n as [|n IH]; intros s; cbn [exactly].
  - rewrite matches_eps. destruct s; naive_solver.
  - rewrite matches_class_seq. setoid_rewrite IH. split.
    + intros (a & s' & -> & Hp & <- & Ha). cbn. by rewrite Hp.
    + destruct s as [|a s']; [by intros [? _]|]. cbn. intros [[= Hl] [Hp Ha]%andb_true_iff]. by exists a, s'.
Qed.

Lemma matches_up_to p n s :
  matches (up_to n (RClass p)) s <-> (String.length s <= n)%nat /\ all_chars p s = true.
Proof.
  revert s. induction n as [|n IH]; intros s; cbn [up_to].
  - rewrite matches_eps. destruct s; cbn; [naive_solver lia|]. split; [done|lia].
  - rewrite matches_alt, matches_eps, matches_class_seq. setoid_rewrite IH. split.
    + intros [->|(a & s' & -> & Hp & Hl & Ha)]; cbn; [split; [lia|done]|rewrite Hp; split; [lia|done]].
    + destruct s as [|a s']; [by left|]. cbn. intros [Hl [Hp Ha]%andb_true_iff]. right.
      exists a, s'. split_and!; [done..|lia|done].
Qed.

Lemma matches_lit t s : matches (lit t) s <-> s = t.
Proof.
  revert s. induction t as [|a t IH]; intros s; cbn [lit]; [apply matches_eps|].
  rewrite matches_class_seq. setoid_rewrite IH. split.
  - intros (b & s' & -> & Hb%Ascii.eqb_eq & ->). by subst.
  - intros ->. exists a, t. by rewrite Ascii.eqb_refl.
Qed.

Lemma matches_star p s : matches (RStar (RClass p)) s <-> all_chars p s = true.
Proof.
  induction s as [|a s IH]; [split; auto with go|]. split.
  - intros (s1 & s2 & -> & H1 & H2)%matches_star_cons. apply matches_class in H1 as (b & Hb & Hp).
    simplify_eq. cbn. rewrite Hp. by apply IH.
  - cbn. intros [Hp Ha]%andb_true_iff. change (String a s) with (String a "" +:+ s).
    constructor; [by constructor|by apply IH].
Qed.
