(* ===== verification/Validation.v ===== *)
(** * Request validation

    Models [internal/validation/validator.go], [internal/validation/query.go]
    and [pkg/validator/validator.go].  The size of a request as JSON (its
    generated Go type is not in the repository) and [json.Unmarshal]'s verdict
    on a policy are parameters; the order in which a Go map is ranged over is
    the class [MapRange]. *)

From S2P Require Import Prelude Errors Domain Service Regex.

(** ** Parameters *)

(** The order of [for k, v := range m]. *)
Class MapRange := {
  range : gmap string string -> list (string * string);
  range_perm m : range m ≡ₚ map_to_list m
}.

Record UpdateKeyMetadataRequest := mkUpdateReq {
  um_RequesterContext : option RequesterContext;
  um_Update : UpdateItem;
  um_ContextsToAdd : list string;
  um_ContextsToRemove : list string
}.

(** [len(json.Marshal(req))], and [json.Unmarshal] into an [interface{}]. *)
Class JsonPkg := {
  Marshal_CreateKeyRequest : CreateKeyRequest -> res Z;
  Marshal_UpdateKeyMetadataRequest : UpdateKeyMetadataRequest -> res Z;
  json_Unmarshal : string -> res unit
}.

(** ** Constants and patterns *)

Definition MaxMetadataSize : Z := 64 * 1024.
Definition MaxTagCount : Z := 50.
Definition MaxTagKeyLen : Z := 128.
Definition MaxTagValueLen : Z := 256.
Definition MaxDescriptionLen : Z := 1024.
Definition MaxAuthorizedContexts : Z := 100.
Definition MaxAccessPolicies : Z := 50.
Definition MaxDataClassificationLen : Z := 50.

Definition allowedDataClassifications : list string := ["public"; "confidential"; "secret"]%string.

Definition digit : byte -> bool := rng 48 57.
Definition lower : byte -> bool := rng 97 122.
Definition upper : byte -> bool := rng 65 90.
Definition hexchar (a : byte) : bool := digit a || rng 97 102 a.
Definition letter (a : byte) : bool := lower a || upper a.
Definition tagchar (a : byte) : bool := letter a || digit a || one_of "_-" a.
Definition ctxfirst (a : byte) : bool := letter a || digit a.
Definition ctxchar (a : byte) : bool := letter a || digit a || one_of "._-" a.
Definition arnchar (a : byte) : bool := lower a || digit a || one_of "-" a.

Fixpoint seq_all (l : list regex) : regex :=
  match l with [] => REps | r :: l' => RSeq r (seq_all l') end.

(** [^[0-9a-f]{8}-[0-9a-f]{4}-[0-9a-f]{4}-[0-9a-f]{4}-[0-9a-f]{12}$] *)
Definition uuidRegex : regex :=
  let h n := exactly n (RClass hexchar) in
  seq_all [h 8%nat; lit "-"; h 4%nat; lit "-"; h 4%nat; lit "-"; h 4%nat; lit "-"; h 12%nat].

(** [^[a-zA-Z][a-zA-Z0-9_-]{0,127}$] *)
Definition tagKeyRegex : regex := RSeq (RClass letter) (up_to 127 (RClass tagchar)).

(** [^[a-zA-Z0-9][a-zA-Z0-9._-]{0,255}$] *)
Definition contextRegex : regex := RSeq (RClass ctxfirst) (up_to 255 (RClass ctxchar)).

(** [^arn:aws:[a-z0-9\-]+:[a-z0-9\-]*:[0-9]{12}:.*$] *)
Definition arnRegex : regex :=
  seq_all [lit "arn:aws:"; plus (RClass arnchar); lit ":"; RStar (RClass arnchar); lit ":";
           exactly 12 (RClass digit); lit ":"; RStar (RClass (λ a, negb (rng 10 10 a)))].

Definition isARN (field : string) : bool := MatchString arnRegex field.

(** [strings.ContainsAny(s, chars)], for ASCII [chars] *)
Definition ContainsAny (s chars : string) : bool := negb (all_chars (λ a, negb (one_of chars a)) s).

(** The characters [< > quote apostrophe] and [; apostrophe quote]. *)
Definition markup_chars : string := bytes_str [60; 62; 34; 39]%N.
Definition sql_chars : string := bytes_str [59; 39; 34]%N.
Definition token_chars : string := bytes_str [59; 39; 34; 60; 62; 34]%N.

Definition strlen {A} (l : list A) : Z := Z.of_nat (length l).

Section Validator.
Context `{MapRange} `{JsonPkg}.

(** ** validator.go *)

Definition validateRequestSize (data : res Z) : res unit :=
  match data with
  | Err err => Err (Wrap "failed to estimate request size" err)
  | Panic w => Panic w
  | Ok len =>
      if MaxMetadataSize <? len
      then Err (ErrorsNew ("request size " +:+ pretty len +:+ " exceeds maximum of " +:+ pretty MaxMetadataSize +:+ " bytes"))
      else Ok tt
  end.

(** The loop of [validateTags]. *)
Fixpoint validate_tag_list (tags : list (string * string)) : res unit :=
  match tags with
  | [] => Ok tt
  | (k, v) :: tags' =>
      if MaxTagKeyLen <? go_len k
      then Err (ErrorsNew ("tag key '" +:+ k +:+ "' exceeds maximum length of " +:+ pretty MaxTagKeyLen))
      else if MaxTagValueLen <? go_len v
      then Err (ErrorsNew ("tag value for key '" +:+ k +:+ "' exceeds maximum length of " +:+ pretty MaxTagValueLen))
      else if negb (MatchString tagKeyRegex k)
      then Err (ErrorsNew ("invalid tag key format: '" +:+ k +:+ "'"))
      else if ContainsAny v markup_chars
      then Err (ErrorsNew "tag value contains invalid characters")
      else validate_tag_list tags'
  end.

Definition validateTags (tags : gmap string string) : res unit :=
  if MaxTagCount <? Z.of_nat (size tags)
  then Err (ErrorsNew ("tag count " +:+ pretty (Z.of_nat (size tags)) +:+ " exceeds maximum of " +:+ pretty MaxTagCount))
  else validate_tag_list (range tags).

(** The loop of [validateAuthorizedContexts]. *)
Fixpoint validate_context_list (seen : gset string) (contexts : list string) : res unit :=
  match contexts with
  | [] => Ok tt
  | ctx :: contexts' =>
      if bool_decide (ctx ∈ seen) then Err (ErrorsNew ("duplicate authorized context: " +:+ ctx))
      else if negb (MatchString contextRegex ctx)
      then Err (ErrorsNew ("invalid authorized context format: '" +:+ ctx +:+ "'"))
      else validate_context_list ({[ctx]} ∪ seen) contexts'
  end.

Definition validateAuthorizedContexts (contexts : list string) : res unit :=
  if MaxAuthorizedContexts <? strlen contexts
  then Err (ErrorsNew ("authorized contexts count " +:+ pretty (strlen contexts) +:+ " exceeds maximum of "
                       +:+ pretty MaxAuthorizedContexts))
  else validate_context_list ∅ contexts.

(** The loop of [validateAccessPolicies]. *)
Fixpoint validate_policy_list (policies : list (string * string)) : res unit :=
  match policies with
  | [] => Ok tt
  | (name, policy) :: policies' =>
      if negb (MatchString tagKeyRegex name)
      then Err (ErrorsNew ("invalid policy name format: '" +:+ name +:+ "'"))
      else match json_Unmarshal policy with
           | Err err => Err (Wrap ("invalid policy JSON for '" +:+ name +:+ "'") err)
           | Panic w => Panic w
           | Ok _ => validate_policy_list policies'
           end
  end.

Definition validateAccessPolicies (policies : gmap string string) : res unit :=
  if MaxAccessPolicies <? Z.of_nat (size policies)
  then Err (ErrorsNew ("access policies count " +:+ pretty (Z.of_nat (size policies)) +:+ " exceeds maximum of "
                       +:+ pretty MaxAccessPolicies))
  else validate_policy_list (range policies).

Definition validateDataClassification (classification : string) : res unit :=
  if String.eqb classification "" then Ok tt
  else if MaxDataClassificationLen <? go_len classification
  then Err (ErrorsNew ("data classification exceeds maximum length of " +:+ pretty MaxDataClassificationLen +:+ " characters"))
  else if negb (contains allowedDataClassifications classification)
  then Err (ErrorsNew ("invalid data classification: '" +:+ classification +:+ "'"))
  else Ok tt.

Definition description_too_long : error :=
  ErrorsNew ("description exceeds maximum length of " +:+ pretty MaxDescriptionLen +:+ " characters").

Definition ValidateCreateKeyRequest (req : CreateKeyRequest) : res unit :=
  _ ← map_err (Wrap "request size validation failed") (validateRequestSize (Marshal_CreateKeyRequest req));
  if cr_KeyType req =? KEY_TYPE_UNSPECIFIED then Err (ErrorsNew "key type is required")
  else if MaxDescriptionLen <? go_len (cr_Description req) then Err description_too_long
  else
    _ ← map_err (Wrap "tag validation failed") (validateTags (cr_Tags req));
    _ ← map_err (Wrap "authorized contexts validation failed") (validateAuthorizedContexts (cr_InitialAuthorizedContexts req));
    _ ← map_err (Wrap "access policies validation failed") (validateAccessPolicies (cr_AccessPolicies req));
    map_err (Wrap "data classification validation failed") (validateDataClassification (cr_DataClassification req)).

Definition ValidateUpdateKeyMetadataRequest (req : UpdateKeyMetadataRequest) : res unit :=
  let u := um_Update req in
  _ ← map_err (Wrap "request size validation failed") (validateRequestSize (Marshal_UpdateKeyMetadataRequest req));
  if String.eqb (u_KeyId u) "" then Err (ErrorsNew "key_id is required")
  else if MaxDescriptionLen <? go_len (default "" (u_Description u)) then Err description_too_long
  else
    _ ← map_err (Wrap "tags_to_add validation failed") (validateTags (u_TagsToAdd u));
    _ ← map_err (Wrap "contexts_to_add validation failed") (validateAuthorizedContexts (um_ContextsToAdd req));
    _ ← map_err (Wrap "contexts_to_remove validation failed") (validateAuthorizedContexts (um_ContextsToRemove req));
    _ ← map_err (Wrap "policies_to_update validation failed") (validateAccessPolicies (u_PoliciesToUpdate u));
    map_err (Wrap "data classification validation failed") (validateDataClassification (default "" (u_DataClassification u))).

(** The common body of the four validators of requests about one key. *)
Definition validate_key_request (keyId : string) (rc : option RequesterContext) : res unit :=
  if String.eqb keyId "" then Err (ErrorsNew "key_id is required")
  else if negb (MatchString uuidRegex keyId) then Err (ErrorsNew "invalid key_id format: must be a UUID")
  else match rc with
       | None => Err (ErrorsNew "requester_context is required")
       | Some _ => Ok tt
       end.

Definition ValidateGetKeyRequest (req : GetKeyRequest) : res unit :=
  validate_key_request (gr_KeyId req) (gr_RequesterContext req).
Definition ValidateRotateKeyRequest (keyId : string) (rc : option RequesterContext) : res unit :=
  validate_key_request keyId rc.
Definition ValidateRevokeKeyRequest (keyId : string) (rc : option RequesterContext) : res unit :=
  validate_key_request keyId rc.
Definition ValidateGetKeyMetadataRequest (req : GetKeyMetadataRequest) : res unit :=
  validate_key_request (mr_KeyId req) (mr_RequesterContext req).

Definition ValidateAuthenticateRequest (clientId apiKey : string) : res unit :=
  if String.eqb clientId "" then Err (ErrorsNew "client_id is required")
  else if String.eqb apiKey "" then Err (ErrorsNew "api_key is required")
  else Ok tt.

Definition ValidateRefreshTokenRequest (refreshToken : string) : res unit :=
  if String.eqb refreshToken "" then Err (ErrorsNew "refresh_token is required") else Ok tt.

Definition ValidateRevokeTokenRequest (accessToken clientId : string) : res unit :=
  if String.eqb accessToken "" then Err (ErrorsNew "access_token is required")
  else if String.eqb clientId "" then Err (ErrorsNew "client_id is required")
  else Ok tt.

(** ** query.go *)

Record ListKeysRequest := mkListReq {
  lr_RequesterContext : option RequesterContext;
  lr_PageSize : Z;
  lr_PageToken : string;
  lr_TagFilters : gmap string string;
  lr_CreatedAfter : option Z;
  lr_CreatedBefore : option Z
}.

Definition MaxQueryLimit : Z := 1000.
Definition DefaultQueryLimit : Z := 100.

Definition isValidPageToken (token : string) : bool :=
  (go_len token <? 256) && negb (ContainsAny token token_chars).

(** The body after the page size; [before.Sub(after)] saturates. *)
Definition validate_filters (req : ListKeysRequest) : res unit :=
  if negb (String.eqb (lr_PageToken req) "") && negb (isValidPageToken (lr_PageToken req))
  then Err (ErrorsNew "invalid page token format")
  else if existsb (λ p : string * string, ContainsAny p.1 sql_chars || ContainsAny p.2 sql_chars) (range (lr_TagFilters req))
  then Err (ErrorsNew "invalid characters in tag filter")
  else match lr_CreatedAfter req, lr_CreatedBefore req with
  | Some after, Some before =>
      if before <? after then Err (ErrorsNew "created_after must be before created_before")
      else if 365 * 24 * Hour <? Z.min (2^63 - 1) (before - after)
      then Err (ErrorsNew "time range too wide (max 1 year)")
      else Ok tt
  | _, _ => Ok tt
  end.

(** The request is updated in place: the second component is what the
    handler will see. *)
Definition ValidateListKeysRequest (req : ListKeysRequest) : res unit * ListKeysRequest :=
  let pageSize := lr_PageSize req in
  if pageSize <? 0 then (Err (ErrorsNew "page_size cannot be negative"), req)
  else if pageSize =? 0 then
    let req := mkListReq (lr_RequesterContext req) DefaultQueryLimit (lr_PageToken req) (lr_TagFilters req)
                 (lr_CreatedAfter req) (lr_CreatedBefore req) in
    (validate_filters req, req)
  else if MaxQueryLimit <? pageSize
  then (Err (ErrorsNew ("page_size " +:+ pretty pageSize +:+ " exceeds maximum of " +:+ pretty MaxQueryLimit)), req)
  else (validate_filters req, req).

End Validator.

(** ** What the validators accept *)

Definition tag_key_ok (k : string) : bool :=
  match k with
  | EmptyString => false
  | String a s => letter a && all_chars tagchar s && (go_len k <=? 128)
  end.

Definition context_ok (c : string) : bool :=
  match c with
  | EmptyString => false
  | String a s => ctxfirst a && all_chars ctxchar s && (go_len c <=? 256)
  end.

(** A string of a fixed length, each character of a given class. *)
Fixpoint template (ps : list (byte -> bool)) (s : string) : bool :=
  match ps, s with
  | [], EmptyString => true
  | p :: ps', String a s' => p a && template ps' s'
  | _, _ => false
  end.

(** [xxxxxxxx-xxxx-xxxx-xxxx-xxxxxxxxxxxx] in lower-case hexadecimal *)
Definition uuid_template : list (byte -> bool) :=
  let dash := Ascii.eqb (ascii_of 45) in
  replicate 8 hexchar ++ dash :: replicate 4 hexchar ++ dash :: replicate 4 hexchar
  ++ dash :: replicate 4 hexchar ++ dash :: replicate 12 hexchar.

Lemma template_app ps qs s :
  template (ps ++ qs) s = true <-> exists s1 s2, s = s1 +:+ s2 /\ template ps s1 = true /\ template qs s2 = true.
Proof.
  revert s. induction ps as [|p ps IH]; intros s; cbn [app].
  - split; [intros; by exists ""%string, s|]. intros ([|] & s2 & -> & ? & ?); done.
  - destruct s as [|a s]; cbn [template].
    + split; [done|]. intros ([|] & s2 & Hs & ? & ?); done.
    + rewrite andb_true_iff, IH. split.
      * intros (Hp & s1 & s2 & -> & ? & ?). exists (String a s1), s2. cbn. by rewrite Hp.
      * intros ([|b s1] & s2 & Hs & H1 & ?); [done|]. rewrite app_cons_str in Hs. simplify_eq.
        cbn in H1. apply andb_true_iff in H1 as [? ?]. eauto 10.
Qed.

Lemma template_class p n s : template (replicate n p) s = true <-> matches (exactly n (RClass p)) s.
Proof.
  rewrite matches_exactly. revert s. induction n as [|n IH]; intros [|a s]; cbn; [done|by split; [|intros []]..|].
  rewrite !andb_true_iff, IH. split; [intros (? & ? & ?)|intros ([= ?] & ? & ?)]; by subst.
Qed.

Lemma seq_template ps r1 qs r2 s :
  (forall s, template ps s = true <-> matches r1 s) -> (forall s, template qs s = true <-> matches r2 s) ->
  (template (ps ++ qs) s = true <-> matches (RSeq r1 r2) s).
Proof. intros H1 H2. rewrite template_app, matches_seq. setoid_rewrite H1. by setoid_rewrite H2. Qed.

Lemma template_dash s : template [Ascii.eqb (ascii_of 45)] s = true <-> matches (lit "-") s.
Proof.
  rewrite matches_lit. destruct s as [|a [|b s]]; cbn [template]; rewrite ?andb_true_r, ?andb_false_r; [done| |done].
  split; [by intros <-%Ascii.eqb_eq|by intros [= ->]].
Qed.

Lemma template_nil s : template [] s = true <-> matches REps s.
Proof. rewrite matches_eps. by destruct s. Qed.

Lemma matches_uuid s : matches uuidRegex s <-> template uuid_template s = true.
Proof.
  symmetry. unfold uuidRegex, seq_all.
  replace uuid_template with
    (replicate 8 hexchar ++ [Ascii.eqb (ascii_of 45)] ++ replicate 4 hexchar ++ [Ascii.eqb (ascii_of 45)]
     ++ replicate 4 hexchar ++ [Ascii.eqb (ascii_of 45)] ++ replicate 4 hexchar ++ [Ascii.eqb (ascii_of 45)]
     ++ replicate 12 hexchar ++ []) by reflexivity.
  repeat (apply seq_template; [intros; first [apply template_class|apply template_dash]|intros]).
  apply template_nil.
Qed.

Lemma matches_head_tail p q n s :
  matches (RSeq (RClass p) (up_to n (RClass q))) s
  <-> match s with EmptyString => False
      | String a s' => p a = true /\ all_chars q s' = true /\ (String.length s <= S n)%nat end.
Proof.
  rewrite matches_class_seq. setoid_rewrite matches_up_to. destruct s as [|a s]; [naive_solver|].
  cbn [String.length]. split.
  - intros (? & ? & ? & ? & ? & ?). simplify_eq. split_and!; [done..|lia].
  - intros (? & ? & ?). exists a, s. split_and!; [done..|lia|done].
Qed.

Lemma tagKeyRegex_ok s : MatchString tagKeyRegex s = tag_key_ok s.
Proof.
  apply eq_true_iff_eq. rewrite MatchString_spec. unfold tagKeyRegex. rewrite matches_head_tail.
  destruct s as [|a s]; [done|]. unfold tag_key_ok, go_len. rewrite !andb_true_iff, Z.leb_le.
  split; [intros (? & ? & ?)|intros [[? ?] ?]]; split_and!; try done; lia.
Qed.

Lemma contextRegex_ok s : MatchString contextRegex s = context_ok s.
Proof.
  apply eq_true_iff_eq. rewrite MatchString_spec. unfold contextRegex. rewrite matches_head_tail.
  destruct s as [|a s]; [done|]. unfold context_ok, go_len. rewrite !andb_true_iff, Z.leb_le.
  split; [intros (? & ? & ?)|intros [[? ?] ?]]; split_and!; try done; lia.
Qed.

Lemma uuidRegex_ok s : MatchString uuidRegex s = template uuid_template s.
Proof. apply eq_true_iff_eq. by rewrite MatchString_spec, matches_uuid. Qed.

Section Accepted.
Context `{MapRange} `{JsonPkg}.

Definition size_wf (data : res Z) : Prop := exists n, data = Ok n /\ n <= MaxMetadataSize.

Definition tag_wf (k v : string) : Prop :=
  tag_key_ok k = true /\ go_len v <= MaxTagValueLen /\ ContainsAny v markup_chars = false.
Definition tags_wf (tags : gmap string string) : Prop :=
  Z.of_nat (size tags) <= MaxTagCount /\ map_Forall tag_wf tags.

Definition contexts_wf (cs : list string) : Prop :=
  strlen cs <= MaxAuthorizedContexts /\ NoDup cs /\ Forall (λ c, context_ok c = true) cs.

Definition policy_wf (name policy : string) : Prop := tag_key_ok name = true /\ is_ok (json_Unmarshal policy) = true.
Definition policies_wf (ps : gmap string string) : Prop :=
  Z.of_nat (size ps) <= MaxAccessPolicies /\ map_Forall policy_wf ps.

Definition classification_wf (c : string) : Prop := c = ""%string \/ c ∈ allowedDataClassifications.

Record create_wf (req : CreateKeyRequest) : Prop := mkCreateWf {
  cw_size : size_wf (Marshal_CreateKeyRequest req);
  cw_type : cr_KeyType req <> KEY_TYPE_UNSPECIFIED;
  cw_description : go_len (cr_Description req) <= MaxDescriptionLen;
  cw_tags : tags_wf (cr_Tags req);
  cw_contexts : contexts_wf (cr_InitialAuthorizedContexts req);
  cw_policies : policies_wf (cr_AccessPolicies req);
  cw_class : classification_wf (cr_DataClassification req)
}.

Record update_wf (req : UpdateKeyMetadataRequest) : Prop := mkUpdateWf {
  uw_size : size_wf (Marshal_UpdateKeyMetadataRequest req);
  uw_key : u_KeyId (um_Update req) <> ""%string;
  uw_description : go_len (default "" (u_Description (um_Update req))) <= MaxDescriptionLen;
  uw_tags : tags_wf (u_TagsToAdd (um_Update req));
  uw_add : contexts_wf (um_ContextsToAdd req);
  uw_remove : contexts_wf (um_ContextsToRemove req);
  uw_policies : policies_wf (u_PoliciesToUpdate (um_Update req));
  uw_class : classification_wf (default "" (u_DataClassification (um_Update req)))
}.

(** ** Each check accepts exactly that *)

Lemma outcome_bind_ok {E A B} (f : A -> outcome E B) (r : outcome E A) b :
  r ≫= f = Ok b <-> exists a, r = Ok a /\ f a = Ok b.
Proof. destruct r; cbn; naive_solver. Qed.

Lemma unit_bind_ok {E B} (f : unit -> outcome E B) (r : outcome E unit) b :
  r ≫= f = Ok b <-> r = Ok tt /\ f tt = Ok b.
Proof. rewrite outcome_bind_ok. split; [intros ([] & ? & ?)|intros [? ?]]; eauto. Qed.

Lemma if_err_ok {A} (c : bool) (e : error) (r : res A) a : (if c then Err e else r) = Ok a <-> c = false /\ r = Ok a.
Proof. destruct c; naive_solver. Qed.

Lemma validateRequestSize_ok data : validateRequestSize data = Ok tt <-> size_wf data.
Proof.
  unfold validateRequestSize, size_wf. destruct data as [n|e|w]; [|naive_solver..].
  rewrite if_err_ok, Z.ltb_ge. naive_solver.
Qed.

Lemma range_Forall (P : string -> string -> Prop) (m : gmap string string) :
  Forall (λ p, P p.1 p.2) (range m) <-> map_Forall P m.
Proof. rewrite range_perm, map_Forall_to_list. apply Forall_iff. by intros []. Qed.

Lemma tag_key_len k : tag_key_ok k = true -> go_len k <= MaxTagKeyLen.
Proof. destruct k as [|a k]; [done|]. unfold tag_key_ok. rewrite !andb_true_iff, Z.leb_le. tauto. Qed.

Lemma validateTags_ok tags : validateTags tags = Ok tt <-> tags_wf tags.
Proof.
  unfold validateTags, tags_wf. rewrite if_err_ok, Z.ltb_ge, <-range_Forall.
  apply and_iff_compat_l. induction (range tags) as [|[k v] l IH]; cbn [validate_tag_list]; [by rewrite Forall_nil|].
  rewrite !if_err_ok, !Z.ltb_ge, negb_false_iff, tagKeyRegex_ok, IH, Forall_cons. unfold tag_wf. cbn [fst snd].
  pose proof (tag_key_len k). tauto.
Qed.

Lemma validateAuthorizedContexts_ok cs : validateAuthorizedContexts cs = Ok tt <-> contexts_wf cs.
Proof.
  unfold validateAuthorizedContexts, contexts_wf. rewrite if_err_ok, Z.ltb_ge. apply and_iff_compat_l.
  transitivity ((NoDup cs /\ forall c, c ∈ cs -> c ∉ (∅ : gset string)) /\ Forall (λ c, context_ok c = true) cs);
    [|set_solver].
  generalize (∅ : gset string). induction cs as [|c cs IH]; intros seen; cbn [validate_context_list].
  - rewrite Forall_nil, NoDup_nil. set_solver.
  - rewrite !if_err_ok, bool_decide_eq_false, negb_false_iff, contextRegex_ok, IH, Forall_cons, NoDup_cons.
    set_solver.
Qed.

Lemma validateAccessPolicies_ok ps : validateAccessPolicies ps = Ok tt <-> policies_wf ps.
Proof.
  unfold validateAccessPolicies, policies_wf. rewrite if_err_ok, Z.ltb_ge, <-range_Forall.
  apply and_iff_compat_l. induction (range ps) as [|[k v] l IH]; cbn [validate_policy_list]; [by rewrite Forall_nil|].
  rewrite if_err_ok, negb_false_iff, tagKeyRegex_ok, Forall_cons. unfold policy_wf at 1. cbn [fst snd].
  destruct (json_Unmarshal v); cbn [is_ok]; rewrite ?IH; naive_solver.
Qed.

Lemma validateDataClassification_ok c : validateDataClassification c = Ok tt <-> classification_wf c.
Proof.
  unfold validateDataClassification, classification_wf. destruct (String.eqb_spec c "") as [->|Hne]; [naive_solver|].
  rewrite !if_err_ok, negb_false_iff, contains_spec, Z.ltb_ge. split; [tauto|]. intros [?|Hin]; [done|].
  split_and!; try done. unfold allowedDataClassifications in Hin. rewrite !elem_of_cons, elem_of_nil in Hin.
  by destruct Hin as [->|[->|[->|[]]]].
Qed.

Lemma ValidateCreateKeyRequest_ok req : ValidateCreateKeyRequest req = Ok tt <-> create_wf req.
Proof.
  unfold ValidateCreateKeyRequest.
  rewrite unit_bind_ok, !if_err_ok, !unit_bind_ok, !map_err_ok, Z.eqb_neq, Z.ltb_ge, validateRequestSize_ok,
    validateTags_ok, validateAuthorizedContexts_ok, validateAccessPolicies_ok, validateDataClassification_ok.
  split; [intros (? & ? & ? & ? & ? & ? & ?); by constructor|by intros []].
Qed.

Lemma ValidateUpdateKeyMetadataRequest_ok req : ValidateUpdateKeyMetadataRequest req = Ok tt <-> update_wf req.
Proof.
  unfold ValidateUpdateKeyMetadataRequest.
  rewrite unit_bind_ok, !if_err_ok, !unit_bind_ok, !map_err_ok, String.eqb_neq, Z.ltb_ge, validateRequestSize_ok,
    validateTags_ok, !validateAuthorizedContexts_ok, validateAccessPolicies_ok, validateDataClassification_ok.
  split; [intros (? & ? & ? & ? & ? & ? & ? & ?); by constructor|by intros []].
Qed.

Lemma validate_key_request_ok keyId rc :
  validate_key_request keyId rc = Ok tt <-> template uuid_template keyId = true /\ is_Some rc.
Proof.
  unfold validate_key_request. rewrite !if_err_ok, negb_false_iff, uuidRegex_ok, String.eqb_neq.
  destruct rc; (split; [intros (? & ? & ?)|intros [Ht [? ?]]]); try done; split_and!; try done.
  intros ->. done.
Qed.

End Accepted.

(** ** The identifiers the pattern admits *)

(** [uuid.Parse] decodes the standard form. *)
Class UuidCanonical `{UuidPkg} := {
  uuid_Parse_canonical s : template uuid_template s = true -> exists u, uuid_Parse s = Ok u
}.

Lemma hexchar_value a : hexchar a = true -> exists d, hex_value a = Some d /\ 0 <= d < 16.
Proof.
  unfold hexchar, digit, rng, hex_value. generalize (Ascii.N_of_ascii a). intros n Hn.
  apply orb_true_iff in Hn as [Hn|Hn]; apply andb_true_iff in Hn as [H1%N.leb_le H2%N.leb_le].
  - rewrite (proj2 (Z.leb_le _ _)), (proj2 (Z.leb_le _ _)) by lia. eexists. split; [done|lia].
  - rewrite (proj2 (Z.leb_gt (Z.of_N n) 57)) by lia. rewrite andb_false_r.
    rewrite (proj2 (Z.leb_le _ _)), (proj2 (Z.leb_le _ _)) by lia. eexists. split; [done|lia].
Qed.

Lemma hex_read_total s acc :
  all_chars hexchar s = true -> 0 <= acc ->
  exists z, hex_read s acc = Some z /\ 0 <= z < (acc + 1) * 16 ^ Z.of_nat (String.length s).
Proof.
  revert acc. induction s as [|a s IH]; intros acc Hs Ha.
  - exists acc. cbn. split; [done|lia].
  - cbn in Hs. apply andb_true_iff in Hs as [Hc Hs]. destruct (hexchar_value a Hc) as (d & Hd & ? & ?).
    destruct (IH (16 * acc + d) Hs) as (z & Hz & ? & Hb); [lia|]. exists z. cbn [hex_read]. rewrite Hd. split; [done|].
    cbn [String.length]. rewrite Nat2Z.inj_succ, Z.pow_succ_r by lia. split; [done|].
    eapply Z.lt_le_trans; [exact Hb|].
    replace ((acc + 1) * (16 * 16 ^ Z.of_nat (String.length s))) with ((16 * acc + 16) * 16 ^ Z.of_nat (String.length s)) by lia.
    apply Z.mul_le_mono_nonneg_r; [apply Z.pow_nonneg; lia|lia].
Qed.

Lemma mk_uuid_total z : 0 <= z < 2^128 -> exists u, mk_uuid z = Ok u.
Proof.
  intros Hz. assert (bool_decide (0 <= z < 2^128) = true) as Hb by (by apply bool_decide_eq_true_2).
  exists (mkUuid z Hb). rewrite <-(mk_uuid_bits (mkUuid z Hb)). done.
Qed.

Lemma HexUuidCanonical : @UuidCanonical HexUuid.
Proof.
  split. intros s Ht. cbn [uuid_Parse HexUuid].
  do 36 (destruct s as [|? s]; [by rewrite ?andb_false_r in Ht; cbn in Ht; repeat (apply andb_true_iff in Ht as [_ Ht])|]).
  cbn -[hexchar Ascii.eqb] in Ht. repeat (apply andb_true_iff in Ht as [? Ht]). destruct s; [|done].
  repeat match goal with Hd : Ascii.eqb _ _ = true |- _ => apply Ascii.eqb_eq in Hd; subst end.
  unfold hex_Parse. cbn [go_len String.length]. unfold go_len. cbn -[hex_read mk_uuid dashed String.eqb].
  rewrite String.eqb_refl.
  match goal with |- context [hex_read ?h 0] => destruct (hex_read_total h 0) as (z & -> & Hz) end.
  - cbn -[hexchar]. repeat (apply andb_true_iff; split; [done|]). done.
  - done.
  - apply mk_uuid_total. exact Hz.
Qed.

(** ** Theorems *)

(** C34: the patterns say what they should.  [MatchString] decides the language
    of its pattern; the tag-key pattern is "a letter, then letters, digits,
    [_] and [-], at most 128 characters", the context pattern "a letter or
    digit, then letters, digits, [.], [_], [-], at most 256", and the
    identifier pattern exactly the canonical lower-case UUID form. *)
Theorem patterns_exact :
  (forall r s, MatchString r s = true <-> matches r s)
  /\ forall s, MatchString tagKeyRegex s = tag_key_ok s
     /\ MatchString contextRegex s = context_ok s
     /\ MatchString uuidRegex s = template uuid_template s.
Proof. split; [apply MatchString_spec|]. eauto using tagKeyRegex_ok, contextRegex_ok, uuidRegex_ok. Qed.

(** C17: what reaches the service is well formed.  Whatever order Go ranges
    over the maps in, the validators of create and update requests accept
    exactly the well-formed requests: bounded size and description, at most 50
    tags with good keys and harmless values, at most 100 pairwise distinct
    good contexts, at most 50 policies that are JSON, a known classification. *)
Theorem validated_requests_wf `{MapRange, JsonPkg} :
  (forall req, ValidateCreateKeyRequest req = Ok tt <-> create_wf req)
  /\ forall req, ValidateUpdateKeyMetadataRequest req = Ok tt <-> update_wf req.
Proof. split; [apply ValidateCreateKeyRequest_ok|apply ValidateUpdateKeyMetadataRequest_ok]. Qed.

(** an identifier that passes validation parses.  A request about one key
    is accepted exactly when it names a canonical identifier and carries a
    requester context, and the handler's [KeyIDFromString] then succeeds. *)
Theorem validated_key_parses `{UuidCanonical} keyId rc :
  (validate_key_request keyId rc = Ok tt <-> template uuid_template keyId = true /\ is_Some rc)
  /\ (validate_key_request keyId rc = Ok tt -> exists id, KeyIDFromString keyId = Ok id).
Proof.
  split; [apply validate_key_request_ok|]. intros [Ht _]%validate_key_request_ok.
  apply uuid_Parse_canonical in Ht as [u Hu]. exists (mkKeyID u). unfold KeyIDFromString. by rewrite Hu.
Qed.

(** C39: the page a list request asks for is bounded.  After a successful
    validation the handler sees a page size between 1 and 1000 (100 for 0),
    otherwise the request as sent; its token is short and its time range, if
    closed, is ordered and at most a year. *)
Theorem list_request_bounded `{MapRange} req req' :
  ValidateListKeysRequest req = (Ok tt, req') ->
  1 <= lr_PageSize req' <= MaxQueryLimit
  /\ lr_PageSize req' = (if lr_PageSize req =? 0 then DefaultQueryLimit else lr_PageSize req)
  /\ lr_PageToken req' = lr_PageToken req /\ lr_RequesterContext req' = lr_RequesterContext req
  /\ go_len (lr_PageToken req) < 256
  /\ forall a b, lr_CreatedAfter req = Some a -> lr_CreatedBefore req = Some b -> a <= b <= a + 365 * 24 * Hour.
Proof.
  unfold ValidateListKeysRequest.
  assert (forall q, lr_PageToken q = lr_PageToken req -> lr_CreatedAfter q = lr_CreatedAfter req ->
            lr_CreatedBefore q = lr_CreatedBefore req -> validate_filters q = Ok tt ->
            go_len (lr_PageToken req) < 256
            /\ forall a b, lr_CreatedAfter req = Some a -> lr_CreatedBefore req = Some b -> a <= b <= a + 365 * 24 * Hour) as Hf.
  { intros q Ht Ha Hb. unfold validate_filters. rewrite !if_err_ok, Ht, Ha, Hb. intros (Htok & _ & Hr). split.
    - destruct (String.eqb_spec (lr_PageToken req) "") as [->|_]; [reflexivity|]. cbn [negb andb] in Htok.
      apply negb_false_iff, andb_true_iff in Htok as [?%Z.ltb_lt _]. done.
    - intros a b Ea Eb. rewrite Ea, Eb in Hr. rewrite !if_err_ok, !Z.ltb_ge in Hr. revert Hr.
      unfold Hour, Minute, Second, Millisecond. lia. }
  destruct (Z.ltb_spec (lr_PageSize req) 0); [done|].
  destruct (Z.eqb_spec (lr_PageSize req) 0); [|destruct (Z.ltb_spec MaxQueryLimit (lr_PageSize req)); [done|]];
    intros [= Hv <-]; (apply Hf in Hv as [? ?]; [|done..]); cbn [lr_PageSize lr_PageToken lr_RequesterContext];
    split_and!; try done; unfold MaxQueryLimit in *; lia.
Qed.

(** ** Concrete requests *)

#[local] Instance ListRange : MapRange.
Proof. refine {| range := map_to_list |}. done. Defined.

#[local] Existing Instance HexUuid.
#[local] Existing Instance HexUuidCanonical.

Lemma validated_key_parses_witness :
  exists id, KeyIDFromString "0123abcd-0000-4000-8000-00000000beef" = Ok id.
Proof.
  apply (proj2 (validated_key_parses "0123abcd-0000-4000-8000-00000000beef" (Some (mkRequester "alice" CLIENT_TIER_FREE)))).
  vm_compute. reflexivity.
Defined.

Lemma list_request_bounded_witness :
  let req := mkListReq None 0 "" ∅ (Some 0) (Some Hour) in
  1 <= lr_PageSize (ValidateListKeysRequest req).2 <= MaxQueryLimit.
Proof.
  intros req. assert (ValidateListKeysRequest req = (Ok tt, (ValidateListKeysRequest req).2)) as E by (vm_compute; reflexivity).
  exact (proj1 (list_request_bounded req (ValidateListKeysRequest req).2 E)).
Defined.

(** Validation and the domain disagree on descriptions: one of 256 to 1024
    bytes passes validation and is then refused by [domain.NewDescription]. *)
Definition ToyJson : JsonPkg := {|
  Marshal_CreateKeyRequest := λ req, Ok (go_len (cr_Description req) + 100);
  Marshal_UpdateKeyMetadataRequest := λ _, Ok 100;
  json_Unmarshal := λ s, if String.eqb s "" then Err (ErrorsNew "unexpected end of JSON input") else Ok tt
|}.
#[local] Existing Instance ToyJson.

Theorem description_limits_differ :
  let d := String.concat "" (replicate 300 "x"%string) in
  ValidateCreateKeyRequest (mkCreateReq None KEY_TYPE_AES_256 d ∅ None [] ∅ "") = Ok tt
  /\ is_ok (NewDescription d) = false.
Proof. vm_compute. done. Qed.
