(* ===== verification/RateLimit.v ===== *)
(** * The rate limiter

    Models [internal/infra/ratelimit/ratelimiter.go]: one
    [golang.org/x/time/rate] limiter per client identifier, created on first
    use.  The limiter itself is a parameter. *)

From S2P Require Import Prelude.
From Stdlib Require Import Floats.SpecFloat.

(** [rate.Limit] is a [float64]. *)
Abbreviation Limit := spec_float.

Class RatePkg := {
  Limiter : Type;
  NewLimiter : Limit -> Z -> Limiter;
  Limiter_Allow : Z -> Limiter -> bool * Limiter      (* at the given instant *)
}.

Record inMemoryRateLimiter `{RatePkg} := mkRateLimiter {
  rate : Limit;
  burst : Z;
  rl_clients : gmap string Limiter
}.
Arguments mkRateLimiter {_}.
Arguments rate {_}.
Arguments burst {_}.
Arguments rl_clients {_}.

Section RateLimiter.
Context `{RatePkg}.

Definition NewInMemoryRateLimiter (r : Limit) (b : Z) : inMemoryRateLimiter := mkRateLimiter r b ∅.

(** [Allow] holds the mutex throughout. *)
Definition Allow (now : Z) (identifier : string) (l : inMemoryRateLimiter) : bool * inMemoryRateLimiter :=
  let limiter := match rl_clients l !! identifier with
                 | Some limiter => limiter
                 | None => NewLimiter (rate l) (burst l)
                 end in
  let '(ok, limiter') := Limiter_Allow now limiter in
  (ok, mkRateLimiter (rate l) (burst l) (<[identifier := limiter']> (rl_clients l))).

(** ** Runs *)

Fixpoint allow_run (calls : list (Z * string)) (l : inMemoryRateLimiter) : list (string * bool) :=
  match calls with
  | [] => []
  | (now, id) :: calls' => let '(ok, l') := Allow now id l in (id, ok) :: allow_run calls' l'
  end.

(** The decisions of a limiter that serves one client only. *)
Fixpoint lone_run (nows : list Z) (l : Limiter) : list bool :=
  match nows with
  | [] => []
  | now :: nows' => let '(ok, l') := Limiter_Allow now l in ok :: lone_run nows' l'
  end.

Definition limiter_of (id : string) (l : inMemoryRateLimiter) : Limiter :=
  default (NewLimiter (rate l) (burst l)) (rl_clients l !! id).

Lemma Allow_limiter_of now id id' l :
  limiter_of id' (Allow now id l).2
  = (if decide (id' = id) then (Limiter_Allow now (limiter_of id l)).2 else limiter_of id' l)
  /\ (Allow now id l).1 = (Limiter_Allow now (limiter_of id l)).1.
Proof.
  unfold Allow, limiter_of.
  replace (match rl_clients l !! id with Some limiter => limiter | None => NewLimiter (rate l) (burst l) end)
    with (default (NewLimiter (rate l) (burst l)) (rl_clients l !! id)) by (by destruct (rl_clients l !! id)).
  destruct (Limiter_Allow _ _) as [ok lim]. cbn. split; [|done].
  case_decide as Hd; [subst; by rewrite lookup_insert_eq|by rewrite lookup_insert_ne].
Qed.

Lemma allow_run_project id calls l :
  (filter (λ p, p.1 = id) (allow_run calls l)).*2
  = lone_run (filter (λ p, p.2 = id) calls).*1 (limiter_of id l).
Proof.
  revert l. induction calls as [|[now id'] calls IH]; intros l; [done|]. cbn [allow_run].
  destruct (Allow_limiter_of now id' id l) as [Hl Hok]. destruct (Allow now id' l) as [ok l'] eqn:E. cbn [fst snd] in *.
  rewrite !filter_cons. cbn [fst snd]. destruct (decide (id' = id)) as [->|Hne].
  - rewrite decide_True in Hl by done. cbn [fmap list_fmap fst snd lone_run]. rewrite IH, Hl, Hok.
    by destruct (Limiter_Allow now (limiter_of id l)).
  - rewrite decide_False in Hl by done. by rewrite IH, Hl.
Qed.

End RateLimiter.

(** C26: clients do not starve each other.  In any sequence of calls, whoever
    makes them and in whatever order, the decisions one client gets are exactly
    those a limiter of its own would give for its own calls. *)
Theorem rate_limit_isolated `{RatePkg} r b id calls :
  (filter (λ p, p.1 = id) (allow_run calls (NewInMemoryRateLimiter r b))).*2
  = lone_run (filter (λ p, p.2 = id) calls).*1 (NewLimiter r b).
Proof. apply (allow_run_project id calls (NewInMemoryRateLimiter r b)). Qed.

(** ** An executable limiter: a token bucket of whole tokens per second *)

Definition floor_float (f : spec_float) : Z :=
  match f with
  | S754_finite false m e => if e <? 0 then Z.shiftr (Z.pos m) (- e) else Z.shiftl (Z.pos m) e
  | _ => 0
  end.

Definition ToyRate : RatePkg := {|
  Limiter := Z * Z * Z * Z;          (* rate, burst, last, tokens in 1/Second *)
  NewLimiter := λ r b, (floor_float r, b, 0, b * Second);
  Limiter_Allow := λ now '(r, b, last, tok),
    let tok := Z.min (b * Second) (tok + (now - last) * r) in
    if Second <=? tok then (true, (r, b, now, tok - Second)) else (false, (r, b, now, tok))
|}.

Example greedy_client :
  @allow_run ToyRate [(0, "a"); (1, "a"); (2, "a"); (3, "b"); (Second, "a")]%string (@NewInMemoryRateLimiter ToyRate (S754_finite false 1 0) 2)
  = [("a", true); ("a", true); ("a", false); ("b", true); ("a", true)]%string.
Proof. vm_compute. reflexivity. Qed.
