(* ===== verification/Auth.v ===== *)
(** * Authentication: tokens and clients

    Models [internal/infra/auth/token.go], [token_store.go],
    [token_manager.go], [file_client_store.go], [internal/domain/client.go]
    and [internal/service/auth_service.go].  The JWT library, bcrypt, the YAML
    parser and the file system are parameters; the revocation list is the
    generic cache behind the interface [TokenStore]. *)

From S2P Require Import Prelude Errors Domain Cache Repo.
From Stdlib Require Import Floats.SpecFloat.

(** ** Claims and the JWT library

    Of [jwt.RegisteredClaims] the code sets or reads [ID], [ExpiresAt] and
    [IssuedAt]; the library also honours [NotBefore]. *)

Record Claims := mkClaims {
  cl_UserID : string;
  cl_Roles : list string;
  cl_ID : string;
  cl_ExpiresAt : option Z;
  cl_IssuedAt : option Z;
  cl_NotBefore : option Z
}.

(** [token.Method]: whether it is a [*jwt.SigningMethodRSA], and its name. *)
Record SigningMethod := mkMethod { method_rsa : bool; method_alg : string }.
Definition SigningMethodRS256 : SigningMethod := mkMethod true "RS256".

Class JwtPkg := {
  PrivateKey : Type;
  PublicKey : Type;
  public_of : PrivateKey -> PublicKey;
  ParseRSAPrivateKeyFromPEM : string -> res PrivateKey;
  NewNumericDate : Z -> Z;
  SignedString : SigningMethod -> Claims -> PrivateKey -> res string;
  ParseUnverified : string -> res Claims;
  ParseWithClaims : Z -> string -> (SigningMethod -> res PublicKey) -> res (Claims * bool);
  jwt_Method : string -> option SigningMethod;            (* the header's alg *)
  jwt_Verify : SigningMethod -> PublicKey -> string -> bool;  (* the signature check *)
  ErrSignatureInvalid : error
}.

(** Text that JSON carries unchanged. *)
Definition ascii_text (s : string) : bool :=
  forallb (λ a, (Ascii.N_of_ascii a <? 128)%N) (String.list_ascii_of_string s).

Definition clean_claims (c : Claims) : bool :=
  ascii_text (cl_UserID c) && forallb ascii_text (cl_Roles c) && ascii_text (cl_ID c).

(** The library's time checks with its default options. *)
Definition time_valid (now : Z) (c : Claims) : Prop :=
  (forall e, cl_ExpiresAt c = Some e -> now < e) /\ (forall n, cl_NotBefore c = Some n -> n <= now).

(** Documented behaviour: dates keep whole seconds; [ParseWithClaims] accepts
    a token exactly when the key its key function answers for the token's
    method verifies the signature and the time claims hold, and then yields
    the claims the token carries; a signed token carries the claims signed. *)
Class JwtPkgOk `{JwtPkg} := {
  numeric_date : forall t, NewNumericDate t <= t < NewNumericDate t + Second;
  parse_accepts : forall now s kf c v,
    ParseWithClaims now s kf = Ok (c, v) <->
    v = true /\ ParseUnverified s = Ok c /\ time_valid now c
    /\ exists m k, jwt_Method s = Some m /\ kf m = Ok k /\ jwt_Verify m k s = true;
  parse_no_panic : forall now s kf w, ParseWithClaims now s kf <> Panic w;
  sign_carries : forall u r i e t m p s,
    let c := mkClaims u r i (Some (NewNumericDate e)) (Some (NewNumericDate t)) None in
    clean_claims c = true -> SignedString m c p = Ok s ->
    ParseUnverified s = Ok c /\ jwt_Method s = Some m /\ jwt_Verify m (public_of p) s = true
}.

(** ** token_store.go *)

Class TokenStore (T : Type) := {
  ts_Revoke : Z -> string -> Z -> T -> T;
  ts_IsRevoked : Z -> string -> T -> bool;
  ts_cleanup : Z -> T -> T                      (* the background goroutine *)
}.

(** What the token manager relies on. *)
Class TokenStoreOk (T : Type) `{TokenStore T} := {
  ts_revoked : forall t now id ttl s,
    0 < ttl -> now <= t + ttl -> ts_IsRevoked now id (ts_Revoke t id ttl s) = true;
  ts_other : forall t now id id' ttl s,
    id <> id' -> ts_IsRevoked now id (ts_Revoke t id' ttl s) = ts_IsRevoked now id s;
  ts_cleaned : forall t now id s,
    t <= now -> ts_IsRevoked now id (ts_cleanup t s) = ts_IsRevoked now id s
}.

Abbreviation inMemoryTokenStore := (Cache string unit).

Definition NewInMemoryTokenStore : inMemoryTokenStore :=
  Cache.New [WithCleanupInterval (10 * Minute)].

Definition store_Revoke (now : Z) (tokenID : string) (ttl : Z) (s : inMemoryTokenStore)
  : inMemoryTokenStore := Cache.Set_ now tokenID tt ttl s.

Definition store_IsRevoked (now : Z) (tokenID : string) (s : inMemoryTokenStore) : bool :=
  match Cache.Get now tokenID s with Some _ => true | None => false end.

#[export] Instance inMemory_TokenStore : TokenStore inMemoryTokenStore := {|
  ts_Revoke := store_Revoke;
  ts_IsRevoked := store_IsRevoked;
  ts_cleanup now s := (Cache.deleteExpired (None : option (string -> unit -> unit -> unit)) now (s, tt)).1
|}.

#[export] Instance inMemory_TokenStoreOk : TokenStoreOk inMemoryTokenStore.
Proof.
  split; cbn [ts_Revoke ts_IsRevoked ts_cleanup inMemory_TokenStore];
    unfold store_Revoke, store_IsRevoked.
  - intros t now id ttl s Hp Hn. rewrite Get_Set, decide_True by done. cbn [history_get].
    rewrite (proj2 (Z.eqb_neq ttl (-1))), (proj2 (Z.eqb_neq ttl 0)) by lia.
    by rewrite (proj2 (Z.ltb_ge _ _)) by lia.
  - intros t now id id' ttl s Hne. by rewrite Get_Set, decide_False.
  - intros t now id s Ht. by rewrite Get_deleteExpired.
Qed.

(** ** token_manager.go *)

Record TokenManager (P T : Type) := mkTM {
  privateKey : P;
  tokenStore : T;
  tm_audit : list AuditEntry;            (* what auditLogger was told *)
  tm_newIds : list uuid                  (* uuid.New() *)
}.
Arguments mkTM {P T}.
Arguments privateKey {P T}.
Arguments tokenStore {P T}.
Arguments tm_audit {P T}.
Arguments tm_newIds {P T}.

Section Tokens.
Context `{UuidPkg} `{JwtPkg} {T : Type} `{TokenStore T}.
Abbreviation TM := (TokenManager PrivateKey T).
Abbreviation W := (St TM).

Definition NewTokenManager (privateKeyPEM : string) (tokenStore : T) (ids : list uuid) : res TM :=
  match ParseRSAPrivateKeyFromPEM privateKeyPEM with
  | Err err => Err (Wrap "failed to parse RSA private key" err)
  | Panic w => Panic w
  | Ok privateKey => Ok (mkTM privateKey tokenStore [] ids)
  end.

(** [uuid.New()]: the next of the identifiers the generator will give. *)
Definition tm_uuid_New : M W uuid := λ w,
  let m := repo w in
  (Ok (default uuid_Nil (head (tm_newIds m))),
   set_repo (mkTM (privateKey m) (tokenStore m) (tm_audit m) (tail (tm_newIds m))) w).

Definition GenerateToken (userID : string) (roles : list string) (expiration : Z) : M W string :=
  now ← time_now;
  let expirationTime := now + expiration in
  id ← tm_uuid_New;
  let claims := mkClaims userID roles (uuid_String id)
    (Some (NewNumericDate expirationTime)) (Some (NewNumericDate now)) None in
  m ← gets repo;
  lift_res (SignedString SigningMethodRS256 claims (privateKey m)).

(** The key function [ValidateToken] gives to the parser. *)
Definition rsa_keyfunc (m : TM) (method : SigningMethod) : res PublicKey :=
  if negb (method_rsa method)
  then Err (ErrorsNew ("unexpected signing method: " +:+ method_alg method))
  else Ok (public_of (privateKey m)).

Definition ValidateToken (tokenString : string) : M W Claims :=
  now ← time_now;
  m ← gets repo;
  '(claims, valid) ← lift_res (ParseWithClaims now tokenString (rsa_keyfunc m));
  if negb (valid : bool) then fail ErrSignatureInvalid
  else if ts_IsRevoked now (cl_ID claims) (tokenStore m)
  then fail (ErrorsNew "token has been revoked")
  else mret claims.

Definition tm_set_store (s : T) (m : TM) : TM := mkTM (privateKey m) s (tm_audit m) (tm_newIds m).
Definition tm_AuditLog (client op key : string) (success : bool) (err : option error) : M W unit :=
  modify (λ w, let m := repo w in
    set_repo (mkTM (privateKey m) (tokenStore m) (tm_audit m ++ [mkAudit client op key success err]) (tm_newIds m)) w).

Definition Revoke (tokenString : string) : M W unit :=
  claims ← on_err (Wrap "failed to parse token for revocation") (lift_res (ParseUnverified tokenString));
  match cl_ExpiresAt claims with
  | None => fail (ErrorsNew "cannot revoke token with no expiration")
  | Some exp =>
      now ← time_now;
      let ttl := exp - now in
      if ttl <=? 0 then mret tt
      else
        _ ← modify (λ w, set_repo (tm_set_store (ts_Revoke (clock w) (cl_ID claims) ttl (tokenStore (repo w))) (repo w)) w);
        tm_AuditLog (cl_UserID claims) "RevokeToken" (cl_ID claims) true None
  end.

(** ** A run of the manager: calls, cleanups and the passing of time *)

Inductive token_event : Type :=
| TokIssue (userID : string) (roles : list string) (expiration : Z)
| TokValidate (token : string)
| TokRevoke (token : string)
| TokCleanup
| TokWait (d : nat).

Definition tok_step (w : W) (e : token_event) : W :=
  match e with
  | TokIssue u r d => (GenerateToken u r d w).2
  | TokValidate s => (ValidateToken s w).2
  | TokRevoke s => (Revoke s w).2
  | TokCleanup => set_repo (tm_set_store (ts_cleanup (clock w) (tokenStore (repo w))) (repo w)) w
  | TokWait d => mkSt (clock w + Z.of_nat d) (heap w) (next w) (repo w)
  end.

Definition tok_run (es : list token_event) (w : W) : W := foldl tok_step w es.

(** The entry of [id] in the revocation list holds until [exp]. *)
Definition revoked_until (id : string) (exp : Z) (w : W) : Prop :=
  forall now, clock w <= now <= exp -> ts_IsRevoked now id (tokenStore (repo w)) = true.

(** No revocation of another token with the same identifier and an earlier
    expiry, which would shorten the entry. *)
Definition keeps_entry (id : string) (exp : Z) (e : token_event) : Prop :=
  match e with
  | TokRevoke s' => forall c' e', ParseUnverified s' = Ok c' -> cl_ID c' = id ->
      cl_ExpiresAt c' = Some e' -> exp <= e'
  | _ => True
  end.

(** ** Lemmas *)

Lemma GenerateToken_store u r d w : tokenStore (repo (GenerateToken u r d w).2) = tokenStore (repo w)
  /\ clock (GenerateToken u r d w).2 = clock w /\ privateKey (repo (GenerateToken u r d w).2) = privateKey (repo w).
Proof. done. Qed.

(** What [GenerateToken] signs. *)
Lemma GenerateToken_signed u r d w s w1 :
  GenerateToken u r d w = (Ok s, w1) ->
  SignedString SigningMethodRS256
    (mkClaims u r (uuid_String (default uuid_Nil (head (tm_newIds (repo w))))) (Some (NewNumericDate (clock w + d)))
       (Some (NewNumericDate (clock w))) None) (privateKey (repo w)) = Ok s.
Proof. intros E. unfold GenerateToken, time_now in E. go_unfold. by injection E. Qed.

Lemma ValidateToken_state s w : (ValidateToken s w).2 = w.
Proof.
  unfold ValidateToken. go_unfold. destruct (ParseWithClaims _ _ _) as [[c v]|e|p]; [|done..].
  by destruct v, (ts_IsRevoked _ _ _).
Qed.

(** [Revoke] adds the entry of the token's identifier, or changes nothing. *)
Lemma Revoke_cases s w : forall r w', Revoke s w = (r, w') ->
  clock w' = clock w /\ privateKey (repo w') = privateKey (repo w) /\
  (tokenStore (repo w') = tokenStore (repo w)
     /\ (r = Ok tt -> exists c e, ParseUnverified s = Ok c /\ cl_ExpiresAt c = Some e /\ e <= clock w)
   \/ exists c e, ParseUnverified s = Ok c /\ cl_ExpiresAt c = Some e /\ clock w < e /\ r = Ok tt
        /\ tokenStore (repo w') = ts_Revoke (clock w) (cl_ID c) (e - clock w) (tokenStore (repo w))
        /\ tm_audit (repo w') = tm_audit (repo w) ++ [mkAudit (cl_UserID c) "RevokeToken" (cl_ID c) true None]).
Proof.
  intros r w'. unfold Revoke, tm_AuditLog, time_now. go_unfold. destruct (ParseUnverified s) as [c|e|p]; [|intros ?; simplify_eq/=; (split; [done|split; [done|left; done]])..].
  simpl. destruct (cl_ExpiresAt c) as [e|] eqn:Ec; [|intros ?; simplify_eq/=; (split; [done|split; [done|left; done]])].
  simpl. destruct (e - clock w <=? 0) eqn:Et; intros ?; simplify_eq/=; bool_to_prop; (split; [done|split; [done|]]).
  - left. split; [done|]. intros _. exists c, e. split_and!; [done..|lia].
  - right. exists c, e. split_and!; [done|done|lia|done|done|done].
Qed.

Context `{!JwtPkgOk} `{!TokenStoreOk T}.

Lemma tok_step_entry id exp e w :
  keeps_entry id exp e -> revoked_until id exp w ->
  clock w <= clock (tok_step w e) /\ revoked_until id exp (tok_step w e).
Proof.
  unfold revoked_until. intros Hk Hr. destruct e as [u r d|s|s| |d]; cbn [tok_step].
  - by destruct (GenerateToken_store u r d w) as (-> & -> & _).
  - by rewrite ValidateToken_state.
  - destruct (Revoke s w) as [r w'] eqn:E. cbn [snd].
    apply Revoke_cases in E as (-> & _ & [[-> _]|(c & e & Hp & He & Hlt & _ & -> & _)]); [done|].
    split; [done|]. intros now Hn. destruct (decide (id = cl_ID c)) as [->|Hne].
    + specialize (Hk c e Hp eq_refl He). apply ts_revoked; lia.
    + rewrite ts_other by done. auto.
  - cbn [set_repo clock repo tokenStore tm_set_store]. split; [done|]. intros now Hn.
    rewrite ts_cleaned by lia. auto.
  - cbn [clock repo]. split; [lia|]. intros now Hn. apply Hr. lia.
Qed.

Lemma tok_run_entry id exp es w :
  Forall (keeps_entry id exp) es -> revoked_until id exp w ->
  clock w <= clock (tok_run es w) /\ revoked_until id exp (tok_run es w).
Proof.
  intros Hes. revert w. induction Hes as [|e es He Hes IH]; intros w Hr; [done|].
  destruct (tok_step_entry id exp e w He Hr) as [Hc Hr'].
  destruct (IH _ Hr') as [Hc' ?]. split; [|done]. cbn [tok_run foldl] in *. unfold tok_run in Hc'. lia.
Qed.

(** What [ValidateToken] accepts. *)
Lemma ValidateToken_ok s w c :
  (ValidateToken s w).1 = Ok c <->
  ParseUnverified s = Ok c /\ time_valid (clock w) c
  /\ (exists m, jwt_Method s = Some m /\ method_rsa m = true /\ jwt_Verify m (public_of (privateKey (repo w))) s = true)
  /\ ts_IsRevoked (clock w) (cl_ID c) (tokenStore (repo w)) = false.
Proof.
  unfold ValidateToken, time_now. go_unfold.
  destruct (ParseWithClaims (clock w) s (rsa_keyfunc (repo w))) as [[c' v]|e|p] eqn:Hp.
  - apply parse_accepts in Hp as (-> & Hu & Ht & m & k & Hm & Hk & Hv). unfold rsa_keyfunc in Hk.
    destruct (method_rsa m) eqn:Hrsa; cbn [negb] in Hk; [|done]. simplify_eq. cbn [negb].
    destruct (ts_IsRevoked _ _ _) eqn:Hr; split; cbn [fst].
    + done.
    + intros (? & ? & ? & ?). congruence.
    + intros [= <-]. split_and!; eauto.
    + intros (? & ? & ? & ?). congruence.
  - split; [done|]. intros (Hu & Ht & (m & Hm & Hrsa & Hv) & Hr). exfalso.
    assert (ParseWithClaims (clock w) s (rsa_keyfunc (repo w)) = Ok (c, true)) as Hq; [|congruence].
    apply parse_accepts. split_and!; [done..|]. exists m, (public_of (privateKey (repo w))).
    unfold rsa_keyfunc. by rewrite Hrsa.
  - by apply parse_no_panic in Hp.
Qed.

Lemma ValidateToken_no_panic s w p : (ValidateToken s w).1 <> Panic p.
Proof.
  unfold ValidateToken. go_unfold. destruct (ParseWithClaims _ _ _) as [[c v]|e|q] eqn:E.
  - by destruct v, (ts_IsRevoked _ _ _).
  - done.
  - by apply parse_no_panic in E.
Qed.

Lemma tok_step_clock e w : clock w <= clock (tok_step w e).
Proof.
  destruct e as [u r d|s|s| |d]; cbn [tok_step].
  - by destruct (GenerateToken_store u r d w) as (_ & -> & _).
  - by rewrite ValidateToken_state.
  - destruct (Revoke s w) as [r w'] eqn:E. cbn [snd]. by apply Revoke_cases in E as (-> & _).
  - done.
  - cbn [clock]. lia.
Qed.

Lemma tok_run_clock es w : clock w <= clock (tok_run es w).
Proof.
  revert w. induction es as [|e es IH]; intros w; [done|].
  cbn [tok_run foldl]. etrans; [apply (tok_step_clock e)|apply IH].
Qed.

(** After a successful revocation the token is on the list until it expires,
    or has expired already. *)
Lemma Revoke_entry s w w' :
  Revoke s w = (Ok tt, w') -> exists c e, ParseUnverified s = Ok c /\ cl_ExpiresAt c = Some e
    /\ (e <= clock w' \/ revoked_until (cl_ID c) e w').
Proof.
  intros E. unfold revoked_until. apply Revoke_cases in E as (Hck & _ & [[_ Hx]|(c & e & ? & ? & Hlt & _ & -> & _)]).
  - destruct (Hx eq_refl) as (c & e & ? & ? & ?). exists c, e. split_and!; [done..|]. left. lia.
  - exists c, e. split_and!; [done..|]. right. rewrite Hck. intros now Hn. apply ts_revoked; lia.
Qed.

End Tokens.

(** ** domain/client.go and file_client_store.go *)

Record Client := mkClient {
  cli_ID : string;
  cli_HashedAPIKey : string;
  cli_Permissions : list string
}.

Class ClientStore (C : Type) := { FindClientByID : C -> string -> res Client }.

Record clientData := mkClientData {
  cd_HashedAPIKey : string;
  cd_Permissions : list string;
  cd_Description : string
}.

(** [os.ReadFile] and [yaml.Unmarshal] into [clientConfig] (its one field,
    [Clients]). *)
Class FileEnv := {
  ReadFile : string -> res string;
  yaml_Unmarshal : string -> res (gmap string clientData)
}.

Definition bcrypt_prefixes : list string := ["$2a$"; "$2b$"; "$2y$"]%string.

Definition validateClientData (id : string) (data : clientData) : res unit :=
  if String.eqb id "" then Err (ErrorsNew "client ID cannot be empty")
  else if String.eqb (cd_HashedAPIKey data) "" then Err (ErrorsNew "hashed_api_key cannot be empty")
  else if (length (cd_Permissions data) =? 0)%nat then Err (ErrorsNew "permissions cannot be empty")
  else if (go_len (cd_HashedAPIKey data) <? 60)
          || negb (contains bcrypt_prefixes (String.substring 0 4 (cd_HashedAPIKey data)))
  then Err (ErrorsNew "hashed_api_key must be a valid bcrypt hash")
  else Ok tt.

Record FileClientStore := mkFileClientStore { clients : gmap string Client }.

(** The loop over [config.Clients], in the order [order] the runtime picks. *)
Fixpoint load_clients (order : list string) (config : gmap string clientData) (acc : gmap string Client)
  : res (gmap string Client) :=
  match order with
  | [] => Ok acc
  | id :: order' =>
      match config !! id with
      | None => load_clients order' config acc
      | Some data =>
          match validateClientData id data with
          | Err err => Err (Wrap ("invalid client " +:+ id) err)
          | Panic w => Panic w
          | Ok _ => load_clients order' config
                      (<[id := mkClient id (cd_HashedAPIKey data) (cd_Permissions data)]> acc)
          end
      end
  end.

Definition NewFileClientStore `{FileEnv} (order : list string) (filePath : string) : res FileClientStore :=
  data ← map_err (Wrap ("failed to read client config file " +:+ filePath)) (ReadFile filePath);
  config ← map_err (Wrap "failed to unmarshal client config") (yaml_Unmarshal data);
  if (size config =? 0)%nat then Err (WrapSuf (Sentinel ErrInvalidConfig) "no clients defined")
  else
    clients ← load_clients order config ∅;
    Ok (mkFileClientStore clients).

#[export] Instance FileClientStore_Store : ClientStore FileClientStore := {|
  FindClientByID s clientID :=
    match clients s !! clientID with
    | None => Err (WrapSuf (Sentinel ErrClientNotFound) ("client ID '" +:+ clientID +:+ "'"))
    | Some client => Ok (mkClient (cli_ID client) (cli_HashedAPIKey client) (cli_Permissions client))
    end
|}.

Definition GetClientCount (s : FileClientStore) : nat := size (clients s).

(** A client the store may hold. *)
Definition client_wf (id : string) (c : Client) : Prop :=
  cli_ID c = id /\ id <> ""%string /\ cli_Permissions c <> [] /\ 60 <= go_len (cli_HashedAPIKey c)
  /\ String.substring 0 4 (cli_HashedAPIKey c) ∈ bcrypt_prefixes.

Definition client_of (id : string) (d : clientData) : Client :=
  mkClient id (cd_HashedAPIKey d) (cd_Permissions d).

Definition add_client (config : gmap string clientData) (acc : gmap string Client) (id : string) : gmap string Client :=
  match config !! id with Some d => <[id := client_of id d]> acc | None => acc end.

Lemma validateClientData_ok id d : validateClientData id d = Ok tt <-> client_wf id (client_of id d).
Proof.
  unfold validateClientData, client_wf. cbn [client_of cli_ID cli_Permissions cli_HashedAPIKey].
  split.
  - intros Hv. repeat case_match; try done. bool_to_prop.
    split_and!; [done|done| |lia|by apply contains_spec].
    intros Hn. by rewrite Hn in *.
  - intros (_ & Hid & Hp & Hlen & Hpre).
    rewrite (proj2 (String.eqb_neq _ _) Hid).
    destruct (String.eqb_spec (cd_HashedAPIKey d) ""%string) as [He|_]; [by rewrite He in Hlen|].
    destruct (cd_Permissions d); [done|]. cbn [length Nat.eqb].
    rewrite (proj2 (Z.ltb_ge _ _) Hlen), (proj2 (contains_spec _ _) Hpre). done.
Qed.

Lemma validateClientData_no_panic id d w : validateClientData id d <> Panic w.
Proof. unfold validateClientData. by repeat case_match. Qed.

(** The loop accepts exactly the well-formed configurations and then adds all
    of their clients. *)
Lemma load_clients_spec order config acc m :
  load_clients order config acc = Ok m <->
  (forall id d, id ∈ order -> config !! id = Some d -> client_wf id (client_of id d))
  /\ m = foldl (add_client config) acc order.
Proof.
  revert acc. induction order as [|id order IH]; intros acc; cbn [load_clients foldl].
  { split; [intros [= <-]|intros [_ ->]]; [|done]. split; [|done]. intros ? ? Hin. by apply not_elem_of_nil in Hin. }
  unfold add_client at 2. destruct (config !! id) as [d|] eqn:Hd.
  - destruct (validateClientData id d) as [[]|e|w] eqn:Hv.
    + rewrite IH. fold (client_of id d). apply validateClientData_ok in Hv. split; intros [Hall ->]; (split; [|done]).
      * intros id' d' [->|Hin]%elem_of_cons Hd'; [by simplify_eq|by apply Hall].
      * intros id' d' Hin. apply Hall, elem_of_cons; auto.
    + split; [done|]. intros [Hall _]. specialize (Hall id d (list_elem_of_here _ _) Hd).
      apply validateClientData_ok in Hall. congruence.
    + by apply validateClientData_no_panic in Hv.
  - rewrite IH. split; intros [Hall ->]; (split; [|done]).
    + intros id' d' [->|Hin]%elem_of_cons Hd'; [by simplify_eq|by apply Hall].
    + intros id' d' Hin. apply Hall, elem_of_cons; auto.
Qed.

Lemma loaded_lookup order (config : gmap string clientData) acc id :
  foldl (add_client config) acc order !! id
  = if decide (id ∈ order) then match config !! id with Some d => Some (client_of id d) | None => acc !! id end
    else acc !! id.
Proof.
  revert acc. induction order as [|id' order IH]; intros acc; cbn [foldl].
  - by rewrite decide_False by (intros Hin; by apply not_elem_of_nil in Hin).
  - rewrite IH. unfold add_client. destruct (decide (id = id')) as [->|Hne].
    + rewrite (decide_True _ _ (list_elem_of_here _ _)).
      destruct (config !! id') as [d|] eqn:Hd; case_decide; rewrite ?lookup_insert_eq; done.
    + assert ((if decide (id ∈ id' :: order) then match config !! id with Some d => Some (client_of id d) | None => acc !! id end
              else acc !! id) = (if decide (id ∈ order) then match config !! id with Some d => Some (client_of id d) | None => acc !! id end
              else acc !! id)) as ->.
      { apply decide_ext. rewrite elem_of_cons. naive_solver. }
      destruct (config !! id') as [d|]; rewrite ?lookup_insert_ne by done; done.
Qed.

(** ** auth_service.go *)

Record AuthenticationResult := mkAuthResult {
  ar_AccessToken : string;
  ar_TokenType : string;
  ar_ExpiresIn : Z
}.

(** [d.Seconds()]: whole seconds plus the rest, in IEEE double arithmetic;
    [int64(f)] truncates. *)
Definition float64_of_Z (z : Z) : spec_float := binary_normalize 53 1024 z 0 false.
Definition Duration_Seconds (d : Z) : spec_float :=
  SFadd 53 1024 (float64_of_Z (Z.quot d Second))
    (SFdiv 53 1024 (float64_of_Z (Z.rem d Second)) (float64_of_Z 1000000000)).
Definition int64_of_float (f : spec_float) : Z :=
  match f with
  | S754_finite sg m e =>
      let a := if e <? 0 then Z.shiftr (Z.pos m) (- e) else Z.shiftl (Z.pos m) e in
      wrap64 (if sg then - a else a)
  | _ => 0
  end.

Example hour_seconds : int64_of_float (Duration_Seconds Hour) = 3600.
Proof. reflexivity. Qed.

(** [bcrypt.CompareHashAndPassword(hash, password)] *)
Class BcryptPkg := { CompareHashAndPassword : string -> string -> option error }.

Record authService (C P T : Type) := mkAuthService {
  clientStore : C;
  tokenManager : TokenManager P T;
  tokenTTL : Z
}.
Arguments mkAuthService {C P T}.
Arguments clientStore {C P T}.
Arguments tokenManager {C P T}.
Arguments tokenTTL {C P T}.

Definition NewAuthService {C P T} (clientStore : C) (tokenManager : TokenManager P T) (tokenTTL : Z)
  : authService C P T := mkAuthService clientStore tokenManager tokenTTL.

Section AuthService.
Context `{UuidPkg} `{JwtPkg} `{BcryptPkg} {C T : Type} `{ClientStore C} `{TokenStore T}.
Abbreviation AS := (authService C PrivateKey T).

(** [s.tokenManager.Method(..)] *)
Definition with_tokens {A} (m : M (St (TokenManager PrivateKey T)) A) : M (St AS) A :=
  with_inner tokenManager (λ tm s, mkAuthService (clientStore s) tm (tokenTTL s)) m.

Definition Authenticate (clientID clientSecret : string) : M (St AS) AuthenticationResult :=
  s ← gets repo;
  client ← on_err (Wrap "authentication failed") (lift_res (FindClientByID (clientStore s) clientID));
  match CompareHashAndPassword (cli_HashedAPIKey client) clientSecret with
  | Some _ => fail (ErrorsNew "authentication failed: invalid credentials")
  | None =>
      accessToken ← on_err (Wrap "failed to generate token")
        (with_tokens (GenerateToken (cli_ID client) (cli_Permissions client) (tokenTTL s)));
      mret (mkAuthResult accessToken "Bearer" (int64_of_float (Duration_Seconds (tokenTTL s))))
  end.

(** A token is issued only for a client of the store with the right secret,
    in that client's name and with its permissions. *)
Lemma Authenticate_ok id secret (w w' : St AS) r :
  Authenticate id secret w = (Ok r, w') ->
  exists client, FindClientByID (clientStore (repo w)) id = Ok client
    /\ CompareHashAndPassword (cli_HashedAPIKey client) secret = None
    /\ GenerateToken (cli_ID client) (cli_Permissions client) (tokenTTL (repo w)) (set_repo (tokenManager (repo w)) w)
       = (Ok (ar_AccessToken r), set_repo (tokenManager (repo w')) w')
    /\ ar_TokenType r = "Bearer"%string
    /\ ar_ExpiresIn r = int64_of_float (Duration_Seconds (tokenTTL (repo w)))
    /\ clock w' = clock w /\ privateKey (tokenManager (repo w')) = privateKey (tokenManager (repo w)).
Proof.
  unfold Authenticate. intros E. apply bind_ok in E as (s & w0 & [= <- <-] & E).
  apply bind_ok in E as (client & w1 & E1 & E).
  unfold on_err, lift_res in E1. destruct (FindClientByID (clientStore (repo w)) id) as [cl|e|p]; simplify_eq/=.
  destruct (CompareHashAndPassword _ _) eqn:Hc; [done|].
  apply bind_ok in E as (tok & w2 & E2 & [= <- <-]). unfold on_err, with_tokens, with_inner in E2.
  destruct (GenerateToken _ _ _ _) as [r1 w3] eqn:Hg. exists client.
  pose proof (GenerateToken_store (cli_ID client) (cli_Permissions client) (tokenTTL (repo w1)) (set_repo (tokenManager (repo w1)) w1)) as (_ & Hck & Hpk).
  rewrite Hg in Hck, Hpk. cbn [snd] in *. destruct r1 as [a|e|p]; simplify_eq/=.
  destruct w3. by split_and!.
Qed.

Lemma Authenticate_refused id secret (w : St AS) :
  match FindClientByID (clientStore (repo w)) id with
  | Ok client => CompareHashAndPassword (cli_HashedAPIKey client) secret <> None
  | _ => True
  end -> (Authenticate id secret w).2 = w /\ is_ok (Authenticate id secret w).1 = false.
Proof.
  unfold Authenticate. go_unfold. destruct (FindClientByID _ _) as [client|e|p]; simpl; [|done..].
  by destruct (CompareHashAndPassword _ _).
Qed.

End AuthService.

(** ** An executable JWT library

    A token is its fields in clear text, the last one naming the signing key;
    signing fails on claims that would not read back. *)

Fixpoint split_on (sep : Ascii.ascii) (s : string) (cur : string) : list string :=
  match s with
  | EmptyString => [String.rev cur]
  | String a s' => if Ascii.eqb a sep then String.rev cur :: split_on sep s' "" else split_on sep s' (String a cur)
  end.

Definition toy_fields (s : string) : list string := split_on (ascii_of 124) s "".

Definition toy_token (m : SigningMethod) (c : Claims) (p : string) : string :=
  String.concat "|" [method_alg m; cl_UserID c; String.concat "," (cl_Roles c); cl_ID c;
    hex_print 20 (default 0 (cl_ExpiresAt c)) ""; hex_print 20 (default 0 (cl_IssuedAt c)) ""; p].

Definition toy_ParseUnverified (s : string) : res Claims :=
  match toy_fields s with
  | [_; u; r; i; e; t; _] =>
      match hex_read e 0, hex_read t 0 with
      | Some e, Some t => Ok (mkClaims u (split_on (ascii_of 44) r "") i (Some e) (Some t) None)
      | _, _ => Err (ErrorsNew "token is malformed")
      end
  | _ => Err (ErrorsNew "token is malformed")
  end.

Definition toy_Method (s : string) : option SigningMethod :=
  match toy_fields s with
  | alg :: _ => Some (mkMethod (String.eqb alg "RS256") alg)
  | [] => None
  end.

Definition toy_Verify (m : SigningMethod) (k : string) (s : string) : bool :=
  match last (toy_fields s) with Some k' => String.eqb k k' | None => false end.

Definition time_validb (now : Z) (c : Claims) : bool :=
  match cl_ExpiresAt c with Some e => now <? e | None => true end
  && match cl_NotBefore c with Some n => n <=? now | None => true end.

Lemma time_validb_spec now c : time_validb now c = true <-> time_valid now c.
Proof.
  unfold time_validb, time_valid. rewrite andb_true_iff.
  destruct (cl_ExpiresAt c), (cl_NotBefore c); rewrite ?Z.ltb_lt, ?Z.leb_le; naive_solver.
Qed.

#[export] Instance Claims_eq_dec : EqDecision Claims.
Proof. solve_decision. Defined.
#[export] Instance SigningMethod_eq_dec : EqDecision SigningMethod.
Proof. solve_decision. Defined.

Definition toy_signed_ok (m : SigningMethod) (c : Claims) (p s : string) : bool :=
  bool_decide (toy_ParseUnverified s = Ok c) && bool_decide (toy_Method s = Some m) && toy_Verify m p s.

Definition ToyJwt : JwtPkg := {|
  PrivateKey := string; PublicKey := string; public_of := λ p, p;
  ParseRSAPrivateKeyFromPEM := λ pem, if String.eqb pem "" then Err (ErrorsNew "invalid key: Key must be a PEM encoded PKCS1 or PKCS8 key") else Ok pem;
  NewNumericDate := λ t, t / Second * Second;
  SignedString := λ m c p, let s := toy_token m c p in
    if toy_signed_ok m c p s then Ok s else Err (ErrorsNew "unsupported claims");
  ParseUnverified := toy_ParseUnverified;
  ParseWithClaims := λ now s kf,
    match toy_ParseUnverified s, toy_Method s with
    | Ok c, Some m =>
        match kf m with
        | Ok k => if toy_Verify m k s && time_validb now c then Ok (c, true) else Err (ErrorsNew "token is invalid")
        | _ => Err (ErrorsNew "token is unverifiable")
        end
    | _, _ => Err (ErrorsNew "token is malformed")
    end;
  jwt_Method := toy_Method;
  jwt_Verify := toy_Verify;
  ErrSignatureInvalid := ErrorsNew "signature is invalid"
|}.

Lemma ToyJwtOk : @JwtPkgOk ToyJwt.
Proof.
  split; cbn.
  - intros t. unfold Second, Millisecond. pose proof (Z.div_mod t (1000 * 1000000)).
    pose proof (Z.mod_pos_bound t (1000 * 1000000)). lia.
  - intros now s kf c v. rewrite <-time_validb_spec.
    split.
    + intros Hq. destruct (toy_ParseUnverified s) as [c'|e|p], (toy_Method s) as [m|]; try done.
      destruct (kf m) as [k|e|p] eqn:Hk; [|done..].
      destruct (toy_Verify m k s) eqn:Hv, (time_validb now c') eqn:Ht; cbn [andb] in Hq; try done.
      injection Hq as <- <-. eauto 10.
    + intros (-> & -> & Ht & m & k & -> & -> & ->). by rewrite Ht.
  - intros now s kf w. by repeat case_match.
  - intros u r i e t m p s _. unfold toy_signed_ok. case_match eqn:Hb; [|done]. intros [= <-].
    bool_to_prop. done.
Qed.

(** ** Theorems *)

(** C8: a revoked token stays revoked.  Once [Revoke] has returned without
    error, [ValidateToken] never accepts the token again, however long the
    manager runs and whatever it issues, validates, revokes and cleans up,
    provided no other token that carries the same identifier but expires
    earlier is revoked after it. *)
Theorem revoked_token_refused `{UuidPkg, JwtPkgOk, TokenStoreOk T}
    s (w w1 : St (TokenManager PrivateKey T)) es :
  Revoke s w = (Ok tt, w1) ->
  (forall c e, ParseUnverified s = Ok c -> cl_ExpiresAt c = Some e -> Forall (keeps_entry (cl_ID c) e) es) ->
  exists err, (ValidateToken s (tok_run es w1)).1 = Err err.
Proof.
  intros E Hes. apply Revoke_entry in E as (c & e & Hp & He & Hc).
  destruct (ValidateToken s (tok_run es w1)).1 as [c'|err|p] eqn:Hv; [|by eauto|by apply ValidateToken_no_panic in Hv].
  apply ValidateToken_ok in Hv as (Hp' & [Ht _] & _ & Hr). rewrite Hp in Hp'. injection Hp' as <-. specialize (Ht e He).
  pose proof (tok_run_clock es w1). destruct Hc as [Hc|Hc]; [lia|].
  destruct (tok_run_entry (cl_ID c) e es w1 (Hes c e Hp He) Hc) as [_ Hu].
  rewrite Hu in Hr by lia. done.
Qed.


(** the client file is all or nothing.  Whatever order the map is ranged
    over in, a readable configuration loads exactly when it names at least one
    client and every client has an identifier, permissions and a bcrypt-shaped
    hash; the store then finds exactly the configured clients, unchanged. *)
Theorem client_store_spec `{FileEnv} order path data config :
  ReadFile path = Ok data -> yaml_Unmarshal data = Ok config ->
  (forall id, is_Some (config !! id) -> id ∈ order) ->
  (is_ok (NewFileClientStore order path) = true
     <-> config <> ∅ /\ map_Forall (λ id d, client_wf id (client_of id d)) config)
  /\ forall st, NewFileClientStore order path = Ok st -> forall id,
       match config !! id with
       | Some d => FindClientByID st id = Ok (client_of id d) /\ client_wf id (client_of id d)
       | None => exists e, FindClientByID st id = Err e /\ Is e ErrClientNotFound = true
       end.
Proof.
  intros Hr Hy Hord. unfold NewFileClientStore. rewrite Hr. unfold mbind, outcome_bind. cbn [map_err]. rewrite Hy. cbn [map_err].
  destruct (decide (config = ∅)) as [->|Hne].
  { rewrite map_size_empty. split; [|done]. split; [done|]. by intros [? _]. }
  rewrite (proj2 (Nat.eqb_neq _ 0)) by (by rewrite map_size_empty_iff).
  pose proof (load_clients_spec order config ∅) as Hspec.
  assert (forall m, load_clients order config ∅ = Ok m -> map_Forall (λ id d, client_wf id (client_of id d)) config) as Hwf.
  { intros m [Hall _]%Hspec id d Hd. apply (Hall id d); [apply Hord; by rewrite Hd|done]. }
  split.
  - split.
    + destruct (load_clients order config ∅) as [m|e|p] eqn:E; [|done..]. intros _. split; [done|]. by apply (Hwf m).
    + intros [_ Hall]. rewrite (proj2 (Hspec (foldl (add_client config) ∅ order))); [done|].
      split; [|done]. intros id d _ Hd. by apply Hall.
  - intros st. destruct (load_clients order config ∅) as [m|e|p] eqn:E; [|done..]. intros [= <-] id.
    cbn [FindClientByID FileClientStore_Store clients].
    pose proof (Hwf m eq_refl) as Hall. destruct (proj1 (Hspec m) eq_refl) as [_ ->]. rewrite loaded_lookup.
    destruct (config !! id) as [d|] eqn:Hd.
    + rewrite decide_True by (apply Hord; by rewrite Hd). by split; [|apply Hall].
    + destruct (decide (id ∈ order)); cbn; eexists; by split.
Qed.

(** ** Concrete runs *)

#[local] Existing Instance HexUuid.
#[local] Existing Instance ToyJwt.
#[local] Existing Instance ToyJwtOk.

Definition ex_tokens : St (TokenManager PrivateKey inMemoryTokenStore) :=
  mkSt (1000 * Second) ∅ 0%nat (mkTM ("pem"%string : @PrivateKey ToyJwt) NewInMemoryTokenStore [] [mkUuid 7 eq_refl; mkUuid 8 eq_refl]).
Definition ex_issue := GenerateToken "alice" ["user"%string] Hour ex_tokens.
Definition ex_token : string := match ex_issue.1 with Ok s => s | _ => "" end.
Definition ex_events : list token_event := [TokWait 5; TokValidate ex_token; TokCleanup; TokRevoke ex_token; TokWait 7].

Lemma revoked_token_refused_witness :
  (Revoke ex_token ex_issue.2).1 = Ok tt
  /\ exists err, (ValidateToken ex_token (tok_run ex_events (Revoke ex_token ex_issue.2).2)).1 = Err err.
Proof.
  assert ((Revoke ex_token ex_issue.2).1 = Ok tt) as Hr by (vm_compute; reflexivity).
  split; [exact Hr|].
  apply (revoked_token_refused ex_token ex_issue.2 (Revoke ex_token ex_issue.2).2 ex_events).
  - rewrite <-Hr. apply surjective_pairing.
  - intros c e Hc He. repeat constructor; cbn [keeps_entry]. intros c' e' Hc' _ He'. rewrite Hc in Hc'.
    injection Hc' as <-. rewrite He in He'. injection He' as <-. apply Z.le_refl.
Defined.


Definition ex_hash : string := "$2a$10$abcdefghijklmnopqrstuvABCDEFGHIJKLMNOPQRSTUVWXYZ01234".
Definition ex_config : gmap string clientData :=
  {[ "alice"%string := mkClientData ex_hash ["user"%string] ""; "bob"%string := mkClientData ex_hash ["admin"%string] "" ]}.
Definition ToyFiles : FileEnv := {|
  ReadFile := λ p, if String.eqb p "clients.yaml" then Ok "clients: ..."%string else Err (ErrorsNew "no such file or directory");
  yaml_Unmarshal := λ _, Ok ex_config
|}.
#[local] Existing Instance ToyFiles.

Lemma client_store_spec_witness :
  is_ok (NewFileClientStore ["bob"; "alice"]%string "clients.yaml") = true
  /\ map_Forall (λ id d, client_wf id (client_of id d)) ex_config.
Proof.
  assert (forall id, is_Some (ex_config !! id) -> id ∈ ["bob"; "alice"]%string) as Hord.
  { intros id [d Hd]. unfold ex_config in Hd. apply lookup_insert_Some in Hd as [[<- _]|[_ [<- _]%lookup_singleton_Some]]; [right|]; left. }
  assert (is_ok (NewFileClientStore ["bob"; "alice"]%string "clients.yaml") = true) as Hok by (vm_compute; reflexivity).
  split; [exact Hok|].
  exact (proj2 (proj1 (proj1 (client_store_spec ["bob"; "alice"]%string "clients.yaml" "clients: ..." ex_config eq_refl eq_refl Hord)) Hok)).
Defined.

(** Revocation trusts unverified claims: revoking a forged token with the
    identifier of a revoked one and an earlier expiry shortens the entry, and
    the revoked token is accepted again. *)
Definition ex_forged : string :=
  toy_token SigningMethodRS256
    (mkClaims "mallory" ["none"%string] (uuid_String (mkUuid 7 eq_refl)) (Some (1010 * Second)) (Some 0) None) "wrong".

Theorem forged_revocation_restores :
  let revoked := (Revoke ex_token ex_issue.2).2 in
  let later := tok_run [TokRevoke ex_forged] revoked in
  (Revoke ex_token ex_issue.2).1 = Ok tt
  /\ is_ok (ValidateToken ex_token revoked).1 = false
  /\ is_ok (ValidateToken ex_forged revoked).1 = false
  /\ is_ok (ValidateToken ex_token (mkSt (1011 * Second) ∅ 0%nat (repo later))).1 = true.
Proof. vm_compute. done. Qed.
