(* ===== verification/Server.v ===== *)
(** * The gRPC server: interceptors and dispatch

    Models [internal/app/grpc/interceptors/], [internal/app/grpc/server.go],
    the context helpers of [internal/domain/auth.go] and
    [internal/domain/transport.go], and the handlers [Authenticate] and
    [HealthCheck] of [polykey_impl.go].  A unary call passes logging,
    authentication and validation, in this order, and then the handler of
    [Rpc.v].  The network listener and grpc-go itself are parameters. *)

From S2P Require Import Prelude Errors Domain Cache Repo Psql PsqlSpec Batch Kms Authorizer Service ServiceSpec Rpc Regex Validation RateLimit Config Auth.

(** ** Contexts *)

(** What grpc-go puts in the context of a call: the peer (its TLS state, if
    any, lists the common names of its certificates) and the metadata. *)
Record Peer := mkPeer { peer_Addr : string; peer_TLS : option (list string) }.
Record Incoming := mkIncoming {
  in_peer : option Peer;
  in_md : option (gmap string (list string))
}.

Record GCtx := mkGCtx { g_in : Incoming; g_vals : Ctx; g_corr : option string }.

Definition NewContextWithUser (ctx : GCtx) (user : AuthenticatedUser) : GCtx :=
  mkGCtx (g_in ctx) (mkCtx (Some user) (PeerCertFromContext (g_vals ctx))) (g_corr ctx).
Definition NewContextWithPeerCert (ctx : GCtx) (cert : string) : GCtx :=
  mkGCtx (g_in ctx) (mkCtx (UserFromContext (g_vals ctx)) (Some cert)) (g_corr ctx).
Definition CorrelationIDFromContext (ctx : GCtx) : string := default "" (g_corr ctx).

(** [status.FromError(err)]: the code, if the error carries a status. *)
Class GrpcStatus := { status_FromError : error -> option code }.
Class GrpcStatusOk `{GrpcStatus} := { status_of_status c m : status_FromError (StatusError c m) = Some c }.

(** ** Messages *)

Inductive request : Type :=
| ReqAuthenticate (clientId apiKey : string)
| ReqRefreshToken (refreshToken : string)
| ReqRevokeToken (accessToken clientId : string)
| ReqHealthCheck
| ReqGetKey (r : GetKeyRequest)
| ReqCreateKey (r : CreateKeyRequest)
| ReqListKeys (r : ListKeysRequest)
| ReqRotateKey (keyId : string) (rc : option RequesterContext) (gracePeriod : Z)
| ReqRevokeKey (keyId : string) (rc : option RequesterContext)
| ReqUpdateKeyMetadata (r : UpdateKeyMetadataRequest)
| ReqGetKeyMetadata (r : GetKeyMetadataRequest)
| ReqBatchCreateKeys (r : BatchRequest CreateKeyItem)
| ReqBatchGetKeys (r : BatchRequest KeyRequestItem)
| ReqBatchGetKeyMetadata (r : BatchRequest string)
| ReqBatchRotateKeys (r : BatchRequest RotateKeyItem)
| ReqBatchRevokeKeys (r : BatchRequest string)
| ReqBatchUpdateKeyMetadata (r : BatchRequest UpdateItem).

Record AuthenticateResponse := mkAuthResp { ap_AccessToken : string; ap_TokenType : string; ap_ExpiresIn : Z; ap_IssuedAt : Z }.
Record HealthCheckResponse := mkHealthResp { hc_Timestamp : Z; hc_Version : string; hc_Commit : string; hc_UptimeSince : Z }.

Inductive response : Type :=
| RespAuthenticate (r : AuthenticateResponse)
| RespHealthCheck (r : HealthCheckResponse)
| RespGetKey (r : option GetKeyResponse)
| RespCreateKey (r : option CreateKeyResponse)
| RespListKeys (r : option ListKeysResponse)
| RespRotateKey (r : option RotateKeyResponse)
| RespEmpty (r : option unit)
| RespGetKeyMetadata (r : option (option KeyMetadata * Z))
| RespBatchCreateKeys (r : option (list (CreateKeyResponse + string)))
| RespBatchGetKeys (r : option (BatchResponse GetKeyResponse))
| RespBatchGetKeyMetadata (r : option (BatchResponse (KeyMetadata * Z)))
| RespBatchRotateKeys (r : option (BatchResponse RotateKeyResponse))
| RespBatchEmpty (r : option (BatchResponse unit)).

(** [info.FullMethod] *)
Definition method_name (req : request) : string :=
  match req with
  | ReqAuthenticate _ _ => "Authenticate" | ReqRefreshToken _ => "RefreshToken" | ReqRevokeToken _ _ => "RevokeToken"
  | ReqHealthCheck => "HealthCheck" | ReqGetKey _ => "GetKey" | ReqCreateKey _ => "CreateKey"
  | ReqListKeys _ => "ListKeys" | ReqRotateKey _ _ _ => "RotateKey" | ReqRevokeKey _ _ => "RevokeKey"
  | ReqUpdateKeyMetadata _ => "UpdateKeyMetadata" | ReqGetKeyMetadata _ => "GetKeyMetadata"
  | ReqBatchCreateKeys _ => "BatchCreateKeys" | ReqBatchGetKeys _ => "BatchGetKeys"
  | ReqBatchGetKeyMetadata _ => "BatchGetKeyMetadata" | ReqBatchRotateKeys _ => "BatchRotateKeys"
  | ReqBatchRevokeKeys _ => "BatchRevokeKeys" | ReqBatchUpdateKeyMetadata _ => "BatchUpdateKeyMetadata"
  end.
Definition FullMethod (req : request) : string := "/polykey.v2.PolykeyService/" +:+ method_name req.

Definition unprotectedMethods : list string :=
  ["/polykey.v2.PolykeyService/HealthCheck"; "/polykey.v2.PolykeyService/Authenticate"]%string.

(** ** State *)

Record LogEntry := mkLogEntry {
  lg_correlation : string; lg_method : string; lg_duration : Z; lg_code : code; lg_error : option string
}.

Record Server `{RatePkg} (S C P T : Type) := mkServer {
  polykey : PolykeyService S;
  sv_auth : authService C P T;               (* the container's *)
  sv_tokens : TokenManager P T;              (* the interceptor's own *)
  sv_limiter : inMemoryRateLimiter;
  sv_log : list LogEntry;
  sv_ids : list uuid;                        (* correlation identifiers *)
  sv_cfg : Config;
  sv_serving : option bool;                  (* the health server's status of the service *)
  sv_tls : bool                              (* transport credentials installed *)
}.
Arguments mkServer {_ S C P T}.
Arguments polykey {_ S C P T}.
Arguments sv_auth {_ S C P T}.
Arguments sv_tokens {_ S C P T}.
Arguments sv_limiter {_ S C P T}.
Arguments sv_log {_ S C P T}.
Arguments sv_ids {_ S C P T}.
Arguments sv_cfg {_ S C P T}.
Arguments sv_serving {_ S C P T}.
Arguments sv_tls {_ S C P T}.

Section Server.
Context `{UuidPkg} `{CryptoPkg} `{AwsKms} `{Sha256Pkg} `{TimeFormat} `{MapRange} `{JsonPkg} `{RatePkg} `{JwtPkg}
  `{BcryptPkg} `{GrpcStatus} {S C T : Type} `{KeyRepository S} `{ClientStore C} `{TokenStore T}.
Abbreviation SV := (Server S C PrivateKey T).
Abbreviation W := (St SV).

Definition set_polykey (p : PolykeyService S) (s : SV) : SV :=
  mkServer p (sv_auth s) (sv_tokens s) (sv_limiter s) (sv_log s) (sv_ids s) (sv_cfg s) (sv_serving s) (sv_tls s).
Definition set_auth (a : authService C PrivateKey T) (s : SV) : SV :=
  mkServer (polykey s) a (sv_tokens s) (sv_limiter s) (sv_log s) (sv_ids s) (sv_cfg s) (sv_serving s) (sv_tls s).
Definition set_tokens (t : TokenManager PrivateKey T) (s : SV) : SV :=
  mkServer (polykey s) (sv_auth s) t (sv_limiter s) (sv_log s) (sv_ids s) (sv_cfg s) (sv_serving s) (sv_tls s).
Definition set_limiter (l : inMemoryRateLimiter) (s : SV) : SV :=
  mkServer (polykey s) (sv_auth s) (sv_tokens s) l (sv_log s) (sv_ids s) (sv_cfg s) (sv_serving s) (sv_tls s).
Definition set_log (l : list LogEntry) (s : SV) : SV :=
  mkServer (polykey s) (sv_auth s) (sv_tokens s) (sv_limiter s) l (sv_ids s) (sv_cfg s) (sv_serving s) (sv_tls s).
Definition set_ids (i : list uuid) (s : SV) : SV :=
  mkServer (polykey s) (sv_auth s) (sv_tokens s) (sv_limiter s) (sv_log s) i (sv_cfg s) (sv_serving s) (sv_tls s).
Definition set_serving (b : option bool) (s : SV) : SV :=
  mkServer (polykey s) (sv_auth s) (sv_tokens s) (sv_limiter s) (sv_log s) (sv_ids s) (sv_cfg s) b (sv_tls s).

Definition with_polykey {A} (m : M (St (PolykeyService S)) A) : M W A := with_inner polykey set_polykey m.
Definition with_auth {A} (m : M (St (authService C PrivateKey T)) A) : M W A := with_inner sv_auth set_auth m.
Definition with_sv_tokens {A} (m : M (St (TokenManager PrivateKey T)) A) : M W A := with_inner sv_tokens set_tokens m.

(** ** interceptors/auth.go *)

Definition UnaryHandler (A : Type) : Type := GCtx -> request -> M W A.

(** The peer's leaf certificate, if the transport has one. *)
Definition add_peer_cert (ctx : GCtx) : GCtx :=
  match in_peer (g_in ctx) ≫= peer_TLS with
  | Some (cn :: _) => NewContextWithPeerCert ctx cn
  | _ => ctx
  end.

Definition bearerPrefix : string := "Bearer ".

(** The token of the [authorization] header, or why there is none. *)
Definition bearer_token (md : option (gmap string (list string))) : res string :=
  match md with
  | None => Err (StatusError Unauthenticated "metadata is not provided")
  | Some md =>
      match default [] (md !! "authorization"%string) with
      | [] => Err (StatusError Unauthenticated "authorization token is not provided")
      | authHeader :: _ =>
          match strip_prefix bearerPrefix authHeader with
          | None => Err (StatusError Unauthenticated "authorization header must use Bearer scheme")
          | Some token =>
              if String.eqb token "" then Err (StatusError Unauthenticated "bearer token is empty")
              else Ok token
          end
      end
  end.

(** [limiter.Allow(identifier)] *)
Definition sv_Allow (identifier : string) : M W bool := λ w,
  let '(ok, l) := Allow (clock w) identifier (sv_limiter (repo w)) in
  (Ok ok, set_repo (set_limiter l (repo w)) w).

Definition AuthenticationInterceptor {A} (ctx : GCtx) (req : request) (method : string) (handler : UnaryHandler A) : M W A :=
  if Prelude.contains unprotectedMethods method then handler ctx req
  else
    let ctx := add_peer_cert ctx in
    token ← lift_res (bearer_token (in_md (g_in ctx)));
    claims ← on_err (λ err, StatusError Unauthenticated ("invalid token: " +:+ Error err))
               (with_sv_tokens (ValidateToken token));
    ok ← sv_Allow (cl_UserID claims);
    if negb (ok : bool)
    then fail (StatusError ResourceExhausted ("rate limit exceeded for client " +:+ cl_UserID claims))
    else handler (NewContextWithUser ctx (mkUser (cl_UserID claims) (cl_Roles claims))) req.

(** ** interceptors/logging.go *)

Definition sv_uuid_New : M W uuid := λ w,
  (Ok (default uuid_Nil (head (sv_ids (repo w)))), set_repo (set_ids (tail (sv_ids (repo w))) (repo w)) w).

Definition status_code {A} (r : res A) : code :=
  match r with
  | Ok _ => CodeOK
  | Err err => default Unknown (status_FromError err)
  | Panic _ => CodeOK
  end.

(** [resp, err := handler(ctx, req)] and what follows it.  Nothing recovers a
    panic of the handler: it unwinds unlogged. *)
Definition log_call {A} (correlationID method : string) (start : Z) (call : M W A) : M W A := λ w,
  let '(r, w') := call w in
  match r with
  | Panic p => (Panic p, w')
  | _ =>
      let entry := mkLogEntry correlationID method (clock w' - start) (status_code r)
                     (match r with Err err => Some (Error err) | _ => None end) in
      (r, set_repo (set_log (sv_log (repo w') ++ [entry]) (repo w')) w')
  end.

Definition UnaryLoggingInterceptor {A} (ctx : GCtx) (req : request) (method : string) (handler : UnaryHandler A) : M W A :=
  start ← time_now;
  id ← sv_uuid_New;
  let correlationID := uuid_String id in
  log_call correlationID method start (handler (mkGCtx (g_in ctx) (g_vals ctx) (Some correlationID)) req).

(** ** interceptors/validation.go *)

(** The entry of [validationMap] for the request's type, and the request as
    the validator leaves it. *)
Definition validate_request (req : request) : option (res unit * request) :=
  match req with
  | ReqCreateKey r => Some (ValidateCreateKeyRequest r, req)
  | ReqUpdateKeyMetadata r => Some (ValidateUpdateKeyMetadataRequest r, req)
  | ReqListKeys r => let '(v, r') := ValidateListKeysRequest r in Some (v, ReqListKeys r')
  | ReqGetKey r => Some (ValidateGetKeyRequest r, req)
  | ReqRotateKey k rc _ => Some (ValidateRotateKeyRequest k rc, req)
  | ReqRevokeKey k rc => Some (ValidateRevokeKeyRequest k rc, req)
  | ReqGetKeyMetadata r => Some (ValidateGetKeyMetadataRequest r, req)
  | ReqAuthenticate c k => Some (ValidateAuthenticateRequest c k, req)
  | ReqRefreshToken t => Some (ValidateRefreshTokenRequest t, req)
  | ReqRevokeToken t c => Some (ValidateRevokeTokenRequest t c, req)
  | _ => None
  end.

(** [return nil, errorClassifier.LogAndSanitize(..Classify(err, op))] *)
Definition sv_refuse {A} (op : string) (err : error) : M W A := λ w,
  let p := polykey (repo w) in
  let '(o, st) := sanitizeError (hd O (errorPicks p)) op (Some err) (ErrorClassifier p) in
  (match o with Some e => Err e | None => Panic "nil error" end,
   set_repo (set_polykey (mkPolykey (KeyService p) (authz_cfg p) (authz_cache p) st (tl (errorPicks p))) (repo w)) w).

(** [registered] is the outcome of [NewRequestValidator]. *)
Definition UnaryValidationInterceptor {A} (registered : res unit) (ctx : GCtx) (req : request) (method : string)
    (handler : UnaryHandler A) : M W A :=
  match registered with
  | Err err => sv_refuse "NewRequestValidator" (Wrap "failed to register custom validators" err)
  | Panic p => panic p
  | Ok _ =>
      match validate_request req with
      | None => handler ctx req
      | Some (Ok _, req) => handler ctx req
      | Some (Err err, _) => sv_refuse method err
      | Some (Panic p, _) => panic p
      end
  end.

(** ** polykey_impl.go: the handlers that need no authorization *)

Definition rpc_Authenticate (clientId apiKey : string) : M W AuthenticateResponse :=
  if String.eqb clientId "" || String.eqb apiKey ""
  then fail (StatusError InvalidArgument "client_id and api_key are required")
  else
    result ← on_err (λ err, StatusError Unauthenticated ("authentication failed: " +:+ Error err))
               (with_auth (Authenticate clientId apiKey));
    now ← time_now;
    mret (mkAuthResp (ar_AccessToken result) (ar_TokenType result) (ar_ExpiresIn result) now).

Definition rpc_HealthCheck : M W HealthCheckResponse :=
  now ← time_now;
  s ← gets repo;
  mret (mkHealthResp now (ServiceVersion (sv_cfg s)) (BuildCommit (sv_cfg s)) (now - 24 * Hour)).

(** ** Dispatch

    The method table grpc-go calls.  [order] is the order in which a batch is
    processed; [rotate] stands for [KeyService.RotateKey], whose wait for the
    rotation pipeline is modelled in [Pipeline.v].  Methods the service does
    not define answer [Unimplemented], which the generated code provides. *)

Definition RotateService : Type := string -> Z -> M (St (keyServiceImpl S)) RotateKeyResponse.

Definition rpc_RotateKey (rotate : RotateService) (ctx : Ctx) (rc : option RequesterContext) (keyId : string) (grace : Z)
  : M (St (PolykeyService S)) (option RotateKeyResponse) :=
  execWithAuth "RotateKey" (scope "RotateKey") keyId ctx rc (rotate keyId grace).

Definition fmap_ok {W0 A B} (f : A -> B) (m : M W0 A) : M W0 B := a ← m; mret (f a).

Definition dispatch (order : list nat) (rotate : RotateService) (ctx : GCtx) (req : request) : M W response :=
  let v := g_vals ctx in
  match req with
  | ReqAuthenticate c k => fmap_ok RespAuthenticate (rpc_Authenticate c k)
  | ReqRefreshToken _ | ReqRevokeToken _ _ =>
      fail (StatusError Unimplemented ("method " +:+ method_name req +:+ " not implemented"))
  | ReqHealthCheck => fmap_ok RespHealthCheck rpc_HealthCheck
  | ReqGetKey r => fmap_ok RespGetKey (with_polykey (rpc_GetKey v r))
  | ReqCreateKey r => fmap_ok RespCreateKey (with_polykey (rpc_CreateKey v r))
  | ReqListKeys r => fmap_ok RespListKeys (with_polykey (rpc_ListKeys v (lr_RequesterContext r) (lr_PageToken r) (lr_PageSize r)))
  | ReqRotateKey k rc g => fmap_ok RespRotateKey (with_polykey (rpc_RotateKey rotate v rc k g))
  | ReqRevokeKey k rc => fmap_ok RespEmpty (with_polykey (rpc_RevokeKey v rc k))
  | ReqUpdateKeyMetadata r => fmap_ok RespEmpty (with_polykey (rpc_UpdateKeyMetadata v (um_RequesterContext r) (um_Update r)))
  | ReqGetKeyMetadata r => fmap_ok RespGetKeyMetadata (with_polykey (rpc_GetKeyMetadata v r))
  | ReqBatchCreateKeys r => fmap_ok RespBatchCreateKeys (with_polykey (rpc_BatchCreateKeys order v r))
  | ReqBatchGetKeys r => fmap_ok RespBatchGetKeys (with_polykey (rpc_BatchGetKeys order v r))
  | ReqBatchGetKeyMetadata r => fmap_ok RespBatchGetKeyMetadata (with_polykey (rpc_BatchGetKeyMetadata v r))
  | ReqBatchRotateKeys r => fmap_ok RespBatchRotateKeys (with_polykey (rpc_BatchRotateKeys order v r))
  | ReqBatchRevokeKeys r => fmap_ok RespBatchEmpty (with_polykey (rpc_BatchRevokeKeys v r))
  | ReqBatchUpdateKeyMetadata r => fmap_ok RespBatchEmpty (with_polykey (rpc_BatchUpdateKeyMetadata v r))
  end.

(** [grpc.ChainUnaryInterceptor(logging, authentication, validation)]: the
    first interceptor is the outermost. *)
Definition serve (registered : res unit) (order : list nat) (rotate : RotateService) (inc : Incoming) (req : request) : M W response :=
  let method := FullMethod req in
  UnaryLoggingInterceptor (mkGCtx inc (mkCtx None None) None) req method (λ ctx req,
    AuthenticationInterceptor ctx req method (λ ctx req,
      UnaryValidationInterceptor registered ctx req method (dispatch order rotate))).

(** ** server.go *)

(** [New]: [listen] is the outcome of [net.Listen]; the server makes a token
    store and a token manager of its own. *)
Definition New (newStore : T) (ids corr : list uuid) (listen : res Z) (cfg : Config) (deps : PolykeyService S)
    (authService : authService C PrivateKey T) (tlsConfig : bool) : res (SV * Z) :=
  port ← map_err (Wrap "failed to listen") listen;
  tokenManager ← map_err (Wrap "failed to create token manager for interceptor")
                   (NewTokenManager (JWTRSAPrivateKey (Bootstrap cfg)) newStore ids);
  let rateLimiter := NewInMemoryRateLimiter (rl_Rate (RateLimiter (Config.Server cfg))) (rl_Burst (RateLimiter (Config.Server cfg))) in
  Ok (mkServer deps authService tokenManager rateLimiter [] corr cfg None tlsConfig, port).

(** [Start] returns what [Serve] returns; [Stop] after the graceful stop. *)
Definition Server_Start (serve_result : res unit) : M W unit :=
  _ ← modify (λ w, set_repo (set_serving (Some true) (repo w)) w);
  lift_res serve_result.
Definition Server_Stop : M W unit := modify (λ w, set_repo (set_serving (Some false) (repo w)) w).
Definition Server_Health (s : SV) : bool * string := (true, "gRPC server is running"%string).

(** ** Lemmas *)

Lemma set_tokens_id (w : W) : set_repo (set_tokens (sv_tokens (repo w)) (repo w)) w = w.
Proof. by destruct w as [? ? ? []]. Qed.

Lemma validate_in_server token (w : W) :
  with_sv_tokens (ValidateToken token) w = ((ValidateToken token (set_repo (sv_tokens (repo w)) w)).1, w).
Proof.
  unfold with_sv_tokens, with_inner.
  pose proof (ValidateToken_state token (set_repo (sv_tokens (repo w)) w)) as Hs.
  destruct (ValidateToken token _) as [r w'] eqn:E. cbn [fst snd] in *. subst w'.
  f_equal. apply set_tokens_id.
Qed.

(** The world after the limiter was asked about a client. *)
Definition asked_limiter (id : string) (w : W) : W :=
  set_repo (set_limiter (Allow (clock w) id (sv_limiter (repo w))).2 (repo w)) w.

Lemma sv_Allow_run id (w : W) :
  sv_Allow id w = (Ok (Allow (clock w) id (sv_limiter (repo w))).1, asked_limiter id w).
Proof. unfold sv_Allow, asked_limiter. by destruct (Allow _ _ _). Qed.

(** The user the interceptor hands to the handler. *)
Definition user_of (c : Claims) : AuthenticatedUser := mkUser (cl_UserID c) (cl_Roles c).

(** A call that passed authentication in world [w]. *)
Definition authenticated (md : option (gmap string (list string))) (w : W) (token : string) (c : Claims) : Prop :=
  bearer_token md = Ok token
  /\ (ValidateToken token (set_repo (sv_tokens (repo w)) w)).1 = Ok c
  /\ (Allow (clock w) (cl_UserID c) (sv_limiter (repo w))).1 = true.

Context `{!JwtPkgOk} `{!TokenStoreOk T}.

Lemma bearer_token_no_panic md p : bearer_token md <> Panic p.
Proof. unfold bearer_token. by repeat case_match. Qed.

Lemma bearer_token_err md e : bearer_token md = Err e -> exists m, e = StatusError Unauthenticated m.
Proof. unfold bearer_token. intros ?. repeat case_match; simplify_eq; eauto. Qed.

Lemma add_peer_cert_md ctx : in_md (g_in (add_peer_cert ctx)) = in_md (g_in ctx).
Proof. unfold add_peer_cert. by repeat case_match. Qed.

Lemma AuthenticationInterceptor_cases {A} ctx req method (handler : UnaryHandler A) (w : W) :
  Prelude.contains unprotectedMethods method = false ->
  (exists token c, authenticated (in_md (g_in ctx)) w token c
     /\ AuthenticationInterceptor ctx req method handler w
        = handler (NewContextWithUser (add_peer_cert ctx) (user_of c)) req (asked_limiter (cl_UserID c) w))
  \/ exists code msg w', AuthenticationInterceptor ctx req method handler w = (Err (StatusError code msg), w')
     /\ (code = Unauthenticated /\ w' = w \/ code = ResourceExhausted /\ exists id, w' = asked_limiter id w).
Proof.
  intros Hm. unfold AuthenticationInterceptor, authenticated. rewrite Hm, add_peer_cert_md.
  unfold mbind, GoM_bind, lift_res, on_err.
  destruct (bearer_token (in_md (g_in ctx))) as [token|e|p] eqn:Hb.
  - rewrite validate_in_server.
    destruct (ValidateToken token (set_repo (sv_tokens (repo w)) w)).1 as [c|e|p] eqn:Hv; cbn [map_err].
    + rewrite sv_Allow_run. destruct (Allow (clock w) (cl_UserID c) (sv_limiter (repo w))).1 eqn:Ha; cbn [negb].
      * left. by exists token, c.
      * right. unfold fail. eexists _, _, _. split; [done|]. right. eauto.
    + right. eexists _, _, _. split; [done|]. auto.
    + by apply ValidateToken_no_panic in Hv.
  - apply bearer_token_err in Hb as [m ->]. right. eexists _, _, _. split; [done|]. auto.
  - by apply bearer_token_no_panic in Hb.
Qed.

(** What the logging interceptor adds. *)
Lemma log_call_run {A} corr method start (call : M W A) (w : W) r w1 :
  call w = (r, w1) -> (forall p, r <> Panic p) ->
  log_call corr method start call w
  = (r, set_repo (set_log (sv_log (repo w1) ++ [mkLogEntry corr method (clock w1 - start) (status_code r)
           (match r with Err err => Some (Error err) | _ => None end)]) (repo w1)) w1).
Proof. unfold log_call. intros ->. destruct r as [a|e|p]; [done..|]. intros Hp. by destruct (Hp p). Qed.

(** A handler of the service leaves the interceptors' state alone. *)
Definition quiet {A} (m : M W A) : Prop := forall w r w', m w = (r, w') ->
  sv_log (repo w') = sv_log (repo w) /\ sv_tokens (repo w') = sv_tokens (repo w) /\ sv_limiter (repo w') = sv_limiter (repo w).

Lemma quiet_polykey {A} (m : M (St (PolykeyService S)) A) : quiet (with_polykey m).
Proof. intros w r w'. unfold with_polykey, with_inner. destruct (m _). by intros [= <- <-]. Qed.

Lemma quiet_auth {A} (m : M (St (authService C PrivateKey T)) A) : quiet (with_auth m).
Proof. intros w r w'. unfold with_auth, with_inner. destruct (m _). by intros [= <- <-]. Qed.

Lemma quiet_fmap {A B} (f : A -> B) (m : M W A) : quiet m -> quiet (fmap_ok f m).
Proof.
  intros Hm w r w'. unfold fmap_ok, mbind, GoM_bind. destruct (m w) as [[a|e|p] w1] eqn:E;
    intros [= <- <-]; by apply Hm in E.
Qed.

Lemma quiet_Authenticate c k : quiet (rpc_Authenticate c k).
Proof.
  intros w r w'. unfold rpc_Authenticate. destruct (_ || _); [by intros [= <- <-]|].
  unfold mbind, GoM_bind, on_err. destruct (with_auth (Authenticate c k) w) as [r1 w1] eqn:E. apply quiet_auth in E.
  destruct r1 as [a|e|p]; cbn [map_err]; by intros [= <- <-].
Qed.

Lemma dispatch_quiet order rotate ctx req : quiet (dispatch order rotate ctx req).
Proof.
  destruct req; cbn [dispatch]; try (apply quiet_fmap, quiet_polykey); try (by intros w r w' [= <- <-]).
  apply quiet_fmap, quiet_Authenticate.
Qed.

Lemma sv_refuse_run {A} op err (w : W) : exists w',
  sv_refuse (A := A) op err w = (Err (StatusError (client_view err).1 (client_view err).2), w')
  /\ KeyService (polykey (repo w')) = KeyService (polykey (repo w)) /\ authz_cache (polykey (repo w')) = authz_cache (polykey (repo w))
  /\ sv_log (repo w') = sv_log (repo w) /\ heap w' = heap w.
Proof.
  unfold sv_refuse.
  destruct (sanitizeError_view (hd O (errorPicks (polykey (repo w)))) op err (ErrorClassifier (polykey (repo w)))) as [st ->].
  by eexists.
Qed.

(** Validation runs the handler on the validated request, or refuses. *)
Lemma UnaryValidationInterceptor_cases {A} registered ctx req method (handler : UnaryHandler A) (w : W) :
  (exists req', (validate_request req = Some (Ok tt, req') \/ validate_request req = None /\ req' = req)
     /\ UnaryValidationInterceptor registered ctx req method handler w = handler ctx req' w)
  \/ (exists op err, UnaryValidationInterceptor registered ctx req method handler w = sv_refuse op err w)
  \/ exists p, UnaryValidationInterceptor registered ctx req method handler w = (Panic p, w).
Proof.
  unfold UnaryValidationInterceptor. destruct registered as [[]|e|p]; [|right; left; eauto|right; right; by eexists].
  destruct (validate_request req) as [[[[]|e|p] req']|]; [left; eauto|right; left; eauto|right; right; by eexists|left; eauto].
Qed.

(** The world in which the interceptors after the logger run. *)
Definition drawn_id (w : W) : W := set_repo (set_ids (tail (sv_ids (repo w))) (repo w)) w.
Definition logged_ctx (inc : Incoming) (w : W) : GCtx :=
  mkGCtx inc (mkCtx None None) (Some (uuid_String (default uuid_Nil (head (sv_ids (repo w)))))).
Definition inner_call (registered : res unit) order rotate inc req (w : W) : res response * W :=
  AuthenticationInterceptor (logged_ctx inc w) req (FullMethod req)
    (λ ctx req', UnaryValidationInterceptor registered ctx req' (FullMethod req) (dispatch order rotate)) (drawn_id w).

Lemma serve_run registered order rotate inc req (w w1 : W) r :
  inner_call registered order rotate inc req w = (r, w1) -> (forall p, r <> Panic p) ->
  exists e, serve registered order rotate inc req w = (r, set_repo (set_log (sv_log (repo w1) ++ [e]) (repo w1)) w1)
    /\ lg_method e = FullMethod req /\ lg_code e = status_code r
    /\ lg_error e = match r with Err err => Some (Error err) | _ => None end.
Proof.
  intros Hc Hp. unfold serve, UnaryLoggingInterceptor. erewrite bind_eq by done. erewrite bind_eq by done.
  eexists. split; [apply log_call_run; [exact Hc|done]|done].
Qed.

Lemma serve_panic registered order rotate inc req (w w1 : W) p :
  inner_call registered order rotate inc req w = (Panic p, w1) -> serve registered order rotate inc req w = (Panic p, w1).
Proof.
  intros Hc. unfold serve, UnaryLoggingInterceptor. erewrite bind_eq by done. erewrite bind_eq by done.
  unfold log_call. unfold inner_call, logged_ctx, drawn_id in Hc. cbn [g_in g_vals] in *. by rewrite Hc.
Qed.

Lemma validation_log registered order rotate ctx req method (w w' : W) r :
  UnaryValidationInterceptor registered ctx req method (dispatch order rotate) w = (r, w') -> sv_log (repo w') = sv_log (repo w).
Proof.
  intros E. destruct (UnaryValidationInterceptor_cases registered ctx req method (dispatch order rotate) w)
    as [(req' & _ & Hd)|[(op & err & Hd)|[p Hd]]]; rewrite Hd in E.
  - by apply dispatch_quiet in E as [-> _].
  - destruct (sv_refuse_run (A := response) op err w) as (w1 & Hq & _ & _ & Hl & _). rewrite Hq in E. by simplify_eq.
  - by simplify_eq.
Qed.

Lemma inner_call_log registered order rotate inc req (w w1 : W) r :
  inner_call registered order rotate inc req w = (r, w1) -> sv_log (repo w1) = sv_log (repo w).
Proof.
  unfold inner_call. intros E. destruct (Prelude.contains unprotectedMethods (FullMethod req)) eqn:Hm.
  - unfold AuthenticationInterceptor in E. rewrite Hm in E. by apply validation_log in E.
  - destruct (AuthenticationInterceptor_cases (logged_ctx inc w) req (FullMethod req)
      (λ ctx req', UnaryValidationInterceptor registered ctx req' (FullMethod req) (dispatch order rotate)) (drawn_id w) Hm)
      as [(token & c & Ha & Hr)|(code & msg & w2 & Hr & Hw)]; rewrite Hr in E.
    + by apply validation_log in E.
    + simplify_eq. by destruct Hw as [[_ ->]|[_ [id ->]]].
Qed.

End Server.

(** ** Validation errors carry no sentinel *)

(** An error the classifier has no rule for. *)
Definition unclassified (e : error) : Prop := forall s, Is e s = false.

Lemma unclassified_view e : unclassified e -> client_view e = (Internal, "An unexpected internal error occurred"%string).
Proof. intros He. unfold client_view. cbn [classificationRules match_rules]. by rewrite !He. Qed.

(** [encoding/json] knows nothing of the application's errors. *)
Class JsonPlain `{JsonPkg} := {
  unmarshal_plain s e : json_Unmarshal s = Err e -> unclassified e;
  marshal_create_plain r e : Marshal_CreateKeyRequest r = Err e -> unclassified e;
  marshal_update_plain r e : Marshal_UpdateKeyMetadataRequest r = Err e -> unclassified e
}.

Section Plain.
Context `{MapRange} `{JsonPlain}.

(** A check that fails with unclassified errors only. *)
Definition plain {A} (r : res A) : Prop := forall e, r = Err e -> unclassified e.

Lemma plain_new {A} m : plain (Err (ErrorsNew m) : res A).
Proof. by intros e [= <-] s. Qed.
Lemma plain_ok {A} (a : A) : plain (Ok a).
Proof. done. Qed.
Lemma plain_wrap {A} p (r : res A) : plain r -> plain (map_err (Wrap p) r).
Proof. intros Hr e. destruct r as [a|e'|w]; [done| |done]. intros [= <-] s. exact (Hr e' eq_refl s). Qed.
Lemma plain_bind {A B} (r : res A) (f : A -> res B) : plain r -> (forall a, plain (f a)) -> plain (r ≫= f).
Proof. intros Hr Hf e. destruct r as [a|e'|w]; [apply Hf| |done]. intros [= <-]. exact (Hr e' eq_refl). Qed.
Lemma plain_if {A} (c : bool) (r1 r2 : res A) : plain r1 -> plain r2 -> plain (if c then r1 else r2).
Proof. by destruct c. Qed.

Create HintDb plain discriminated.
Hint Resolve plain_new plain_ok plain_wrap plain_bind plain_if : plain.

Lemma plain_size data : plain data -> plain (validateRequestSize data).
Proof.
  intros Hd. unfold validateRequestSize. destruct data as [n|e|w]; [auto with plain| |done].
  intros e' [= <-] s. exact (Hd e eq_refl s).
Qed.
Lemma plain_tags tags : plain (validateTags tags).
Proof.
  unfold validateTags. apply plain_if; [apply plain_new|].
  induction (range tags) as [|[k v] l IH]; cbn [validate_tag_list]; auto 10 with plain.
Qed.
Lemma plain_contexts cs : plain (validateAuthorizedContexts cs).
Proof.
  unfold validateAuthorizedContexts. apply plain_if; [apply plain_new|]. generalize (∅ : gset string).
  induction cs as [|c cs IH]; intros seen; cbn [validate_context_list]; auto 10 with plain.
Qed.
Lemma plain_policies ps : plain (validateAccessPolicies ps).
Proof.
  unfold validateAccessPolicies. apply plain_if; [apply plain_new|].
  induction (range ps) as [|[k v] l IH]; cbn [validate_policy_list]; [auto with plain|].
  apply plain_if; [apply plain_new|]. destruct (json_Unmarshal v) as [a|e|w] eqn:E; [done| |done].
  intros e' [= <-] s. exact (unmarshal_plain v e E s).
Qed.
Lemma plain_classification c : plain (validateDataClassification c).
Proof. unfold validateDataClassification. auto 10 with plain. Qed.
Lemma plain_key_request k rc : plain (validate_key_request k rc).
Proof. unfold validate_key_request. destruct rc; auto 10 with plain. Qed.
Hint Resolve plain_size plain_tags plain_contexts plain_policies plain_classification plain_key_request : plain.

Ltac plain_step :=
  first [ apply plain_tags | apply plain_contexts | apply plain_policies | apply plain_classification | apply plain_new
        | apply plain_wrap | apply plain_bind; [|intros _] | lazymatch goal with |- plain (if _ then _ else _) => apply plain_if end ].

Lemma plain_list r : plain (ValidateListKeysRequest r).1.
Proof.
  assert (forall q, plain (validate_filters q)) as Hf.
  { intros q. unfold validate_filters.
    repeat (apply plain_if; [apply plain_new|]). repeat case_match; auto with plain. }
  unfold ValidateListKeysRequest. destruct (lr_PageSize r <? 0); [apply plain_new|].
  destruct (lr_PageSize r =? 0); [apply Hf|]. destruct (MaxQueryLimit <? lr_PageSize r); [apply plain_new|apply Hf].
Qed.

Lemma validate_request_plain req v req' : validate_request req = Some (v, req') -> plain v.
Proof.
  pose proof marshal_create_plain as Hc. pose proof marshal_update_plain as Hu.
  destruct req as [c k|t|t c| |r|r|r|k rc g|k rc|r|r|r|r|r|r|r|r]; cbn [validate_request]; try done.
  6: { pose proof (plain_list r). destruct (ValidateListKeysRequest r). by intros [= <- <-]. }
  all: intros [= <- <-].
  - unfold ValidateAuthenticateRequest. auto with plain.
  - unfold ValidateRefreshTokenRequest. auto with plain.
  - unfold ValidateRevokeTokenRequest. auto with plain.
  - apply plain_key_request.
  - unfold ValidateCreateKeyRequest, description_too_long.
    repeat plain_step. apply plain_size. intros e. apply Hc.
  - apply plain_key_request.
  - apply plain_key_request.
  - unfold ValidateUpdateKeyMetadataRequest, description_too_long.
    repeat plain_step. apply plain_size. intros e. apply Hu.
  - apply plain_key_request.
Qed.

End Plain.

(** ** Theorems *)

Section Theorems.
Context `{UuidPkg} `{CryptoPkg} `{AwsKms} `{Sha256Pkg} `{TimeFormat} `{MapRange} `{JsonPkg} `{RatePkg} `{JwtPkgOk}
  `{BcryptPkg} `{GrpcStatus} {S C T : Type} `{KeyRepository S} `{ClientStore C} `{TokenStoreOk T}.
Abbreviation W := (St (Server S C PrivateKey T)).

(** C1: nothing but [Authenticate] and [HealthCheck] is served to strangers.
    A call of any other method is answered without error only if its
    [authorization] header carries a bearer token the interceptor's manager
    accepts, the limiter let that client pass, the request passed its
    validator, and the handler then ran on the validated request for the user
    and roles the token names; a call without such a token is told
    [Unauthenticated] or [ResourceExhausted] and reaches neither the service
    nor the authorizer. *)
Theorem served_only_authenticated registered order rotate inc req (w w' : W) r :
  serve registered order rotate inc req w = (r, w') -> Prelude.contains unprotectedMethods (FullMethod req) = false ->
  (forall resp, r = Ok resp -> exists token c req' ctx (w1 w2 : W),
      authenticated (in_md inc) w token c
      /\ (validate_request req = Some (Ok tt, req') \/ validate_request req = None /\ req' = req)
      /\ UserFromContext (g_vals ctx) = Some (mkUser (cl_UserID c) (cl_Roles c))
      /\ polykey (repo w1) = polykey (repo w) /\ clock w1 = clock w
      /\ dispatch order rotate ctx req' w1 = (Ok resp, w2) /\ polykey (repo w') = polykey (repo w2))
  /\ ((forall token c, ~ authenticated (in_md inc) w token c) ->
      (exists msg, r = Err (StatusError Unauthenticated msg) \/ r = Err (StatusError ResourceExhausted msg))
      /\ polykey (repo w') = polykey (repo w) /\ sv_auth (repo w') = sv_auth (repo w) /\ heap w' = heap w).
Proof.
  intros E Hm. destruct (inner_call registered order rotate inc req w) as [r1 w1] eqn:Hc.
  assert (r = r1 /\ polykey (repo w') = polykey (repo w1) /\ sv_auth (repo w') = sv_auth (repo w1) /\ heap w' = heap w1)
    as (-> & Hpk & Hau & Hhp).
  { destruct r1 as [a|e|p].
    - destruct (serve_run registered order rotate inc req w w1 (Ok a) Hc ltac:(done)) as (e & Hs & _).
      rewrite Hs in E. by simplify_eq.
    - destruct (serve_run registered order rotate inc req w w1 (Err e) Hc ltac:(done)) as (e' & Hs & _).
      rewrite Hs in E. by simplify_eq.
    - apply serve_panic in Hc. rewrite Hc in E. by simplify_eq. }
  unfold inner_call in Hc.
  destruct (AuthenticationInterceptor_cases (logged_ctx inc w) req (FullMethod req)
    (λ ctx req', UnaryValidationInterceptor registered ctx req' (FullMethod req) (dispatch order rotate)) (drawn_id w) Hm)
    as [(token & c & Ha & Hr)|(code & msg & w2 & Hr & Hw)]; rewrite Hr in Hc.
  - split; [|intros Hno; by destruct (Hno token c)]. intros resp ->.
    set (ctx := NewContextWithUser (add_peer_cert (logged_ctx inc w)) (user_of c)) in *.
    set (w0 := asked_limiter (cl_UserID c) (drawn_id w)) in *.
    destruct (UnaryValidationInterceptor_cases registered ctx req (FullMethod req) (dispatch order rotate) w0)
      as [(req' & Hv & Hd)|[(op & err & Hd)|[p Hd]]]; rewrite Hd in Hc.
    + exists token, c, req', ctx, w0, w1. by split_and!.
    + destruct (sv_refuse_run (A := response) op err w0) as (w3 & Hq & _). rewrite Hq in Hc. done.
    + done.
  - injection Hc as <- <-. split; [done|]. intros _. split.
    + exists msg. destruct Hw as [[-> _]|[-> _]]; auto.
    + destruct Hw as [[_ ->]|[_ [id ->]]]; by rewrite Hpk, Hau, Hhp.
Qed.

(** A token that [Authenticate] issued is valid while it lives, for managers
    with the signing key of the issuer that have not listed it. *)
Lemma issued_validates clientId apiKey resp (w w1 w2 : W) :
  rpc_Authenticate clientId apiKey w = (Ok resp, w1) ->
  privateKey (sv_tokens (repo w2)) = privateKey (tokenManager (sv_auth (repo w))) ->
  let id := uuid_String (default uuid_Nil (head (tm_newIds (tokenManager (sv_auth (repo w)))))) in
  (forall client, FindClientByID (clientStore (sv_auth (repo w))) clientId = Ok client ->
     clean_claims (mkClaims (cli_ID client) (cli_Permissions client) id None None None) = true) ->
  clock w2 <= clock w + tokenTTL (sv_auth (repo w)) - Second ->
  ts_IsRevoked (clock w2) id (tokenStore (sv_tokens (repo w2))) = false ->
  exists client c, FindClientByID (clientStore (sv_auth (repo w))) clientId = Ok client
    /\ CompareHashAndPassword (cli_HashedAPIKey client) apiKey = None
    /\ (ValidateToken (ap_AccessToken resp) (set_repo (sv_tokens (repo w2)) w2)).1 = Ok c
    /\ cl_UserID c = cli_ID client /\ cl_Roles c = cli_Permissions client.
Proof.
  intros E Hk id Hcl Hck Hnr.
  assert (exists ar wa, with_auth (Authenticate clientId apiKey) w = (Ok ar, wa) /\ ap_AccessToken resp = ar_AccessToken ar) as (ar & wa & Ha & Htok).
  { unfold rpc_Authenticate in E. destruct (_ || _); [done|]. apply bind_ok in E as (ar & wa & E1 & E2).
    unfold on_err in E1. destruct (with_auth _ w) as [[x|e|p] w'] eqn:Ew; cbn in E1; simplify_eq.
    exists ar, wa. split; [done|]. erewrite bind_eq in E2 by done. by injection E2 as <- _. }
  unfold with_auth, with_inner in Ha. destruct (Authenticate clientId apiKey _) as [r0 w0] eqn:Hau. injection Ha as -> _.
  apply Authenticate_ok in Hau as (client & Hf & Hb & Hg & _). cbn [repo set_repo] in Hf, Hg. specialize (Hcl client Hf).
  apply GenerateToken_signed in Hg as Hs. cbn [repo set_repo clock] in Hs.
  apply sign_carries in Hs as (Hp & Hme & Hv); [|exact Hcl].
  pose proof (numeric_date (clock w + tokenTTL (sv_auth (repo w)))) as Hn.
  eexists client, _. split_and!; [done|done| | |].
  - rewrite Htok. apply ValidateToken_ok. split_and!.
    + exact Hp.
    + split; cbn; [intros ? [= <-]; lia|done].
    + exists SigningMethodRS256. split_and!; [done|done|]. cbn [repo set_repo]. by rewrite Hk.
    + done.
  - done.
  - done.
Qed.

Lemma bearer_header (md : gmap string (list string)) token :
  md !! "authorization"%string = Some [bearerPrefix +:+ token] -> token <> ""%string -> bearer_token (Some md) = Ok token.
Proof.
  intros Hh Hne. unfold bearer_token. rewrite Hh. unfold default, from_option, Datatypes.id.
  rewrite (proj2 (strip_prefix_spec bearerPrefix _ token) eq_refl). by rewrite (proj2 (String.eqb_neq _ _) Hne).
Qed.

(** An authenticated call reaches the handler. *)
Lemma authenticated_passes {A} ctx req method (handler : UnaryHandler A) (w : W) token c :
  Prelude.contains unprotectedMethods method = false -> authenticated (in_md (g_in ctx)) w token c ->
  AuthenticationInterceptor ctx req method handler w
  = handler (NewContextWithUser (add_peer_cert ctx) (user_of c)) req (asked_limiter (cl_UserID c) w).
Proof.
  intros Hm (Hb & Hv & Ha). unfold AuthenticationInterceptor. rewrite Hm, add_peer_cert_md, Hb.
  unfold mbind, GoM_bind, lift_res, on_err. rewrite validate_in_server, Hv. cbn [map_err]. by rewrite sv_Allow_run, Ha.
Qed.


(** every call that ends is logged once, with its method, the status code
    the client receives and the text of its error. *)
Theorem calls_logged_once registered order rotate inc req (w w' : W) r :
  serve registered order rotate inc req w = (r, w') -> (forall p, r <> Panic p) ->
  exists e, sv_log (repo w') = sv_log (repo w) ++ [e] /\ lg_method e = FullMethod req
    /\ lg_code e = status_code r /\ lg_error e = match r with Err err => Some (Error err) | _ => None end.
Proof.
  intros E Hp. destruct (inner_call registered order rotate inc req w) as [r1 w1] eqn:Hc.
  assert (forall p, r1 <> Panic p) as Hp1.
  { intros p ->. apply serve_panic in Hc. rewrite Hc in E. simplify_eq. by destruct (Hp p). }
  destruct (serve_run registered order rotate inc req w w1 r1 Hc Hp1) as (e & Hs & Hmeth & Hcode & Herr).
  rewrite Hs in E. injection E as <- <-. exists e. split_and!; [|done..].
  cbn [repo set_repo sv_log set_log]. by rewrite (inner_call_log _ _ _ _ _ _ _ _ Hc).
Qed.


End Theorems.

(** ** A concrete server *)

#[local] Existing Instance HexUuid.
#[local] Existing Instance ToyCrypto.
#[local] Existing Instance ToyAws.
#[local] Existing Instance ToySha.
#[local] Existing Instance ToyRate.
#[local] Existing Instance ToyJwt.
#[local] Existing Instance ToyJwtOk.
#[local] Existing Instance ToyJson.

Definition ToyTime : TimeFormat := {| time_Format := λ t, pretty t; time_Parse := λ _, Err (ErrorsNew "parsing time") |}.
Definition ToyBcrypt : BcryptPkg := {|
  CompareHashAndPassword := λ _ pw, if String.eqb pw "s3cret" then None else Some (ErrorsNew "hashedPassword is not the hash of the given password")
|}.
Definition ToyStatus : GrpcStatus := {| status_FromError := λ e, match e with StatusError c _ => Some c | _ => None end |}.
Definition ListRange' : MapRange := {| range := map_to_list; range_perm := λ m, reflexivity _ |}.
#[local] Existing Instance ToyTime.
#[local] Existing Instance ToyBcrypt.
#[local] Existing Instance ToyStatus.
#[local] Existing Instance ListRange'.

Lemma ToyJsonPlain : JsonPlain.
Proof. split; cbn; try done. intros s e. case_match; [|done]. by intros [= <-]. Qed.
#[local] Existing Instance ToyJsonPlain.

(** [alice] owns a key (see [Rpc.v]); the container and the server parse the
    same PEM. *)
Definition ex_sv_cfg : Config := set_Bootstrap (mkSecrets "" "" "pem" "" "" "" "" "" "" "") ex_Config.
Definition ex_clients : FileClientStore :=
  mkFileClientStore {[ "alice"%string := mkClient "alice" ex_hash ["user"%string]; "mallory"%string := mkClient "mallory" ex_hash ["user"%string] ]}.
Definition ex_auth : authService FileClientStore (@PrivateKey ToyJwt) inMemoryTokenStore :=
  NewAuthService ex_clients (mkTM ("pem"%string : @PrivateKey ToyJwt) NewInMemoryTokenStore [] [mkUuid 7 eq_refl; mkUuid 8 eq_refl]) Hour.
Definition ex_sv : St (Server PSQLAdapter FileClientStore (@PrivateKey ToyJwt) inMemoryTokenStore) :=
  match New NewInMemoryTokenStore [] [mkUuid 21 eq_refl] (Ok 50053) ex_sv_cfg (repo ex_shared) ex_auth true with
  | Ok (s, _) => set_repo s ex_shared
  | _ => set_repo (mkServer (repo ex_shared) ex_auth (mkTM ("pem"%string : @PrivateKey ToyJwt) NewInMemoryTokenStore [] [])
           (NewInMemoryRateLimiter (SpecFloat.S754_zero false) 0) [] [] ex_sv_cfg None false) ex_shared
  end.

Definition ex_rotate : string -> Z -> M (St (keyServiceImpl PSQLAdapter)) RotateKeyResponse :=
  λ _ _, fail (ErrorsNew "rotation pipeline is not running").
Definition ex_login := rpc_Authenticate "alice" "s3cret" ex_sv.
Definition ex_access : AuthenticateResponse := match ex_login.1 with Ok r => r | _ => mkAuthResp "" "" 0 0 end.
Definition ex_md (token : string) : gmap string (list string) := {[ "authorization"%string := [bearerPrefix +:+ token] ]}.
Definition ex_inc (token : string) : Incoming := mkIncoming None (Some (ex_md token)).
Definition ex_call (token : string) := serve (Ok tt) [] ex_rotate (ex_inc token) (ReqGetKey (ex_get_by "alice")).

Lemma served_only_authenticated_witness :
  is_ok (ex_call (ap_AccessToken ex_access) ex_login.2).1 = true
  /\ (exists token c, authenticated (Some (ex_md (ap_AccessToken ex_access))) ex_login.2 token c)
  /\ polykey (repo (ex_call "forged" ex_login.2).2) = polykey (repo ex_login.2).
Proof.
  assert (exists resp, (ex_call (ap_AccessToken ex_access) ex_login.2).1 = Ok resp) as [resp Hr]
    by (eexists; vm_compute; reflexivity).
  split; [by rewrite Hr|]. split.
  - destruct (served_only_authenticated (Ok tt) [] ex_rotate (ex_inc (ap_AccessToken ex_access)) (ReqGetKey (ex_get_by "alice"))
      ex_login.2 (ex_call (ap_AccessToken ex_access) ex_login.2).2 (ex_call (ap_AccessToken ex_access) ex_login.2).1
      (surjective_pairing _) eq_refl) as [Hok _].
    destruct (Hok resp Hr) as (token & c & _ & _ & _ & _ & Ha & _). exists token, c. exact Ha.
  - apply (served_only_authenticated (Ok tt) [] ex_rotate (ex_inc "forged") (ReqGetKey (ex_get_by "alice"))
      ex_login.2 (ex_call "forged" ex_login.2).2 (ex_call "forged" ex_login.2).1 (surjective_pairing _) eq_refl).
    intros token c (Hb & Hv & _).
    assert (token = "forged"%string) as -> by (vm_compute in Hb; by injection Hb).
    vm_compute in Hv. discriminate.
Defined.

Lemma calls_logged_once_witness :
  exists e, sv_log (repo (ex_call "forged" ex_login.2).2) = sv_log (repo ex_login.2) ++ [e] /\ lg_code e = Unauthenticated.
Proof.
  assert ((ex_call "forged" ex_login.2).1 = Err (StatusError Unauthenticated "invalid token: token is malformed")) as Hr
    by (vm_compute; reflexivity).
  destruct (calls_logged_once (Ok tt) [] ex_rotate (ex_inc "forged") (ReqGetKey (ex_get_by "alice"))
      ex_login.2 (ex_call "forged" ex_login.2).2 (ex_call "forged" ex_login.2).1 (surjective_pairing _)
      ltac:(rewrite Hr; discriminate)) as (e & Hl & _ & Hc & _).
  exists e. split; [exact Hl|]. rewrite Hc, Hr. reflexivity.
Defined.

Definition ex_handler : UnaryHandler (S := PSQLAdapter) (C := FileClientStore) (T := inMemoryTokenStore) (option AuthenticatedUser) :=
  λ ctx _, mret (UserFromContext (g_vals ctx)).



(** Two managers, two revocation lists: a token revoked through the manager of
    the authentication service is still accepted by the interceptor. *)
Theorem revocation_not_shared :
  let revoked := with_auth (with_tokens (Revoke (ap_AccessToken ex_access))) ex_login.2 in
  revoked.1 = Ok tt
  /\ is_ok (ValidateToken (ap_AccessToken ex_access) (set_repo (tokenManager (sv_auth (repo revoked.2))) revoked.2)).1 = false
  /\ is_ok (ex_call (ap_AccessToken ex_access) revoked.2).1 = true.
Proof. vm_compute. done. Qed.

(** The two ways [Authenticate] fails can be told apart by the caller. *)
Theorem authenticate_reveals_clients :
  (rpc_Authenticate "nobody" "guess" ex_sv).1
    = Err (StatusError Unauthenticated "authentication failed: authentication failed: client not found: client ID 'nobody'")
  /\ (rpc_Authenticate "alice" "guess" ex_sv).1
    = Err (StatusError Unauthenticated "authentication failed: authentication failed: invalid credentials").
Proof. split; vm_compute; reflexivity. Qed.
