(* ===== verification/AuditTrail.v ===== *)
(** * Audit logging

    Models [internal/domain/audit.go], [internal/infra/audit/] and
    [internal/infra/persistence/audit_repository.go] over the table of
    [migrations/003_create_audit_events_table.up.sql].  The synchronous logger
    is a function; the asynchronous one, whose workers interleave with the
    callers, is a transition system: a call of [AuditLog], one receive, one
    tick, one exit of a worker are each one step.  Lines written to the process
    log are left out except for what the structured logger builds. *)

From S2P Require Import Prelude Errors Domain Repo Psql Authorizer Service Config Server.

(** ** domain/audit.go *)

Record AuditEvent := mkEvent {
  ev_ID : string;
  ev_ClientIdentity : string;
  ev_Operation : string;
  ev_KeyID : string;
  ev_AuthDecisionID : string;
  ev_Success : bool;
  ev_Error : string;
  ev_Timestamp : Z;
  ev_RequestMetadata : gmap string string
}.

#[export] Instance AuditEvent_eq_dec : EqDecision AuditEvent.
Proof. solve_decision. Defined.

(** What [AuditLog] is called with. *)
Record AuditCall := mkCall {
  ac_client : string; ac_operation : string; ac_key : string; ac_decision : string; ac_success : bool; ac_err : option error
}.

(** ** audit_repository.go *)

(** The columns of [audit_events]: no request metadata, microseconds. *)
Definition row_of (e : AuditEvent) : AuditEvent :=
  mkEvent (ev_ID e) (ev_ClientIdentity e) (ev_Operation e) (ev_KeyID e) (ev_AuthDecisionID e) (ev_Success e) (ev_Error e)
    (pg_ts (ev_Timestamp e)) ∅.

(** As in [Psql.v], each statement first takes the next driver fault. *)
Record AuditDB := mkAuditDB { audit_rows : list AuditEvent; audit_faults : list (option error) }.

Definition audit_fault : M AuditDB unit := λ d,
  match audit_faults d with
  | Some e :: fs => (Err e, mkAuditDB (audit_rows d) fs)
  | None :: fs => (Ok tt, mkAuditDB (audit_rows d) fs)
  | [] => (Ok tt, d)
  end.

(** VARCHAR counts characters: bytes that do not continue one. *)
Definition char_count (s : string) : Z :=
  Z.of_nat (length (filter (λ a, negb ((128 <=? Ascii.N_of_ascii a)%N && (Ascii.N_of_ascii a <? 192)%N) = true)
    (String.list_ascii_of_string s))).

Definition fits_row (e : AuditEvent) : bool :=
  forallb (λ s, char_count s <=? 255) [ev_ClientIdentity e; ev_Operation e; ev_KeyID e; ev_AuthDecisionID e].

(** The constraints of the table, for one more row. *)
Definition row_error (rows : list AuditEvent) (e : AuditEvent) : option error :=
  if negb (fits_row e) then Some (PgError "22001" "value too long for type character varying(255)")
  else if existsb (λ r, String.eqb (ev_ID r) (ev_ID e)) rows
  then Some (PgError "23505" "duplicate key value violates unique constraint")
  else None.

(** One statement inserts all of its rows or none. *)
Fixpoint insert_rows (rows new : list AuditEvent) : error + list AuditEvent :=
  match new with
  | [] => inr rows
  | e :: new' =>
      match row_error rows e with
      | Some err => inl err
      | None => insert_rows (rows ++ [row_of e]) new'
      end
  end.

Definition insert_stmt (new : list AuditEvent) : M AuditDB unit := λ d,
  match insert_rows (audit_rows d) new with
  | inl err => (Err err, d)
  | inr rows => (Ok tt, mkAuditDB rows (audit_faults d))
  end.

Definition insert_all (new : list AuditEvent) : M AuditDB unit := _ ← audit_fault; insert_stmt new.

Definition CreateAuditEvent (event : AuditEvent) : M AuditDB unit := insert_all [event].

Definition CreateAuditEventsBatch (events : list AuditEvent) : M AuditDB unit :=
  if (length events =? 0)%nat then mret tt else insert_all events.

(** [ORDER BY timestamp DESC] *)
Definition newest_first (a b : AuditEvent) : Prop := ev_Timestamp b <= ev_Timestamp a.
#[export] Instance newest_first_dec a b : Decision (newest_first a b).
Proof. unfold newest_first. apply _. Defined.
#[export] Instance newest_first_total : Total newest_first.
Proof. intros a b. unfold newest_first. lia. Qed.
#[export] Instance newest_first_trans : Transitive newest_first.
Proof. intros a b c. unfold newest_first. lia. Qed.

(** The query. *)
Definition history_rows (keyID : string) (limit : nat) (rows : list AuditEvent) : list AuditEvent :=
  take limit (merge_sort newest_first (filter (λ r, ev_KeyID r = keyID) rows)).

(** [cut] is the number of rows after which the connection breaks, if it
    does: [rows.Next] then returns false, as at the end, and [rows.Err] is not
    looked at. *)
Definition scan_history (cut : option nat) (keyID : string) (limit : Z) : M AuditDB (list AuditEvent) := λ d,
  if limit <? 0 then (Err (PgError "2201W" "LIMIT must not be negative"), d)
  else
    let result := history_rows keyID (Z.to_nat limit) (audit_rows d) in
    (Ok (match cut with Some n => take n result | None => result end), d).

Definition GetAuditHistory (cut : option nat) (keyID : string) (limit : Z) : M AuditDB (list AuditEvent) :=
  _ ← audit_fault; scan_history cut keyID limit.

(** ** audit_logger.go *)

Definition extractUserAgent (inc : Incoming) : string :=
  match in_md inc with
  | None => "unknown"
  | Some md => match default [] (md !! "user-agent"%string) with [] => "unknown" | ua :: _ => ua end
  end.

Definition extractSourceIP (inc : Incoming) : string :=
  match in_peer inc with None => "unknown" | Some p => peer_Addr p end.

(** [err.Error()] of a possibly nil error *)
Definition err_text (err : option error) : string := match err with Some e => Error e | None => "" end.

Definition new_event (id : string) (now : Z) (c : AuditCall) (md : gmap string string) : AuditEvent :=
  mkEvent id (ac_client c) (ac_operation c) (ac_key c) (ac_decision c) (ac_success c) (err_text (ac_err c)) now md.

(** The line [Logger.AuditLog] writes to the process log. *)
Definition audit_attrs (ctx : GCtx) (e : AuditEvent) (c : AuditCall) : list (string * string) :=
  [("audit_id", ev_ID e); ("correlation_id", CorrelationIDFromContext ctx); ("client_identity", ac_client c);
   ("operation", ac_operation c); ("key_id", ac_key c); ("auth_decision_id", ac_decision c);
   ("success", if ac_success c then "true" else "false"); ("timestamp", pretty (ev_Timestamp e))]%string
  ++ match ac_err c with Some err => [("error"%string, Error err)] | None => [] end.

(** [Logger.AuditLog]: the repository's error is logged and dropped;
    [auditRepo] may be nil. *)
Definition AuditLog (ctx : GCtx) (id : string) (now : Z) (c : AuditCall) (auditRepo : option AuditDB)
  : list (string * string) * option AuditDB :=
  let inc := g_in ctx in
  let event := new_event id now c
    (<["user_agent"%string := extractUserAgent inc]> {[ "source_ip"%string := extractSourceIP inc ]}) in
  (audit_attrs ctx event c,
   match auditRepo with
   | None => None
   | Some d => Some (CreateAuditEvent event d).2
   end).

(** ** async_audit_logger.go *)

Inductive async_worker : Type := WRunning (batch : list AuditEvent) | WDone.

Record AsyncAuditLogger := mkAsync {
  a_config : AsynchronousAuditingConfig;
  eventChannel : list AuditEvent;
  a_closed : bool;
  workers : list async_worker;
  a_repo : AuditDB;
  (* ghost: where the events went *)
  written : list AuditEvent;
  lost : list AuditEvent;
  dropped : list AuditEvent
}.

Definition NewAsyncAuditLogger (repo : AuditDB) (config : AsynchronousAuditingConfig) : res AsyncAuditLogger :=
  if ChannelBufferSize config <? 0 then Panic "makechan: size out of range"
  else Ok (mkAsync config [] false [] repo [] [] []).

(** [Start]; the tickers and buffers of the goroutines are made here. *)
Definition Start (l : AsyncAuditLogger) : res AsyncAuditLogger :=
  let c := a_config l in
  if WorkerCount c <? 0 then Panic "sync: negative WaitGroup counter"
  else if (0 <? WorkerCount c) && (BatchTimeout c <=? 0) then Panic "non-positive interval for NewTicker"
  else if (0 <? WorkerCount c) && (BatchSize c <? 0) then Panic "makeslice: cap out of range"
  else Ok (mkAsync c (eventChannel l) (a_closed l) (replicate (Z.to_nat (WorkerCount c)) (WRunning [])) (a_repo l)
             (written l) (lost l) (dropped l)).

(** [writeBatchToDB]: a failed batch is logged and forgotten. *)
Definition writeBatchToDB (batch : list AuditEvent) (l : AsyncAuditLogger) : AsyncAuditLogger :=
  if (length batch =? 0)%nat then l
  else match CreateAuditEventsBatch batch (a_repo l) with
  | (Ok _, d) => mkAsync (a_config l) (eventChannel l) (a_closed l) (workers l) d (written l ++ batch) (lost l) (dropped l)
  | (_, d) => mkAsync (a_config l) (eventChannel l) (a_closed l) (workers l) d (written l) (lost l ++ batch) (dropped l)
  end.

Definition set_channel (ch : list AuditEvent) (l : AsyncAuditLogger) : AsyncAuditLogger :=
  mkAsync (a_config l) ch (a_closed l) (workers l) (a_repo l) (written l) (lost l) (dropped l).
Definition set_worker (i : nat) (wk : async_worker) (l : AsyncAuditLogger) : AsyncAuditLogger :=
  mkAsync (a_config l) (eventChannel l) (a_closed l) (<[i := wk]> (workers l)) (a_repo l) (written l) (lost l) (dropped l).
Definition set_dropped (es : list AuditEvent) (l : AsyncAuditLogger) : AsyncAuditLogger :=
  mkAsync (a_config l) (eventChannel l) (a_closed l) (workers l) (a_repo l) (written l) (lost l) es.

(** The [select] of [AuditLog]: a send on a closed channel panics, a full
    channel drops the event. *)
Definition send_event (e : AuditEvent) (l : AsyncAuditLogger) : res AsyncAuditLogger :=
  if a_closed l then Panic "send on closed channel"
  else if Z.of_nat (length (eventChannel l)) <? ChannelBufferSize (a_config l)
  then Ok (set_channel (eventChannel l ++ [e]) l)
  else Ok (set_dropped (dropped l ++ [e]) l).

Definition Async_AuditLog (id : string) (now : Z) (c : AuditCall) (l : AsyncAuditLogger) : res AsyncAuditLogger :=
  send_event (new_event id now c ∅) l.

(** [close(l.eventChannel)]; [Stop] then waits for the workers. *)
Definition close_channel (l : AsyncAuditLogger) : res AsyncAuditLogger :=
  if a_closed l then Panic "close of closed channel"
  else Ok (mkAsync (a_config l) (eventChannel l) true (workers l) (a_repo l) (written l) (lost l) (dropped l)).

(** [batch = append(batch, event)] and the check that follows. *)
Definition take_event (i : nat) (batch : list AuditEvent) (e : AuditEvent) (l : AsyncAuditLogger) : AsyncAuditLogger :=
  let batch := batch ++ [e] in
  if BatchSize (a_config l) <=? Z.of_nat (length batch)
  then set_worker i (WRunning []) (writeBatchToDB batch l)
  else set_worker i (WRunning batch) l.

Inductive action : Type :=
| ALog (e : AuditEvent)                 (* a caller's send or drop *)
| AHandOff (i : nat) (e : AuditEvent)   (* a send to a waiting worker: an unbuffered channel *)
| AClose
| ARecv (i : nat)                       (* worker i receives *)
| ATick (i : nat)                       (* worker i's ticker, with a batch to write *)
| AExit (i : nat).                      (* worker i sees the closed, empty channel *)

(** [None] when the action is not possible. *)
Definition astep (a : action) (l : AsyncAuditLogger) : option AsyncAuditLogger :=
  match a with
  | ALog e => match send_event e l with Ok l' => Some l' | _ => None end
  | AHandOff i e =>
      match workers l !! i with
      | Some (WRunning batch) =>
          if a_closed l || negb (ChannelBufferSize (a_config l) =? 0) then None else Some (take_event i batch e l)
      | _ => None
      end
  | AClose => match close_channel l with Ok l' => Some l' | _ => None end
  | ARecv i =>
      match workers l !! i, eventChannel l with
      | Some (WRunning batch), e :: ch => Some (take_event i batch e (set_channel ch l))
      | _, _ => None
      end
  | ATick i =>
      match workers l !! i with
      | Some (WRunning ((_ :: _) as batch)) => Some (set_worker i (WRunning []) (writeBatchToDB batch l))
      | _ => None
      end
  | AExit i =>
      match workers l !! i, eventChannel l with
      | Some (WRunning batch), [] =>
          if a_closed l then Some (set_worker i WDone (writeBatchToDB batch l)) else None
      | _, _ => None
      end
  end.

Fixpoint arun (acts : list action) (l : AsyncAuditLogger) : option AsyncAuditLogger :=
  match acts with
  | [] => Some l
  | a :: acts' => match astep a l with Some l' => arun acts' l' | None => None end
  end.

(** The events callers handed to [AuditLog] in a run. *)
Definition submitted (acts : list action) : list AuditEvent :=
  omap (λ a, match a with ALog e | AHandOff _ e => Some e | _ => None end) acts.

Definition is_worker_action (a : action) : bool :=
  match a with ARecv _ | ATick _ | AExit _ => true | _ => false end.

(** ** Where events are *)

Definition batch_of (wk : async_worker) : list AuditEvent := match wk with WRunning b => b | WDone => [] end.
Definition batches (l : AsyncAuditLogger) : list AuditEvent := concat (batch_of <$> workers l).

(** Everything a run was given. *)
Definition accounted (l : AsyncAuditLogger) : list AuditEvent :=
  eventChannel l ++ batches l ++ written l ++ lost l ++ dropped l.

(** ** Permutations by counting *)

Definition occ (x : AuditEvent) (l : list AuditEvent) : nat := count_occ AuditEvent_eq_dec l x.

Lemma occ_app x l1 l2 : occ x (l1 ++ l2) = (occ x l1 + occ x l2)%nat.
Proof. apply count_occ_app. Qed.

Lemma occ_perm l1 l2 : l1 ≡ₚ l2 <-> forall x, occ x l1 = occ x l2.
Proof. apply (Permutation_count_occ AuditEvent_eq_dec). Qed.

Lemma occ_insert x (l : list async_worker) i wk wk' :
  l !! i = Some wk ->
  (occ x (concat (batch_of <$> <[i := wk']> l)) + occ x (batch_of wk)
   = occ x (concat (batch_of <$> l)) + occ x (batch_of wk'))%nat.
Proof.
  revert i. induction l as [|w0 l IH]; intros [|i] Hl; simplify_eq/=; rewrite !occ_app; [lia|].
  specialize (IH i Hl). lia.
Qed.

Lemma insert_rows_ok rows new rows' : insert_rows rows new = inr rows' -> rows' = rows ++ (row_of <$> new).
Proof.
  revert rows. induction new as [|e new IH]; intros rows; cbn [insert_rows].
  - intros [= <-]. by rewrite app_nil_r.
  - destruct (row_error rows e); [done|]. intros ->%IH. by rewrite <-app_assoc.
Qed.

(** A statement appends the rows of its events, or leaves the table alone. *)
Lemma insert_all_run new d r d' : insert_all new d = (r, d') ->
  audit_rows d' = audit_rows d ++ (if is_ok r then row_of <$> new else []) /\ (forall p, r <> Panic p).
Proof.
  unfold insert_all, audit_fault, insert_stmt. go_unfold.
  destruct (audit_faults d) as [|[e|] fs]; cbn [audit_rows audit_faults].
  2: { intros [= <- <-]. by rewrite app_nil_r. }
  all: destruct (insert_rows (audit_rows d) new) as [err|rows] eqn:E; intros [= <- <-]; cbn;
    rewrite ?app_nil_r; (split; [|done]); try done; by apply insert_rows_ok.
Qed.

Lemma writeBatchToDB_run batch l :
  let l' := writeBatchToDB batch l in
  a_config l' = a_config l /\ eventChannel l' = eventChannel l /\ a_closed l' = a_closed l /\ workers l' = workers l
  /\ dropped l' = dropped l
  /\ (written l' = written l ++ batch /\ lost l' = lost l /\ audit_rows (a_repo l') = audit_rows (a_repo l) ++ (row_of <$> batch)
      \/ written l' = written l /\ lost l' = lost l ++ batch /\ audit_rows (a_repo l') = audit_rows (a_repo l)).
Proof.
  unfold writeBatchToDB, CreateAuditEventsBatch. destruct batch as [|e batch].
  - cbn. split_and!; try done. left. by rewrite !app_nil_r.
  - cbn [length Nat.eqb]. destruct (insert_all (e :: batch) (a_repo l)) as [r d] eqn:E.
    apply insert_all_run in E as [Hr Hp]. destruct r as [u|err|p]; cbn in Hr |- *; split_and!; try done.
    + by left.
    + right. by rewrite Hr, app_nil_r.
    + by destruct (Hp p).
Qed.

#[local] Opaque writeBatchToDB.

Ltac afields := cbn [eventChannel workers written lost dropped a_config a_closed a_repo set_worker set_channel set_dropped batch_of].

(** [take_event] moves one event into the worker's batch, or the batch on. *)
Lemma take_event_run i batch e l :
  workers l !! i = Some (WRunning batch) ->
  let l' := take_event i batch e l in
  a_config l' = a_config l /\ eventChannel l' = eventChannel l /\ a_closed l' = a_closed l
  /\ (exists b, workers l' = <[i := WRunning b]> (workers l) /\ (b = [] \/ b = batch ++ [e]))
  /\ (forall x, occ x (accounted l') = (occ x (accounted l) + occ x [e])%nat)
  /\ exists ws, written l' = written l ++ ws /\ audit_rows (a_repo l') = audit_rows (a_repo l) ++ (row_of <$> ws).
Proof.
  intros Hi. unfold take_event. destruct (_ <=? _).
  - destruct (writeBatchToDB_run (batch ++ [e]) l) as (Hcfg & Hch & Hcl & Hwk & Hdr & Hw). afields.
    rewrite Hcfg, Hch, Hcl, Hwk. split_and!; [done..|eauto| |].
    + intros x. unfold accounted, batches. afields. rewrite Hch, Hwk, Hdr, !occ_app.
      pose proof (occ_insert x (workers l) i (WRunning batch) (WRunning []) Hi) as Ho. cbn [batch_of] in Ho.
      destruct Hw as [(-> & -> & _)|(-> & -> & _)]; rewrite !occ_app; unfold occ in *; simpl in *; lia.
    + destruct Hw as [(-> & _ & ->)|(-> & _ & ->)]; [by eexists|exists []; by rewrite !app_nil_r].
  - afields. split_and!; [done..|eauto| |exists []; by rewrite !app_nil_r].
    intros x. unfold accounted, batches. afields. rewrite !occ_app.
    pose proof (occ_insert x (workers l) i (WRunning batch) (WRunning (batch ++ [e])) Hi) as Ho. cbn [batch_of] in Ho.
    rewrite occ_app in Ho. lia.
Qed.

(** One step accounts for what it was given, and stores what it wrote. *)
Lemma astep_accounted a l l' :
  astep a l = Some l' ->
  (forall x, occ x (accounted l') = (occ x (accounted l) + occ x (submitted [a]))%nat)
  /\ exists ws, written l' = written l ++ ws /\ audit_rows (a_repo l') = audit_rows (a_repo l) ++ (row_of <$> ws).
Proof.
  assert (forall l1, exists ws, written l1 = written l1 ++ ws /\ audit_rows (a_repo l1) = audit_rows (a_repo l1) ++ (row_of <$> ws)) as Hnil.
  { intros l1. exists []. by rewrite !app_nil_r. }
  destruct a as [e|i e| |i|i|i]; cbn [astep].
  - unfold send_event. destruct (a_closed l); [done|]. destruct (_ <? _); intros [= <-]; (split; [|apply (Hnil l)]); intros x;
      change (submitted [ALog e]) with [e]; unfold accounted, batches; afields; rewrite !occ_app; lia.
  - destruct (workers l !! i) as [[batch|]|] eqn:Hi; [|done..]. destruct (_ || _); [done|]. intros [= <-].
    destruct (take_event_run i batch e l Hi) as (_ & _ & _ & _ & Ho & Hw). by split.
  - unfold close_channel. destruct (a_closed l); [done|]. intros [= <-]. split; [|apply (Hnil l)]. intros x. unfold accounted, batches. afields. unfold occ. simpl. lia.
  - destruct (workers l !! i) as [[batch|]|] eqn:Hi; [|done..]. destruct (eventChannel l) as [|e ch] eqn:Hch; [done|]. intros [= <-].
    destruct (take_event_run i batch e (set_channel ch l) Hi) as (_ & _ & _ & _ & Ho & Hw). split; [|done].
    intros x. rewrite Ho. unfold accounted, batches. afields. rewrite Hch, !occ_app. unfold occ. simpl. destruct (AuditEvent_eq_dec e x); lia.
  - destruct (workers l !! i) as [[[|e b]|]|] eqn:Hi; [done| |done..]. intros [= <-].
    destruct (writeBatchToDB_run (e :: b) l) as (_ & Hch & _ & Hwk & Hdr & Hw). split.
    + intros x. unfold accounted, batches. afields. rewrite Hch, Hwk, Hdr, !occ_app.
      pose proof (occ_insert x (workers l) i (WRunning (e :: b)) (WRunning []) Hi) as Ho. cbn [batch_of] in Ho.
      destruct Hw as [(-> & -> & _)|(-> & -> & _)]; rewrite !occ_app; unfold occ in *; simpl in *; lia.
    + cbn [written a_repo set_worker]. destruct Hw as [(-> & _ & ->)|(-> & _ & ->)]; [by eexists|exists []; by rewrite !app_nil_r].
  - destruct (workers l !! i) as [[b|]|] eqn:Hi; [|done..]. destruct (eventChannel l) as [|e ch] eqn:Hch; [|done].
    destruct (a_closed l); [|done]. intros [= <-].
    destruct (writeBatchToDB_run b l) as (_ & Hch' & _ & Hwk & Hdr & Hw). split.
    + intros x. unfold accounted, batches. afields. rewrite Hch', Hwk, Hdr, Hch, !occ_app.
      pose proof (occ_insert x (workers l) i (WRunning b) WDone Hi) as Ho. cbn [batch_of] in Ho.
      destruct Hw as [(-> & -> & _)|(-> & -> & _)]; rewrite !occ_app; unfold occ in *; simpl in *; lia.
    + cbn [written a_repo set_worker]. destruct Hw as [(-> & _ & ->)|(-> & _ & ->)]; [by eexists|exists []; by rewrite !app_nil_r].
Qed.

Lemma arun_accounted acts l l' :
  arun acts l = Some l' ->
  accounted l' ≡ₚ accounted l ++ submitted acts
  /\ exists ws, written l' = written l ++ ws /\ audit_rows (a_repo l') = audit_rows (a_repo l) ++ (row_of <$> ws).
Proof.
  revert l. induction acts as [|a acts IH]; intros l; cbn [arun].
  - intros [= <-]. cbn. rewrite app_nil_r. split; [done|]. exists []. by rewrite !app_nil_r.
  - destruct (astep a l) as [l1|] eqn:E; [|done]. intros H2. apply IH in H2 as [Hp (ws2 & Hw2 & Hr2)].
    apply astep_accounted in E as [Ho (ws1 & Hw1 & Hr1)]. split.
    + apply occ_perm. intros x. rewrite (proj1 (occ_perm _ _) Hp x), !occ_app, Ho.
      replace (submitted (a :: acts)) with (submitted [a] ++ submitted acts) by (destruct a; done).
      rewrite occ_app. lia.
    + exists (ws1 ++ ws2). by rewrite Hw2, Hw1, Hr2, Hr1, fmap_app, !app_assoc.
Qed.

(** ** Shutting down *)

(** There are workers, and one that is done left an empty, closed channel. *)
Definition async_ok (l : AsyncAuditLogger) : Prop :=
  workers l <> [] /\ (WDone ∈ workers l -> a_closed l = true /\ eventChannel l = []).

Definition wcost (wk : async_worker) : nat :=
  match wk with WRunning [] => 1 | WRunning (_ :: _) => 2 | WDone => 0 end.
(** What the workers still have to do, at most. *)
Definition work_left (l : AsyncAuditLogger) : nat := 2 * length (eventChannel l) + sum_list (wcost <$> workers l).

Lemma insert_running (ws : list async_worker) i b b' :
  ws !! i = Some (WRunning b) -> WDone ∈ <[i := WRunning b']> ws -> WDone ∈ ws.
Proof.
  intros Hi [j Hj]%list_elem_of_lookup. apply list_lookup_insert_Some in Hj as [(_ & ? & _)|[_ Hj]]; [done|].
  by eapply list_elem_of_lookup_2.
Qed.

Lemma insert_nonempty (ws : list async_worker) i wk : ws <> [] -> <[i := wk]> ws <> [].
Proof. destruct ws, i; done. Qed.

Lemma astep_ok a l l' : astep a l = Some l' -> async_ok l -> async_ok l'.
Proof.
  unfold async_ok. intros E [Hne Hd]. destruct a as [e|i e| |i|i|i]; cbn [astep] in E.
  - unfold send_event in E. destruct (a_closed l) eqn:Hc; [done|].
    destruct (_ <? _); simplify_eq; afields; (split; [done|]); intros [? ?]%Hd; congruence.
  - destruct (workers l !! i) as [[b|]|] eqn:Hi; [|done..]. destruct (a_closed l || _) eqn:Hc; [done|]. simplify_eq.
    apply orb_false_iff in Hc as [Hc _].
    destruct (take_event_run i b e l Hi) as (_ & -> & -> & (b' & -> & _) & _). split; [by apply insert_nonempty|].
    intros Hin. apply (insert_running _ _ b) in Hin; [|done]. destruct (Hd Hin). congruence.
  - unfold close_channel in E. destruct (a_closed l) eqn:Hc; [done|]. simplify_eq. afields. split; [done|].
    intros [? ?]%Hd. congruence.
  - destruct (workers l !! i) as [[b|]|] eqn:Hi; [|done..]. destruct (eventChannel l) as [|e ch] eqn:Hch; [done|]. simplify_eq.
    destruct (take_event_run i b e (set_channel ch l) Hi) as (_ & -> & -> & (b' & -> & _) & _). afields.
    split; [by apply insert_nonempty|]. intros Hin. apply (insert_running _ _ b) in Hin; [|done]. by destruct (Hd Hin).
  - destruct (workers l !! i) as [[[|e b]|]|] eqn:Hi; [done| |done..]. simplify_eq.
    destruct (writeBatchToDB_run (e :: b) l) as (_ & Hch & Hcl & Hwk & _). afields. rewrite Hch, Hcl, Hwk.
    split; [by apply insert_nonempty|]. intros Hin. apply (insert_running _ _ (e :: b)) in Hin; [|done]. auto.
  - destruct (workers l !! i) as [[b|]|] eqn:Hi; [|done..]. destruct (eventChannel l) eqn:Hch; [|done].
    destruct (a_closed l) eqn:Hc; [|done]. simplify_eq.
    destruct (writeBatchToDB_run b l) as (_ & Hch' & Hcl & Hwk & _). afields. rewrite Hch', Hcl, Hwk, Hch, Hc.
    split; [by apply insert_nonempty|done].
Qed.

Lemma arun_ok acts l l' : arun acts l = Some l' -> async_ok l -> async_ok l'.
Proof.
  revert l. induction acts as [|a acts IH]; intros l; cbn [arun]; [by intros [= <-]|].
  destruct (astep a l) as [l1|] eqn:E; [|done]. eauto using astep_ok.
Qed.

Lemma worker_step_work a l l' :
  astep a l = Some l' -> is_worker_action a = true -> a_closed l' = a_closed l /\ (work_left l' < work_left l)%nat.
Proof.
  unfold work_left. destruct a as [e|i e| |i|i|i]; cbn [astep is_worker_action]; intros E ?; try done.
  - destruct (workers l !! i) as [[b|]|] eqn:Hi; [|done..]. destruct (eventChannel l) as [|e ch] eqn:Hch; [done|]. simplify_eq.
    destruct (take_event_run i b e (set_channel ch l) Hi) as (_ & -> & -> & (b' & -> & _) & _). afields. split; [done|].
    pose proof (sum_insert wcost (workers l) i (WRunning b) (WRunning b') Hi) as Hc. destruct b, b'; cbn [wcost length] in *; lia.
  - destruct (workers l !! i) as [[[|e b]|]|] eqn:Hi; [done| |done..]. simplify_eq.
    destruct (writeBatchToDB_run (e :: b) l) as (_ & Hch & Hcl & Hwk & _). afields. rewrite Hch, Hcl, Hwk. split; [done|].
    pose proof (sum_insert wcost (workers l) i (WRunning (e :: b)) (WRunning []) Hi) as Hc. cbn [wcost] in Hc. lia.
  - destruct (workers l !! i) as [[b|]|] eqn:Hi; [|done..]. destruct (eventChannel l) eqn:Hch; [|done].
    destruct (a_closed l) eqn:Hcl0; [|done]. simplify_eq.
    destruct (writeBatchToDB_run b l) as (_ & Hch' & Hcl & Hwk & _). afields. rewrite Hch', Hcl, Hwk, Hch. split; [done|].
    pose proof (sum_insert wcost (workers l) i (WRunning b) WDone Hi) as Hc. destruct b; cbn [wcost length] in *; lia.
Qed.

Lemma worker_run_work acts l l' :
  arun acts l = Some l' -> forallb is_worker_action acts = true ->
  a_closed l' = a_closed l /\ (length acts + work_left l' <= work_left l)%nat.
Proof.
  revert l. induction acts as [|a acts IH]; intros l; cbn [arun forallb length]; [intros [= <-]; split; [done|lia]|].
  destruct (astep a l) as [l1|] eqn:E; [|done]. intros Hr [Ha Hw]%andb_true_iff.
  destruct (IH l1 Hr Hw) as [-> ?]. destruct (worker_step_work a l l1 E Ha) as [-> ?]. split; [done|lia].
Qed.

Lemma worker_submits_nothing acts : forallb is_worker_action acts = true -> submitted acts = [].
Proof.
  induction acts as [|a acts IH]; [done|]. cbn. intros [Ha Hw]%andb_true_iff. destruct a; try done; exact (IH Hw).
Qed.

(** Once the channel is closed, only finished workers have nothing to do. *)
Lemma stuck_done l :
  async_ok l -> a_closed l = true -> (forall a, is_worker_action a = true -> astep a l = None) ->
  Forall (λ wk, wk = WDone) (workers l) /\ eventChannel l = [] /\ batches l = [].
Proof.
  intros [Hne Hd] Hc Hstuck.
  assert (Forall (λ wk, wk = WDone) (workers l)) as Hall.
  { apply Forall_lookup_2. intros i [b|] Hi; [|done]. exfalso. destruct (eventChannel l) as [|e ch] eqn:Hch.
    - specialize (Hstuck (AExit i) eq_refl). cbn [astep] in Hstuck. by rewrite Hi, Hch, Hc in Hstuck.
    - specialize (Hstuck (ARecv i) eq_refl). cbn [astep] in Hstuck. by rewrite Hi, Hch in Hstuck. }
  split; [done|]. split.
  - apply Hd. destruct (workers l) as [|wk ws]; [done|]. apply Forall_cons in Hall as [-> _]. left.
  - unfold batches. clear -Hall. induction Hall as [|wk ws -> _ IH]; [done|]. exact IH.
Qed.

(** A logger that has just been started. *)
Definition started (repo : AuditDB) (cfg : AsynchronousAuditingConfig) : AsyncAuditLogger :=
  mkAsync cfg [] false (replicate (Z.to_nat (WorkerCount cfg)) (WRunning [])) repo [] [] [].

Lemma started_eq repo cfg l0 l1 : NewAsyncAuditLogger repo cfg = Ok l0 -> Start l0 = Ok l1 -> l1 = started repo cfg.
Proof.
  unfold NewAsyncAuditLogger, Start. intros Hn Hs. destruct (_ <? 0); simplify_eq. cbn [a_config] in Hs.
  destruct (WorkerCount cfg <? 0); [done|]. destruct (_ && (BatchTimeout cfg <=? 0)); [done|].
  destruct (_ && (BatchSize cfg <? 0)); [done|]. by simplify_eq.
Qed.

Lemma started_accounted repo cfg : accounted (started repo cfg) = [].
Proof. unfold accounted, batches, started. cbn. by induction (Z.to_nat (WorkerCount cfg)). Qed.

(** ** structured_logger.go and events.go *)

Record ActorInfo := mkActor { act_UserID : string; act_ClientIP : string; act_UserAgent : string; act_SessionID : string }.
Record ResourceInfo := mkResource { rs_Type : string; rs_ID : string; rs_Classification : string }.
Record StructuredEvent := mkStructured {
  se_ID : string; se_Timestamp : Z; se_EventType : string; se_Actor : option ActorInfo; se_Action : string;
  se_Resource : option ResourceInfo; se_Result : string; se_Details : gmap string string; se_SecurityLevel : string;
  se_Checksum : string
}.
Record KeyOperationRequest := mkKeyOp {
  ko_Operation : string; ko_KeyID : string; ko_DataClassification : string; ko_Result : string; ko_SessionID : string;
  ko_ClientIP : string; ko_UserAgent : string; ko_AdditionalContext : option (gmap string string)
}.

(** [strings.ToLower], as far as a comparison with ASCII text can tell: the
    runes whose lower case is ASCII are [A]-[Z], the Kelvin sign and the
    dotted capital I. *)
Fixpoint ToLower (s : string) : string :=
  match s with
  | EmptyString => ""
  | String a s' =>
      let n := Ascii.N_of_ascii a in
      if ((65 <=? n) && (n <=? 90))%N then String (ascii_of (n + 32)) (ToLower s')
      else match strip_prefix (bytes_str [226; 132; 170]%N) s, s' with
      | Some _, String _ (String _ rest) => String (ascii_of 107) (ToLower rest)
      | _, _ =>
          match strip_prefix (bytes_str [196; 176]%N) s, s' with
          | Some _, String _ rest => String (ascii_of 105) (ToLower rest)
          | _, _ => String a (ToLower s')
          end
      end
  end.

Definition determineSecurityLevel (classification : string) : string :=
  let c := ToLower classification in
  if String.eqb c "restricted" then "high" else if String.eqb c "confidential" then "medium" else "low".

(** [json.Marshal] of the six checksummed entries. *)
Class ChecksumJson := { Marshal_checksum : string -> Z -> string -> string -> string -> string -> bytes }.

Section Structured.
Context `{Sha256Pkg} `{ChecksumJson}.

Definition generateChecksum (e : StructuredEvent) : string :=
  sha256_hex (Marshal_checksum (se_ID e) (se_Timestamp e / Second) (se_EventType e) (se_Action e) (se_Result e) (se_SecurityLevel e)).

(** [for k, v := range req.AdditionalContext { event.Details[k] = v }] *)
Definition addOperationDetails (req : KeyOperationRequest) (details : gmap string string) : gmap string string :=
  default ∅ (ko_AdditionalContext req) ∪ details.

(** The event [LogKeyOperation] logs; the sanitizer does nothing. *)
Definition LogKeyOperation (ctx : Ctx) (id : string) (now : Z) (req : KeyOperationRequest) : StructuredEvent :=
  let actor := match UserFromContext ctx with
               | Some user => Some (mkActor (user_ID user) (ko_ClientIP req) (ko_UserAgent req) (ko_SessionID req))
               | None => None
               end in
  let '(resource, level) :=
    if negb (String.eqb (ko_KeyID req) "")
    then (Some (mkResource "cryptographic_key" (ko_KeyID req) (ko_DataClassification req)),
          determineSecurityLevel (ko_DataClassification req))
    else (None, ""%string) in
  let e := mkStructured id now "key_operation" actor (ko_Operation req) resource (ko_Result req)
             (addOperationDetails req ∅) level "" in
  mkStructured (se_ID e) (se_Timestamp e) (se_EventType e) (se_Actor e) (se_Action e) (se_Resource e) (se_Result e)
    (se_Details e) (se_SecurityLevel e) (generateChecksum e).

(** The attributes of [logToStructuredLogger], groups flattened. *)
Definition logToStructuredLogger (e : StructuredEvent) : list (string * string) :=
  [("audit_id", se_ID e); ("event_type", se_EventType e); ("action", se_Action e); ("result", se_Result e);
   ("security_level", se_SecurityLevel e); ("timestamp", pretty (se_Timestamp e))]%string
  ++ match se_Actor e with
     | Some a => [("actor.user_id", act_UserID a); ("actor.client_ip", act_ClientIP a); ("actor.user_agent", act_UserAgent a)]%string
     | None => []
     end
  ++ match se_Resource e with
     | Some r => [("resource.type", rs_Type r); ("resource.id", rs_ID r); ("resource.classification", rs_Classification r)]%string
     | None => []
     end.

End Structured.

(** ** Theorems *)

(** C19: no audit event is lost track of.  In every run of a started
    asynchronous logger, whatever its callers and workers do and in whatever
    order, each submitted event is in exactly one place, once: waiting in the
    channel, in a worker's batch, written, in a batch the database refused, or
    dropped at a full channel; and the table holds, after its old rows, exactly
    the rows of the written events in the order they were written. *)
Theorem audit_conserved repo cfg l0 l1 acts l :
  NewAsyncAuditLogger repo cfg = Ok l0 -> Start l0 = Ok l1 -> arun acts l1 = Some l ->
  submitted acts ≡ₚ eventChannel l ++ batches l ++ written l ++ lost l ++ dropped l
  /\ audit_rows (a_repo l) = audit_rows repo ++ (row_of <$> written l).
Proof.
  intros Hn Hs Hr. rewrite (started_eq _ _ _ _ Hn Hs) in Hr. apply arun_accounted in Hr as [Hp (ws & Hw & Hrows)].
  cbn [written a_repo started] in Hw, Hrows. rewrite app_nil_l in Hw. subst ws. split; [|done].
  by rewrite started_accounted in Hp.
Qed.

(** C20: stopping the logger flushes it.  Once the channel is closed, the
    workers can take only a bounded number of further steps, whatever their
    order, and when none is left every worker has returned, so that [Stop]
    returns, and every event ever submitted has been written, refused by the
    database or dropped at a full channel: none is left behind in memory. *)
Theorem stop_flushes repo cfg l0 l1 acts l acts2 l2 :
  NewAsyncAuditLogger repo cfg = Ok l0 -> Start l0 = Ok l1 -> 0 < WorkerCount cfg ->
  arun acts l1 = Some l -> a_closed l = true ->
  arun acts2 l = Some l2 -> forallb is_worker_action acts2 = true ->
  (length acts2 <= work_left l)%nat
  /\ ((forall a, is_worker_action a = true -> astep a l2 = None) ->
      Forall (λ wk, wk = WDone) (workers l2) /\ submitted acts ≡ₚ written l2 ++ lost l2 ++ dropped l2).
Proof.
  intros Hn Hs Hpos Hr Hc Hr2 Hw. rewrite (started_eq _ _ _ _ Hn Hs) in Hr.
  destruct (worker_run_work acts2 l l2 Hr2 Hw) as [Hc2 Hlen]. split; [lia|]. intros Hstuck.
  assert (async_ok (started repo cfg)) as Hok1.
  { split; cbn [workers started].
    - destruct (Z.to_nat (WorkerCount cfg)) eqn:E; [lia|done].
    - by intros [? _]%elem_of_replicate. }
  pose proof (arun_ok acts2 l l2 Hr2 (arun_ok acts _ l Hr Hok1)) as Hok2.
  destruct (stuck_done l2 Hok2 ltac:(congruence) Hstuck) as (Hall & Hch & Hb). split; [done|].
  apply arun_accounted in Hr as [Hp _]. apply arun_accounted in Hr2 as [Hp2 _].
  rewrite worker_submits_nothing, app_nil_r in Hp2 by done. unfold accounted at 1 in Hp2. rewrite Hch, Hb in Hp2.
  cbn in Hp2. by rewrite Hp2, Hp, started_accounted.
Qed.

(** the history of a key is its newest events.  Unless the driver fails or
    the connection breaks half-way, [GetAuditHistory] returns, newest first,
    [limit] of the stored events of that key or all of them if there are
    fewer, and no event it leaves out is newer than one it returns. *)
Theorem history_newest keyID limit d :
  0 <= limit -> audit_faults d = [] ->
  exists es rest, GetAuditHistory None keyID limit d = (Ok es, d)
    /\ es ++ rest ≡ₚ filter (λ r, ev_KeyID r = keyID) (audit_rows d)
    /\ StronglySorted newest_first (es ++ rest)
    /\ length es = Nat.min (Z.to_nat limit) (length (es ++ rest)).
Proof.
  intros Hl Hf. unfold GetAuditHistory, audit_fault, scan_history. go_unfold. rewrite Hf.
  rewrite (proj2 (Z.ltb_ge _ _) Hl). unfold history_rows.
  set (all := merge_sort newest_first _). exists (take (Z.to_nat limit) all), (drop (Z.to_nat limit) all).
  rewrite take_drop. split_and!; [done| | |].
  - apply merge_sort_Permutation.
  - apply StronglySorted_merge_sort; apply _.
  - apply length_take.
Qed.

(** ** Concrete runs *)

Definition ex_async : AsynchronousAuditingConfig := mkAsyncCfg true 2 2 2 Second.
Definition ex_audit_db : AuditDB := mkAuditDB [] [].
Definition ex_event (n : Z) (client : string) : AuditEvent :=
  new_event (pretty n) (n * Second) (mkCall client "GetKey" "k" "" true None) ∅.
Definition ex_acts : list action :=
  [ALog (ex_event 1 "a"); ALog (ex_event 2 "b"); ALog (ex_event 3 "c"); ARecv 0; ALog (ex_event 4 "d"); ARecv 1; ATick 1; AClose].
Definition ex_drain : list action := [ARecv 0; AExit 1; AExit 0].

Definition ex_after : AsyncAuditLogger := default (started ex_audit_db ex_async) (arun ex_acts (started ex_audit_db ex_async)).
Definition ex_flushed : AsyncAuditLogger := default ex_after (arun ex_drain ex_after).

Lemma audit_conserved_witness :
  submitted ex_acts ≡ₚ eventChannel ex_after ++ batches ex_after ++ written ex_after ++ lost ex_after ++ dropped ex_after
  /\ dropped ex_after = [ex_event 3 "c"].
Proof.
  split; [|vm_compute; reflexivity].
  assert (arun ex_acts (started ex_audit_db ex_async) = Some ex_after) as Hr by (vm_compute; reflexivity).
  exact (proj1 (audit_conserved ex_audit_db ex_async (mkAsync ex_async [] false [] ex_audit_db [] [] []) (started ex_audit_db ex_async)
    ex_acts ex_after eq_refl eq_refl Hr)).
Defined.

Lemma stop_flushes_witness :
  (length ex_drain <= work_left ex_after)%nat
  /\ submitted ex_acts ≡ₚ written ex_flushed ++ lost ex_flushed ++ dropped ex_flushed.
Proof.
  assert (arun ex_acts (started ex_audit_db ex_async) = Some ex_after) as Hr by (vm_compute; reflexivity).
  assert (a_closed ex_after = true) as Hc by (vm_compute; reflexivity).
  assert (arun ex_drain ex_after = Some ex_flushed) as Hr2 by (vm_compute; reflexivity).
  destruct (stop_flushes ex_audit_db ex_async (mkAsync ex_async [] false [] ex_audit_db [] [] []) (started ex_audit_db ex_async)
    ex_acts ex_after ex_drain ex_flushed eq_refl eq_refl eq_refl Hr Hc Hr2 eq_refl) as [Hlen Hend].
  split; [exact Hlen|]. apply Hend. intros [e|i e| |i|i|i] Ha; try discriminate Ha;
    destruct i as [|[|i]]; vm_compute; reflexivity.
Defined.

Lemma history_newest_witness :
  exists es, (GetAuditHistory None "k" 2 (mkAuditDB [ex_event 1 "a"; ex_event 3 "b"; ex_event 2 "c"] [])).1 = Ok es /\ length es = 2%nat.
Proof.
  destruct (history_newest "k" 2 (mkAuditDB [ex_event 1 "a"; ex_event 3 "b"; ex_event 2 "c"] []) ltac:(lia) eq_refl)
    as (es & rest & Hg & Hp & _ & Hl).
  exists es. rewrite Hg. split; [reflexivity|]. rewrite Hl. apply Permutation_length in Hp. rewrite Hp. reflexivity.
Defined.

(** One event the table cannot take costs the whole batch: an over-long client
    identity makes the events of others disappear with it. *)
Theorem oversized_event_loses_batch :
  let long := String.concat "" (replicate 256 "x"%string) in
  option_map (λ l, (written l, lost l))
    (arun [ALog (ex_event 1 "alice"); ALog (ex_event 2 long); ARecv 0; ARecv 0] (started ex_audit_db ex_async))
  = Some ([], [ex_event 1 "alice"; ex_event 2 long]).
Proof. vm_compute. reflexivity. Qed.

(** A broken connection shortens a history without an error. *)
Theorem history_cut_silently :
  (GetAuditHistory (Some 1%nat) "k" 10 (mkAuditDB [ex_event 1 "a"; ex_event 2 "b"] [])).1 = Ok [ex_event 2 "b"].
Proof. vm_compute. reflexivity. Qed.

(** The classification validation accepts as the highest is the lowest here. *)
Theorem secret_is_low :
  Validation.validateDataClassification "secret" = Ok tt /\ determineSecurityLevel "secret" = "low"%string
  /\ determineSecurityLevel "Confidential" = "medium"%string.
Proof. vm_compute. done. Qed.
