(* ===== verification/Wiring.v ===== *)
(** * Wiring

    Models [internal/wiring/wire_prod.go], [internal/wiring/tls.go] and
    [internal/infra/persistence/connection.go]: how the components of the other
    files are put together.  The container's fields are references to objects
    of a heap, so that "the same repository" means the same object; a Go
    interface that holds a nil pointer is not nil.  pgx, the TLS library and
    the AWS loader are parameters. *)

From S2P Require Import Prelude Errors Domain Repo Psql CachedRepo BreakerRepo Kms Authorizer Service Regex Validation Config Auth.

(** ** connection.go *)

Record DbTLS := mkDbTLSConf { ServerName : string; InsecureSkipVerify : bool; db_MinVersion : Z }.

(** The fields of [pgxpool.Config] the code reads or sets. *)
Record PoolConfig := mkPoolConfig {
  Host : string;
  RuntimeParams : option (gmap string string);
  pc_TLSConfig : option DbTLS;
  pc_MaxConns : Z; pc_MinConns : Z; pc_MaxConnIdleTime : Z; pc_MaxConnLifetime : Z; pc_HealthCheckPeriod : Z
}.

Class PgxPkg := {
  Pool : Type;
  ParseConfig : string -> res PoolConfig;
  NewWithConfig : PoolConfig -> res Pool;
  Ping : Pool -> res unit;
  adapter_of : Pool -> PSQLAdapter             (* the database behind it *)
}.

Definition VersionTLS12 : Z := 771.

(** [strings.SplitN(host, ".", 2)], when it yields two parts *)
Fixpoint split_dot (s pre : string) : option (string * string) :=
  match s with
  | EmptyString => None
  | String a s' => if Ascii.eqb a (ascii_of 46) then Some (String.rev pre, s') else split_dot s' (String a pre)
  end.

Definition pooled_host (host : string) : string :=
  if negb (str_contains host "-pooler") then
    match split_dot host "" with
    | Some (p0, p1) => p0 +:+ "-pooler." +:+ p1
    | None => host
    end
  else host.

Definition NewSecureConnectionPool `{PgxPkg} (url : string) (serverConfig : ServerConfig) (persistence : PersistenceConfig)
  : res Pool :=
  poolConfig ← map_err (Wrap "failed to parse db config") (ParseConfig url);
  let dbtls := db_TLSEnabled (db_TLS (Database persistence)) in
  if String.eqb (Mode serverConfig) "production" && negb dbtls
  then Err (ErrorsNew "database connection must use TLS in production mode")
  else
    let host := pooled_host (Host poolConfig) in
    let params := <["prefer_simple_protocol"%string := "true"%string]> (default ∅ (RuntimeParams poolConfig)) in
    let tls := if dbtls then Some (mkDbTLSConf host false VersionTLS12) else pc_TLSConfig poolConfig in
    let conn := Connection (Database persistence) in
    let poolConfig := mkPoolConfig host (Some params) tls (MaxConns conn) (MinConns conn) (MaxConnIdleTime conn)
                        (MaxConnLifetime conn) (HealthCheckPeriod conn) in
    pool ← map_err (Wrap "failed to create connection pool") (NewWithConfig poolConfig);
    _ ← map_err (Wrap "failed to ping database") (Ping pool);
    Ok pool.

(** ** tls.go *)

Inductive ClientAuthType : Type :=
| NoClientCert | RequestClientCert | RequireAnyClientCert | VerifyClientCertIfGiven | RequireAndVerifyClientCert.

#[export] Instance ClientAuthType_eq_dec : EqDecision ClientAuthType.
Proof. solve_decision. Defined.

(** Certificate pools and key pairs by the PEM texts they come from. *)
Record TlsConfig := mkTlsConfig {
  Certificates : string * string;
  tls_MinVersion : Z;
  CAs : option string;               (* ClientCAs of a server, RootCAs of a client *)
  tls_ClientAuth : ClientAuthType
}.

Class TlsPkg := {
  tls_X509KeyPair : string -> string -> res unit;
  AppendCertsFromPEM : string -> bool;
  LoadX509KeyPair : string -> string -> res (string * string);
  tls_ReadFile : string -> res string;
  yaml_ClientTLS : string -> res (string * string * string)     (* cert_file, key_file, ca_file *)
}.

Section Tls.
Context `{TlsPkg}.

Definition parse_client_auth (s : string) : res ClientAuthType :=
  if String.eqb s "RequestClientCert" then Ok RequestClientCert
  else if String.eqb s "RequireAnyClientCert" then Ok RequireAnyClientCert
  else if String.eqb s "VerifyClientCertIfGiven" then Ok VerifyClientCertIfGiven
  else if String.eqb s "RequireAndVerifyClientCert" then Ok RequireAndVerifyClientCert
  else if String.eqb s "NoClientCert" || String.eqb s "" then Ok NoClientCert
  else Err (ErrorsNew ("unsupported client_auth type: " +:+ s)).

Definition ConfigureTLS (cfg : TLS) (secrets : BootstrapSecrets) : res (option TlsConfig) :=
  if negb (tls_Enabled cfg) then Ok None
  else
    _ ← map_err (Wrap "failed to load server TLS key pair") (tls_X509KeyPair (TLSServerCert secrets) (TLSServerKey secrets));
    ca ← (if negb (String.eqb (SpoungeCA secrets) "") then
            if negb (AppendCertsFromPEM (SpoungeCA secrets)) then Err (ErrorsNew "failed to add client CA certificate")
            else Ok (Some (SpoungeCA secrets))
          else Ok None);
    auth ← parse_client_auth (ClientAuth cfg);
    Ok (Some (mkTlsConfig (TLSServerCert secrets, TLSServerKey secrets) VersionTLS12 ca auth)).

Definition ConfigureClientTLS (path : string) : res TlsConfig :=
  data ← map_err (Wrap ("failed to read client TLS config " +:+ path)) (tls_ReadFile path);
  '(cert, key, ca) ← map_err (Wrap "failed to unmarshal client TLS config") (yaml_ClientTLS data);
  clientCert ← map_err (Wrap "failed to load client key pair") (LoadX509KeyPair cert key);
  caCert ← map_err (Wrap "failed to read server CA file") (tls_ReadFile ca);
  if negb (AppendCertsFromPEM caCert) then Err (ErrorsNew "failed to add server CA certificate")
  else Ok (mkTlsConfig clientCert VersionTLS12 (Some caCert) NoClientCert).

End Tls.

(** ** The container *)

Abbreviation ref := nat.

(** The objects the container makes. *)
Inductive RepoStack : Type :=
| CachedStack (r : CachedRepository PSQLAdapter)
| GuardedStack (r : KeyRepositoryCircuitBreaker (CachedRepository PSQLAdapter)).

Inductive object : Type :=
| OKeyRepo (r : RepoStack)
| OAuditRepo
| OAuditLogger (async : option AsynchronousAuditingConfig) (auditRepo : ref)
| OClientStore (s : option FileClientStore)          (* None: the nil pointer *)
| OTokenStore
| OTokenManager (privateKeyPEM : string) (tokenStore : ref) (auditLogger : option ref)
| OAuthorizer (cfg : AuthorizationConfig) (keyRepo auditLogger : ref)
| OKeyService (cfg : Config) (keyRepo : ref) (providers : gmap string KMSProvider) (auditLogger : ref)
| OAuthService (clientStore tokenManager : ref) (tokenTTL : Z).

(** The container's fields that hold objects. *)
Inductive field : Type :=
| FKeyRepo | FAuditRepo | FClientStore | FTokenManager | FTokenStore | FAuditLogger | FAuthorizer | FKeyService | FAuthService.

#[export] Instance field_eq_dec : EqDecision field.
Proof. solve_decision. Defined.

Record Container (P : Type) := mkContainer {
  c_config : Config;
  c_refs : field -> option ref;            (* None: nil *)
  c_objects : list object;
  pgxPool : option P;
  pgxPoolOnce : bool;                      (* the sync.Once has run *)
  poolClosed : bool;
  c_kmsProviders : option (gmap string KMSProvider);
  loggerStopped : bool
}.
Arguments mkContainer {P}.
Arguments c_config {P}.
Arguments c_refs {P}.
Arguments c_objects {P}.
Arguments pgxPool {P}.
Arguments pgxPoolOnce {P}.
Arguments poolClosed {P}.
Arguments c_kmsProviders {P}.
Arguments loggerStopped {P}.

Record Dependencies := mkDeps {
  d_KMSProviders : option (gmap string KMSProvider);
  d_KeyRepo : option ref; d_AuditRepo : option ref; d_AuditLogger : option ref; d_ClientStore : option ref;
  d_TokenManager : option ref; d_Authorizer : option ref; d_KeyService : option ref; d_AuthService : option ref
}.

Section Container.
Context `{PgxPkg} `{ConfigEnv} `{CryptoPkg} `{FileEnv}.
Abbreviation C := (Container Pool).

Definition NewContainer (cfg : Config) : C := mkContainer cfg (λ _, None) [] None false false None false.

(** [c.field = newObject] *)
Definition assign_new (f : field) (o : object) : M C unit := modify (λ c,
  mkContainer (c_config c) (λ g, if decide (g = f) then Some (length (c_objects c)) else c_refs c g) (c_objects c ++ [o])
    (pgxPool c) (pgxPoolOnce c) (poolClosed c) (c_kmsProviders c) (loggerStopped c)).

(** [if c.field != nil { return nil }] *)
Definition unless_set (f : field) (m : M C unit) : M C unit :=
  c ← gets id;
  match c_refs c f with Some _ => mret tt | None => m end.

(** [if c.field == nil { return fmt.Errorf(msg) }] *)
Definition need (f : field) (msg : string) : M C ref :=
  c ← gets id;
  match c_refs c f with Some r => mret r | None => fail (ErrorsNew msg) end.

Definition need_pool : M C Pool :=
  c ← gets id;
  match pgxPool c with Some p => mret p | None => fail (ErrorsNew "database pool not initialized") end.

Definition initPgxPool : M C unit :=
  c ← gets id;
  if pgxPoolOnce c then mret tt
  else
    let r := NewSecureConnectionPool (NeonDBURL (Bootstrap (c_config c))) (Server (c_config c)) (Persistence (c_config c)) in
    _ ← modify (λ c, mkContainer (c_config c) (c_refs c) (c_objects c)
                       (match r with Ok p => Some p | _ => None end) true (poolClosed c) (c_kmsProviders c) (loggerStopped c));
    match r with Ok _ => mret tt | Err e => fail e | Panic w => panic w end.

Definition GetPgxPool : M C (option Pool) := _ ← initPgxPool; gets pgxPool.

Definition set_kms (m : gmap string KMSProvider) : M C unit := modify (λ c,
  mkContainer (c_config c) (c_refs c) (c_objects c) (pgxPool c) (pgxPoolOnce c) (poolClosed c) (Some m) (loggerStopped c)).
Definition add_kms (name : string) (p : KMSProvider) : M C unit := modify (λ c,
  mkContainer (c_config c) (c_refs c) (c_objects c) (pgxPool c) (pgxPoolOnce c) (poolClosed c)
    (Some (<[name := p]> (default ∅ (c_kmsProviders c)))) (loggerStopped c)).
Definition set_config (cfg : Config) : M C unit := modify (λ c,
  mkContainer cfg (c_refs c) (c_objects c) (pgxPool c) (pgxPoolOnce c) (poolClosed c) (c_kmsProviders c) (loggerStopped c)).

(** The map is stored before the providers are made; [c.config.AWS.Enabled]
    dereferences the pointer. *)
Definition initKMSProviders : M C unit :=
  c ← gets id;
  match c_kmsProviders c with
  | Some _ => mret tt
  | None =>
      let cfg := c_config c in
      let secrets := Bootstrap cfg in
      _ ← set_kms ∅;
      _ ← (if negb (String.eqb (PolykeyMasterKey secrets) "") then
             localProvider ← on_err (Wrap "failed to create local KMS provider")
                               (lift_res (NewLocalKMSProvider (PolykeyMasterKey secrets)));
             add_kms "local" (LocalP localProvider)
           else mret tt);
      match AWS cfg with
      | None => panic "nil pointer dereference"
      | Some aws =>
          _ ← (if aws_Enabled aws && negb (String.eqb (AWSKMSKeyARN secrets) "") then
                 _ ← on_err (Wrap "failed to load AWS config") (lift_res (LoadDefaultConfig (Region aws)));
                 add_kms "aws" (AwsP (mkAWS (AWSKMSKeyARN secrets)))
               else mret tt);
          _ ← (if tls_Enabled (sc_TLS (Server cfg)) && negb (String.eqb (SpoungeCA secrets) "")
               then set_config (set_ClientCAFile (SpoungeCA secrets) cfg) else mret tt);
          c ← gets id;
          if (size (default ∅ (c_kmsProviders c)) =? 0)%nat then fail (ErrorsNew "no KMS provider configured") else mret tt
      end
  end.

Definition initTokenStore : M C unit := unless_set FTokenStore (assign_new FTokenStore OTokenStore).

Definition initKeyRepository : M C unit := unless_set FKeyRepo (
  pool ← need_pool;
  c ← gets id;
  let cachedRepo := NewCachedRepository (adapter_of pool) in
  let cb := CircuitBreaker (Persistence (c_config c)) in
  assign_new FKeyRepo (OKeyRepo (
    if cb_Enabled cb
    then GuardedStack (NewKeyRepositoryCircuitBreaker cachedRepo (cb_MaxFailures cb) (cb_ResetTimeout cb) [])
    else CachedStack cachedRepo))).

Definition initAuditRepository : M C unit := unless_set FAuditRepo (_ ← need_pool; assign_new FAuditRepo OAuditRepo).

Definition initAuditLogger : M C unit := unless_set FAuditLogger (
  auditRepo ← need FAuditRepo "audit repository not initialized";
  c ← gets id;
  let async := Auditing (c_config c) in
  assign_new FAuditLogger (OAuditLogger (if async_Enabled async then Some async else None) auditRepo)).

(** On an error the field holds the nil [*FileClientStore] all the same. *)
Definition initClientStore (order : list string) : M C unit := unless_set FClientStore (
  c ← gets id;
  match NewFileClientStore order (ClientCredentialsPath (c_config c)) with
  | Ok s => assign_new FClientStore (OClientStore (Some s))
  | Err err => _ ← assign_new FClientStore (OClientStore None); fail err
  | Panic w => panic w
  end).

Definition initTokenManager `{JwtPkg} : M C unit := unless_set FTokenManager (
  tokenStore ← need FTokenStore "token store not initialized";
  c ← gets id;
  _ ← lift_res (NewTokenManager (JWTRSAPrivateKey (Bootstrap (c_config c))) NewInMemoryTokenStore []);
  assign_new FTokenManager (OTokenManager (JWTRSAPrivateKey (Bootstrap (c_config c))) tokenStore (c_refs c FAuditLogger))).

Definition initAuthorizer : M C unit := unless_set FAuthorizer (
  keyRepo ← need FKeyRepo "key repository not initialized";
  auditLogger ← need FAuditLogger "audit logger not initialized";
  c ← gets id;
  assign_new FAuthorizer (OAuthorizer (Authorization (c_config c)) keyRepo auditLogger)).

Definition initKeyService : M C unit := unless_set FKeyService (
  keyRepo ← need FKeyRepo "key repository not initialized";
  c ← gets id;
  match c_kmsProviders c with
  | None => fail (ErrorsNew "kms providers not initialized")
  | Some providers =>
      auditLogger ← need FAuditLogger "audit logger not initialized";
      assign_new FKeyService (OKeyService (c_config c) keyRepo providers auditLogger)
  end).

Definition initAuthService : M C unit := unless_set FAuthService (
  clientStore ← need FClientStore "client store not initialized";
  tokenManager ← need FTokenManager "token manager not initialized";
  assign_new FAuthService (OAuthService clientStore tokenManager Hour)).

(** The loop over [initializers]. *)
Fixpoint run_all (ms : list (M C unit)) : M C unit :=
  match ms with [] => mret tt | m :: ms' => _ ← m; run_all ms' end.

Definition initializers `{JwtPkg} (order : list string) : list (M C unit) :=
  [initPgxPool; initKMSProviders; initTokenStore; initKeyRepository; initAuditRepository; initAuditLogger;
   initClientStore order; initTokenManager; initAuthorizer; initKeyService; initAuthService].

Definition initializeAll `{JwtPkg} (order : list string) : M C unit := run_all (initializers order).

Definition dependencies (c : C) : Dependencies :=
  mkDeps (c_kmsProviders c) (c_refs c FKeyRepo) (c_refs c FAuditRepo) (c_refs c FAuditLogger) (c_refs c FClientStore)
    (c_refs c FTokenManager) (c_refs c FAuthorizer) (c_refs c FKeyService) (c_refs c FAuthService).

Definition GetDependencies `{JwtPkg} (order : list string) : M C Dependencies :=
  _ ← on_err (Wrap "failed to initialize dependencies") (initializeAll order);
  gets dependencies.

(** Only the asynchronous logger has a [Stop]; no provider has a [Close]. *)
Definition Close : M C unit := modify (λ c,
  let stops := match c_refs c FAuditLogger ≫= (c_objects c !!.) with Some (OAuditLogger (Some _) _) => true | _ => false end in
  mkContainer (c_config c) (c_refs c) (c_objects c) (pgxPool c) (pgxPoolOnce c)
    (poolClosed c || match pgxPool c with Some _ => true | None => false end) (c_kmsProviders c) (loggerStopped c || stops)).

(** The deferred [Close] runs before the caller gets the result. *)
Definition ProvideDependencies `{JwtPkg} (order : list string) (cfg : Config) : res Dependencies * C :=
  let '(r, c) := GetDependencies order (NewContainer cfg) in (r, (Close c).2).

(** ** The object graph *)

(** What a field's object must be, and which objects it must refer to. *)
Definition fits (c : C) (f : field) (o : object) : Prop :=
  match f, o with
  | FKeyRepo, OKeyRepo _ | FAuditRepo, OAuditRepo | FClientStore, OClientStore _ | FTokenStore, OTokenStore => True
  | FAuditLogger, OAuditLogger _ a => c_refs c FAuditRepo = Some a
  | FTokenManager, OTokenManager _ s a => c_refs c FTokenStore = Some s /\ (forall x, a = Some x -> c_refs c FAuditLogger = Some x)
  | FAuthorizer, OAuthorizer _ k a => c_refs c FKeyRepo = Some k /\ c_refs c FAuditLogger = Some a
  | FKeyService, OKeyService _ k _ a => c_refs c FKeyRepo = Some k /\ c_refs c FAuditLogger = Some a
  | FAuthService, OAuthService s t ttl => c_refs c FClientStore = Some s /\ c_refs c FTokenManager = Some t /\ ttl = Hour
  | _, _ => False
  end.

Definition wired (c : C) : Prop := forall f r, c_refs c f = Some r -> exists o, c_objects c !! r = Some o /\ fits c f o.

(** Fields that are set stay set; objects stay. *)
Definition extends (c c' : C) : Prop :=
  (forall f r, c_refs c f = Some r -> c_refs c' f = Some r) /\ c_objects c `prefix_of` c_objects c'.

Lemma extends_refl c : extends c c.
Proof. by split. Qed.
Lemma extends_trans c1 c2 c3 : extends c1 c2 -> extends c2 c3 -> extends c1 c3.
Proof. intros [? ?] [? ?]. split; [eauto|by etrans]. Qed.

Lemma fits_extends c c' f o : extends c c' -> fits c f o -> fits c' f o.
Proof. intros [Hr _]. destruct f, o; cbn; try done; naive_solver. Qed.

(** Code that keeps the graph. *)
Definition keeps {A} (m : M C A) : Prop := forall c r c', m c = (r, c') -> wired c -> wired c' /\ extends c c'.
(** Code that, when it succeeds, leaves a field set. *)
Definition sets (f : field) (m : M C unit) : Prop := forall c c', m c = (Ok tt, c') -> is_Some (c_refs c' f).

Lemma wired_bind {A B} (m : M C A) (k : A -> M C B) : keeps m -> (forall a, keeps (k a)) -> keeps (m ≫= k).
Proof.
  intros Hm Hk c r c' E Hw. unfold mbind, GoM_bind in E. destruct (m c) as [[a|e|p] c1] eqn:E1;
    destruct (Hm _ _ _ E1 Hw) as [Hw1 He1]; [|by simplify_eq..].
  destruct (Hk a _ _ _ E Hw1) as [? ?]. split; [done|by eapply extends_trans].
Qed.

(** Code that leaves the container as it is, whatever it answers. *)
Definition reads {A} (m : M C A) : Prop := forall c, (m c).2 = c.
Lemma keeps_reads {A} (m : M C A) : reads m -> keeps m.
Proof. intros Hm c r c' E Hw. specialize (Hm c). rewrite E in Hm. cbn in Hm. subst. auto using extends_refl. Qed.

Lemma reads_need f msg : reads (need f msg).
Proof. intros c. unfold need. go_unfold. by destruct (c_refs c f). Qed.
Lemma reads_need_pool : reads need_pool.
Proof. intros c. unfold need_pool. go_unfold. by destruct (pgxPool c). Qed.

(** A modification that touches neither fields nor objects. *)
Lemma keeps_modify (g : C -> C) : (forall c, c_refs (g c) = c_refs c /\ c_objects (g c) = c_objects c) -> keeps (modify g).
Proof.
  intros Hg c r c' [= <- <-] Hw. destruct (Hg c) as [Hr Ho]. split; [|split; [by rewrite Hr|by rewrite Ho]].
  intros f x Hx. rewrite Hr in Hx. destruct (Hw f x Hx) as (o & Hob & Hf). exists o. rewrite Ho. split; [done|].
  eapply fits_extends; [|exact Hf]. split; [by rewrite Hr|by rewrite Ho].
Qed.

Lemma assign_new_keeps f o c r c' :
  assign_new f o c = (r, c') -> c_refs c f = None -> fits c f o -> wired c ->
  wired c' /\ extends c c' /\ r = Ok tt /\ c_refs c' f = Some (length (c_objects c)).
Proof.
  unfold assign_new, modify. intros [= <- <-] Hn Hf Hw.
  set (c' := mkContainer _ _ _ _ _ _ _ _).
  assert (extends c c') as He.
  { split; [|by exists [o]]. intros g x Hx. cbn. rewrite decide_False; [done|]. intros ->. congruence. }
  split_and!; [|done|done|cbn; by rewrite decide_True].
  intros g x Hx. cbn in Hx. destruct (decide (g = f)) as [->|Hne].
  - simplify_eq. exists o. split; [|by eapply fits_extends]. cbn. by apply list_lookup_middle.
  - destruct (Hw g x Hx) as (o' & Ho & Hfo). exists o'. split; [cbn; by apply lookup_app_l_Some|by eapply fits_extends].
Qed.

Lemma need_bind {B} f msg (k : ref -> M C B) c :
  (need f msg ≫= k) c = match c_refs c f with Some x => k x c | None => (Err (ErrorsNew msg), c) end.
Proof. unfold need. go_unfold. by destruct (c_refs c f). Qed.
Lemma need_pool_bind {B} (k : Pool -> M C B) c :
  (need_pool ≫= k) c = match pgxPool c with Some x => k x c | None => (Err (ErrorsNew "database pool not initialized"), c) end.
Proof. unfold need_pool. go_unfold. by destruct (pgxPool c). Qed.
Lemma gets_bind {B} (k : C -> M C B) c : (gets id ≫= k) c = k c c.
Proof. done. Qed.

(** An initializer of a field. *)
Definition init_ok (f : field) (m : M C unit) : Prop := forall c r c', m c = (r, c') -> wired c ->
  wired c' /\ extends c c' /\ (r = Ok tt -> is_Some (c_refs c' f)).

Lemma unless_set_ok f m :
  (forall c r c', c_refs c f = None -> m c = (r, c') -> wired c ->
     wired c' /\ extends c c' /\ (r = Ok tt -> is_Some (c_refs c' f))) -> init_ok f (unless_set f m).
Proof.
  intros Hm c r c' E Hw. unfold unless_set in E. rewrite gets_bind in E. destruct (c_refs c f) eqn:Hf; [|eauto].
  injection E as <- <-. split_and!; [done|apply extends_refl|]. by rewrite Hf.
Qed.

Lemma assign_new_init f o c r c' :
  assign_new f o c = (r, c') -> c_refs c f = None -> fits c f o -> wired c ->
  wired c' /\ extends c c' /\ (r = Ok tt -> is_Some (c_refs c' f)).
Proof. intros E Hn Hf Hw. destruct (assign_new_keeps f o c r c' E Hn Hf Hw) as (? & ? & _ & Hr). by rewrite Hr. Qed.

(** The error branches change nothing. *)
Ltac unchanged := match goal with E : (_, ?c) = (_, _) |- _ => injection E as <- <-; split_and!; [done|apply extends_refl|done] end.
Ltac init_field := apply unless_set_ok; intros c r c' Hn E Hw;
  repeat first [rewrite need_bind in E | rewrite need_pool_bind in E | rewrite gets_bind in E
    | match goal with E : match ?x with _ => _ end = _ |- _ => destruct x eqn:?; [|unchanged] end].

Lemma initTokenStore_ok : init_ok FTokenStore initTokenStore.
Proof. init_field. by eapply assign_new_init. Qed.
Lemma initKeyRepository_ok : init_ok FKeyRepo initKeyRepository.
Proof. init_field. by eapply assign_new_init. Qed.
Lemma initAuditRepository_ok : init_ok FAuditRepo initAuditRepository.
Proof. init_field. by eapply assign_new_init. Qed.
Lemma initAuditLogger_ok : init_ok FAuditLogger initAuditLogger.
Proof. init_field. by eapply assign_new_init. Qed.
Lemma initAuthorizer_ok : init_ok FAuthorizer initAuthorizer.
Proof. init_field. by eapply assign_new_init. Qed.
Lemma initKeyService_ok : init_ok FKeyService initKeyService.
Proof.
  init_field. destruct (c_kmsProviders c); [|unfold fail in E; unchanged]. rewrite need_bind in E.
  destruct (c_refs c FAuditLogger) eqn:?; [|unchanged]. by eapply assign_new_init.
Qed.
Lemma initAuthService_ok : init_ok FAuthService initAuthService.
Proof. init_field. by eapply assign_new_init. Qed.

Lemma initTokenManager_ok `{JwtPkg} : init_ok FTokenManager initTokenManager.
Proof.
  init_field. unfold mbind, GoM_bind, lift_res in E. destruct (NewTokenManager _ _ _); [|unchanged..].
  eapply assign_new_init; [exact E|done| |done]. cbn. auto.
Qed.

Lemma initClientStore_ok order : init_ok FClientStore (initClientStore order).
Proof.
  apply unless_set_ok. intros c r c' Hn E Hw. rewrite gets_bind in E. destruct (NewFileClientStore _ _) as [s|err|p].
  - by eapply assign_new_init.
  - unfold mbind, GoM_bind, fail in E. destruct (assign_new FClientStore (OClientStore None) c) as [r1 c1] eqn:E1.
    destruct (assign_new_keeps _ _ _ _ _ E1 Hn I Hw) as (? & ? & -> & _). by simplify_eq.
  - unfold panic in E. unchanged.
Qed.

Lemma initPgxPool_keeps : keeps initPgxPool.
Proof.
  intros c r c' E Hw. unfold initPgxPool in E. rewrite gets_bind in E.
  destruct (pgxPoolOnce c); [injection E as <- <-; auto using extends_refl|].
  lazymatch type of E with ?m c = _ => assert (keeps m) as Hk; [|by eapply Hk] end.
  apply wired_bind; [by apply keeps_modify|intros _]. apply keeps_reads. intros c1. by destruct (NewSecureConnectionPool _ _ _).
Qed.

Ltac keeps_if := lazymatch goal with |- keeps (if ?b then _ else _) => destruct b end.

Lemma initKMSProviders_keeps : keeps initKMSProviders.
Proof.
  intros c r c' E Hw. unfold initKMSProviders in E. rewrite gets_bind in E.
  destruct (c_kmsProviders c); [injection E as <- <-; auto using extends_refl|].
  assert (forall m, keeps (set_kms m)) as Hs by (intros; by apply keeps_modify).
  assert (forall n p, keeps (add_kms n p)) as Ha by (intros; by apply keeps_modify).
  assert (forall cfg, keeps (set_config cfg)) as Hc by (intros; by apply keeps_modify).
  lazymatch type of E with ?m c = _ => assert (keeps m) as Hk; [|by eapply Hk] end.
  apply wired_bind; [apply Hs|intros _]. apply wired_bind; [|intros _].
  { keeps_if; [|apply keeps_reads; intros ?; reflexivity]. apply wired_bind; [|intros; apply Ha].
    apply keeps_reads. intros c1. reflexivity. }
  destruct (AWS (c_config c)) as [aws|]; [|apply keeps_reads; intros ?; reflexivity].
  apply wired_bind; [|intros _].
  { keeps_if; [|apply keeps_reads; intros ?; reflexivity]. apply wired_bind; [|intros; apply Ha]. apply keeps_reads; intros ?; reflexivity. }
  apply wired_bind; [keeps_if; [apply Hc|apply keeps_reads; intros ?; reflexivity]|intros _].
  apply keeps_reads. intros c1. rewrite gets_bind. by destruct (_ =? _)%nat.
Qed.

(** A successful run of the initializers sets every field. *)
Definition all_fields : list field :=
  [FTokenStore; FKeyRepo; FAuditRepo; FAuditLogger; FClientStore; FTokenManager; FAuthorizer; FKeyService; FAuthService].

Lemma run_step (m : M C unit) ms c c' :
  run_all (m :: ms) c = (Ok tt, c') -> exists c1, m c = (Ok tt, c1) /\ run_all ms c1 = (Ok tt, c').
Proof. cbn [run_all]. intros ([] & c1 & ? & ?)%bind_ok. eauto. Qed.

Lemma run_fields fs ms c c' :
  Forall2 init_ok fs ms -> run_all ms c = (Ok tt, c') -> wired c ->
  wired c' /\ extends c c' /\ Forall (λ f, is_Some (c_refs c' f)) fs.
Proof.
  intros Hf. revert c. induction Hf as [|f m fs ms Hm _ IH]; intros c E Hw.
  - injection E as <-. auto using extends_refl.
  - apply run_step in E as (c1 & E1 & E2). destruct (Hm _ _ _ E1 Hw) as (Hw1 & He1 & [x Hx]); [done|].
    destruct (IH c1 E2 Hw1) as (? & [He2 ?] & ?). split_and!; [done|by eapply extends_trans|].
    constructor; [|done]. exists x. eauto.
Qed.

Lemma run_all_keeps ms : Forall keeps ms -> keeps (run_all ms).
Proof.
  induction 1 as [|m ms Hm _ IH]; [apply keeps_reads; intros ?; reflexivity|]. cbn [run_all]. by apply wired_bind; [|intros _].
Qed.

Lemma init_ok_keeps f m : init_ok f m -> keeps m.
Proof. intros Hm c r c' E Hw. by destruct (Hm c r c' E Hw) as (? & ? & _). Qed.

Lemma initializeAll_keeps `{JwtPkg} order : keeps (initializeAll order).
Proof.
  apply run_all_keeps. unfold initializers.
  rewrite !Forall_cons, Forall_nil. split_and!; eauto using initPgxPool_keeps, initKMSProviders_keeps, init_ok_keeps, initTokenStore_ok, initKeyRepository_ok,
    initAuditRepository_ok, initAuditLogger_ok, initClientStore_ok, initTokenManager_ok, initAuthorizer_ok, initKeyService_ok,
    initAuthService_ok.
Qed.

Lemma GetDependencies_keeps `{JwtPkg} order : keeps (GetDependencies order).
Proof.
  unfold GetDependencies. apply wired_bind; [|intros; apply keeps_reads; intros ?; reflexivity].
  intros c r c' E. unfold on_err in E. destruct (initializeAll order c) as [r1 c1] eqn:E1. injection E as <- <-.
  by eapply initializeAll_keeps.
Qed.

Lemma initializeAll_fields `{JwtPkg} order c c' :
  initializeAll order c = (Ok tt, c') -> wired c ->
  wired c' /\ extends c c' /\ Forall (λ f, is_Some (c_refs c' f)) all_fields.
Proof.
  intros E Hw. unfold initializeAll, initializers in E.
  apply run_step in E as (c1 & E1 & E). apply run_step in E as (c2 & E2 & E).
  destruct (initPgxPool_keeps _ _ _ E1 Hw) as [Hw1 He1]. destruct (initKMSProviders_keeps _ _ _ E2 Hw1) as [Hw2 He2].
  eapply (run_fields all_fields) in E as (? & ? & ?); [| |exact Hw2].
  - split_and!; [done| |done]. eapply extends_trans; [exact He1|]. by eapply extends_trans.
  - unfold all_fields. rewrite !Forall2_cons, Forall2_nil. split_and!; auto using initTokenStore_ok, initKeyRepository_ok,
      initAuditRepository_ok, initAuditLogger_ok, initClientStore_ok, initTokenManager_ok, initAuthorizer_ok, initKeyService_ok,
      initAuthService_ok.
Qed.

(** Initializers never forget the pool or the providers. *)
Definition holds_on {A} (P : C -> Prop) (m : M C A) : Prop := forall c r c', m c = (r, c') -> P c -> P c'.

Lemma holds_bind {A B} P (m : M C A) (k : A -> M C B) : holds_on P m -> (forall a, holds_on P (k a)) -> holds_on P (m ≫= k).
Proof.
  intros Hm Hk c r c' E Hp. unfold mbind, GoM_bind in E.
  destruct (m c) as [[a|e|p] c1] eqn:E1; pose proof (Hm _ _ _ E1 Hp); [by eapply Hk|by simplify_eq..].
Qed.
Lemma holds_reads {A} P (m : M C A) : reads m -> holds_on P m.
Proof. intros Hm c r c' E Hp. specialize (Hm c). rewrite E in Hm. cbn in Hm. by subst. Qed.

Lemma run_all_holds P ms c r c' : Forall (holds_on P) ms -> run_all ms c = (r, c') -> P c -> P c'.
Proof.
  intros Hms. revert c r c'. fold (holds_on P (run_all ms)).
  induction Hms as [|m ms Hm _ IH]; cbn [run_all]; [apply holds_reads; intros ?; reflexivity|]. by apply holds_bind.
Qed.

Definition has_base (c : C) : Prop := pgxPoolOnce c = true /\ is_Some (c_kmsProviders c).

Lemma unless_set_holds P f m : holds_on P m -> holds_on P (unless_set f m).
Proof. intros Hm c r c' E Hp. unfold unless_set in E. rewrite gets_bind in E. destruct (c_refs c f); [by injection E as <- <-|eauto]. Qed.

Lemma assign_new_base f o : holds_on has_base (assign_new f o).
Proof. by intros c r c' [= <- <-]. Qed.

Lemma fields_have_base `{JwtPkg} order : Forall (holds_on has_base) (drop 2 (initializers order)).
Proof.
  cbn [initializers drop]. rewrite !Forall_cons, Forall_nil. split_and!; try done.
  all: apply unless_set_holds; intros c r c' E Hb;
    repeat first [rewrite need_bind in E | rewrite need_pool_bind in E | rewrite gets_bind in E
      | match goal with E : match ?x with _ => _ end = _ |- _ => destruct x; [|unfold fail in E; by simplify_eq] end].
  all: try by eapply assign_new_base.
  - destruct (NewFileClientStore _ _); [by eapply assign_new_base| |by unfold panic in E; simplify_eq].
    unfold mbind, GoM_bind, fail, assign_new, modify in E. by simplify_eq.
  - unfold mbind, GoM_bind, lift_res in E. destruct (NewTokenManager _ _ _); [by eapply assign_new_base|by simplify_eq..].
  - destruct (c_kmsProviders c); [|by unfold fail in E; simplify_eq]. rewrite need_bind in E.
    destruct (c_refs c FAuditLogger); [by eapply assign_new_base|by simplify_eq].
Qed.

Ltac holds_if := lazymatch goal with |- holds_on _ (if ?b then _ else _) => destruct b end.

Lemma initializeAll_once `{JwtPkg} order c c' : initializeAll order c = (Ok tt, c') -> has_base c'.
Proof.
  unfold initializeAll. intros E. change (initializers order) with (initPgxPool :: initKMSProviders :: drop 2 (initializers order)) in E.
  apply run_step in E as (c1 & E1 & E). apply run_step in E as (c2 & E2 & E).
  eapply run_all_holds; [apply fields_have_base|exact E|].
  assert (pgxPoolOnce c1 = true) as Ho.
  { unfold initPgxPool in E1. rewrite gets_bind in E1. destruct (pgxPoolOnce c) eqn:?; [by injection E1 as <-|].
    apply bind_ok in E1 as (u & c3 & [= <- <-] & E1). destruct (NewSecureConnectionPool _ _ _); [by injection E1 as <-|discriminate E1..]. }
  unfold initKMSProviders in E2. rewrite gets_bind in E2.
  destruct (c_kmsProviders c1) as [ps|] eqn:Hps; [injection E2 as <-; split; [done|by rewrite Hps]|].
  apply bind_ok in E2 as (u & c3 & [= _ <-] & E2).
  lazymatch type of E2 with ?m ?c4 = _ => assert (holds_on has_base m) as Hk; [|apply (Hk _ _ _ E2); split; [exact Ho|by eexists]] end.
  clear E2. assert (forall n p, holds_on has_base (add_kms n p)) as Ha.
  { intros n p c4 r c5 [= <- <-] [? ?]. split; [done|by eexists]. }
  apply holds_bind; [|intros _].
  { holds_if; [|apply holds_reads; intros ?; reflexivity]. apply holds_bind; [apply holds_reads; intros ?; reflexivity|intros; apply Ha]. }
  destruct (AWS (c_config c1)) as [aws|]; [|apply holds_reads; intros ?; reflexivity].
  apply holds_bind; [holds_if; [apply holds_bind; [apply holds_reads; intros ?; reflexivity|intros; apply Ha]|apply holds_reads; intros ?; reflexivity]|intros _].
  apply holds_bind; [holds_if; [by intros c4 r c5 [= <- <-]|apply holds_reads; intros ?; reflexivity]|intros _].
  apply holds_reads. intros c4. rewrite gets_bind. by destruct (_ =? _)%nat.
Qed.

(** Containers as they occur: after any calls of [GetDependencies]. *)
Inductive reachable `{JwtPkg} (cfg : Config) : C -> Prop :=
| ReachNew : reachable cfg (NewContainer cfg)
| ReachCall order c : reachable cfg c -> reachable cfg (GetDependencies order c).2.

Lemma reachable_wired `{JwtPkg} cfg c : reachable cfg c -> wired c.
Proof.
  induction 1 as [|order c _ IH]; [done|]. destruct (GetDependencies order c) as [r c'] eqn:E.
  by apply (GetDependencies_keeps order _ _ _ E IH).
Qed.

End Container.

(** ** Theorems *)


(** asking again changes nothing.  After a successful call every further
    call of [GetDependencies] returns the same objects and leaves the container
    as it is. *)
Theorem wiring_idempotent `{PgxPkg, ConfigEnv, CryptoPkg, FileEnv, JwtPkg} cfg order order' (c0 c : Container Pool) d :
  reachable cfg c0 -> GetDependencies order c0 = (Ok d, c) -> GetDependencies order' c = (Ok d, c).
Proof.
  intros Hr E. apply reachable_wired in Hr. unfold GetDependencies in E.
  apply bind_ok in E as ([] & c1 & E & [= <- <-]). unfold on_err in E.
  destruct (initializeAll order c0) as [r1 c2] eqn:E1. destruct r1 as [[]|e|p]; cbn in E; simplify_eq.
  assert (pgxPoolOnce c1 = true /\ is_Some (c_kmsProviders c1)) as [Ho [ps Hps]] by (by eapply initializeAll_once).
  apply initializeAll_fields in E1 as (_ & _ & Hf); [|done]. unfold all_fields in Hf.
  rewrite !Forall_cons in Hf. destruct Hf as ([? F1] & [? F2] & [? F3] & [? F4] & [? F5] & [? F6] & [? F7] & [? F8] & [? F9] & _).
  unfold GetDependencies, initializeAll, initializers, on_err, unless_set. cbn [run_all].
  unfold initPgxPool, initKMSProviders, initTokenStore, initKeyRepository, initAuditRepository, initAuditLogger, initClientStore,
    initTokenManager, initAuthorizer, initKeyService, initAuthService, unless_set.
  unfold mbind, GoM_bind, gets, mret, GoM_ret, id. by rewrite Ho, Hps, F1, F2, F3, F4, F5, F6, F7, F8, F9.
Qed.

(** connections are as secure as configured.  A pool that is returned was
    opened with the configured limits and answered a ping; in production mode
    it always uses TLS 1.2 or later and verifies the certificate against the
    host it connects to.  A TLS configuration of the server, made exactly when
    TLS is enabled, has TLS 1.2 as its minimum, the configured key pair and CA
    and the configured policy for client certificates, an unknown policy being
    an error. *)
Theorem connections_secured `{PgxPkg, TlsPkg} :
  (forall url sc ps p, NewSecureConnectionPool url sc ps = Ok p ->
     exists base conf, ParseConfig url = Ok base /\ NewWithConfig conf = Ok p /\ Ping p = Ok tt
       /\ Host conf = pooled_host (Host base) /\ pc_MaxConns conf = MaxConns (Connection (Database ps))
       /\ (Mode sc = "production"%string -> pc_TLSConfig conf = Some (mkDbTLSConf (Host conf) false VersionTLS12)))
  /\ (forall cfg secrets t, ConfigureTLS cfg secrets = Ok t ->
     match t with
     | None => tls_Enabled cfg = false
     | Some t => tls_Enabled cfg = true /\ tls_MinVersion t = VersionTLS12
         /\ Certificates t = (TLSServerCert secrets, TLSServerKey secrets)
         /\ tls_X509KeyPair (TLSServerCert secrets) (TLSServerKey secrets) = Ok tt
         /\ (SpoungeCA secrets <> ""%string -> CAs t = Some (SpoungeCA secrets) /\ AppendCertsFromPEM (SpoungeCA secrets) = true)
         /\ parse_client_auth (ClientAuth cfg) = Ok (tls_ClientAuth t)
     end).
Proof.
  split.
  - intros url sc ps p E. unfold NewSecureConnectionPool in E.
    apply outcome_bind_ok in E as (base & Hb%map_err_ok & E). rewrite if_err_ok in E. destruct E as [Hm E].
    apply outcome_bind_ok in E as (p' & Hp%map_err_ok & E). apply unit_bind_ok in E as [Hping%map_err_ok [= ->]].
    eexists base, _. split_and!; [done|exact Hp|done|done|done|]. intros Hq. rewrite Hq in Hm. cbn in Hm |- *.
    apply negb_false_iff in Hm. by rewrite Hm.
  - intros cfg secrets t E. unfold ConfigureTLS in E. destruct (tls_Enabled cfg); cbn [negb] in E; [|by simplify_eq].
    apply unit_bind_ok in E as [Hk%map_err_ok E]. apply outcome_bind_ok in E as (ca & Hca & E).
    apply outcome_bind_ok in E as (auth & Hau & [= <-]). cbn. split_and!; try done.
    destruct (String.eqb_spec (SpoungeCA secrets) ""); [done|]. intros _. cbn [negb] in Hca.
    by destruct (AppendCertsFromPEM _); simplify_eq/=.
Qed.

(** ** Concrete containers *)

Definition ToyPgx : PgxPkg := {|
  Pool := string;
  ParseConfig := λ url, if String.eqb url "" then Err (ErrorsNew "cannot parse") else Ok (mkPoolConfig url None None 0 0 0 0 0);
  NewWithConfig := λ c, Ok (Host c);
  Ping := λ p, if str_contains p "down" then Err (ErrorsNew "connection refused") else Ok tt;
  adapter_of := λ _, mkPSQL [] [] [] []
|}.
#[local] Existing Instance ToyPgx.
#[local] Existing Instance ToyViper.
#[local] Existing Instance ToyConfigEnv.
#[local] Existing Instance ToyCrypto.
#[local] Existing Instance ToyJwt.
#[local] Existing Instance ToyFiles.

Definition ex_wire_cfg (url master : string) (clients : string) : Config :=
  mkConfig (Server ex_Config) (Persistence ex_Config) (AWS ex_Config) (Authorization ex_Config) clients "local" "/spounge/dev/"
    (Auditing ex_Config) "" "" (mkSecrets master url "pem" ex_cert ex_key "" ex_cert "" "" "").
Definition ex_get_deps (c : Container (@Pool ToyPgx)) : res Dependencies * Container (@Pool ToyPgx) := GetDependencies ["bob"; "alice"]%string c.
Definition ex_container : Container (@Pool ToyPgx) := NewContainer (ex_wire_cfg "ep-1.neon.tech" "c2VjcmV0" "clients.yaml").


Lemma wiring_idempotent_witness :
  exists d, (ex_get_deps ex_container).1 = Ok d /\ ex_get_deps (ex_get_deps ex_container).2 = (Ok d, (ex_get_deps ex_container).2).
Proof.
  assert (exists d, (ex_get_deps ex_container).1 = Ok d) as [d Hd] by (eexists; vm_compute; reflexivity).
  exists d. split; [exact Hd|].
  exact (wiring_idempotent _ ["bob"; "alice"]%string ["bob"; "alice"]%string ex_container (ex_get_deps ex_container).2 d (ReachNew _)
    ltac:(rewrite <-Hd; apply surjective_pairing)).
Defined.

(** A second try after a failure is not a fresh start: a client file that
    could not be read the first time leaves a nil store that the second call
    takes for a store, and [FindClientByID] on it would dereference nil. *)
Theorem retry_keeps_nil_store :
  let bad := NewContainer (ex_wire_cfg "ep-1.neon.tech" "c2VjcmV0" "missing.yaml") : Container (@Pool ToyPgx) in
  is_ok (ex_get_deps bad).1 = false
  /\ exists d s, (ex_get_deps (ex_get_deps bad).2).1 = Ok d /\ d_ClientStore d = Some s
       /\ c_objects (ex_get_deps (ex_get_deps bad).2).2 !! s = Some (OClientStore None).
Proof. split; [vm_compute; reflexivity|]. eexists _, _. split_and!; vm_compute; reflexivity. Qed.

(** The same with the providers: the second call is content with the empty
    map the first one left. *)
Theorem retry_without_providers :
  let bad := NewContainer (ex_wire_cfg "ep-1.neon.tech" "" "clients.yaml") : Container (@Pool ToyPgx) in
  (ex_get_deps bad).1 = Err (Wrap "failed to initialize dependencies" (ErrorsNew "no KMS provider configured"))
  /\ exists d, (ex_get_deps (ex_get_deps bad).2).1 = Ok d /\ d_KMSProviders d = Some ∅.
Proof. split; [vm_compute; reflexivity|]. eexists. split; vm_compute; reflexivity. Qed.

(** The pool is tried once: after one failed attempt no later call connects. *)
Theorem pool_never_retried :
  let bad := NewContainer (ex_wire_cfg "down.neon.tech" "c2VjcmV0" "clients.yaml") : Container (@Pool ToyPgx) in
  (ex_get_deps (ex_get_deps bad).2).1
  = Err (Wrap "failed to initialize dependencies" (ErrorsNew "database pool not initialized")).
Proof. vm_compute. reflexivity. Qed.

(** [ProvideDependencies] hands out dependencies of a closed container. *)
Theorem provided_dependencies_closed :
  let r := ProvideDependencies ["bob"; "alice"]%string (ex_wire_cfg "ep-1.neon.tech" "c2VjcmV0" "clients.yaml") in
  is_ok r.1 = true /\ poolClosed r.2 = true /\ loggerStopped r.2 = true.
Proof. vm_compute. done. Qed.

(** The pooler suffix is added to every dotted host, addresses included. *)
Theorem pooler_breaks_addresses : pooled_host "10.0.0.5" = "10-pooler.0.0.5"%string.
Proof. reflexivity. Qed.

(** Every file is its own content; every key pair loads. *)
Definition ToyTls : TlsPkg := {|
  tls_X509KeyPair := λ _ _, Ok tt; AppendCertsFromPEM := λ s, str_contains s "BEGIN CERTIFICATE";
  LoadX509KeyPair := λ c k, Ok (c, k); tls_ReadFile := λ p, if String.eqb p "" then Err (ErrorsNew "no such file or directory") else Ok p;
  yaml_ClientTLS := λ _, Ok ("client.pem", "client-key.pem", "BEGIN CERTIFICATE")%string
|}.
