(* ===== verification/S3Storage.v ===== *)
(** * Keys in Amazon S3

    Models [internal/infra/persistence/s3_storage.go], the second
    implementation of [domain.KeyRepository]: a key version is a JSON object
    under [keys/<id>/v<n>.json], the newest one also under
    [keys/<id>/latest.json].

    S3, [encoding/json] and the generated enum tables of [pk.KeyStatus] are
    parameters.  [S3ClientOk] is S3's documented behaviour: reads see the last
    write, a write that reports an error may or may not have happened, a
    listing names exactly the stored objects. *)

From S2P Require Import Prelude Errors Domain Repo PsqlSpec.

(** ** What the code calls *)

Record s3KeyObject := mkObj {
  o_ID : string;
  o_EncryptedDEK : bytes;
  o_Metadata : option KeyMetadata;
  o_Version : Z;
  o_Status : Z;
  o_CreatedAt : Z;
  o_UpdatedAt : Z
}.

(** [encoding/json] on these objects; [data] is the encoded form. *)
Class S3Json := {
  data : Type;
  json_Marshal : s3KeyObject -> res data;
  json_Decode : data -> res s3KeyObject
}.

(** [pk.KeyStatus_name] and [pk.KeyStatus_value] *)
Class KeyStatusTables := {
  KeyStatus_name : gmap Z string;
  KeyStatus_value : gmap string Z
}.

Record ListPage := mkPage { Contents : list string; CommonPrefixes : list string }.

(** The S3 client over the state [B] of the bucket; a call ends in a value or
    an error.  The body of an object ends in the data or in an error of the
    connection.  [ListObjectsV2] gives the pages a paginator goes through, up
    to the first that fails. *)
Class S3Client (D B : Type) := {
  GetObject : string -> B -> ((D + error) + error) * B;
  PutObject : string -> D -> B -> (unit + error) * B;
  DeleteObject : string -> B -> (unit + error) * B;
  HeadObject : string -> B -> (unit + error) * B;
  HeadBucket : B -> (unit + error) * B;
  ListObjectsV2 : string -> bool -> B -> list (ListPage + error) * B;  (* prefix, Delimiter "/" given *)
  As_NoSuchKey : error -> bool      (* [errors.As(err, &nsk)] *)
}.

(** [strings.TrimPrefix], [strings.TrimSuffix] *)
Definition TrimPrefix (s pre : string) : string := default s (strip_prefix pre s).
Definition TrimSuffix (s suf : string) : string :=
  match strip_prefix (String.rev suf) (String.rev s) with Some r => String.rev r | None => s end.

(** [time.Time.Unix] and [time.Unix(s, 0)] *)
Definition Unix (t : Z) : Z := t / Second.
Definition time_Unix (s : Z) : Z := s * Second.

Definition set_Status (st : KeyStatus) (k : Key) : Key :=
  mkKey (ID k) (Version k) (Metadata k) (EncryptedDEK k) st (Tier k) (CreatedAt k) (UpdatedAt k) (RevokedAt k).

Module S3.
Section Ops.
Context `{UuidPkg} `{S3Json} `{KeyStatusTables} {B : Type} `{!S3Client data B}.
Abbreviation W := (St B).

Definition s3_call {A} (f : B -> (A + error) * B) : M W A := λ w,
  let '(r, b) := f (repo w) in
  (match r with inl a => Ok a | inr err => Err err end, set_repo b w).

Definition latestPath (id : KeyID) : string := "keys/" +:+ KeyID_String id +:+ "/latest.json".
Definition versionPath (id : KeyID) (version : Z) : string :=
  "keys/" +:+ KeyID_String id +:+ "/v" +:+ pretty version +:+ ".json".

Definition key_of_object (id : KeyID) (keyObj : s3KeyObject) : Key :=
  mkKey id (o_Version keyObj) (o_Metadata keyObj) (o_EncryptedDEK keyObj)
    (default "" (KeyStatus_name !! o_Status keyObj)) None
    (time_Unix (o_CreatedAt keyObj)) (time_Unix (o_UpdatedAt keyObj)) None.

Definition object_of_key (key : Key) : s3KeyObject :=
  mkObj (KeyID_String (ID key)) (EncryptedDEK key) (Metadata key) (Version key)
    (default 0 (KeyStatus_value !! Status key)) (Unix (CreatedAt key)) (Unix (UpdatedAt key)).

Definition getKeyFromPath (path : string) : M W loc :=
  output ← on_err (Wrap "failed to get key object from S3") (s3_call (GetObject path));
  keyObj ← lift_res (map_err (Wrap "failed to decode key object from S3")
             (match output with inl d => json_Decode d | inr err => Err err end));
  id ← lift_res (KeyIDFromString (o_ID keyObj));
  alloc (key_of_object id keyObj).

Definition GetKey (id : KeyID) : M W loc := getKeyFromPath (latestPath id).

Definition GetKeyByVersion (id : KeyID) (version : Z) : M W loc := getKeyFromPath (versionPath id version).

Definition GetKeyMetadata (id : KeyID) : M W (option KeyMetadata) :=
  l ← GetKey id; key ← deref l; mret (Metadata key).

Definition GetKeyMetadataByVersion (id : KeyID) (version : Z) : M W (option KeyMetadata) :=
  l ← GetKeyByVersion id version; key ← deref l; mret (Metadata key).

Definition putKey (key : Key) : M W unit :=
  d ← on_err (Wrap "failed to marshal key object") (lift_res (json_Marshal (object_of_key key)));
  let versionPath := versionPath (ID key) (Version key) in
  _ ← on_err (Wrap "failed to put versioned key object to S3") (s3_call (PutObject versionPath d));
  r ← try_ (s3_call (PutObject (latestPath (ID key)) d));
  match r with
  | inl _ => mret tt
  | inr err =>
      _ ← try_ (s3_call (DeleteObject versionPath));
      fail (Wrap "failed to put latest key object to S3" err)
  end.

Definition CreateKey (key : option Key) : M W unit :=
  match key with None => panic "nil pointer dereference" | Some key => putKey key end.

Definition CreateBatchKeys (keys : list Key) : M W unit := for_each (λ key _, putKey key) keys tt.

(** The loop body of [ListKeys]: an identifier that does not parse and a key
    that cannot be read are logged and skipped. *)
Definition list_prefix (prefix obj : string) (keys : list loc) : M W (list loc) :=
  let keyIDStr := TrimSuffix (TrimPrefix obj prefix) "/" in
  r ← try_ (id ← lift_res (KeyIDFromString keyIDStr); GetKey id);
  match r with inl key => mret (keys ++ [key]) | inr _ => mret keys end.

(** The paginator: the pages are those of the bucket as it is at the call. *)
Definition for_pages (prefix : string) (delimiter : bool) (msg : string)
    (f : ListPage -> list loc -> M W (list loc)) : M W (list loc) := λ w,
  let '(pages, b) := ListObjectsV2 prefix delimiter (repo w) in
  for_each (λ page acc, match page with inl p => f p acc | inr err => fail (Wrap msg err) end) pages []
    (set_repo b w).

Definition ListKeys (lastCreatedAt : option Z) (limit : Z) : M W (list loc) :=
  for_pages "keys/" true "failed to list objects from S3" (λ page,
    for_each (list_prefix "keys/") (CommonPrefixes page)).

Definition UpdateKeyMetadata (id : KeyID) (metadata : option KeyMetadata) : M W unit :=
  l ← on_err (Wrap "failed to get key for update") (GetKey id);
  latestKey ← deref l;
  now ← time_now;
  let latestKey := set_UpdatedAt now (set_Metadata metadata latestKey) in
  _ ← assign l latestKey;
  putKey latestKey.

Definition RotateKey (id : KeyID) (newEncryptedDEK : bytes) : M W loc :=
  l ← on_err (Wrap "failed to get key for rotation") (GetKey id);
  latestKey ← deref l;
  now ← time_now;
  let key := mkKey id (wrap32 (Version latestKey + 1)) (Metadata latestKey) newEncryptedDEK KeyStatusActive
               None now now None in
  rotatedKey ← alloc key;
  _ ← on_err (Wrap "failed to create new key version during rotation") (putKey key);
  mret rotatedKey.

Definition RevokeKey (id : KeyID) : M W unit :=
  l ← on_err (Wrap "failed to get key for revocation") (GetKey id);
  latestKey ← deref l;
  now ← time_now;
  let latestKey := set_UpdatedAt now (set_Status KeyStatusRevoked latestKey) in
  _ ← assign l latestKey;
  putKey latestKey.

(** [sort.Slice] by descending version. *)
Definition version_desc (a b : loc * Key) : Prop := Version b.2 <= Version a.2.

#[export] Instance version_desc_dec a b : Decision (version_desc a b).
Proof. unfold version_desc. apply _. Defined.

Definition version_object (obj : string) (versions : list loc) : M W (list loc) :=
  r ← try_ (getKeyFromPath obj);
  match r with inl key => mret (versions ++ [key]) | inr _ => mret versions end.

Definition GetKeyVersions (id : KeyID) : M W (list loc) :=
  versions ← for_pages ("keys/" +:+ KeyID_String id +:+ "/v") false
    "failed to list objects from S3 for versions" (λ page, for_each version_object (Contents page));
  keys ← deref_all versions;
  mret (map fst (merge_sort version_desc (zip versions keys))).

Definition Exists_ (id : KeyID) : M W bool :=
  r ← try_ (s3_call (HeadObject (latestPath id)));
  match r with
  | inl _ => mret true
  | inr err => if As_NoSuchKey err then mret false else fail err
  end.

Definition GetBatchKeys (ids : list KeyID) : M W (list loc) :=
  for_each (λ id keys, r ← try_ (GetKey id);
    match r with inl key => mret (keys ++ [key]) | inr _ => mret keys end) ids [].

(** The getters of a nil [*pk.KeyMetadata] answer as those of the zero message. *)
Definition GetBatchKeyMetadata (ids : list KeyID) : M W (list KeyMetadata) :=
  for_each (λ id metadataList, r ← try_ (GetKeyMetadata id);
    match r with
    | inl metadata => mret (metadataList ++ [default zeroMetadata metadata])
    | inr _ => mret metadataList
    end) ids [].

Definition RevokeBatchKeys (ids : list KeyID) : M W unit :=
  for_each (λ id _, _ ← try_ (RevokeKey id); mret tt) ids tt.

Definition UpdateBatchKeyMetadata (updates : list loc) : M W unit :=
  for_each (λ l _, key ← deref l; _ ← try_ (UpdateKeyMetadata (ID key) (Metadata key)); mret tt) updates tt.

Definition HealthCheck : M W unit := on_err (Wrap "S3 health check failed") (s3_call HeadBucket).
End Ops.
End S3.

#[export] Existing Instance S3.version_desc_dec.

#[export] Instance S3KeyRepository `{UuidPkg} `{S3Json} `{KeyStatusTables} {B} `{!S3Client data B}
  : KeyRepository B := {|
  GetKey := S3.GetKey;
  GetKeyByVersion := S3.GetKeyByVersion;
  GetKeyMetadata := S3.GetKeyMetadata;
  GetKeyMetadataByVersion := S3.GetKeyMetadataByVersion;
  CreateKey := S3.CreateKey;
  CreateBatchKeys := S3.CreateBatchKeys;
  ListKeys := S3.ListKeys;
  UpdateKeyMetadata := S3.UpdateKeyMetadata;
  RotateKey := S3.RotateKey;
  RevokeKey := S3.RevokeKey;
  GetKeyVersions := S3.GetKeyVersions;
  Exists_ := S3.Exists_;
  GetBatchKeys := S3.GetBatchKeys;
  GetBatchKeyMetadata := S3.GetBatchKeyMetadata;
  RevokeBatchKeys := S3.RevokeBatchKeys;
  UpdateBatchKeyMetadata := S3.UpdateBatchKeyMetadata
|}.

(** ** Documented behaviour *)

(** [encoding/json]: these objects always encode, and decode to themselves
    up to [json_metadata], what JSON keeps of the texts in the metadata. *)
Class S3JsonOk `{UuidPkg} `{S3Json} := {
  json_metadata : option KeyMetadata -> option KeyMetadata;
  json_total o : exists d, json_Marshal o = Ok d;
  json_roundtrip (id : KeyID) o d : o_ID o = KeyID_String id -> json_Marshal o = Ok d ->
    json_Decode d = Ok (mkObj (o_ID o) (o_EncryptedDEK o) (json_metadata (o_Metadata o)) (o_Version o) (o_Status o)
                          (o_CreatedAt o) (o_UpdatedAt o))
}.

(** The part of [s] before its first slash (character 47). *)
Fixpoint upto_slash (s : string) : option string :=
  match s with
  | EmptyString => None
  | String a s' => if Ascii.eqb a (ascii_of 47) then Some EmptyString else String a <$> upto_slash s'
  end.

(** What [Delimiter "/"] groups the object [k] under. *)
Definition common_prefix (pre k : string) : option string :=
  match strip_prefix pre k with
  | Some rest => (λ part, pre +:+ part +:+ "/") <$> upto_slash rest
  | None => None
  end.

(** [up b]: the bucket answers every call. *)
Class S3ClientOk (D B : Type) `{!S3Client D B} := {
  objects : B -> gmap string D;
  up : B -> Prop;
  s3_get k b r b' : GetObject k b = (r, b') ->
    objects b' = objects b
    /\ (forall d, r = inl (inl d) -> objects b !! k = Some d)
    /\ (up b -> up b' /\ forall d, objects b !! k = Some d -> r = inl (inl d));
  s3_put k d b r b' : PutObject k d b = (r, b') ->
    (objects b' = <[k := d]> (objects b) \/ (exists e, r = inr e) /\ objects b' = objects b)
    /\ (up b -> up b' /\ r = inl tt);
  s3_delete k b r b' : DeleteObject k b = (r, b') ->
    (objects b' = delete k (objects b) \/ (exists e, r = inr e) /\ objects b' = objects b)
    /\ (up b -> up b');
  (* a HEAD answer has no body, so its errors are never NoSuchKey *)
  s3_head k b r b' : HeadObject k b = (r, b') ->
    objects b' = objects b
    /\ (r = inl tt -> is_Some (objects b !! k))
    /\ (forall e, r = inr e -> As_NoSuchKey e = false);
  s3_list pre delim b pages b' : ListObjectsV2 pre delim b = (pages, b') ->
    objects b' = objects b
    /\ (up b -> up b' /\ exists ps, pages = map inl ps)
    /\ (forall ps, pages = map inl ps ->
        let listed := ps ≫= (if delim then CommonPrefixes else Contents) in
        NoDup listed /\ forall p, p ∈ listed <->
          exists k, is_Some (objects b !! k)
            /\ if delim then common_prefix pre k = Some p else p = k /\ exists rest, k = pre +:+ rest)
}.

(** [uuid.UUID.String]: no slash in the text of an identifier. *)
Class UuidPathSafe `{UuidPkg} := uuid_no_slash u : upto_slash (uuid_String u) = None.

(** ** The abstract store: a key under each name *)

Inductive slot : Type := Latest | At (v : Z).

#[export] Instance slot_eq_dec : EqDecision slot.
Proof. solve_decision. Defined.

Definition path `{UuidPkg} (id : KeyID) (s : slot) : string :=
  match s with Latest => S3.latestPath id | At v => S3.versionPath id v end.

Lemma path_inj `{UuidPkgOk} id s id' s' : path id s = path id' s' -> id = id' /\ s = s'.
Proof.
  assert (Hl : forall a, path id a = "keys/" +:+ KeyID_String id +:+ match a with Latest => "/latest.json" | At v => "/v" +:+ pretty v +:+ ".json" end) by (by intros []).
  intros E. rewrite Hl in E. clear Hl.
  assert (path id' s' = "keys/" +:+ KeyID_String id' +:+ match s' with Latest => "/latest.json" | At v => "/v" +:+ pretty v +:+ ".json" end) as Hr by (by destruct s').
  rewrite Hr in E. apply app_inj_str in E as [_ E]; [|done].
  apply app_inj_str in E as [Hid%KeyID_String_inj E]; [|unfold KeyID_String; by rewrite !uuid_String_length].
  split; [done|]. destruct s, s'; try done. f_equal.
  apply (app_inj_str "/v" "/v") in E as [_ E]; [|done].
  assert (String.length (pretty v) = String.length (pretty v0)) as Hlen.
  { apply (f_equal String.length) in E. rewrite !length_app_str in E. simpl in E. lia. }
  by apply app_inj_str in E as [E%(inj pretty) _].
Qed.

Section Store.
Context `{UuidPkgOk} `{!S3Json} `{!S3JsonOk} `{KeyStatusTables} {B : Type} `{!S3Client data B} `{!S3ClientOk data B}.
Implicit Types w : St B.

Definition read (d : data) : option Key :=
  match json_Decode d with
  | Ok o => match KeyIDFromString (o_ID o) with Ok id => Some (S3.key_of_object id o) | _ => None end
  | _ => None
  end.

Definition view_of (o : gmap string data) (id : KeyID) (s : slot) : option Key :=
  match o !! path id s with Some d => read d | None => None end.

Definition s3_view (b : B) : KeyID -> slot -> option Key := view_of (objects b).

(** What a stored key reads as: times in whole seconds, the status through
    the tables of the enum, no tier and no revocation time. *)
Definition s3_status (st : KeyStatus) : KeyStatus := default "" (KeyStatus_name !! default 0 (KeyStatus_value !! st)).

Definition s3_image (k : Key) : Key :=
  mkKey (ID k) (Version k) (json_metadata (Metadata k)) (EncryptedDEK k) (s3_status (Status k)) None
    (CreatedAt k / Second * Second) (UpdatedAt k / Second * Second) None.

Definition slot_of (k : Key) (id : KeyID) (s : slot) : Prop := id = ID k /\ (s = Latest \/ s = At (Version k)).
#[export] Instance slot_of_dec k id s : Decision (slot_of k id s).
Proof. unfold slot_of. apply _. Defined.

Definition stored (k : Key) (st st' : KeyID -> slot -> option Key) : Prop :=
  forall id s, st' id s = if decide (slot_of k id s) then Some (s3_image k) else st id s.

(** What a failed write can leave behind. *)
Definition torn (k : Key) (st st' : KeyID -> slot -> option Key) : Prop :=
  (forall id s, ~ slot_of k id s -> st' id s = st id s)
  /\ (st' (ID k) Latest = st (ID k) Latest \/ st' (ID k) Latest = Some (s3_image k))
  /\ (st' (ID k) (At (Version k)) = st (ID k) (At (Version k)) \/ st' (ID k) (At (Version k)) = Some (s3_image k)
      \/ st' (ID k) (At (Version k)) = None).

(** Every object lies under its name. *)
Definition names_ok (o : gmap string data) : Prop :=
  forall name d, o !! name = Some d ->
    exists id s k, name = path id s /\ read d = Some k /\ ID k = id
      /\ match s with Latest => True | At v => Version k = v end.

Lemma read_written k d : json_Marshal (S3.object_of_key k) = Ok d -> read d = Some (s3_image k).
Proof.
  intros Hd. unfold read. rewrite (json_roundtrip (ID k) (S3.object_of_key k) d eq_refl Hd). simpl.
  by rewrite KeyIDFromString_String.
Qed.

Lemma view_insert o id s d id' s' :
  view_of (<[path id s := d]> o) id' s' = if decide (id' = id /\ s' = s) then read d else view_of o id' s'.
Proof.
  unfold view_of. case_decide as Hd; [destruct Hd as [-> ->]; by rewrite lookup_insert_eq|].
  rewrite lookup_insert_ne; [done|]. intros [-> ->]%path_inj. by apply Hd.
Qed.

Lemma view_delete o id s id' s' :
  view_of (delete (path id s) o) id' s' = if decide (id' = id /\ s' = s) then None else view_of o id' s'.
Proof.
  unfold view_of. case_decide as Hd; [destruct Hd as [-> ->]; by rewrite lookup_delete_eq|].
  rewrite lookup_delete_ne; [done|]. intros [-> ->]%path_inj. by apply Hd.
Qed.

Lemma names_insert k o s d :
  read d = Some (s3_image k) -> s = Latest \/ s = At (Version k) -> names_ok o -> names_ok (<[path (ID k) s := d]> o).
Proof.
  intros Hd Hs Ho name d'. rewrite lookup_insert_Some. intros [[<- <-]|[_ Hn]]; [|by apply Ho].
  exists (ID k), s, (s3_image k). split_and!; [done..|]. by destruct Hs as [->| ->].
Qed.

Lemma names_delete o name : names_ok o -> names_ok (delete name o).
Proof. intros Ho name' d [_ Hn]%lookup_delete_Some. by apply Ho. Qed.

Lemma s3_call_run {A} (f : B -> (A + error) * B) w r w' :
  S3.s3_call f w = (r, w') ->
  exists x b', f (repo w) = (x, b') /\ w' = set_repo b' w
    /\ r = match x with inl a => Ok a | inr err => Err err end.
Proof. unfold S3.s3_call. destruct (f (repo w)) as [x b'] eqn:E. intros [= <- <-]. eauto. Qed.

Lemma getKeyFromPath_run p w r w' :
  S3.getKeyFromPath p w = (r, w') ->
  objects (repo w') = objects (repo w) /\ clock w' = clock w
  /\ (forall l, r = Ok l -> exists d k, objects (repo w) !! p = Some d /\ read d = Some k
        /\ l = next w /\ heap w' = <[next w := k]> (heap w) /\ next w' = Datatypes.S (next w))
  /\ (is_ok r = false -> heap w' = heap w /\ next w' = next w)
  /\ (objects (repo w) !! p = None -> exists e, r = Err e)
  /\ (up (repo w) -> up (repo w') /\ forall d k, objects (repo w) !! p = Some d -> read d = Some k -> r = Ok (next w)).
Proof.
  unfold S3.getKeyFromPath, mbind, GoM_bind, on_err.
  destruct (S3.s3_call (GetObject p) w) as [x w1] eqn:E.
  apply s3_call_run in E as (y & b' & Hg & -> & ->). apply s3_get in Hg as (Ho & Hd & Hup).
  destruct y as [[d|e]|e]; cbn.
  2,3: intros [= <- <-]; split_and!; eauto; try done; intros Hu; apply Hup in Hu as [Hu Hx]; split; [done|];
    intros d k Hk; apply Hx in Hk; done.
  specialize (Hd d eq_refl) as Hp. unfold read.
  destruct (json_Decode d) as [o| |] eqn:Ed; cbn; [destruct (KeyIDFromString (o_ID o)) as [id| |] eqn:Ei; cbn| |];
    intros [= <- <-]; cbn; split_and!; try done; try congruence.
  - intros l [= <-]. exists d, (S3.key_of_object id o). by rewrite Ed, Ei.
  - intros Hu. by split; [apply Hup|].
  - intros Hu. split; [by apply Hup|]. intros d0 k0 Hd0. assert (d0 = d) as -> by congruence. by rewrite Ed, Ei.
  - intros Hu. split; [by apply Hup|]. intros d0 k0 Hd0. assert (d0 = d) as -> by congruence. by rewrite Ed, Ei.
  - intros Hu. split; [by apply Hup|]. intros d0 k0 Hd0. assert (d0 = d) as -> by congruence. by rewrite Ed.
  - intros Hu. split; [by apply Hup|]. intros d0 k0 Hd0. assert (d0 = d) as -> by congruence. by rewrite Ed.
Qed.

(** The bucket after a write of [k]: done, or interrupted somewhere. *)
Lemma putKey_objects k w r w' :
  S3.putKey k w = (r, w') ->
  exists d, json_Marshal (S3.object_of_key k) = Ok d
  /\ clock w' = clock w /\ heap w' = heap w /\ next w' = next w
  /\ (up (repo w) -> up (repo w') /\ r = Ok tt)
  /\ let o := objects (repo w) in let vp := path (ID k) (At (Version k)) in let lp := path (ID k) Latest in
     if is_ok r then objects (repo w') = <[lp := d]> (<[vp := d]> o)
     else exists o1, (o1 = o \/ o1 = <[vp := d]> o \/ o1 = <[lp := d]> (<[vp := d]> o))
            /\ (objects (repo w') = o1 \/ objects (repo w') = delete vp o1).
Proof.
  unfold S3.putKey. destruct (json_total (S3.object_of_key k)) as [d Hd]. rewrite Hd.
  unfold mbind, GoM_bind, on_err, lift_res. cbn.
  destruct (S3.s3_call (PutObject _ d) w) as [x w1] eqn:E1.
  apply s3_call_run in E1 as (y1 & b1 & E1 & -> & ->). apply s3_put in E1 as [Ho1 Hu1].
  destruct y1 as [[]|e1]; cbn.
  2: { intros [= <- <-]. exists d. split_and!; try done.
       - intros Hu. by destruct (Hu1 Hu).
       - cbn. destruct Ho1 as [->|[_ ->]]; eauto 6. }
  destruct Ho1 as [Ho1|[[? [=]] _]].
  unfold try_ at 1. destruct (S3.s3_call (PutObject _ d) _) as [x w2] eqn:E2.
  apply s3_call_run in E2 as (y2 & b2 & E2 & -> & ->). apply s3_put in E2 as [Ho2 Hu2]. cbn in Ho2, Hu2.
  destruct y2 as [[]|e2]; cbn.
  { intros [= <- <-]. exists d. split_and!; try done.
    - intros Hu. destruct (Hu1 Hu) as [Hu' _]. by destruct (Hu2 Hu').
    - cbn. destruct Ho2 as [->|[[? [=]] _]]. by rewrite Ho1. }
  unfold try_. destruct (S3.s3_call (DeleteObject _) _) as [x w3] eqn:E3.
  apply s3_call_run in E3 as (y3 & b3 & E3 & -> & ->). apply s3_delete in E3 as [Ho3 Hu3]. cbn in Ho3, Hu3.
  destruct y3; cbn; intros [= <- <-]; exists d; (split_and!; [done..| |]).
  1,3: intros Hu; destruct (Hu1 Hu) as [Hu' _]; by destruct (Hu2 Hu').
  all: cbn; exists (objects b2); (split; [destruct Ho2 as [->|[_ ->]]; rewrite Ho1; eauto|]);
    destruct Ho3 as [->|[_ ->]]; eauto.
Qed.

Lemma putKey_run k w r w' :
  S3.putKey k w = (r, w') ->
  clock w' = clock w /\ heap w' = heap w /\ next w' = next w
  /\ (names_ok (objects (repo w)) -> names_ok (objects (repo w')))
  /\ (up (repo w) -> up (repo w') /\ r = Ok tt)
  /\ (if is_ok r then stored k (s3_view (repo w)) (s3_view (repo w')) else torn k (s3_view (repo w)) (s3_view (repo w'))).
Proof.
  intros (d & Hd%read_written & Hc & Hh & Hn & Hu & Ho)%putKey_objects. unfold s3_view.
  split_and!; try done; destruct (is_ok r).
  - rewrite Ho. intros ?. repeat (apply names_insert; eauto).
  - destruct Ho as (o1 & Ho1 & Ho). intros Hok.
    assert (names_ok o1) by (destruct Ho1 as [->|[->| ->]]; [done|repeat (apply names_insert; eauto)..]).
    destruct Ho as [->| ->]; [done|by apply names_delete].
  - rewrite Ho. intros id s. rewrite !view_insert. unfold slot_of. repeat case_decide; try done; naive_solver.
  - destruct Ho as (o1 & Ho1 & Ho). split_and!.
    + intros id s Hns. unfold slot_of in Hns.
      destruct Ho as [->| ->]; rewrite ?view_delete; destruct Ho1 as [->|[->| ->]]; rewrite ?view_insert;
        repeat case_decide; try done; naive_solver.
    + destruct Ho as [->| ->]; rewrite ?view_delete; destruct Ho1 as [->|[->| ->]]; rewrite ?view_insert;
        repeat case_decide; try naive_solver.
    + destruct Ho as [->| ->]; rewrite ?view_delete; destruct Ho1 as [->|[->| ->]]; rewrite ?view_insert;
        repeat case_decide; try naive_solver.
Qed.

Lemma names_view o id s k :
  names_ok o -> view_of o id s = Some k -> ID k = id /\ match s with Latest => True | At v => Version k = v end.
Proof.
  unfold view_of. intros Ho. destruct (o !! path id s) as [d|] eqn:E; [|done]. intros Hr.
  apply Ho in E as (id' & s' & k' & [-> ->]%path_inj & Hk & Hid & Hv). assert (k' = k) as -> by congruence. done.
Qed.

(** A read of a slot. *)
Lemma read_run id s w r w' :
  S3.getKeyFromPath (path id s) w = (r, w') ->
  objects (repo w') = objects (repo w) /\ clock w' = clock w
  /\ (up (repo w) -> up (repo w'))
  /\ (forall l, r = Ok l -> exists k, s3_view (repo w) id s = Some k
        /\ l = next w /\ heap w' = <[next w := k]> (heap w) /\ next w' = Datatypes.S (next w))
  /\ (up (repo w) -> is_Some (s3_view (repo w) id s) -> r = Ok (next w)).
Proof.
  intros (Ho & Hc & Hok & _ & _ & Hup)%getKeyFromPath_run. unfold s3_view, view_of.
  split_and!; [done|done|naive_solver| |].
  - intros l Hl. apply Hok in Hl as (d & k & -> & Hr & ?). by exists k.
  - intros Hu [k Hk]. destruct (objects (repo w) !! path id s) as [d|] eqn:E; [|done]. by apply (proj2 (Hup Hu) d k).
Qed.

(** What a write of a key did to the bucket, seen from before and after. *)
Definition wrote (intended : Key -> Prop) (w : St B) (ok : bool) (w' : St B) : Prop :=
  names_ok (objects (repo w'))
  /\ if ok then exists k, intended k /\ stored k (s3_view (repo w)) (s3_view (repo w'))
     else objects (repo w') = objects (repo w) \/ exists k, intended k /\ torn k (s3_view (repo w)) (s3_view (repo w')).

Lemma putKey_wrote (intended : Key -> Prop) k w w0 r w' :
  names_ok (objects (repo w)) -> objects (repo w) = objects (repo w0) -> intended k ->
  S3.putKey k w = (r, w') -> wrote intended w0 (is_ok r) w'.
Proof.
  intros Hn Ho Hk (_ & _ & _ & Hn' & _ & Hr)%putKey_run. split; [by apply Hn'|]. unfold s3_view in *. rewrite Ho in Hr.
  destruct (is_ok r); eauto.
Qed.

(** Read the newest version, change it, write it back. *)
Lemma modify_run id msg (f : Z -> Key -> Key) w r w' :
  (forall now k, ID (f now k) = ID k) -> names_ok (objects (repo w)) ->
  (l ← on_err (Wrap msg) (S3.GetKey id); key ← deref l; now ← time_now;
   _ ← assign l (f now key); S3.putKey (f now key)) w = (r, w') ->
  wrote (λ k, exists old, s3_view (repo w) id Latest = Some old /\ ID k = id /\ k = f (clock w) old) w (is_ok r) w'
  /\ (up (repo w) -> is_Some (s3_view (repo w) id Latest) -> up (repo w') /\ r = Ok tt).
Proof.
  intros Hf Hn. unfold mbind, GoM_bind, on_err, time_now, gets.
  destruct (S3.GetKey id w) as [rg w1] eqn:Hg. unfold S3.GetKey in Hg. apply (read_run id Latest) in Hg as (Ho & Hc & Hu & Hok & Hup).
  destruct rg as [l| |]; cbn; cycle 1.
  - intros [= <- <-]. split; [split; [by rewrite Ho|by left]|]. intros Hb Hk. by specialize (Hup Hb Hk).
  - intros [= <- <-]. split; [split; [by rewrite Ho|by left]|]. intros Hb Hk. by specialize (Hup Hb Hk).
  - destruct (Hok l eq_refl) as (k & Hv & -> & Hh & Hnx).
    unfold deref. rewrite Hh, lookup_insert_eq. unfold assign. rewrite Hh, lookup_insert_eq. intros E.
    assert (ID (f (clock w1) k) = id) as Hid by (rewrite Hf; by apply (names_view _ _ _ _ Hn) in Hv as [? _]).
    split.
    + eapply putKey_wrote, E; [by cbn; rewrite Ho|done|]. exists k. by rewrite <-Hc.
    + intros Hb Hk. apply putKey_run in E as (_ & _ & _ & _ & Hpu & _). apply Hpu, Hu, Hb.
Qed.

Lemma s3_rotate_run id dek w r w' :
  names_ok (objects (repo w)) -> S3.RotateKey id dek w = (r, w') ->
  wrote (λ k, exists old, s3_view (repo w) id Latest = Some old
    /\ k = mkKey id (wrap32 (Version old + 1)) (Metadata old) dek KeyStatusActive None (clock w) (clock w) None) w (is_ok r) w'.
Proof.
  intros Hn. unfold S3.RotateKey, mbind, GoM_bind, on_err, time_now, gets.
  destruct (S3.GetKey id w) as [rg w1] eqn:Hg. unfold S3.GetKey in Hg. apply (read_run id Latest) in Hg as (Ho & Hc & Hu & Hok & Hup).
  destruct rg as [l| |]; cbn; [|intros [= <- <-]; split; [by rewrite Ho|by left]..].
  destruct (Hok l eq_refl) as (k & Hv & -> & Hh & Hnx).
  unfold deref. rewrite Hh, lookup_insert_eq. cbn.
  destruct (S3.putKey _ _) as [rp w2] eqn:E. intros Hr.
  assert (is_ok r = is_ok rp /\ w' = w2) as [-> ->] by (destruct rp; cbn in Hr; by injection Hr as <- <-).
  eapply putKey_wrote, E; [by cbn; rewrite Ho|done|]. exists k. by rewrite <-Hc.
Qed.

(** ** Operations *)

Inductive s3_op : Type :=
| OpCreate (key : Key) | OpUpdate (id : KeyID) (m : option KeyMetadata) | OpRotate (id : KeyID) (dek : bytes)
| OpRevoke (id : KeyID).

Definition run_op (op : s3_op) : M (St B) unit :=
  match op with
  | OpCreate key => Repo.CreateKey (Some key)
  | OpUpdate id m => Repo.UpdateKeyMetadata id m
  | OpRotate id dek => _ ← Repo.RotateKey id dek; mret tt
  | OpRevoke id => Repo.RevokeKey id
  end.

(** The key an operation means to store. *)
Definition intends (op : s3_op) (now : Z) (st : KeyID -> slot -> option Key) (k : Key) : Prop :=
  match op with
  | OpCreate key => k = key
  | OpUpdate id m => exists old, st id Latest = Some old /\ ID k = id /\ k = set_UpdatedAt now (set_Metadata m old)
  | OpRotate id dek => exists old, st id Latest = Some old
      /\ k = mkKey id (wrap32 (Version old + 1)) (Metadata old) dek KeyStatusActive None now now None
  | OpRevoke id => exists old, st id Latest = Some old /\ ID k = id /\ k = set_UpdatedAt now (set_Status KeyStatusRevoked old)
  end.


(** ** Listings *)

Lemma for_each_app {A X} (f : A -> X -> M (St B) X) (l1 l2 : list A) x w :
  for_each f (l1 ++ l2) x w = (y ← for_each f l1 x; for_each f l2 y) w.
Proof.
  revert x w. induction l1 as [|a l1 IH]; intros x w; [done|]. cbn. unfold mbind, GoM_bind.
  destruct (f a x w) as [[x'| |] w1]; [|done..]. by rewrite IH.
Qed.

Lemma for_each_pages {X} (f : string -> X -> M (St B) X) (g : ListPage -> list string) msg (ps : list ListPage) x w :
  for_each (λ page acc, match page with inl p => for_each f (g p) acc | inr err => fail (Wrap msg err) end) (map inl ps) x w
  = for_each f (ps ≫= g) x w.
Proof.
  revert x w. induction ps as [|p ps IH]; intros x w; [done|]. cbn. rewrite for_each_app. unfold mbind at 1 2, GoM_bind.
  destruct (for_each f (g p) x w) as [[x'| |] w1]; [|done..]. apply IH.
Qed.

(** A loop that reads one object per item, skipping those [kv] has nothing for. *)
Definition reads_each {A} (o : gmap string data) (f : A -> list loc -> M (St B) (list loc)) (kv : A -> option Key) (a : A) : Prop :=
  forall acc w, up (repo w) -> objects (repo w) = o -> exists w', up (repo w') /\ objects (repo w') = o /\
    match kv a with
    | Some k => f a acc w = (Ok (acc ++ [next w]), w') /\ heap w' = <[next w := k]> (heap w) /\ next w' = Datatypes.S (next w)
    | None => f a acc w = (Ok acc, w') /\ heap w' = heap w /\ next w' = next w
    end.

Definition points_to (w : St B) (l : loc) (k : Key) : Prop := heap w !! l = Some k.

Lemma reads_all {A} o f kv (l : list A) acc w :
  Forall (reads_each o f kv) l -> up (repo w) -> objects (repo w) = o -> heap_wf w ->
  exists ls w', for_each f l acc w = (Ok (acc ++ ls), w') /\ Forall2 (points_to w') ls (omap kv l)
    /\ heap w ⊆ heap w' /\ heap_wf w' /\ up (repo w') /\ objects (repo w') = o.
Proof.
  intros Hl. revert acc w. induction Hl as [|a l Ha Hl IH]; intros acc w Hu Ho Hw.
  { exists [], w. rewrite app_nil_r. by split_and!. }
  destruct (Ha acc w Hu Ho) as (w1 & Hu1 & Ho1 & Hk). cbn. unfold mbind, GoM_bind.
  destruct (kv a) as [k|]; destruct Hk as (-> & Hh & Hn).
  - assert (heap_wf w1) as Hw1.
    { intros l0. rewrite Hh, Hn, lookup_insert. case_decide; [lia|]. intros ?%Hw. lia. }
    destruct (IH (acc ++ [next w]) w1 Hu1 Ho1 Hw1) as (ls & w' & E & Hls & Hsub & ?).
    exists (next w :: ls), w'. rewrite E, <-app_assoc. split_and!; try done; try naive_solver.
    + constructor; [|done]. refine (lookup_weaken (heap w1) (heap w') _ _ _ Hsub). by rewrite Hh, lookup_insert_eq.
    + etrans; [|done]. rewrite Hh. apply insert_subseteq. by apply heap_wf_next.
  - assert (heap_wf w1) as Hw1 by (intros l0; rewrite Hh, Hn; apply Hw).
    destruct (IH acc w1 Hu1 Ho1 Hw1) as (ls & w' & E & Hls & Hsub & ?). rewrite Hh in Hsub. exists ls, w'. naive_solver.
Qed.

Lemma version_object_reads o name : names_ok o ->
  reads_each o S3.version_object (λ name, match o !! name with Some d => read d | None => None end) name.
Proof.
  intros Hn acc w Hu Ho. unfold S3.version_object, mbind, GoM_bind, try_.
  destruct (S3.getKeyFromPath name w) as [r w'] eqn:E. exists w'.
  apply getKeyFromPath_run in E as (Ho' & _ & Hok & Hno & Hmiss & Hup). rewrite Ho in *.
  destruct (Hup Hu) as [Hu' Hup']. split_and!; [done|done|].
  destruct (o !! name) as [d|] eqn:Ed.
  - destruct (Hn name d Ed) as (_ & _ & k & _ & Hr & _). rewrite Hr. rewrite (Hup' d k eq_refl Hr) in *.
    destruct (Hok _ eq_refl) as (d' & k' & [= <-] & Hr' & _ & Hh & Hnx). assert (k' = k) as -> by congruence. done.
  - destruct (Hmiss eq_refl) as [e ->]. by destruct (Hno eq_refl).
Qed.

Lemma TrimSuffix_app s suf : TrimSuffix (s +:+ suf) suf = s.
Proof.
  unfold TrimSuffix. rewrite rev_app_str.
  by rewrite (proj2 (strip_prefix_spec (String.rev suf) _ (String.rev s)) eq_refl), rev_involutive_str.
Qed.

Lemma listed_id id : TrimSuffix (TrimPrefix ("keys/" +:+ KeyID_String id +:+ "/") "keys/") "/" = KeyID_String id.
Proof. unfold TrimPrefix. rewrite (proj2 (strip_prefix_spec "keys/" _ _) eq_refl). apply TrimSuffix_app. Qed.

Lemma list_prefix_reads o id : names_ok o ->
  reads_each o (S3.list_prefix "keys/") (λ p, match KeyIDFromString (TrimSuffix (TrimPrefix p "keys/") "/") with
    Ok id => view_of o id Latest | _ => None end) ("keys/" +:+ KeyID_String id +:+ "/").
Proof.
  intros Hn acc w Hu Ho. unfold S3.list_prefix.
  rewrite listed_id, KeyIDFromString_String. unfold mbind, GoM_bind, try_, lift_res, S3.GetKey.
  destruct (S3.getKeyFromPath _ w) as [r w'] eqn:E. exists w'. change (S3.latestPath id) with (path id Latest) in E.
  apply getKeyFromPath_run in E as (Ho' & _ & Hok & Hno & Hmiss & Hup). rewrite Ho in *.
  destruct (Hup Hu) as [Hu' Hup']. split_and!; [done|done|]. unfold view_of.
  destruct (o !! path id Latest) as [d|] eqn:Ed.
  - destruct (Hn _ d Ed) as (_ & _ & k & _ & Hr & _). rewrite Hr. rewrite (Hup' d k eq_refl Hr) in *.
    destruct (Hok _ eq_refl) as (d' & k' & [= <-] & Hr' & _ & Hh & Hnx). assert (k' = k) as -> by congruence. done.
  - destruct (Hmiss eq_refl) as [e ->]. by destruct (Hno eq_refl).
Qed.

(** The names a listing of versions finds. *)
Lemma version_prefix id name : (exists s id', name = path id' s) ->
  (exists rest, name = ("keys/" +:+ KeyID_String id +:+ "/v") +:+ rest) <-> exists v, name = path id (At v).
Proof.
  intros (s & id' & ->). split.
  - intros [rest E]. destruct s as [|v]; unfold path, S3.latestPath, S3.versionPath in *;
      rewrite !app_assoc_str in E; apply app_inj_str in E as [_ E]; try done;
      apply app_inj_str in E as [Hid%KeyID_String_inj E]; try (unfold KeyID_String; by rewrite !uuid_String_length);
      [discriminate|]. exists v. by rewrite Hid.
  - intros [v [-> ->]%path_inj]. exists (pretty v +:+ ".json"). unfold path, S3.versionPath. by rewrite !app_assoc_str.
Qed.

Lemma upto_slash_app s t : upto_slash s = None -> upto_slash (s +:+ "/" +:+ t) = Some s.
Proof.
  induction s as [|a s IH]; [done|]. rewrite app_cons_str. cbn [upto_slash]. destruct (Ascii.eqb a (ascii_of 47)); [done|].
  destruct (upto_slash s); [done|]. intros _. by rewrite IH.
Qed.

Lemma common_prefix_path `{!UuidPathSafe} id s : common_prefix "keys/" (path id s) = Some ("keys/" +:+ KeyID_String id +:+ "/").
Proof.
  unfold common_prefix. assert (exists t, path id s = "keys/" +:+ KeyID_String id +:+ "/" +:+ t) as [t ->].
  { destruct s as [|v]; [by exists "latest.json"|]. exists ("v" +:+ pretty v +:+ ".json").
    unfold path, S3.versionPath. by rewrite !app_cons_str, !app_nil_str. }
  rewrite (proj2 (strip_prefix_spec "keys/" _ _) eq_refl), upto_slash_app; [done|apply uuid_no_slash].
Qed.

Lemma NoDup_omap_on {A K} (kv : A -> option Key) (g : Key -> K) (l : list A) :
  NoDup l ->
  (forall a b k k', a ∈ l -> b ∈ l -> kv a = Some k -> kv b = Some k' -> g k = g k' -> a = b) ->
  NoDup (map g (omap kv l)).
Proof.
  induction 1 as [|a l Ha _ IH]; intros Hinj; [constructor|]. cbn.
  assert (NoDup (map g (omap kv l))) by (apply IH; intros; eapply Hinj; eauto; by right).
  destruct (kv a) as [k|] eqn:Ek; [|done]. constructor; [|done].
  intros (k' & Hg & (b & Hb & Hk')%list_elem_of_omap)%list_elem_of_fmap.
  apply Ha. by rewrite (Hinj a b k k') by (eauto; by (left + right)).
Qed.

Lemma deref_all_points w ls ks : Forall2 (points_to w) ls ks -> deref_all ls w = (Ok ks, w).
Proof.
  induction 1 as [|l k ls ks Hl _ IH]; [done|]. cbn. unfold mbind, GoM_bind, deref. by rewrite Hl, IH.
Qed.

Lemma Forall2_pairs {A X} (P : A -> X -> Prop) (l : list (A * X)) :
  Forall (uncurry P) l -> Forall2 P (map fst l) (map snd l).
Proof. induction 1 as [|[a x] l Hp _ IH]; by constructor. Qed.

Lemma zip_points w ls ks : Forall2 (points_to w) ls ks -> Forall (uncurry (points_to w)) (zip ls ks) /\ map snd (zip ls ks) = ks.
Proof. induction 1 as [|l k ls ks Hl _ [IH1 IH2]]; [done|]. cbn. rewrite IH2. by split; [constructor|]. Qed.

#[export] Instance version_desc_total : Total S3.version_desc.
Proof. intros a b. unfold S3.version_desc. lia. Qed.
#[export] Instance version_desc_trans : Transitive S3.version_desc.
Proof. intros a b c. unfold S3.version_desc. lia. Qed.

Lemma sorted_snd (l : list (loc * Key)) :
  StronglySorted S3.version_desc l -> StronglySorted (λ a b, Version b <= Version a) (map snd l).
Proof. induction 1 as [|a l _ IH Ha]; constructor; [done|]. by apply Forall_map. Qed.

(** A listing loop over a bucket that answers. *)
Lemma for_pages_run pre (delim : bool) msg (f : string -> list loc -> M (St B) (list loc)) (kv : string -> option Key) w :
  let o := objects (repo w) in
  up (repo w) -> heap_wf w ->
  (forall p, (exists k, is_Some (o !! k) /\ if delim then common_prefix pre k = Some p else p = k /\ exists rest, k = pre +:+ rest) ->
     reads_each o f kv p) ->
  exists listed ls w', NoDup listed
    /\ (forall p, p ∈ listed <-> exists k, is_Some (o !! k)
           /\ if delim then common_prefix pre k = Some p else p = k /\ exists rest, k = pre +:+ rest)
    /\ S3.for_pages pre delim msg (λ page, for_each f ((if delim then CommonPrefixes else Contents) page)) w = (Ok ls, w')
    /\ Forall2 (points_to w') ls (omap kv listed).
Proof.
  intros o Hu Hw Hf. unfold S3.for_pages. destruct (ListObjectsV2 pre delim (repo w)) as [pages b] eqn:E.
  apply s3_list in E as (Ho & Hup & Hl). destruct (Hup Hu) as [Hub [ps ->]]. destruct (Hl ps eq_refl) as [Hnd Hin].
  rewrite for_each_pages. set (listed := ps ≫= _) in *.
  destruct (reads_all o f kv listed [] (set_repo b w)) as (ls & w' & -> & Hls & _); [|done..|].
  - apply Forall_forall. intros p Hp%Hin. by apply Hf.
  - by exists listed, ls, w'.
Qed.

Lemma versions_complete id w :
  up (repo w) -> names_ok (objects (repo w)) -> heap_wf w ->
  exists ls ks w', S3.GetKeyVersions id w = (Ok ls, w') /\ Forall2 (points_to w') ls ks
     /\ NoDup (map Version ks) /\ StronglySorted (λ a b, Version b <= Version a) ks
     /\ forall k, k ∈ ks <-> exists v, s3_view (repo w) id (At v) = Some k.
Proof.
  intros Hu Hn Hw. unfold s3_view. set (o := objects (repo w)) in *.
  set (kv := λ name, match o !! name with Some d => read d | None => None end).
  destruct (for_pages_run ("keys/" +:+ KeyID_String id +:+ "/v") false "failed to list objects from S3 for versions"
              S3.version_object kv w Hu Hw) as (names & ls & w' & Hnd & Hin & E & Hls).
  { intros p _. by apply version_object_reads. }
  assert (Hnames : forall n, n ∈ names <-> exists v, n = path id (At v) /\ is_Some (o !! n)).
  { intros n. rewrite Hin. split.
    - intros (k & [d Hk] & -> & Hp). destruct (Hn k d Hk) as (i & s & _ & Hi & _).
      apply version_prefix in Hp as [v Hv]; [|by exists s, i]. exists v. split; [done|by exists d].
    - intros (v & -> & Hd). exists (path id (At v)). split_and!; [done|done|].
      apply version_prefix; [by exists (At v), id|by exists v]. }
  unfold S3.GetKeyVersions. rewrite (bind_eq _ _ _ _ _ E), (bind_eq _ _ _ _ _ (deref_all_points _ _ _ Hls)).
  destruct (zip_points _ _ _ Hls) as [Hz Hs].
  pose proof (merge_sort_Permutation S3.version_desc (zip ls (omap kv names))) as Hp.
  set (sorted := merge_sort S3.version_desc _) in *.
  assert (map snd sorted ≡ₚ omap kv names) as Hperm by (by rewrite Hp, Hs).
  exists (map fst sorted), (map snd sorted), w'. split_and!; [done|apply Forall2_pairs; by rewrite Hp| |..].
  - rewrite Hperm. apply NoDup_omap_on; [done|]. intros a b k k' (v & -> & _)%Hnames (v' & -> & _)%Hnames Hk Hk' Hv.
    apply (names_view o) in Hk as [_ <-]; [|done]. apply (names_view o) in Hk' as [_ <-]; [|done]. by rewrite Hv.
  - apply sorted_snd, StronglySorted_merge_sort; apply _.
  - intros k. rewrite Hperm, list_elem_of_omap. split.
    + intros (n & (v & -> & _)%Hnames & Hk). by exists v.
    + intros [v Hv]. exists (path id (At v)). split; [|done]. apply Hnames. exists v. split; [done|].
      unfold view_of in Hv. by destruct (o !! path id (At v)).
Qed.

Lemma keys_complete `{!UuidPathSafe} cursor limit w :
  up (repo w) -> names_ok (objects (repo w)) -> heap_wf w ->
  exists ls ks w', S3.ListKeys cursor limit w = (Ok ls, w') /\ Forall2 (points_to w') ls ks
     /\ NoDup (map ID ks) /\ forall k, k ∈ ks <-> exists id, s3_view (repo w) id Latest = Some k.
Proof.
  intros Hu Hn Hw. unfold s3_view. set (o := objects (repo w)) in *.
  set (kv := λ p, match KeyIDFromString (TrimSuffix (TrimPrefix p "keys/") "/") with
                  Ok id => view_of o id Latest | _ => None end).
  set (dir := λ id, "keys/" +:+ KeyID_String id +:+ "/").
  assert (forall id, kv (dir id) = view_of o id Latest) as Hkv.
  { intros id. unfold kv, dir. by rewrite listed_id, KeyIDFromString_String. }
  destruct (for_pages_run "keys/" true "failed to list objects from S3" (S3.list_prefix "keys/") kv w Hu Hw)
    as (ps & ls & w' & Hnd & Hin & E & Hls).
  { intros p (k & [d Hk] & Hc). destruct (Hn k d Hk) as (id & s & _ & -> & _). rewrite common_prefix_path in Hc.
    injection Hc as <-. by apply list_prefix_reads. }
  assert (Hps : forall p, p ∈ ps <-> exists id s, p = dir id /\ is_Some (o !! path id s)).
  { intros p. rewrite Hin. split.
    - intros (k & [d Hk] & Hc). destruct (Hn k d Hk) as (id & s & _ & -> & _). rewrite common_prefix_path in Hc.
      injection Hc as <-. exists id, s. split; [done|by exists d].
    - intros (id & s & -> & Hs). exists (path id s). split; [done|apply common_prefix_path]. }
  exists ls, (omap kv ps), w'. split_and!; [done|done| |].
  - apply NoDup_omap_on; [done|]. intros a b k k' (id & _ & -> & _)%Hps (id' & _ & -> & _)%Hps.
    rewrite !Hkv. intros [<- _]%(names_view o) [<- _]%(names_view o) Hid; [|done..]. by rewrite Hid.
  - intros k. rewrite list_elem_of_omap. split.
    + intros (p & (id & _ & -> & _)%Hps & Hk). rewrite Hkv in Hk. by exists id.
    + intros [id Hk]. exists (dir id). rewrite Hkv. split; [|done]. apply Hps. exists id, Latest. split; [done|].
      unfold view_of in Hk. by destruct (o !! path id Latest).
Qed.

(** listings are complete.  While S3 answers, [GetKeyVersions] returns
    every stored version of the key once, newest first, and [ListKeys] the
    newest version of every key once, whatever cursor and limit it is given. *)
Theorem s3_listings_complete `{!UuidPathSafe} w :
  up (repo w) -> names_ok (objects (repo w)) -> heap_wf w ->
  (forall id, exists ls ks w', Repo.GetKeyVersions id w = (Ok ls, w') /\ Forall2 (points_to w') ls ks
     /\ NoDup (map Version ks) /\ StronglySorted (λ a b, Version b <= Version a) ks
     /\ forall k, k ∈ ks <-> exists v, s3_view (repo w) id (At v) = Some k)
  /\ (forall cursor limit, exists ls ks w', Repo.ListKeys cursor limit w = (Ok ls, w') /\ Forall2 (points_to w') ls ks
     /\ NoDup (map ID ks) /\ forall k, k ∈ ks <-> exists id, s3_view (repo w) id Latest = Some k).
Proof. intros Hu Hn Hw. split; intros; [by apply versions_complete|by apply keys_complete]. Qed.

(** While S3 answers, a created key is read back as its image. *)
Theorem s3_create_get k w :
  up (repo w) -> names_ok (objects (repo w)) ->
  exists w1, Repo.CreateKey (Some k) w = (Ok tt, w1) /\
    forall s, s = Latest \/ s = At (Version k) ->
    exists l w2, (match s with Latest => Repo.GetKey (ID k) | At v => Repo.GetKeyByVersion (ID k) v end) w1 = (Ok l, w2)
      /\ heap w2 !! l = Some (s3_image k).
Proof.
  intros Hu Hn. cbn [Repo.CreateKey S3KeyRepository S3.CreateKey]. destruct (S3.putKey k w) as [r w1] eqn:E. exists w1.
  apply putKey_run in E as (_ & _ & _ & _ & Hup & Hv). destruct (Hup Hu) as [Hu1 ->]. split; [done|]. cbn in Hv.
  intros s Hs. specialize (Hv (ID k) s). rewrite decide_True in Hv by done.
  assert ((match s with Latest => Repo.GetKey (ID k) | At v => Repo.GetKeyByVersion (ID k) v end) w1
          = S3.getKeyFromPath (path (ID k) s) w1) as -> by (by destruct s).
  destruct (S3.getKeyFromPath (path (ID k) s) w1) as [rg w2] eqn:Eg. apply read_run in Eg as (_ & _ & _ & Hok & Hr).
  rewrite (Hr Hu1) in * by eauto. destruct (Hok _ eq_refl) as (k' & Hk' & _ & Hh & _). exists (next w1), w2.
  split; [done|]. rewrite Hh, lookup_insert_eq. by rewrite <-Hk', Hv.
Qed.

(** The status does not survive storage: unless ["revoked"] is one of the
    names of the protobuf enum, a key that was just revoked successfully is
    read back with another status, so nothing refuses it. *)
Theorem s3_revocation_invisible id w :
  KeyStatus_value !! KeyStatusRevoked = None -> KeyStatus_name !! 0 <> Some KeyStatusRevoked ->
  up (repo w) -> names_ok (objects (repo w)) -> is_Some (s3_view (repo w) id Latest) ->
  exists w1 l w2 k, Repo.RevokeKey id w = (Ok tt, w1) /\ Repo.GetKey id w1 = (Ok l, w2)
    /\ heap w2 !! l = Some k /\ ID k = id /\ Status k <> KeyStatusRevoked.
Proof.
  intros Hval Hname Hu Hn Hex. destruct (Repo.RevokeKey id w) as [r w1] eqn:E.
  apply (modify_run id _ (λ now, set_UpdatedAt now ∘ set_Status KeyStatusRevoked)) in E as [[Hn1 Hw] Hup]; [|done..].
  destruct (Hup Hu Hex) as [Hu1 ->]. cbn in Hw. destruct Hw as (k & (old & Hold & Hid & Hk) & Hst).
  pose proof (Hst id Latest) as Hv. rewrite decide_True in Hv by (split; [done|by left]).
  destruct (Repo.GetKey id w1) as [rg w2] eqn:Eg. pose proof Eg as Hg.
  apply (read_run id Latest) in Hg as (_ & _ & _ & Hok & Hr). rewrite (Hr Hu1) in * by eauto. destruct (Hok _ eq_refl) as (k' & Hk' & _ & Hh & _).
  assert (k' = s3_image k) as -> by congruence.
  exists w1, (next w1), w2, (s3_image k). rewrite Hh, lookup_insert_eq. split_and!; [done..|].
  cbn. rewrite Hk. unfold s3_status. cbn [Status set_UpdatedAt set_Status compose]. rewrite Hval. cbn.
  by destruct (KeyStatus_name !! 0) as [n|]; cbn; [intros ->|].
Qed.

(** [Exists] never answers that a key is absent: the error it looks for is
    not the one S3 gives. *)
Theorem s3_exists_never_false id w w' : Repo.Exists_ id w <> (Ok false, w').
Proof.
  cbn [Repo.Exists_ S3KeyRepository]. unfold S3.Exists_, mbind, GoM_bind, try_.
  destruct (S3.s3_call _ w) as [r w1] eqn:E. apply s3_call_run in E as (x & b' & E & -> & ->).
  apply s3_head in E as (_ & _ & Hne). destruct x as [[]|e]; cbn; [done|]. by rewrite (Hne e eq_refl).
Qed.
End Store.

(** ** An executable bucket *)

Definition ToyJson : S3Json := {| data := s3KeyObject; json_Marshal o := Ok o; json_Decode o := Ok o |}.

Definition ToyStatus : KeyStatusTables := {|
  KeyStatus_name := <[0 := "KEY_STATUS_UNSPECIFIED"%string]> {[ 1 := "KEY_STATUS_ACTIVE"%string ]};
  KeyStatus_value := <["KEY_STATUS_UNSPECIFIED"%string := 0]> {[ "KEY_STATUS_ACTIVE"%string := 1 ]}
|}.

Record Bucket := mkBucket { tb_objects : gmap string s3KeyObject; tb_faults : list (option error) }.

(** Each call but a HEAD takes the next fault; a faulty call does nothing. *)
Definition toy_call {A} (f : gmap string s3KeyObject -> A * gmap string s3KeyObject) (onerr : error -> A) (b : Bucket)
  : A * Bucket :=
  match tb_faults b with
  | Some e :: fs => (onerr e, mkBucket (tb_objects b) fs)
  | fs => let '(r, o) := f (tb_objects b) in (r, mkBucket o (tail fs))
  end.

Definition ToyS3 : S3Client s3KeyObject Bucket := {|
  GetObject k := toy_call (λ o, (match o !! k with Some d => inl (inl d) | None => inr (ErrorsNew "NoSuchKey") end, o)) inr;
  PutObject k d := toy_call (λ o, (inl tt, <[k := d]> o)) inr;
  DeleteObject k := toy_call (λ o, (inl tt, delete k o)) inr;
  HeadObject k b := (match tb_objects b !! k with Some _ => inl tt | None => inr (ErrorsNew "NotFound") end, b);
  HeadBucket := toy_call (λ o, (inl tt, o)) inr;
  ListObjectsV2 pre delim := toy_call (λ o,
    let names := map fst (map_to_list o) in
    ([inl (if delim then mkPage [] (remove_dups (omap (common_prefix pre) names))
           else mkPage (List.filter (λ k, bool_decide (is_Some (strip_prefix pre k))) names) [])], o)) (λ e, [inr e]);
  As_NoSuchKey e := bool_decide (e = ErrorsNew "NoSuchKey")
|}.

#[local] Existing Instance HexUuid.
#[local] Existing Instance HexUuidOk.
#[local] Existing Instance ToyJson.
#[local] Existing Instance ToyStatus.
#[local] Existing Instance ToyS3.

#[local] Instance ToyJsonOk : S3JsonOk.
Proof.
  refine {| json_metadata m := m |}.
  - intros o. by exists o.
  - intros id [] d _ [= <-]. done.
Defined.

Lemma toy_call_run {A} f (onerr : error -> A) b r b' :
  toy_call f onerr b = (r, b') ->
  (r = (f (tb_objects b)).1 /\ tb_objects b' = (f (tb_objects b)).2
   \/ (exists e, r = onerr e) /\ tb_objects b' = tb_objects b /\ tb_faults b <> [])
  /\ (tb_faults b = [] -> tb_faults b' = []).
Proof.
  unfold toy_call. destruct (f (tb_objects b)) as [x o] eqn:E.
  destruct (tb_faults b) as [|[e|] fs] eqn:Ef; rewrite ?E; intros [= <- <-]; cbn; split; auto; try done.
  right. eauto.
Qed.

Lemma toy_names (o : gmap string s3KeyObject) k : k ∈ map fst (map_to_list o) <-> is_Some (o !! k).
Proof.
  rewrite list_elem_of_fmap. split.
  - intros ([k' d] & -> & Hk%elem_of_map_to_list). by exists d.
  - intros [d Hd]. exists (k, d). by rewrite elem_of_map_to_list.
Qed.

Lemma filter_NoDup_bool {A} (f : A -> bool) l : NoDup l -> NoDup (List.filter f l).
Proof.
  induction 1 as [|a l Ha _ IH]; [constructor|]. cbn. destruct (f a); [|done]. constructor; [|done].
  intros [? _]%list_elem_of_In%filter_In. apply Ha. by apply list_elem_of_In.
Qed.

#[local] Instance ToyS3Ok : S3ClientOk s3KeyObject Bucket.
Proof.
  refine {| objects := tb_objects; up b := tb_faults b = [] |}.
  - intros k b r b' [[[-> ->]|(Hr & -> & Hf)] Hu]%toy_call_run; cbn; split_and!; try done.
    + intros d. by destruct (tb_objects b !! k); intros [= ->].
    + intros Hb. split; [auto|]. by intros d ->.
    + by destruct Hr as [e ->].
  - intros k d b r b' [[[-> ->]|(Hr & -> & Hf)] Hu]%toy_call_run; cbn; split; auto; try done.
  - intros k b r b' [[[-> ->]|(Hr & -> & Hf)] Hu]%toy_call_run; cbn; split; auto.
  - intros k b r b' [= <- <-]. split_and!; [done| |].
    + by destruct (tb_objects b !! k) eqn:E.
    + intros e. destruct (tb_objects b !! k); [done|]. intros [= <-]. done.
  - intros pre delim b pages b' [[[-> ->]|(Hr & -> & Hf)] Hu]%toy_call_run; cbn; split_and!; try done; eauto.
    + intros Hb. split; [auto|]. by eexists [_].
    + intros [|p [|? ?]]; cbn; intros [= <-]. rewrite app_nil_r. destruct delim; cbn.
      * split; [apply NoDup_remove_dups|]. intros p. rewrite elem_of_remove_dups, list_elem_of_omap.
        split; intros (k & Hk & Hp); exists k; by rewrite toy_names in *.
      * split; [apply filter_NoDup_bool, NoDup_fst_map_to_list|]. intros p.
        rewrite list_elem_of_In, filter_In, <-list_elem_of_In, toy_names, bool_decide_eq_true. split.
        { intros (Hk & rest & Hr%strip_prefix_spec). eauto 6. }
        { intros (k & Hk & -> & rest & ->). split; [done|]. exists rest. by apply strip_prefix_spec. }
    + intros ps. destruct Hr as [e ->]. by destruct ps.
Defined.

Lemma slash_app s t : upto_slash s = None -> upto_slash t = None -> upto_slash (s +:+ t) = None.
Proof.
  induction s as [|a s IH]; [done|]. rewrite app_cons_str. cbn [upto_slash].
  destruct (Ascii.eqb a (ascii_of 47)); [done|]. destruct (upto_slash s); [done|]. intros _ Ht. by rewrite IH.
Qed.

Lemma slash_substring n m s : upto_slash s = None -> upto_slash (String.substring n m s) = None.
Proof.
  revert n m. induction s as [|a s IH]; intros [|n] [|m]; try done; cbn [upto_slash String.substring];
    (destruct (Ascii.eqb a (ascii_of 47)); [done|]); (destruct (upto_slash s) eqn:E; [done|]); intros _; try by apply IH.
  by rewrite IH.
Qed.

Lemma slash_hex_print n z acc : upto_slash acc = None -> upto_slash (hex_print n z acc) = None.
Proof.
  revert z acc. induction n as [|n IH]; intros z acc Ha; [done|]. cbn [hex_print]. apply IH. cbn [upto_slash].
  rewrite Ha. destruct (Ascii.eqb _ _) eqn:E; [|done]. apply Ascii.eqb_eq, (f_equal Ascii.N_of_ascii) in E.
  unfold hex_digit, ascii_of in E. pose proof (Z.mod_pos_bound z 16 eq_refl).
  rewrite !Ascii.N_ascii_embedding in E by (try destruct (_ <? _); lia). destruct (_ <? _); lia.
Qed.

#[local] Instance HexUuidPathSafe : UuidPathSafe.
Proof.
  intros u. cbn [uuid_String HexUuid]. unfold hex_String, dashed.
  assert (upto_slash (hex_print 32 (uuid_bits u) "") = None) as Hh by (by apply slash_hex_print).
  repeat (apply slash_app; [by apply slash_substring || done|]). by apply slash_substring.
Qed.

(** ** Examples *)

Definition ToyS3Repository : KeyRepository Bucket := @S3KeyRepository HexUuid ToyJson ToyStatus Bucket ToyS3.
#[local] Existing Instance ToyS3Repository.

(** A bucket with two versions of a key and one of another. *)
Definition s3_key (id : KeyID) (v t : Z) : Key :=
  mkKey id v None [1; 2; 3] "KEY_STATUS_ACTIVE" None (t * Second) (t * Second) None.

Definition s3_put_all (ks : list Key) : gmap string s3KeyObject :=
  foldr (λ k o, <[path (ID k) Latest := S3.object_of_key k]> (<[path (ID k) (At (Version k)) := S3.object_of_key k]> o)) ∅ ks.

Definition s3_world (fs : list (option error)) : St Bucket :=
  mkSt (99 * Second) ∅ 0 (mkBucket (s3_put_all [s3_key id_a 2 20; s3_key id_a 1 10; s3_key id_b 1 30]) fs).

Lemma s3_put_all_ok ks : names_ok (s3_put_all ks).
Proof.
  induction ks as [|k ks IH]; [intros name d Hn; discriminate Hn|]. cbn [s3_put_all foldr].
  pose proof (read_written k (S3.object_of_key k : @data ToyJson) eq_refl) as Hr.
  exact (names_insert k _ Latest _ Hr (or_introl eq_refl) (names_insert k _ (At (Version k)) _ Hr (or_intror eq_refl) IH)).
Qed.

Lemma s3_world_ok fs : names_ok (objects (repo (s3_world fs))).
Proof. apply s3_put_all_ok. Qed.

Lemma s3_world_heap : heap_wf (s3_world []).
Proof. intros l [k Hk]. discriminate Hk. Qed.


Lemma s3_listings_complete_witness :
  exists ls ks w', Repo.GetKeyVersions id_a (s3_world []) = (Ok ls, w') /\ Forall2 (points_to w') ls ks
    /\ StronglySorted (λ a b, Version b <= Version a) ks.
Proof.
  destruct (proj1 (@s3_listings_complete HexUuid HexUuidOk ToyJson ToyStatus Bucket ToyS3 ToyS3Ok HexUuidPathSafe
    (s3_world []) eq_refl (s3_world_ok []) s3_world_heap) id_a)
    as (ls & ks & w' & E & Hf & _ & Hs & _).
  exists ls, ks, w'. exact (conj E (conj Hf Hs)).
Defined.

(** A revocation that cannot write the newest object deletes the version
    object it had just replaced: the version is gone, although nobody asked
    to delete anything. *)
Theorem failed_revoke_loses_version :
  let w := s3_world [None; None; Some (ErrorsNew "timeout")] in
  s3_view (repo w) id_a (At 2) <> None
  /\ exists w', Repo.RevokeKey id_a w = (Err (Wrap "failed to put latest key object to S3" (ErrorsNew "timeout")), w')
     /\ s3_view (repo w') id_a (At 2) = None /\ s3_view (repo w') id_a Latest = s3_view (repo w) id_a Latest.
Proof.
  split; [by vm_compute|]. eexists. split; [vm_compute; reflexivity|]. split; vm_compute; reflexivity.
Qed.
