(* ===== verification/Workers.v ===== *)
(** * The worker pool

    Models [pkg/patterns/concurrency/worker_pool.go], a fixed number of
    goroutines between a channel of jobs and a channel of results, as a
    transition system: every action is one operation of a caller or of one
    worker, and a run is any sequence of possible actions.  The processor is a
    function of the job. *)

From stdpp Require Import list_tactics.
From S2P Require Import Prelude Errors.

Section Workers.
Context {T R : Type}.

Record Result := mkResult { Value : R; Result_Err : option error }.

(** Where a worker goroutine is: at its [select], in the processor, at the
    send of a result, or returned. *)
Inductive pool_worker : Type := Waiting | Processing (job : T) | Sending (r : Result) | Returned.

Record WorkerPool := mkWorkerPool {
  workerCount : nat;
  queueDepth : nat;              (* capacity of both channels *)
  jobs : list T;
  jobs_closed : bool;
  results : list Result;
  results_closed : bool;
  ctx_done : bool;
  pool_workers : list pool_worker;
  (* ghost: the jobs [Submit] accepted, the results callers have received *)
  accepted : list T;
  received : list Result
}.

Variable processor : T -> Result.

Definition NewWorkerPool (count depth : nat) : WorkerPool :=
  mkWorkerPool count depth [] false [] false false [] [] [].

Definition pool_Start (p : WorkerPool) : WorkerPool :=
  mkWorkerPool (workerCount p) (queueDepth p) (jobs p) (jobs_closed p) (results p) (results_closed p) (ctx_done p)
    (pool_workers p ++ replicate (workerCount p) Waiting) (accepted p) (received p).

Definition set_jobs (js acc : list T) (p : WorkerPool) : WorkerPool :=
  mkWorkerPool (workerCount p) (queueDepth p) js (jobs_closed p) (results p) (results_closed p) (ctx_done p)
    (pool_workers p) acc (received p).
Definition set_results (rs rcv : list Result) (p : WorkerPool) : WorkerPool :=
  mkWorkerPool (workerCount p) (queueDepth p) (jobs p) (jobs_closed p) rs (results_closed p) (ctx_done p)
    (pool_workers p) (accepted p) rcv.
Definition move (i : nat) (wk : pool_worker) (p : WorkerPool) : WorkerPool :=
  mkWorkerPool (workerCount p) (queueDepth p) (jobs p) (jobs_closed p) (results p) (results_closed p) (ctx_done p)
    (<[i := wk]> (pool_workers p)) (accepted p) (received p).

(** [Submit] with room in the queue, or without; an unbuffered channel hands
    the job to a waiting worker instead ([PHand] below). *)
Definition Submit (d : T) (p : WorkerPool) : res (bool * WorkerPool) :=
  if jobs_closed p then Panic "send on closed channel"
  else if (length (jobs p) <? queueDepth p)%nat then Ok (true, set_jobs (jobs p ++ [d]) (accepted p ++ [d]) p)
  else Ok (false, p).

(** [Stop] up to its wait: [close(p.jobs)]. *)
Definition Stop_close (p : WorkerPool) : res WorkerPool :=
  if jobs_closed p then Panic "close of closed channel"
  else Ok (mkWorkerPool (workerCount p) (queueDepth p) (jobs p) true (results p) (results_closed p) (ctx_done p)
             (pool_workers p) (accepted p) (received p)).

Definition is_returned (wk : pool_worker) : bool := match wk with Returned => true | _ => false end.

(** [Stop] after [p.wg.Wait()]; [None] while a worker runs. *)
Definition Stop_finish (p : WorkerPool) : option WorkerPool :=
  if jobs_closed p && negb (results_closed p) && forallb is_returned (pool_workers p)
  then Some (mkWorkerPool (workerCount p) (queueDepth p) (jobs p) true (results p) true true (pool_workers p)
               (accepted p) (received p))
  else None.

(** What [worker i] can do: receive a job, finish processing it, send its
    result, return. *)
Definition worker_step (i : nat) (p : WorkerPool) : list WorkerPool :=
  match pool_workers p !! i with
  | Some Waiting =>
      match jobs p with
      | job :: js => [move i (Processing job) (set_jobs js (accepted p) p)]
      | [] => if jobs_closed p then [move i Returned p] else []
      end
      ++ (if ctx_done p then [move i Returned p] else [])
  | Some (Processing job) => [move i (Sending (processor job)) p]
  | Some (Sending r) =>
      if (length (results p) <? queueDepth p)%nat then [move i Waiting (set_results (results p ++ [r]) (received p) p)] else []
  | _ => []
  end.

Inductive pool_action : Type :=
| PSubmit (d : T) | PHand (i : nat) (d : T) | PWorker (i : nat) | PReceive | PReceiveFrom (i : nat)
| PClose | PFinish | PCancel.

Inductive pstep : pool_action -> WorkerPool -> WorkerPool -> Prop :=
| step_submit d ok p p' : Submit d p = Ok (ok, p') -> pstep (PSubmit d) p p'
| step_hand i d p : queueDepth p = 0%nat -> jobs_closed p = false -> pool_workers p !! i = Some Waiting ->
    pstep (PHand i d) p (move i (Processing d) (set_jobs (jobs p) (accepted p ++ [d]) p))
| step_worker i p p' : p' ∈ worker_step i p -> pstep (PWorker i) p p'
| step_receive r rs p : results p = r :: rs -> pstep PReceive p (set_results rs (received p ++ [r]) p)
| step_receive_from i r p : queueDepth p = 0%nat -> pool_workers p !! i = Some (Sending r) ->
    pstep (PReceiveFrom i) p (move i Waiting (set_results (results p) (received p ++ [r]) p))
| step_close p p' : Stop_close p = Ok p' -> pstep PClose p p'
| step_finish p p' : Stop_finish p = Some p' -> pstep PFinish p p'
| step_cancel p : pstep PCancel p (mkWorkerPool (workerCount p) (queueDepth p) (jobs p) (jobs_closed p) (results p)
    (results_closed p) true (pool_workers p) (accepted p) (received p)).

Inductive prun : list pool_action -> WorkerPool -> WorkerPool -> Prop :=
| prun_nil p : prun [] p p
| prun_cons a l p p1 p' : pstep a p p1 -> prun l p1 p' -> prun (a :: l) p p'.

(** An executable scheduler: workers prefer jobs to a cancelled context. *)
Definition pexec (a : pool_action) (p : WorkerPool) : option WorkerPool :=
  match a with
  | PSubmit d => match Submit d p with Ok (_, p') => Some p' | _ => None end
  | PWorker i => head (worker_step i p)
  | PReceive => match results p with r :: rs => Some (set_results rs (received p ++ [r]) p) | [] => None end
  | PClose => match Stop_close p with Ok p' => Some p' | _ => None end
  | PFinish => Stop_finish p
  | _ => None
  end.

Fixpoint pexec_all (l : list pool_action) (p : WorkerPool) : option WorkerPool :=
  match l with
  | [] => Some p
  | a :: l' => match pexec a p with Some p' => pexec_all l' p' | None => None end
  end.

Lemma pexec_sound l p p' : pexec_all l p = Some p' -> prun l p p'.
Proof.
  revert p. induction l as [|a l IH]; intros p; cbn; [intros [= ->]; constructor|].
  destruct (pexec a p) as [p1|] eqn:E; [|done]. intros Hr%IH. apply (prun_cons _ _ _ p1); [|done].
  destruct a; cbn in E; try done.
  - destruct (Submit d p) as [[ok q]| |] eqn:Hs; simplify_eq. by eapply step_submit.
  - apply step_worker. destruct (worker_step i p); simplify_eq/=. set_solver.
  - destruct (results p) eqn:Hr'; simplify_eq. by apply step_receive.
  - destruct (Stop_close p) eqn:Hs; simplify_eq. by apply step_close.
  - by apply step_finish.
Qed.

(** ** Nothing is lost and nothing is invented *)

(** The results a worker owes. *)
Definition owed (wk : pool_worker) : list Result :=
  match wk with Processing job => [processor job] | Sending r => [r] | _ => [] end.

Definition outstanding (p : WorkerPool) : list Result :=
  (processor <$> jobs p) ++ concat (owed <$> pool_workers p) ++ results p ++ received p.

Lemma owed_insert ws i wk wk' :
  ws !! i = Some wk -> owed wk ++ concat (owed <$> <[i := wk']> ws) ≡ₚ owed wk' ++ concat (owed <$> ws).
Proof.
  revert i. induction ws as [|w0 ws IH]; intros [|i] Hi; simplify_eq/=.
  - by rewrite Permutation_app_swap_app.
  - rewrite Permutation_app_swap_app, (IH i Hi). by rewrite Permutation_app_swap_app.
Qed.

Definition conserved (p : WorkerPool) : Prop := processor <$> accepted p ≡ₚ outstanding p.

Lemma move_conserved i wk wk' p : pool_workers p !! i = Some wk -> owed wk = owed wk' ->
  conserved p -> conserved (move i wk' p).
Proof.
  intros Hi Ho Hc. unfold conserved, outstanding in *. cbn. rewrite Hc.
  pose proof (owed_insert _ _ _ wk' Hi) as Hp. rewrite <-Ho in Hp. apply Permutation_app_inv_l in Hp. by rewrite Hp.
Qed.

Lemma pstep_conserved a p p' : pstep a p p' -> conserved p -> conserved p'.
Proof.
  intros Hs Hc. destruct Hs as [d ok p p' Hd|i d p Hq Hcl Hi|i p p' Hw|r rs p Hr|i r p Hq Hi|p p' Hp|p p' Hp|p].
  - unfold Submit in Hd. destruct (jobs_closed p); [done|]. destruct (_ <? _)%nat; injection Hd as <- <-; [|done].
    unfold conserved, outstanding in *. cbn. rewrite !fmap_app, Hc. cbn. solve_Permutation.
  - unfold conserved, outstanding in *. cbn. rewrite fmap_app, Hc. cbn.
    pose proof (owed_insert _ _ _ (Processing d) Hi) as Hp. cbn in Hp. rewrite Hp. cbn. solve_Permutation.
  - unfold worker_step in Hw. destruct (pool_workers p !! i) as [[|job|r|]|] eqn:Hi; [| | |set_solver..].
    + apply elem_of_app in Hw as [Hw|Hw].
      * destruct (jobs p) as [|job js] eqn:Hj.
        { destruct (jobs_closed p); [|set_solver]. apply list_elem_of_singleton in Hw as ->. by eapply move_conserved. }
        apply list_elem_of_singleton in Hw as ->. unfold conserved, outstanding in *. cbn. rewrite Hc, Hj.
        pose proof (owed_insert _ _ _ (Processing job) Hi) as Hp. cbn in Hp. rewrite Hp. cbn. solve_Permutation.
      * destruct (ctx_done p); [|set_solver]. apply list_elem_of_singleton in Hw as ->. by eapply move_conserved.
    + apply list_elem_of_singleton in Hw as ->. by eapply move_conserved.
    + destruct (_ <? _)%nat; [|set_solver]. apply list_elem_of_singleton in Hw as ->.
      unfold conserved, outstanding in *. cbn. rewrite Hc.
      pose proof (owed_insert _ _ _ Waiting Hi) as Hp. cbn in Hp. rewrite <-Hp. solve_Permutation.
  - unfold conserved, outstanding in *. cbn. rewrite Hc, Hr. solve_Permutation.
  - unfold conserved, outstanding in *. cbn. rewrite Hc.
    pose proof (owed_insert _ _ _ Waiting Hi) as Hp. cbn in Hp. rewrite <-Hp. solve_Permutation.
  - unfold Stop_close in Hp. destruct (jobs_closed p); [done|]. by injection Hp as <-.
  - unfold Stop_finish in Hp. destruct (_ && _); [|done]. by injection Hp as <-.
  - done.
Qed.

Lemma prun_conserved acts p p' : prun acts p p' -> conserved p -> conserved p'.
Proof. induction 1; eauto using pstep_conserved. Qed.

Lemma started_conserved c d : conserved (pool_Start (NewWorkerPool c d)).
Proof. unfold conserved, outstanding. cbn. induction c; [done|]. cbn. by rewrite app_nil_r in *. Qed.

(** ** Stopping *)

(** Without a cancelled context a worker returns only when the queue is
    closed and empty. *)
Definition pool_ok (p : WorkerPool) : Prop :=
  (Returned ∈ pool_workers p -> jobs_closed p = true /\ jobs p = [])
  /\ (ctx_done p || results_closed p = true -> jobs_closed p = true /\ forall wk, wk ∈ pool_workers p -> wk = Returned).

Lemma elem_of_insert_cases {A} (l : list A) i (x y : A) : y ∈ <[i := x]> l -> y = x \/ y ∈ l.
Proof. revert i. induction l as [|z l IH]; intros [|i]; cbn; set_solver. Qed.

Lemma move_ok i wk p js acc rs rcv :
  pool_workers p !! i = Some Waiting \/ (exists j, pool_workers p !! i = Some (Processing j))
    \/ (exists r, pool_workers p !! i = Some (Sending r)) ->
  (js = jobs p \/ exists j, jobs p = j :: js) ->
  (wk = Returned -> jobs_closed p = true /\ jobs p = []) ->
  pool_ok p -> pool_ok (move i wk (set_jobs js acc (set_results rs rcv p))).
Proof.
  intros Hi Hj Hr [H1 H2].
  assert (ctx_done p || results_closed p = false) as Hf.
  { apply not_true_iff_false. intros [_ Hall]%H2.
    destruct Hi as [Hi|[[j Hi]|[r Hi]]]; apply list_elem_of_lookup_2, Hall in Hi; done. }
  split; cbn; [|by rewrite Hf]. intros [Hw|Hin]%elem_of_insert_cases.
  - destruct (Hr (eq_sym Hw)) as [-> Hn]. split; [done|]. rewrite Hn in Hj. by destruct Hj as [->|[? [=]]].
  - apply H1 in Hin as [-> Hn]. split; [done|]. rewrite Hn in Hj. by destruct Hj as [->|[? [=]]].
Qed.

Lemma forallb_returned ws : forallb is_returned ws = true <-> forall wk, wk ∈ ws -> wk = Returned.
Proof.
  rewrite forallb_forall. split; intros Hw wk; [intros ?%list_elem_of_In%Hw|intros ?%list_elem_of_In%Hw]; by destruct wk.
Qed.

Lemma pstep_ok a p p' : pstep a p p' -> a <> PCancel -> pool_ok p -> pool_ok p'.
Proof.
  intros Hs Ha Hok. destruct Hs as [d ok p p' Hd|i d p Hq Hcl Hi|i p p' Hw|r rs p Hr|i r p Hq Hi|p p' Hp|p p' Hp|p]; [| | | | | | |done].
  - unfold Submit in Hd. destruct (jobs_closed p) eqn:Hc; [done|]. destruct Hok as [H1 H2].
    destruct (_ <? _)%nat; injection Hd as <- <-; [|done]. split; cbn; rewrite Hc.
    + intros [Hx _]%H1. congruence.
    + intros [Hx _]%H2. congruence.
  - apply (move_ok i _ p (jobs p) _ (results p) (received p)); auto; done.
  - unfold worker_step in Hw. destruct (pool_workers p !! i) as [[|job|r|]|] eqn:Hi; [| | |set_solver..].
    + apply elem_of_app in Hw as [Hw|Hw].
      * destruct (jobs p) as [|job js] eqn:Hj.
        { destruct (jobs_closed p) eqn:Hc; [|set_solver]. apply list_elem_of_singleton in Hw as ->.
          apply (move_ok i Returned p (jobs p) (accepted p) (results p) (received p)); auto; by rewrite ?Hc. }
        apply list_elem_of_singleton in Hw as ->.
        apply (move_ok i _ p js (accepted p) (results p) (received p)); eauto; done.
      * destruct (ctx_done p) eqn:Hd; [|set_solver]. destruct Hok as [_ H2]. rewrite Hd in H2.
        destruct (H2 eq_refl) as [_ Hall]. apply list_elem_of_lookup_2, Hall in Hi. done.
    + apply list_elem_of_singleton in Hw as ->. apply (move_ok i _ p (jobs p) (accepted p) (results p) (received p)); eauto; done.
    + destruct (_ <? _)%nat; [|set_solver]. apply list_elem_of_singleton in Hw as ->.
      apply (move_ok i _ p (jobs p) (accepted p) (results p ++ [r]) (received p)); eauto; done.
  - done.
  - apply (move_ok i _ p (jobs p) (accepted p) (results p) (received p ++ [r])); eauto; done.
  - unfold Stop_close in Hp. destruct (jobs_closed p) eqn:Hc; [done|]. injection Hp as <-. destruct Hok as [H1 H2].
    split; cbn; [intros [Hx _]%H1; congruence|]. intros [Hx _]%H2. congruence.
  - unfold Stop_finish in Hp. destruct (_ && _) eqn:Hb; [|done]. injection Hp as <-. bool_to_prop.
    destruct Hok as [Hr Hd]. split; cbn; [naive_solver|]. intros _. split; [done|]. by apply forallb_returned.
Qed.

Lemma prun_ok acts p p' : prun acts p p' -> PCancel ∉ acts -> pool_ok p -> pool_ok p'.
Proof. induction 1; intros Ha Hok; [done|]. eauto using pstep_ok with set_solver. Qed.

Lemma started_ok c d : pool_ok (pool_Start (NewWorkerPool c d)).
Proof. split; cbn; [|done]. intros [[=] _]%elem_of_replicate. Qed.

Lemma workers_kept acts p p' : prun acts p p' -> length (pool_workers p') = length (pool_workers p).
Proof.
  induction 1 as [|a l p p1 p' Hs _ IH]; [done|]. rewrite IH. clear IH.
  destruct Hs as [d ok p p1 Hd|i d p Hq Hcl Hi|i p p1 Hw| |i r p Hq Hi|p p1 Hp|p p1 Hp|p]; cbn; rewrite ?length_insert; try done.
  - unfold Submit in Hd. destruct (jobs_closed p); [done|]. destruct (_ <? _)%nat; by injection Hd as <- <-.
  - unfold worker_step in Hw. destruct (pool_workers p !! i) as [[]|]; repeat case_match; set_unfold;
      destruct_or?; subst; cbn; rewrite ?length_insert; done.
  - unfold Stop_close in Hp. destruct (jobs_closed p); [done|]. by injection Hp as <-.
  - unfold Stop_finish in Hp. destruct (_ && _); [|done]. by injection Hp as <-.
Qed.

(** However callers and workers interleave, when [Stop] has returned and the
    context was not cancelled, every accepted job was processed once: the
    results received and those left in the channel are exactly theirs. *)
Theorem stop_processes_all count depth acts p :
  (0 < count)%nat -> prun acts (pool_Start (NewWorkerPool count depth)) p -> PCancel ∉ acts -> results_closed p = true ->
  results p ++ received p ≡ₚ processor <$> accepted p.
Proof.
  intros Hn Hrun Ha Hcl. pose proof (prun_conserved _ _ _ Hrun (started_conserved _ _)) as Hc.
  destruct (prun_ok _ _ _ Hrun Ha (started_ok _ _)) as [H1 H2]. destruct H2 as [_ Hall]; [by rewrite Hcl, orb_true_r|].
  apply workers_kept in Hrun. cbn in Hrun. rewrite length_replicate in Hrun.
  unfold conserved, outstanding in Hc. rewrite Hc.
  assert (concat (owed <$> pool_workers p) = []) as ->.
  { clear -Hall. induction (pool_workers p) as [|wk ws IH]; [done|]. cbn. rewrite (Hall wk) by set_solver.
    apply IH. set_solver. }
  destruct H1 as [_ ->]; [|done]. destruct (pool_workers p) as [|wk ws]; [cbn in Hrun; lia|].
  rewrite (Hall wk); set_solver.
Qed.

(** Work left: every step of a worker uses up one unit. *)
Definition step_cost (wk : pool_worker) : nat :=
  match wk with Waiting => 1 | Processing _ => 3 | Sending _ => 2 | Returned => 0 end.
Definition work (p : WorkerPool) : nat := (3 * length (jobs p) + sum_list (step_cost <$> pool_workers p))%nat.

#[local] Arguments work : simpl never.

Lemma worker_moves i p p' : p' ∈ worker_step i p -> exists wk wk', pool_workers p !! i = Some wk
  /\ pool_workers p' = <[i := wk']> (pool_workers p)
  /\ (3 * length (jobs p') + step_cost wk' < 3 * length (jobs p) + step_cost wk)%nat.
Proof.
  unfold worker_step. destruct (pool_workers p !! i) as [wk|]; [|set_solver].
  destruct wk; repeat case_match; intros Hin; set_unfold; destruct_or?; subst; try done;
    eexists _, _; (split; [done|]); (split; [reflexivity|]); cbn;  repeat match goal with E : jobs p = _ |- _ => rewrite E end; cbn; lia.
Qed.

Lemma pool_step_work i p p' : p' ∈ worker_step i p -> (work p' < work p)%nat.
Proof.
  intros (wk & wk' & Hi & Hw & Hc)%worker_moves. unfold work. rewrite Hw.
  pose proof (sum_insert step_cost _ _ _ wk' Hi). lia.
Qed.

Lemma prun_workers_work ids p p' : prun (PWorker <$> ids) p p' -> (length ids + work p' <= work p)%nat.
Proof.
  revert p. induction ids as [|i ids IH]; cbn; intros p Hr; inversion Hr as [|a l p0 p1 p2 Hs Hr']; subst; [lia|].
  inversion Hs as [| |i' q q' Hin| | | | |]; subst. apply IH in Hr'. apply pool_step_work in Hin. lia.
Qed.

(** A worker that can do nothing has returned, waits for a job that may
    still come, or waits for room in a full channel of results. *)
Lemma worker_stuck i wk p : pool_workers p !! i = Some wk -> worker_step i p = [] ->
  wk = Returned \/ (wk = Waiting /\ jobs_closed p = false) \/ ((exists r, wk = Sending r) /\ (queueDepth p <= length (results p))%nat).
Proof.
  unfold worker_step. intros -> Hs. destruct wk as [|j|r|]; [|done| |by left].
  - destruct (jobs p); [|done]. destruct (jobs_closed p); [done|]. auto.
  - destruct (_ <? _)%nat eqn:E; [done|]. apply Nat.ltb_ge in E. right. right. eauto.
Qed.

Lemma stopped_kept ids p p' : prun (PWorker <$> ids) p p' ->
  jobs_closed p' = jobs_closed p /\ queueDepth p' = queueDepth p /\ accepted p' = accepted p /\ received p' = received p
  /\ results_closed p' = results_closed p.
Proof.
  revert p. induction ids as [|i ids IH]; cbn; intros p Hr; inversion Hr as [|a l p0 p1 p2 Hs Hr']; subst; [done|].
  destruct (IH _ Hr') as (-> & -> & -> & -> & ->). inversion Hs as [| |i' q q' Hin| | | | |]; subst.
  unfold worker_step in Hin. destruct (pool_workers p !! i) as [wk|]; [|set_solver].
  destruct wk; repeat case_match; set_unfold; destruct_or?; subst; done.
Qed.

Lemma owed_length (ws : list pool_worker) i r : ws !! i = Some (Sending r) -> (1 <= length (concat (owed <$> ws)))%nat.
Proof. revert i. induction ws as [|w0 ws IH]; intros [|i] Hi; simplify_eq/=; rewrite ?length_app; [lia|]. apply IH in Hi. lia. Qed.

(** [Stop] returns as long as the results fit the channel: after the queue is
    closed the workers take a bounded number of steps, and when none of them
    can take another they have all returned, so the wait is over. *)
Theorem stop_returns acts p0 p ids p' :
  conserved p0 -> prun acts p0 p -> jobs_closed p = true -> results_closed p = false ->
  (length (accepted p) <= queueDepth p + length (received p))%nat ->
  prun (PWorker <$> ids) p p' ->
  (length ids <= work p)%nat /\ ((forall i, worker_step i p' = []) -> is_Some (Stop_finish p')).
Proof.
  intros Hc Hr1 Hcl Hrc Hfit Hr2. split; [apply prun_workers_work in Hr2; lia|]. intros Hstuck.
  pose proof (prun_conserved _ _ _ Hr2 (prun_conserved _ _ _ Hr1 Hc)) as Hc'.
  apply stopped_kept in Hr2 as (Hcl' & Hq & Ha & Hrv & Hrc'). rewrite Hcl in Hcl'. rewrite Hrc in Hrc'.
  unfold Stop_finish. rewrite Hcl', Hrc'. cbn. rewrite (proj2 (forallb_returned _)); [by eexists|].
  intros wk [i Hi]%list_elem_of_lookup.
  destruct (worker_stuck i wk p' Hi (Hstuck i)) as [->|[[_ ?]|[[r ->] Hfull]]]; [done|congruence|exfalso].
  apply owed_length in Hi. unfold conserved, outstanding in Hc'. apply Permutation_length in Hc'.
  rewrite !length_app, !length_fmap in Hc'. rewrite Ha, Hrv in Hc'. lia.
Qed.
End Workers.

(** ** Examples *)

Arguments mkResult {R}.

Definition echo (n : nat) : Result (R := nat) := mkResult n None.

Lemma stop_processes_all_witness :
  exists acts p, prun echo acts (pool_Start (NewWorkerPool 1 2)) p /\ results_closed p = true
    /\ results p ++ received p ≡ₚ echo <$> accepted p /\ accepted p = [7%nat].
Proof.
  set (acts := [PSubmit 7%nat; PWorker 0; PWorker 0; PWorker 0; PClose; PWorker 0; PFinish]).
  destruct (pexec_all echo acts (pool_Start (NewWorkerPool 1 2))) as [p|] eqn:E; [|discriminate E].
  exists acts, p. pose proof (pexec_sound _ _ _ _ E) as Hr. injection E as <-.
  split; [done|]. split; [done|]. split; [|done].
  apply (stop_processes_all echo 1 2 acts _); [lia|done|set_solver|done].
Defined.

(** With one job more than the channel of results holds and nobody reading,
    [Stop] waits for ever: a worker is stuck at its send. *)
Theorem stop_deadlocks :
  exists acts p, prun echo acts (pool_Start (NewWorkerPool 1 1)) p /\ jobs_closed p = true
    /\ (forall i, worker_step echo i p = []) /\ Stop_finish p = None.
Proof.
  set (acts := [PSubmit 1%nat; PWorker 0; PWorker 0; PWorker 0; PSubmit 2%nat; PWorker 0; PWorker 0; PClose]).
  destruct (pexec_all echo acts (pool_Start (NewWorkerPool 1 1))) as [p|] eqn:E; [|discriminate E].
  exists acts, p. pose proof (pexec_sound _ _ _ _ E) as Hr. injection E as <-.
  split_and!; [done|done|by intros [|[|i]]|done].
Qed.
