(* ===== verification/Hoare.v ===== *)
(** * A small program logic for invariants

    Triples over the monad of [Prelude.v] whose postcondition holds however
    the code ends (a value, an error or a panic), with a rule per construct,
    and the interface [Preserved]: an invariant of the heap and the key
    repository that every repository method keeps, as long as the effect the
    method is for is among those the invariant admits.  [Preserve.v] carries
    such an invariant through the service, the handlers and the server. *)

From S2P Require Import Prelude Errors Domain Repo Batch.

(** ** Triples *)

Definition runs {E W A} (P : W -> Prop) (m : GoM E W A) (Q : W -> Prop) : Prop :=
  forall w r w', P w -> m w = (r, w') -> Q w'.

Definition maintains {E W A} (P : W -> Prop) (m : GoM E W A) : Prop := runs P m P.

(** As [maintains], and a value it returns satisfies [Q]. *)
Definition yields {E W A} (P : W -> Prop) (m : GoM E W A) (Q : A -> Prop) : Prop :=
  forall w r w', P w -> m w = (r, w') -> P w' /\ forall a, r = Ok a -> Q a.

(** The world a successful run leaves. *)
Definition ends {E W A} (P : W -> Prop) (m : GoM E W A) (Q : W -> Prop) : Prop :=
  forall w a w', P w -> m w = (Ok a, w') -> Q w'.

Create HintDb mt discriminated.
#[export] Hint Constants Opaque : mt.
#[export] Hint Variables Opaque : mt.

Section Rules.
Context {E W : Type} (P : W -> Prop).

Lemma runs_bind {A B} (m : GoM E W A) (f : A -> GoM E W B) (R Q : W -> Prop) :
  (forall w, R w -> Q w) -> runs P m R -> (forall a, runs R (f a) Q) -> runs P (m ≫= f) Q.
Proof.
  intros HRQ Hm Hf w r w' Hw. unfold mbind, GoM_bind. destruct (m w) as [[a|e|p] w1] eqn:Em.
  - apply Hf. by eapply Hm.
  - intros [= <- <-]. eapply HRQ, Hm; done.
  - intros [= <- <-]. eapply HRQ, Hm; done.
Qed.

Lemma runs_pure {A B} (m : GoM E W A) (f : A -> GoM E W B) (Q : W -> Prop) :
  (forall w, (m w).2 = w) -> (forall w, P w -> Q w) -> (forall a, runs P (f a) Q) -> runs P (m ≫= f) Q.
Proof.
  intros Hm HPQ Hf. apply (runs_bind m f P); [done| |done].
  intros w r w' Hw Em. rewrite <-(Hm w), Em in Hw. done.
Qed.

Lemma mt_bind {A B} (m : GoM E W A) (f : A -> GoM E W B) :
  maintains P m -> (forall a, maintains P (f a)) -> maintains P (m ≫= f).
Proof. intros. by eapply runs_bind. Qed.

(** Code that leaves the world alone. *)
Lemma mt_pure {A} (m : GoM E W A) : (forall w, (m w).2 = w) -> maintains P m.
Proof. intros Hm w r w' Hw Em. by rewrite <-(Hm w), Em in Hw. Qed.

Lemma mt_ret {A} (a : A) : maintains P (mret a : GoM E W A).
Proof. by apply mt_pure. Qed.
Lemma mt_fail {A} e : maintains P (@fail E W A e).
Proof. by apply mt_pure. Qed.
Lemma mt_panic {A} s : maintains P (@panic E W A s).
Proof. by apply mt_pure. Qed.
Lemma mt_lift {A} (r : outcome E A) : maintains P (lift_res r).
Proof. by apply mt_pure. Qed.
Lemma mt_gets {A} (f : W -> A) : maintains P (gets f : GoM E W A).
Proof. by apply mt_pure. Qed.

Lemma mt_modify f : (forall w, P w -> P (f w)) -> maintains P (@modify E W f).
Proof. intros Hf w r w' Hw [= <- <-]. by apply Hf. Qed.

Lemma mt_on_err {A} g (m : GoM E W A) : maintains P m -> maintains P (on_err g m).
Proof.
  intros Hm w r w' Hw. unfold on_err. destruct (m w) as [r0 w1] eqn:Em. intros [= <- <-]. by eapply Hm.
Qed.

Lemma mt_try {A} (m : GoM E W A) : maintains P m -> maintains P (try_ m).
Proof.
  intros Hm w r w' Hw. unfold try_. destruct (m w) as [[a|e|p] w1] eqn:Em; intros [= <- <-]; by eapply Hm.
Qed.

Lemma yd_bind {A B} (m : GoM E W A) (f : A -> GoM E W B) (Q : A -> Prop) :
  yields P m Q -> (forall a, Q a -> maintains P (f a)) -> maintains P (m ≫= f).
Proof.
  intros Hm Hf w r w' Hw. unfold mbind, GoM_bind. destruct (m w) as [[a|e|p] w1] eqn:Em;
    destruct (Hm _ _ _ Hw Em) as [Hw1 Ha].
  - by apply (Hf a (Ha a eq_refl)).
  - by intros [= <- <-].
  - by intros [= <- <-].
Qed.

Lemma yd_seq {A B} (m : GoM E W A) (f : A -> GoM E W B) (Q : B -> Prop) :
  maintains P m -> (forall a, yields P (f a) Q) -> yields P (m ≫= f) Q.
Proof.
  intros Hm Hf w r w' Hw. unfold mbind, GoM_bind. destruct (m w) as [[a|e|p] w1] eqn:Em.
  - apply Hf. by eapply Hm.
  - intros [= <- <-]. split; [by eapply Hm|done].
  - intros [= <- <-]. split; [by eapply Hm|done].
Qed.

Lemma yd_then {A B} (m : GoM E W A) (f : A -> GoM E W B) (R : A -> Prop) (Q : B -> Prop) :
  yields P m R -> (forall a, R a -> yields P (f a) Q) -> yields P (m ≫= f) Q.
Proof.
  intros Hm Hf w r w' Hw. unfold mbind, GoM_bind. destruct (m w) as [[a|e|p] w1] eqn:Em;
    destruct (Hm _ _ _ Hw Em) as [Hw1 Ha].
  - by apply (Hf a (Ha a eq_refl)).
  - intros [= <- <-]. split; [done|done].
  - intros [= <- <-]. split; [done|done].
Qed.

Lemma yd_ret {A} (a : A) (Q : A -> Prop) : Q a -> yields P (mret a : GoM E W A) Q.
Proof. intros Ha w r w' Hw [= <- <-]. split; [done|]. by intros ? [= <-]. Qed.
Lemma yd_fail {A} e (Q : A -> Prop) : yields P (@fail E W A e) Q.
Proof. by intros w r w' Hw [= <- <-]. Qed.
Lemma yd_lift {A} (r : outcome E A) (Q : A -> Prop) : (forall a, r = Ok a -> Q a) -> yields P (lift_res r) Q.
Proof. by intros Hr w r' w' Hw [= <- <-]. Qed.

Lemma yd_on_err {A} g (m : GoM E W A) (Q : A -> Prop) : yields P m Q -> yields P (on_err g m) Q.
Proof.
  intros Hm w r w' Hw. unfold on_err. destruct (m w) as [r0 w1] eqn:Em. intros [= <- <-].
  destruct (Hm _ _ _ Hw Em) as [? Ha]. split; [done|]. intros a Hr. apply Ha. by destruct r0.
Qed.

Lemma yd_try {A} (m : GoM E W A) (Q : A -> Prop) :
  yields P m Q -> yields P (try_ m) (λ r, forall a, r = inl a -> Q a).
Proof.
  intros Hm w r w' Hw. unfold try_. destruct (m w) as [[a|e|p] w1] eqn:Em; intros [= <- <-];
    destruct (Hm _ _ _ Hw Em) as [? Ha]; split; try done; intros ? [= <-]; naive_solver.
Qed.

Lemma yd_mt {A} (m : GoM E W A) (Q : A -> Prop) : yields P m Q -> maintains P m.
Proof. intros Hm w r w' Hw Em. by destruct (Hm _ _ _ Hw Em). Qed.
Lemma mt_yd {A} (m : GoM E W A) (Q : A -> Prop) : maintains P m -> (forall a, Q a) -> yields P m Q.
Proof. intros Hm HQ w r w' Hw Em. split; [by eapply Hm|auto]. Qed.

(** *** Successful runs *)

Lemma ends_after {A B} (m : GoM E W A) (f : A -> GoM E W B) (Q : W -> Prop) :
  maintains P m -> (forall a, ends P (f a) Q) -> ends P (m ≫= f) Q.
Proof. intros Hm Hf w b w' Hw (a & w1 & E1 & E2)%bind_ok. eapply Hf; [|exact E2]. by eapply Hm. Qed.

Lemma ends_before {A B} (m : GoM E W A) (f : A -> GoM E W B) (Q : W -> Prop) :
  ends P m Q -> (forall a, maintains Q (f a)) -> ends P (m ≫= f) Q.
Proof. intros Hm Hf w b w' Hw (a & w1 & E1 & E2)%bind_ok. eapply Hf; [|exact E2]. by eapply Hm. Qed.

Lemma ends_fail {A} e (Q : W -> Prop) : ends P (@fail E W A e) Q.
Proof. done. Qed.

Lemma ends_on_err {A} g (m : GoM E W A) (Q : W -> Prop) : ends P m Q -> ends P (on_err g m) Q.
Proof.
  intros Hm w a w' Hw. unfold on_err. destruct (m w) as [r w1] eqn:Em. intros [= Hr <-].
  apply map_err_ok in Hr. subst r. by eapply Hm.
Qed.

End Rules.

(** Lists of computations: the world between them. *)
Lemma foldl_maintains {W B} (P : W -> Prop) (f : B -> W -> W) (bs : list B) w :
  P w -> (forall b w, b ∈ bs -> P w -> P (f b w)) -> P (foldl (λ w b, f b w) w bs).
Proof.
  revert w. induction bs as [|b bs IH]; intros w Hw Hf; cbn [foldl]; [done|].
  apply IH; [apply Hf; [by left|done]|]. intros b' w' Hb'. apply Hf. by right.
Qed.

(** The next construct; a branch is split on what it inspects. *)
Ltac mt_step :=
  lazymatch goal with
  | |- forall _, _ => intros ?
  | |- maintains _ (mbind _ _) => apply mt_bind
  | |- maintains _ (mret _) => apply mt_ret
  | |- maintains _ (fail _) => apply mt_fail
  | |- maintains _ (panic _) => apply mt_panic
  | |- maintains _ (lift_res _) => apply mt_lift
  | |- maintains _ (gets _) => apply mt_gets
  | |- maintains _ (on_err _ _) => apply mt_on_err
  | |- maintains _ (try_ _) => apply mt_try
  | |- maintains _ (match ?x with _ => _ end) => destruct x eqn:?
  | |- _ => solve [eauto with mt]
  end.
Ltac mt := repeat mt_step.

(** ** Memory and decorators *)

Section Memory.
Context {S : Type} (P : St S -> Prop).

Lemma mt_time : maintains P time_now.
Proof. apply mt_gets. Qed.

Lemma mt_deref l : maintains P (deref l).
Proof. apply mt_pure. intros w. unfold deref. by destruct (heap w !! l). Qed.

Lemma deref_all_pure ls (w : St S) : (deref_all ls w).2 = w.
Proof.
  revert w. induction ls as [|l ls IH]; intros w; cbn [deref_all]; [done|].
  unfold mbind, GoM_bind, deref at 1. destruct (heap w !! l) as [k|]; [|done].
  specialize (IH w). destruct (deref_all ls w) as [[] ?]; done.
Qed.

Lemma mt_deref_all ls : maintains P (deref_all ls).
Proof. apply mt_pure, deref_all_pure. Qed.

(** After [*p] the object is known, until the world changes. *)
Lemma runs_deref {B} l (f : Key -> M (St S) B) (Q : St S -> Prop) :
  (forall w, P w -> Q w) -> (forall k, runs (λ w, P w /\ heap w !! l = Some k) (f k) Q) ->
  runs P (deref l ≫= f) Q.
Proof.
  intros HPQ Hf w r w' Hw. unfold mbind, GoM_bind, deref. destruct (heap w !! l) as [k|] eqn:El.
  - by apply Hf.
  - intros [= <- <-]. auto.
Qed.

Lemma runs_assign l k (Q : St S -> Prop) :
  (forall w, P w -> Q w) ->
  (forall w, P w -> Q (mkSt (clock w) (<[l := k]> (heap w)) (next w) (repo w))) -> runs P (assign l k) Q.
Proof. intros HPQ Hk w r w' Hw. unfold assign. destruct (heap w !! l); intros [= <- <-]; auto. Qed.

End Memory.

(** Code of an inner component, under an invariant of its own. *)
Lemma mt_inner {S S' A} (get : S' -> S) (put : S -> S' -> S') (m : M (St S) A) (P : St S' -> Prop) (P' : St S -> Prop) :
  (forall w, P w -> P' (set_repo (get (repo w)) w)) ->
  (forall w wi, P w -> P' wi -> P (set_repo (put (repo wi) (repo w)) wi)) ->
  maintains P' m -> maintains P (with_inner get put m).
Proof.
  intros Hin Hout Hm w r w' Hw. unfold with_inner. destruct (m _) as [r0 wi] eqn:Em.
  intros [= <- <-]. apply Hout; [done|]. eapply Hm; [|exact Em]. auto.
Qed.

Lemma ends_inner {S S' A} (get : S' -> S) (put : S -> S' -> S') (m : M (St S) A) (P Q : St S' -> Prop) (P' Q' : St S -> Prop) :
  (forall w, P w -> P' (set_repo (get (repo w)) w)) ->
  (forall w wi, P w -> Q' wi -> Q (set_repo (put (repo wi) (repo w)) wi)) ->
  ends P' m Q' -> ends P (with_inner get put m) Q.
Proof.
  intros Hin Hout Hm w a w' Hw. unfold with_inner. destruct (m _) as [r0 wi] eqn:Em.
  intros [= -> <-]. apply Hout; [done|]. eapply Hm; [|exact Em]. auto.
Qed.

#[export] Hint Resolve mt_time mt_deref mt_deref_all : mt.

(** ** Batches *)

Section Batches.
Context {W Req Res : Type} (P : W -> Prop) (bp : BatchProcessor W Req Res) (Q : Res -> Prop).

(** Every request that passes validation is processed under the invariant. *)
Definition item_ok (it : BatchItem Res) : Prop := forall r, Result it = Some r -> Q r.

Lemma yd_run_item req :
  (Validate bp req = Ok tt -> yields P (Process bp req) Q) -> yields P (run_item bp req) item_ok.
Proof.
  intros Hp. unfold run_item. destruct (Validate bp req) as [[]|e|s]; [|by apply yd_ret|by intros w r w' Hw [= <- <-]].
  eapply yd_then; [apply yd_try, Hp; done|]. intros r Hr. apply yd_ret.
  destruct r as [a|e]; intros x; cbn; [|done]. intros [= <-]. by apply Hr.
Qed.

Lemma yd_run_order order reqs rs :
  (forall req, req ∈ reqs -> Validate bp req = Ok tt -> yields P (Process bp req) Q) ->
  Forall item_ok rs -> yields P (run_order bp order reqs rs) (Forall item_ok).
Proof.
  intros Hp. revert rs. induction order as [|i order IH]; intros rs Hrs; cbn [run_order]; [by apply yd_ret|].
  destruct (reqs !! i) as [req|] eqn:Hi; [|by apply IH].
  eapply yd_then; [apply yd_run_item, Hp; by eapply list_elem_of_lookup_2|].
  intros it Hit. apply IH. by apply Forall_insert.
Qed.

Lemma yd_batch order reqs cont :
  (forall req, req ∈ reqs -> Validate bp req = Ok tt -> yields P (Process bp req) Q) ->
  yields P (ProcessBatch bp order reqs cont) (Forall item_ok).
Proof. intros Hp. apply yd_run_order; [done|]. apply Forall_replicate. by intros r. Qed.

End Batches.

Lemma mt_batch {W Req Res} (P : W -> Prop) (bp : BatchProcessor W Req Res) order reqs cont :
  (forall req, req ∈ reqs -> Validate bp req = Ok tt -> maintains P (Process bp req)) ->
  maintains P (ProcessBatch bp order reqs cont).
Proof.
  intros Hp. eapply (yd_mt P _ (Forall (item_ok (λ _, True)))), yd_batch. intros req Hr Hv. apply mt_yd; [auto|done].
Qed.

(** ** Invariants of the keys *)

(** What a repository method may do to a key. *)
Inductive effect : Type :=
| Creates (id : KeyID) | Updates (id : KeyID) | UpdatesMany | Rotates (id : KeyID) | Revokes (id : KeyID).

(** A predicate on the objects, the allocator and the repository. *)
Definition KeyInv (S : Type) : Type := gmap loc Key -> loc -> S -> Prop.
Definition at_repo {S} (I : KeyInv S) (w : St S) : Prop := I (heap w) (next w) (repo w).

Class Preserved {S} `{KeyRepository S} (I : KeyInv S) (may : effect -> Prop) := {
  pv_GetKey id : maintains (at_repo I) (GetKey id);
  pv_GetKeyByVersion id v : maintains (at_repo I) (GetKeyByVersion id v);
  pv_GetKeyMetadata id : maintains (at_repo I) (GetKeyMetadata id);
  pv_GetKeyMetadataByVersion id v : maintains (at_repo I) (GetKeyMetadataByVersion id v);
  pv_CreateKey k : may (Creates (ID k)) -> maintains (at_repo I) (CreateKey (Some k));
  pv_CreateBatchKeys ks : (forall k, k ∈ ks -> may (Creates (ID k))) -> maintains (at_repo I) (CreateBatchKeys ks);
  pv_ListKeys c n : maintains (at_repo I) (ListKeys c n);
  pv_UpdateKeyMetadata id m : may (Updates id) -> maintains (at_repo I) (UpdateKeyMetadata id m);
  pv_RotateKey id dek : may (Rotates id) -> maintains (at_repo I) (RotateKey id dek);
  pv_RevokeKey id : may (Revokes id) -> maintains (at_repo I) (RevokeKey id);
  pv_GetBatchKeys ids : maintains (at_repo I) (GetBatchKeys ids);
  pv_GetBatchKeyMetadata ids : maintains (at_repo I) (GetBatchKeyMetadata ids);
  pv_RevokeBatchKeys ids : (forall id, id ∈ ids -> may (Revokes id)) -> maintains (at_repo I) (RevokeBatchKeys ids);
  pv_UpdateBatchKeyMetadata ls : may UpdatesMany -> maintains (at_repo I) (UpdateBatchKeyMetadata ls);
  (** the service rewrites the metadata of an object it was handed *)
  pv_edit h n s l k k' : I h n s -> h !! l = Some k -> ID k' = ID k -> Status k' = Status k -> I (<[l := k']> h) n s
}.

#[export] Hint Resolve pv_GetKey pv_GetKeyByVersion pv_GetKeyMetadata pv_GetKeyMetadataByVersion pv_CreateKey
  pv_CreateBatchKeys pv_ListKeys pv_UpdateKeyMetadata pv_RotateKey pv_RevokeKey pv_GetBatchKeys pv_GetBatchKeyMetadata
  pv_RevokeBatchKeys pv_UpdateBatchKeyMetadata : mt.
