(* ===== verification/Preserve.v ===== *)
(** * Invariants of the keys, from the repository to the wire

    An invariant that the repository keeps ([Preserved] of [Hoare.v]) is kept
    by the key service, by the rotation pipeline when it serves one caller at
    a time, by the authorizer, by the handlers and by a whole call of the
    server, for every request whose effects the invariant admits.  One lemma
    per operation; the server's theorems are in [EndToEnd.v]. *)

From S2P Require Import Prelude Errors Domain Cache Repo Batch Kms Authorizer Service.
From S2P Require Import ServiceSpec Pipeline Rpc Validation RateLimit Config Auth Server Hoare.

(** The invariant inside a component, with the identifiers still to be drawn. *)
Definition keys_in {S X} (I : KeyInv S) (fresh : uuid -> Prop) (f : X -> keyServiceImpl S) (w : St X) : Prop :=
  I (heap w) (next w) (keyRepo (f (repo w))) /\ Forall fresh (newIds (f (repo w))).

Section Layers.
Context `{UuidPkg} `{CryptoPkg} `{AwsKms} `{Sha256Pkg} `{TimeFormat} {S : Type} `{KeyRepository S}.
Context (I : KeyInv S) (may : effect -> Prop) (fresh : uuid -> Prop).
Context `{!Preserved I may} (fresh_nil : fresh uuid_Nil).

Definition in_service : St (keyServiceImpl S) -> Prop := keys_in I fresh (λ s, s).
Definition in_polykey : St (PolykeyService S) -> Prop := keys_in I fresh KeyService.
Definition in_authorizer (w : St (realAuthorizer S)) : Prop := I (heap w) (next w) (az_keyRepo (repo w)).

(** The keys the service may create. *)
Definition may_create : Prop := forall u, fresh u -> may (Creates (NewKeyID u)).
Definition new_id (id : KeyID) : Prop := exists u, fresh u /\ id = NewKeyID u.

(** ** The service's own steps *)

Lemma mt_repo {A} (m : M (St S) A) : maintains (at_repo I) m -> maintains in_service (with_repo m).
Proof. apply mt_inner; [by intros w []|]. by intros w wi [_ Hf] Hi. Qed.

Lemma mt_audit client op key ok err : maintains in_service (AuditLog client op key ok err).
Proof. apply mt_modify. by intros w []. Qed.

Lemma mt_env {A} (m : M KEnv A) : maintains in_service (with_env m).
Proof. intros w r w' [Hi Hf]. unfold with_env. destruct (m _) as [r0 e]. by intros [= <- <-]. Qed.

Lemma mt_provider {A} name (m : M (KEnv * KMSProvider) A) : maintains in_service (with_provider name m).
Proof.
  intros w r w' [Hi Hf]. unfold with_provider. destruct (kmsProviders (repo w) !! name); [|by intros [= <- <-]].
  destruct (m _) as [r0 [e p']]. by intros [= <- <-].
Qed.

Lemma yd_fresh_id : yields in_service fresh_id new_id.
Proof.
  intros w r w' [Hi Hf] [= <- <-]. split.
  - split; [done|]. cbn. by destruct Hf.
  - intros ? [= <-]. eexists. split; [|done]. by destruct Hf.
Qed.

Lemma mt_getKMSProvider profile : maintains in_service (getKMSProvider profile).
Proof. apply mt_pure. intros w. unfold getKMSProvider. go_unfold. by case_match. Qed.

Lemma yd_pooled {A} t (body : bytes -> M (St (keyServiceImpl S)) A) (Q : A -> Prop) :
  (forall buf, yields in_service (body buf) Q) -> yields in_service (with_pooled t body) Q.
Proof.
  intros Hb w r w' [Hi Hf]. unfold with_pooled, next_pick. cbn [repo set_repo dekPools].
  destruct (dekPools (repo w) !! t) as [p|]; [|by intros [= <- <-]].
  destruct (pool_Get _ p) as [buf p1]. destruct (body buf _) as [r0 w1] eqn:Eb.
  apply Hb in Eb as [[Hi1 Hf1] Hq]; [|done]. by intros [= <- <-].
Qed.

Lemma mt_pooled {A} t (body : bytes -> M (St (keyServiceImpl S)) A) :
  (forall buf, maintains in_service (body buf)) -> maintains in_service (with_pooled t body).
Proof. intros Hb. apply (yd_mt _ _ (λ _, True)), yd_pooled. intros buf. by apply mt_yd. Qed.

Hint Resolve mt_repo mt_audit mt_env mt_provider mt_getKMSProvider mt_pooled : mt.

(** ** Reading *)

Lemma mt_getKeyByRequest id v : maintains in_service (getKeyByRequest id v).
Proof. unfold getKeyByRequest. mt. Qed.
Hint Resolve mt_getKeyByRequest : mt.

Lemma mt_GetKey req : maintains in_service (Service.GetKey req).
Proof. unfold Service.GetKey. mt. Qed.

Lemma mt_GetKeyMetadata req : maintains in_service (Service.GetKeyMetadata req).
Proof. unfold Service.GetKeyMetadata. mt. Qed.

Lemma mt_ListKeys req : maintains in_service (Service.ListKeys req).
Proof. unfold Service.ListKeys. mt. Qed.

Lemma mt_BatchGetKeys order req : maintains in_service (BatchGetKeys order req).
Proof. unfold BatchGetKeys. mt. apply mt_batch. intros item _ _. cbn [Process]. mt. Qed.

Lemma mt_BatchGetKeyMetadata req : maintains in_service (BatchGetKeyMetadata req).
Proof. unfold BatchGetKeyMetadata. mt. Qed.

(** ** Creating *)

Lemma yd_createKeyObject item client profile :
  yields in_service (createKeyObject item client profile) (λ k, new_id (ID k)).
Proof.
  unfold createKeyObject. apply yd_seq; [mt|intros d]. apply yd_seq; [mt|intros pools].
  destruct (pools !! _); [|apply yd_fail]. apply yd_pooled. intros buf.
  apply yd_seq; [mt|intros dek]. eapply yd_then; [apply yd_fresh_id|intros id Hid].
  apply yd_seq; [mt|intros now]. apply yd_seq; [mt|intros provider].
  apply yd_seq; [mt|intros enc]. by apply yd_ret.
Qed.

Lemma mt_CreateKey req : may_create -> maintains in_service (Service.CreateKey req).
Proof.
  intros Hc. unfold Service.CreateKey. destruct req as [req|]; [|mt].
  destruct (no_requester _); [mt|]. apply mt_bind; [mt|intros details]. eapply yd_bind; [apply yd_createKeyObject|].
  intros k (u & Hu & Hk). assert (may (Creates (ID k))) by (rewrite Hk; by apply Hc). mt.
Qed.

Lemma mt_BatchCreateKeys order req : may_create -> maintains in_service (BatchCreateKeys order req).
Proof.
  intros Hc. unfold BatchCreateKeys. destruct req as [req|]; [|mt]. destruct (no_requester _); [mt|].
  eapply yd_bind; [apply (yd_batch _ _ (λ k, new_id (ID k)))|].
  { intros item _ _. apply yd_createKeyObject. }
  intros items Hitems. apply mt_bind; [|mt]. apply mt_on_err, mt_repo, pv_CreateBatchKeys.
  intros k (it & Hit & Hk)%list_elem_of_omap. rewrite Forall_forall in Hitems.
  destruct (item_failed it); [done|]. destruct (Hitems it Hit k Hk) as (u & Hu & ->). by apply Hc.
Qed.

(** ** Rotating *)

Lemma mt_processRotation id : may (Rotates id) -> maintains in_service (processRotation id).
Proof. intros Hr. unfold processRotation. mt. apply mt_pooled. mt. Qed.

Lemma mt_BatchRotateKeys order req :
  (forall r item id, req = Some r -> item ∈ bq_Keys r -> KeyIDFromString (ri_KeyId item) = Ok id -> may (Rotates id)) ->
  maintains in_service (BatchRotateKeys order req).
Proof.
  intros Hr. unfold BatchRotateKeys. destruct req as [req|]; [|mt]. destruct (no_requester _); [mt|].
  apply mt_bind; [|mt]. apply mt_batch. intros item Hitem. cbn [Validate Process].
  destruct (KeyIDFromString (ri_KeyId item)) as [id|e|p] eqn:Hid; [|done..]. intros _.
  specialize (Hr req item id eq_refl Hitem Hid). unfold mbind at 1, GoM_bind at 1, lift_res.
  apply (mt_bind _ (processRotation id)); [by apply mt_processRotation|]. mt.
Qed.

(** [RotateKey] when the pipeline has no other caller: the request is queued,
    a worker takes it, and its result comes back. *)
Definition lone_rotate (keyId : string) (grace : Z) : M (St (keyServiceImpl S)) RotateKeyResponse :=
  let req := mkRotateReq keyId grace in
  '(current, q) ← RotateKey_begin (Some req);
  result ← worker_run q;
  RotateKey_finish req current result.

Lemma yd_RotateKey_begin req id :
  KeyIDFromString (rq_KeyId req) = Ok id ->
  yields in_service (RotateKey_begin (Some req)) (λ cq, q_KeyID (snd cq) = id).
Proof.
  intros Hid. unfold RotateKey_begin. eapply (yd_then _ _ _ (λ i, i = id)).
  { apply yd_lift. congruence. }
  intros i ->. repeat (apply yd_seq; [mt|intros ?]). case_match; [by apply yd_ret|apply yd_fail].
Qed.

Lemma mt_worker_run q : may (Rotates (q_KeyID q)) -> maintains in_service (worker_run q).
Proof. intros Hr. unfold worker_run, pipeline_processRotation. mt. apply mt_pooled. mt. Qed.

Lemma mt_lone_rotate keyId grace :
  (forall id, KeyIDFromString keyId = Ok id -> may (Rotates id)) -> maintains in_service (lone_rotate keyId grace).
Proof.
  intros Hr. unfold lone_rotate. destruct (KeyIDFromString keyId) as [id|e|p] eqn:Hid.
  - eapply yd_bind; [by apply yd_RotateKey_begin|]. intros [current q] Hq. cbn in Hq. subst id.
    apply mt_bind; [apply mt_worker_run; auto|]. intros result. unfold RotateKey_finish. mt.
  - apply mt_pure. intros w. unfold RotateKey_begin. cbn [rq_KeyId]. by rewrite Hid.
  - apply mt_pure. intros w. unfold RotateKey_begin. cbn [rq_KeyId]. by rewrite Hid.
Qed.

(** ** Revoking *)

Lemma mt_RevokeKey keyId :
  (forall id, KeyIDFromString keyId = Ok id -> may (Revokes id)) -> maintains in_service (Service.RevokeKey (Some keyId)).
Proof.
  intros Hr. unfold Service.RevokeKey. eapply yd_bind; [apply yd_lift, Hr|].
  intros id Hid. mt.
Qed.

Lemma revoke_ids_from cont ids seen acc r :
  revoke_ids cont ids seen acc = Ok r -> forall id, id ∈ fst r -> id ∈ fst acc \/ exists s, s ∈ ids /\ KeyIDFromString s = Ok id.
Proof.
  revert seen acc. induction ids as [|s ids IH]; intros seen acc; cbn [revoke_ids].
  { intros [= <-]. auto. }
  destruct (KeyIDFromString s) as [i|e|p] eqn:Hs; [| |done].
  - case_bool_decide; intros E id Hid; apply (IH _ _ E) in Hid; cbn [fst] in Hid;
      rewrite ?elem_of_app, ?list_elem_of_singleton in Hid; setoid_rewrite elem_of_cons; naive_solver.
  - destruct (negb cont); [done|]. intros E id Hid. apply (IH _ _ E) in Hid. cbn [fst] in Hid.
    setoid_rewrite elem_of_cons. naive_solver.
Qed.

Lemma mt_BatchRevokeKeys req :
  (forall r s id, req = Some r -> s ∈ bq_Keys r -> KeyIDFromString s = Ok id -> may (Revokes id)) ->
  maintains in_service (BatchRevokeKeys req).
Proof.
  intros Hr. unfold BatchRevokeKeys. destruct req as [req|]; [|mt]. destruct (no_requester _); [mt|].
  eapply yd_bind; [apply yd_lift; intros a E; exact (revoke_ids_from _ _ _ _ _ E)|]. intros [ids t] Hids.
  apply mt_bind; [apply mt_try, mt_repo, pv_RevokeBatchKeys|mt].
  intros id Hid. destruct (Hids id Hid) as [Hno|(s & Hs & Hk)]; [by apply elem_of_nil in Hno|eauto].
Qed.

(** ** Updating metadata *)

(** The service's assignments keep the identity and the status of the key. *)
Lemma runs_edit l k k' : ID k' = ID k -> Status k' = Status k ->
  runs (λ w, in_service w /\ heap w !! l = Some k) (assign l k') in_service.
Proof.
  intros Hid Hst. apply runs_assign; [by intros w []|]. intros w [[Hi Hf] Hl]. split; [|done].
  by eapply pv_edit.
Qed.

Lemma mt_UpdateKeyMetadata u :
  (forall id, KeyIDFromString (u_KeyId u) = Ok id -> may (Updates id)) ->
  maintains in_service (Service.UpdateKeyMetadata (Some u)).
Proof.
  intros Hu. unfold Service.UpdateKeyMetadata. eapply yd_bind; [apply yd_lift, Hu|]. intros id Hid.
  apply mt_bind; [mt|intros l]. apply runs_deref; [done|]. intros k.
  apply runs_pure; [done|by intros w []|]. intros d. destruct (Metadata k) as [m|]; [|by intros w r w' [] [= <- <-]].
  apply runs_pure; [done|by intros w []|]. intros now.
  eapply runs_bind; [done|by apply runs_edit|]. intros _. by apply mt_on_err, mt_repo, pv_UpdateKeyMetadata.
Qed.

Lemma mt_prepare_update u : maintains in_service (prepare_update u).
Proof.
  unfold prepare_update. destruct (KeyIDFromString _) as [id|e|p]; [|mt..].
  apply mt_bind; [mt|]. intros [l|e]; [|mt]. apply runs_deref; [done|]. intros k.
  destruct (validated_description u) as [d|e|p]; [|by intros w r w' [] [= <- <-]..].
  destruct (Metadata k) as [m|]; [|by intros w r w' [] [= <- <-]].
  apply runs_pure; [done|by intros w []|]. intros now.
  eapply runs_bind; [done|by apply runs_edit|]. intros _. apply mt_ret.
Qed.

Lemma mt_prepare_updates cont items acc : maintains in_service (prepare_updates cont items acc).
Proof.
  revert acc. induction items as [|u items IH]; intros acc; cbn [prepare_updates]; [mt|].
  apply mt_bind; [apply mt_prepare_update|]. intros [l|[msg err]]; [apply IH|]. destruct (negb cont); [mt|apply IH].
Qed.

Lemma mt_BatchUpdateKeyMetadata req : may UpdatesMany -> maintains in_service (BatchUpdateKeyMetadata req).
Proof.
  intros Hu. unfold BatchUpdateKeyMetadata. destruct req as [req|]; [|mt]. destruct (no_requester _); [mt|].
  apply mt_bind; [apply mt_prepare_updates|]. mt.
Qed.

(** ** The authorizer *)

Lemma mt_az_repo {A} (m : M (St S) A) : maintains (at_repo I) m -> maintains in_authorizer (az_repo m).
Proof. by apply mt_inner. Qed.

Lemma mt_az_modify f : (forall w : St (realAuthorizer S), heap (f w) = heap w /\ next (f w) = next w /\ az_keyRepo (repo (f w)) = az_keyRepo (repo w)) ->
  maintains in_authorizer (modify f : M (St (realAuthorizer S)) unit).
Proof. intros Hf. apply mt_modify. intros w. unfold in_authorizer. by destruct (Hf w) as (-> & -> & ->). Qed.

Lemma mt_deny user op id reason : maintains in_authorizer (deny user op id reason).
Proof. unfold deny, az_AuditLog. apply mt_bind; [by apply mt_az_modify|mt]. Qed.
Lemma mt_grant user op id reason : maintains in_authorizer (grant user op id reason).
Proof. unfold grant, az_AuditLog. apply mt_bind; [by apply mt_az_modify|mt]. Qed.
Lemma mt_cache_grant key : maintains in_authorizer (cache_grant key).
Proof. by apply mt_az_modify. Qed.
Hint Resolve mt_az_repo mt_deny mt_grant mt_cache_grant : mt.

Lemma mt_checkAuthorization user op id rc : maintains in_authorizer (checkAuthorization user op id rc).
Proof. unfold checkAuthorization. mt. Qed.
Hint Resolve mt_checkAuthorization : mt.

Lemma mt_Authorize ctx rc op id : maintains in_authorizer (Authorize ctx rc op id).
Proof. unfold Authorize, decide_cached. mt. Qed.

(** ** The handlers *)

Lemma mt_authorizer {A} (m : M (St (realAuthorizer S)) A) : maintains in_authorizer m -> maintains in_polykey (with_authorizer m).
Proof. apply mt_inner; [by intros w []|]. by intros w wi [_ Hf] Hi. Qed.

Lemma mt_service {A} (m : M (St (keyServiceImpl S)) A) : maintains in_service m -> maintains in_polykey (with_service m).
Proof. by apply mt_inner. Qed.

Lemma mt_refuse {A} method err : maintains in_polykey (refuse (A := A) method err).
Proof.
  intros w r w' [Hi Hf]. unfold refuse. destruct (sanitizeError _ _ _ _) as [o st]. by intros [= <- <-].
Qed.
Hint Resolve mt_authorizer mt_service mt_refuse mt_Authorize : mt.

Lemma mt_authorized_run {A} method op id ctx rc (fn : M (St (keyServiceImpl S)) A) :
  maintains in_service fn -> maintains in_polykey (authorized_run method op id ctx rc fn).
Proof. intros Hfn. unfold authorized_run, run_handler. mt. Qed.

Lemma mt_execWithAuth {A} method op keyId ctx rc (fn : M (St (keyServiceImpl S)) A) :
  maintains in_service fn -> maintains in_polykey (execWithAuth method op keyId ctx rc fn).
Proof. intros Hfn. unfold execWithAuth. destruct (KeyIDFromString keyId); mt. by apply mt_authorized_run. Qed.

(** A handler that succeeds has run its part of the service. *)
Lemma ends_execWithAuth {A} I2 method op keyId ctx rc (fn : M (St (keyServiceImpl S)) A) :
  ends in_service fn (keys_in I2 fresh (λ s, s)) ->
  ends in_polykey (execWithAuth method op keyId ctx rc fn) (keys_in I2 fresh KeyService).
Proof.
  intros Hfn. unfold execWithAuth. destruct (KeyIDFromString keyId) as [id|e|p].
  - unfold authorized_run. apply ends_after; [apply mt_authorizer, mt_Authorize|]. intros [[] why]; cbn [negb].
    + intros w a w' Hw. unfold run_handler, mbind, GoM_bind, try_. destruct (with_service fn w) as [[x|e|p] w1] eqn:Es.
      * intros [= <- <-]. revert Hw Es. by apply (ends_inner KeyService _ fn in_polykey _ in_service (keys_in I2 fresh (λ s, s))).
      * by destruct (refuse_run (A := A) method e w1) as (w2 & -> & _).
      * done.
    + intros w a w' _. by destruct (refuse_run (A := A) method (WrapSuf (Sentinel ErrAuthorization) why) w) as (w2 & -> & _).
  - intros w a w' _. by destruct (refuse_run (A := A) method e w) as (w2 & -> & _).
  - done.
Qed.

End Layers.

(** ** The server *)

Section Wire.
Context `{UuidPkg} `{CryptoPkg} `{AwsKms} `{Sha256Pkg} `{TimeFormat} `{MapRange} `{JsonPkg} `{RatePkg} `{JwtPkgOk}
  `{BcryptPkg} `{GrpcStatus} {S C T : Type} `{KeyRepository S} `{ClientStore C} `{TokenStoreOk T}.
Context (I : KeyInv S) (may : effect -> Prop) (fresh : uuid -> Prop).
Context `{!Preserved I may} (fresh_nil : fresh uuid_Nil).
Abbreviation W := (St (Server S C PrivateKey T)).
Implicit Types w : W.

Definition in_server : W -> Prop := keys_in I fresh (λ s, KeyService (polykey s)).

(** The effects a request asks for are among those the invariant admits. *)
Definition permitted (req : request) : Prop :=
  match req with
  | ReqCreateKey _ | ReqBatchCreateKeys _ => may_create may fresh
  | ReqRotateKey k _ _ => forall id, KeyIDFromString k = Ok id -> may (Rotates id)
  | ReqRevokeKey k _ => forall id, KeyIDFromString k = Ok id -> may (Revokes id)
  | ReqUpdateKeyMetadata r => forall id, KeyIDFromString (u_KeyId (um_Update r)) = Ok id -> may (Updates id)
  | ReqBatchRotateKeys r => forall item id, item ∈ bq_Keys r -> KeyIDFromString (ri_KeyId item) = Ok id -> may (Rotates id)
  | ReqBatchRevokeKeys r => forall s id, s ∈ bq_Keys r -> KeyIDFromString s = Ok id -> may (Revokes id)
  | ReqBatchUpdateKeyMetadata _ => may UpdatesMany
  | _ => True
  end.

Lemma mt_polykey {A} (m : M (St (PolykeyService S)) A) :
  maintains (in_polykey I fresh) m -> maintains in_server (with_polykey m).
Proof. by apply mt_inner. Qed.

Lemma mt_fmap_ok {A B} (f : A -> B) (m : M W A) : maintains in_server m -> maintains in_server (fmap_ok f m).
Proof. intros Hm. unfold fmap_ok. mt. Qed.

(** Logging in touches no key: the heap and the allocator stay. *)
Lemma Authenticate_heap clientId secret (w0 w0' : St (authService C PrivateKey T)) r :
  Authenticate clientId secret w0 = (r, w0') -> heap w0' = heap w0 /\ next w0' = next w0.
Proof.
  assert (maintains (λ x : St (authService C PrivateKey T), heap x = heap w0 /\ next x = next w0) (Authenticate clientId secret)) as Hm.
  { unfold Authenticate. mt. unfold with_tokens.
    apply (mt_inner _ _ _ _ (λ x, heap x = heap w0 /\ next x = next w0)); [done|done|].
    unfold GenerateToken, tm_uuid_New. mt. intros x r1 x' Hx. by intros [= <- <-]. }
  intros E. by eapply Hm.
Qed.

Lemma mt_rpc_Authenticate clientId apiKey : maintains in_server (rpc_Authenticate clientId apiKey).
Proof.
  unfold rpc_Authenticate. destruct (_ || _); [mt|]. apply mt_bind; [|mt]. apply mt_on_err.
  intros w r w' [Hi Hf]. unfold with_auth, with_inner. destruct (Authenticate _ _ _) as [r0 wa] eqn:Ea.
  apply Authenticate_heap in Ea as [Hh Hn]. intros [= <- <-]. unfold in_server, keys_in. cbn.
  rewrite Hh, Hn. by split.
Qed.

Lemma mt_dispatch order ctx req : permitted req -> maintains in_server (dispatch order lone_rotate ctx req).
Proof.
  intros Hp. destruct req; cbn [dispatch permitted] in *; try (by mt); apply mt_fmap_ok;
    try (apply mt_polykey; first [apply (mt_execWithAuth I may fresh) | apply (mt_authorized_run I may fresh)]).
  - apply mt_rpc_Authenticate.
  - unfold rpc_HealthCheck. mt.
  - apply (mt_GetKey I may fresh).
  - by apply (mt_CreateKey I may fresh).
  - apply (mt_ListKeys I may fresh).
  - by apply (mt_lone_rotate I may fresh).
  - by apply (mt_RevokeKey I may fresh).
  - by apply (mt_UpdateKeyMetadata I may fresh).
  - apply (mt_GetKeyMetadata I may fresh).
  - by apply (mt_BatchCreateKeys I may fresh).
  - apply (mt_BatchGetKeys I may fresh).
  - apply (mt_BatchGetKeyMetadata I may fresh).
  - apply (mt_BatchRotateKeys I may fresh). naive_solver.
  - apply (mt_BatchRevokeKeys I may fresh). naive_solver.
  - by apply (mt_BatchUpdateKeyMetadata I may fresh).
Qed.

(** *** The interceptors *)

Lemma mt_log_call {A} corr method start (call : M W A) :
  maintains in_server call -> maintains in_server (log_call corr method start call).
Proof.
  intros Hc w r w' Hw. unfold log_call. destruct (call w) as [r0 w1] eqn:E.
  apply Hc in E; [|done]. destruct r0; by intros [= <- <-].
Qed.

Lemma mt_sv_refuse {A} op err : maintains in_server (sv_refuse (A := A) op err).
Proof.
  intros w r w' [Hi Hf]. unfold sv_refuse. destruct (sanitizeError _ _ _ _) as [o st]. by intros [= <- <-].
Qed.

Lemma mt_ValidateToken token : maintains in_server (with_sv_tokens (ValidateToken token)).
Proof. apply mt_pure. intros w. by rewrite validate_in_server. Qed.

Lemma mt_Allow id : maintains in_server (sv_Allow id).
Proof. intros w r w' Hw. rewrite sv_Allow_run. by intros [= <- <-]. Qed.
Hint Resolve mt_log_call mt_sv_refuse mt_ValidateToken mt_Allow : mt.

Lemma mt_AuthenticationInterceptor {A} ctx req method (handler : UnaryHandler A) :
  (forall ctx, maintains in_server (handler ctx req)) ->
  maintains in_server (AuthenticationInterceptor ctx req method handler).
Proof. intros Hh. unfold AuthenticationInterceptor. mt. Qed.

(** The validators rewrite no request that has an effect. *)
Lemma validate_permitted req v req' : validate_request req = Some (v, req') -> permitted req -> permitted req'.
Proof.
  destruct req; cbn [validate_request]; try (by intros [= <- <-]); [|by repeat case_match..].
  destruct (ValidateListKeysRequest r) as [v0 r0]. by intros [= <- <-].
Qed.

Lemma mt_UnaryValidationInterceptor {A} registered ctx req method (handler : UnaryHandler A) :
  permitted req -> (forall req', permitted req' -> maintains in_server (handler ctx req')) ->
  maintains in_server (UnaryValidationInterceptor registered ctx req method handler).
Proof.
  intros Hp Hh. unfold UnaryValidationInterceptor. destruct registered; [|mt..].
  destruct (validate_request req) as [[v req']|] eqn:Hv; [|by apply Hh].
  destruct v; [|mt..]. by eapply Hh, validate_permitted.
Qed.

Lemma mt_serve registered order inc req :
  permitted req -> maintains in_server (serve registered order lone_rotate inc req).
Proof.
  intros Hp. unfold serve, UnaryLoggingInterceptor. apply mt_bind; [mt|intros start].
  apply mt_bind; [by intros w r w' Hw [= <- <-]|intros id].
  apply mt_log_call, mt_AuthenticationInterceptor. intros ctx. apply mt_UnaryValidationInterceptor; [done|].
  intros req' Hp'. by apply mt_dispatch.
Qed.

(** A call that succeeds has been dispatched; the validators leave most
    requests as they are. *)
Lemma ends_serve registered order rotate inc req (Q : W -> Prop) :
  (forall w l, Q w -> Q (set_repo (set_log l (repo w)) w)) ->
  (forall v req', validate_request req = Some (v, req') -> req' = req) ->
  (forall ctx, ends in_server (dispatch order rotate ctx req) Q) ->
  ends in_server (serve registered order rotate inc req) Q.
Proof.
  intros HQ Hv Hd. unfold serve, UnaryLoggingInterceptor. apply ends_after; [mt|intros start].
  apply ends_after; [by intros w r w' Hw [= <- <-]|intros id]. intros w a w' Hw. unfold log_call.
  destruct (AuthenticationInterceptor _ _ _ _ w) as [r1 w1] eqn:Ea. destruct r1 as [b|e|p]; [|done..].
  intros [= -> <-]. apply HQ. revert Ea Hw. generalize w, a, w1. clear w a w1.
  match goal with |- forall w a w1, ?m w = _ -> _ =>
    cut (ends in_server m Q); [intros Hm w a w1 E Hw; exact (Hm w a w1 Hw E)|] end.
  assert (forall ctx, ends in_server (UnaryValidationInterceptor registered ctx req (FullMethod req) (dispatch order rotate)) Q) as Hval.
  { intros ctx. unfold UnaryValidationInterceptor. destruct registered; [|intros w a w' _..]; [| |done].
    - destruct (validate_request req) as [[v req']|] eqn:E; [|apply Hd]. specialize (Hv v req' eq_refl). subst req'.
      destruct v; [apply Hd|intros w a' w' _..]; [|done]. by destruct (sv_refuse_run (A := response) (FullMethod req) e w) as (w2 & -> & _).
    - by destruct (sv_refuse_run (A := response) "NewRequestValidator" (Wrap "failed to register custom validators" e) w) as (w2 & -> & _). }
  unfold AuthenticationInterceptor. destruct (Prelude.contains _ _); [apply Hval|].
  apply ends_after; [mt|intros token]. apply ends_after; [mt|intros claims]. apply ends_after; [mt|intros ok].
  destruct (negb ok); [apply ends_fail|apply Hval].
Qed.

End Wire.
