(* ===== verification/KeyInvariants.v ===== *)
(** * Invariants the key repositories keep

    Discharges [Preserved] of [Hoare.v].  For PostgreSQL: any property of the
    abstract store of [PsqlSpec.v] that its admitted steps keep.  For the
    caching decorator over any repository: such a property of what lies
    underneath, together with what follows from it for the cached objects.
    For the circuit breaker, or no decorator at all ([Relay]): whatever the
    repository it relays calls to keeps. *)

From S2P Require Import Prelude Errors Domain Cache Breaker Repo Psql PsqlSpec PsqlLaws CachedRepo BreakerRepo Batch Hoare.

(** The invariant of a repository of its own: memory and state are in order
    and the state has property [D]. *)
Definition base {S} `{RepoLaws S} (D : S -> Prop) : KeyInv S := λ h n s,
  heap_wf (mkSt 0 h n s) /\ repo_inv s /\ D s.

Lemma heap_wf_edit {S} (w : St S) l k k' c :
  heap_wf w -> heap w !! l = Some k -> heap_wf (mkSt c (<[l := k']> (heap w)) (next w) (repo w)).
Proof.
  intros Hw Hl l'. cbn. rewrite lookup_insert. case_decide as E; [|apply Hw]. intros _. subst. apply Hw. by eexists.
Qed.

(** ** PostgreSQL *)

(** What a step of the store is for. *)
Definition allowed (may : effect -> Prop) (o : write_op) : Prop :=
  match o with
  | WCreate key => forall k, key = Some k -> may (Creates (ID k))
  | WCreateBatch keys => forall k, k ∈ keys -> may (Creates (ID k))
  | WUpdate id _ => may (Updates id)
  | WRotate id _ => may (Rotates id)
  | WRevoke id => may (Revokes id)
  | WRevokeBatch ids => forall id, id ∈ ids -> may (Revokes id)
  | WUpdateBatch _ => may UpdatesMany
  end.

Section Psql.
Context `{UuidPkgOk}.

(** *** Reads leave the table alone *)

Definition table_is (t : list Row) (w : W) : Prop := DB (repo w) = t.

Lemma mt_query {A} t (f : list Row -> A) : maintains (table_is t) (db_query f).
Proof.
  intros w r w' Hw. unfold db_query, db_stmt. destruct (faults (repo w)) as [|[e|] fs]; by intros [= <- <-].
Qed.

Lemma mt_stmt_read {A} t (f : list Row -> res A * list Row) : (forall t, (f t).2 = t) -> maintains (table_is t) (db_stmt f).
Proof.
  intros Hf w r w' Hw. unfold db_stmt. specialize (Hf (DB (repo w))).
  destruct (faults (repo w)) as [|[e|] fs]; [|by intros [= <- <-]|];
    destruct (f (DB (repo w))) as [r0 t']; cbn in Hf; subst t'; intros [= <- <-]; by destruct r0.
Qed.

Lemma mt_rows {A} t p q (f : list Row -> res A * list Row) : (forall t, (f t).2 = t) -> maintains (table_is t) (db_rows p q f).
Proof.
  intros Hf. unfold db_rows. apply mt_bind; [apply mt_on_err, mt_query|]. intros _. by apply mt_on_err, mt_stmt_read.
Qed.

Lemma mt_alloc t k : maintains (table_is t) (alloc k).
Proof. by intros w r w' Hw [= <- <-]. Qed.

Lemma mt_alloc_all t ks : maintains (table_is t) (alloc_all ks).
Proof. induction ks as [|k ks IH]; cbn [alloc_all]; mt. apply mt_alloc. Qed.
Hint Resolve mt_query mt_alloc mt_alloc_all : mt.

Lemma mt_query_key t q : maintains (table_is t) (Adapter.query_key q).
Proof. unfold Adapter.query_key. mt. Qed.
Lemma mt_query_metadata t msg q : maintains (table_is t) (Adapter.query_metadata msg q).
Proof. unfold Adapter.query_metadata. mt. Qed.
Hint Resolve mt_query_key mt_query_metadata : mt.

(** *** Properties of the store *)

Context (R : Store -> Prop) (may : effect -> Prop).
Context (R_step : forall ts h t o s', allowed may o -> R (abs t) -> store_step ts h (abs t) o s' -> R s').

Abbreviation stored := (base (λ a : PSQLAdapter, R (abs (DB a)))).

Lemma mt_psql_read {A} (m : M W A) :
  frame view repo_inv untouched m -> (forall t, maintains (table_is t) m) -> maintains (at_repo stored) m.
Proof.
  intros Hf Ht w r w' (Hw & Hi & HR) E. destruct (Hf w r w' Hw Hi E) as ((Hw' & _) & Hi' & _).
  split_and!; [done|done|]. by rewrite (Ht _ w r w' eq_refl E).
Qed.

Lemma mt_psql_write {A} (o : write_op) T (m : M W A) :
  frame view repo_inv T m -> (forall w r w', pk_ok (DB (repo w)) -> m w = (r, w') ->
    match r with Ok _ => store_step (clock w') (heap w) (st w) o (st w') | _ => DB (repo w') = DB (repo w) end) ->
  allowed may o -> maintains (at_repo stored) m.
Proof.
  intros Hf Ho Ha w r w' (Hw & Hi & HR) E. destruct (Hf w r w' Hw Hi E) as ((Hw' & _) & Hi' & _).
  split_and!; [done|done|]. specialize (Ho w r w' Hi E). destruct r; [by eapply R_step|by rewrite Ho..].
Qed.

Ltac psql_op lem := let w := fresh in let r := fresh in let w' := fresh in let Hp := fresh in let E := fresh in
  intros w r w' Hp E; eapply lem in Hp; [|exact E]; exact (proj2 (proj2 Hp)).

#[export] Instance psql_preserved : Preserved stored may.
Proof.
  split.
  - intros id. apply mt_psql_read; [apply law_GetKey|]. intros t. cbn. unfold Adapter.GetKey. mt.
  - intros id v. apply mt_psql_read; [apply law_GetKeyByVersion|]. intros t. cbn. unfold Adapter.GetKeyByVersion. mt.
  - intros id. apply mt_psql_read; [apply law_GetKeyMetadata|]. intros t. cbn. unfold Adapter.GetKeyMetadata. mt.
  - intros id v. apply mt_psql_read; [apply law_GetKeyMetadataByVersion|]. intros t. cbn.
    unfold Adapter.GetKeyMetadataByVersion. mt.
  - intros k Hk. eapply (mt_psql_write (WCreate (Some k))); [apply law_CreateKey|psql_op create_ok|]. by intros ? [= <-].
  - intros ks Hks. eapply (mt_psql_write (WCreateBatch ks)); [apply law_CreateBatchKeys|psql_op create_batch_ok|done].
  - intros c n. apply mt_psql_read; [apply law_ListKeys|]. intros t. cbn. unfold Adapter.ListKeys. mt.
    apply mt_rows. intros t'. unfold StmtListKeys. by case_match.
  - intros id m Hid. eapply (mt_psql_write (WUpdate id m)); [apply law_UpdateKeyMetadata|psql_op update_ok|done].
  - intros id dek Hid. eapply (mt_psql_write (WRotate id dek)); [apply law_RotateKey|psql_op rotate_key_step|done].
  - intros id Hid. eapply (mt_psql_write (WRevoke id)); [apply law_RevokeKey|psql_op revoke_ok|done].
  - intros ids. apply mt_psql_read; [apply law_GetBatchKeys|]. intros t. cbn. unfold Adapter.GetBatchKeys. mt. by apply mt_rows.
  - intros ids. apply mt_psql_read; [apply law_GetBatchKeyMetadata|]. intros t. cbn. unfold Adapter.GetBatchKeyMetadata. mt.
    by apply mt_rows.
  - intros ids Hids. eapply (mt_psql_write (WRevokeBatch ids)); [apply law_RevokeBatchKeys|psql_op revoke_batch_ok|done].
  - intros ls Hu. apply (mt_psql_write (WUpdateBatch ls) (λ _, True)); [|psql_op update_batch_ok|done].
    intros w r w' Hw Hi E. apply law_UpdateBatchKeyMetadata in E as (? & ? & _ & ?); [|done..]. split_and!; try done. by left.
  - intros h n s l k k' (Hw & Hi & HR) Hl _ _. split_and!; [|done|done]. exact (heap_wf_edit (mkSt 0 h n s) l k k' 0 Hw Hl).
Qed.

End Psql.

(** ** The caching decorator *)

(** Every entry may be stale, but all are filed where they belong. *)
Definition filed {S} `{UuidPkg} `{RepoLaws S} (w : St (CachedRepository S)) : Prop := coherent_but (λ _, True) w.

Section Cached.
Context `{UuidPkgOk} {S : Type} `{RepoLaws S}.
Context (D : S -> Prop) (Ent : KeyID -> Key -> Prop).

(** [D] of the repository underneath, [Ent] of every cached object. *)
Definition entries_ok (w : St (CachedRepository S)) : Prop :=
  forall id v it k, items (cache (repo w)) !! getCacheKey id v = Some it -> heap w !! it_value it = Some k -> Ent id k.

Definition cached : KeyInv (CachedRepository S) := λ h n c,
  filed (mkSt 0 h n c) /\ D (inner c) /\ entries_ok (mkSt 0 h n c).

Abbreviation I := (at_repo cached).

Lemma entries_sub (w w' : St (CachedRepository S)) :
  filed w -> heap w ⊆ heap w' ->
  (forall ck it, items (cache (repo w')) !! ck = Some it -> items (cache (repo w)) !! ck = Some it) ->
  entries_ok w -> entries_ok w'.
Proof.
  intros (_ & _ & _ & Hc) Hh Hsub He id v it k Hit%Hsub Hk.
  destruct (Hc _ _ Hit) as (_ & _ & k0 & _ & _ & Hl & _). eapply He; [done|].
  rewrite Hl. by rewrite (lookup_weaken _ _ _ _ Hl Hh) in Hk.
Qed.

Lemma invalidate_items id (w : St (CachedRepository S)) ck it :
  items (cache (repo (invalidate id w))) !! ck = Some it -> items (cache (repo w)) !! ck = Some it.
Proof.
  unfold invalidate. set (l := elements _). clearbody l.
  assert (forall l (cs : Cache string loc * gmap string (gset string)),
    items (foldl (λ cs cacheKey, Cache.Delete (Some (onCacheEvict (heap w))) cacheKey cs) cs l).1 !! ck = Some it ->
    items cs.1 !! ck = Some it) as Hfold.
  { clear l. induction l as [|k l IH]; intros [c x]; cbn [foldl]; [done|]. intros E%IH.
    unfold Delete in E. rewrite delete_items in E. by apply lookup_delete_Some in E as [_ ?]. }
  specialize (Hfold l (cache (repo w), cacheIndex (repo w))).
  destruct (foldl _ _ l) as [c x]. exact Hfold.
Qed.

Lemma mt_invalidate id : maintains I (invalidateCache id).
Proof.
  apply mt_modify. intros w (Hf & HD & He). destruct (invalidate_frame id w) as (Hh & _ & Hn & Hi).
  assert (filed (invalidate id w)) as Hf' by (eapply coherent_mono; [|by apply invalidate_coherent]; done).
  split_and!; [exact Hf'|by rewrite Hi|]. apply (entries_sub w); [exact Hf|by rewrite Hh|apply invalidate_items|exact He].
Qed.

Lemma mt_cleanup : maintains I cleanup.
Proof.
  intros w r w' (Hf & HD & He) E. apply (cleanup_coherent (λ _, True)) in E as Hc; [|exact Hf]. destruct Hc as [Hf' (_ & _ & Hh)].
  unfold cleanup, modify in E.
  pose proof (deleteExpired_items (Some (onCacheEvict (heap w))) (clock w) (cache (repo w)) (cacheIndex (repo w))) as Hit.
  destruct (deleteExpired _ _ _) as [c x]. injection E as <- <-. split_and!; [exact Hf'|done|].
  apply (entries_sub w); [exact Hf|exact Hh| |exact He]. cbn. intros ck it Hck. rewrite Hit in Hck.
  destruct (items (cache (repo w)) !! ck); [|done]. by destruct (expired _ _).
Qed.

Context (may : effect -> Prop) `{!Preserved (base D) may}.

Lemma mt_through {A} T (m : M (St S) A) :
  frame view repo_inv T m -> maintains (at_repo (base D)) m -> maintains I (through m).
Proof.
  intros Hfr Hm w r w' (Hf & HD & He) E. pose proof Hf as (Hw & Hi & _).
  destruct (through_suspects (λ _, True) T m w r w' Hf Hfr E) as (Hf' & (_ & _ & Hh) & Hc & _ & wi & Hmi & Hin).
  assert (filed w') as Hf'' by (by eapply coherent_mono; [|exact Hf']).
  split_and!; [exact Hf''| |].
  - rewrite Hin. by apply (Hm (set_repo (inner (repo w)) w) r wi) in Hmi as (_ & _ & ?).
  - apply (entries_sub w); [exact Hf|exact Hh|cbn; by rewrite Hc|exact He].
Qed.

(** What is stored is fit for the cache, and edits keep it so. *)
Context (view_entry : forall s id v k, repo_inv s -> D s -> view s id v = Some k -> Ent id k).
Context (edit_entry : forall id k k', ID k' = ID k -> Status k' = Status k -> Ent id k -> Ent id k').

Lemma store_cached id v l k (w : St (CachedRepository S)) r w' :
  I w -> heap w !! l = Some k -> ID k = id -> Ent id k -> storeInCache (getCacheKey id v) l w = (r, w') ->
  r = Ok tt /\ I w' /\ heap w' = heap w.
Proof.
  intros (Hf & HD & He) Hl Hid Hk E.
  assert (cache (repo w') = Set_ (clock w) (getCacheKey id v) l 0 (cache (repo w))) as Hc.
  { revert E. unfold storeInCache, deref. go_unfold. rewrite Hl. by intros [= <- <-]. }
  apply (store_coherent (λ _, True) id v l k) in E as (-> & Hf' & _ & Hh & Hi); [|exact Hf|done|done|by left].
  split; [done|]. split; [|done]. split_and!; [exact Hf'|by rewrite Hi|]. intros id' v' it k' Hit Hk'. cbn in Hit, Hk'.
  rewrite Hc in Hit. unfold Set_ in Hit. cbn in Hit.
  apply lookup_insert_Some in Hit as [[E <-]|[_ Hit]].
  - apply getCacheKey_inj in E as [<- _]. cbn in Hk'. rewrite Hh, Hl in Hk'. by injection Hk' as <-.
  - rewrite Hh in Hk'. by eapply He.
Qed.

(** The read-through pattern: it hands out what is fit. *)
Lemma read_cached id v (m : M (St S) loc) (w w' : St (CachedRepository S)) r :
  frame view repo_inv untouched m -> maintains (at_repo (base D)) m ->
  (forall (wi : St S) ri wi', repo_inv (repo wi) -> m wi = (ri, wi') -> points_to_view view wi id v ri wi') ->
  I w ->
  (found ← cache_Get (getCacheKey id v);
    match found with
    | Some key => mret key
    | None => key ← through m; _ ← storeInCache (getCacheKey id v) key; mret key
    end) w = (r, w') ->
  I w' /\ forall l, r = Ok l -> exists k, heap w' !! l = Some k /\ Ent id k.
Proof.
  intros Hfr Hm Hpt Hw. unfold mbind at 1, GoM_bind at 1, cache_Get.
  destruct (Cache.Get _ _ _) as [l|] eqn:Eg.
  { intros [= <- <-]. split; [done|]. intros l' [= <-]. destruct Hw as ((_ & _ & _ & Hc) & _ & He).
    unfold Cache.Get in Eg. destruct (items (cache (repo w)) !! getCacheKey id v) as [it|] eqn:Eit; [|done].
    destruct (expired _ it); [done|]. injection Eg as <-.
    destruct (Hc _ _ Eit) as (_ & _ & k & _ & _ & Hl & _). exists k. split; [done|]. by eapply (He id v it). }
  unfold mbind, GoM_bind. destruct (through m w) as [r1 w1] eqn:E1.
  pose proof (mt_through untouched m Hfr Hm w r1 w1 Hw E1) as Hw1.
  destruct r1 as [l|e|p]; [|by intros [= <- <-]..].
  apply through_run in E1 as (wi & Em & ->). destruct Hw as ((Hwf & Hi & _) & HD & _).
  destruct (Hpt (set_repo (inner (repo w)) w) _ wi Hi Em l eq_refl) as (k & Hl & Hid & Hv).
  destruct (storeInCache _ l _) as [r2 w2] eqn:E2.
  assert (Ent id k) as Hk by (by eapply view_entry).
  eapply (store_cached id v l k) in E2 as (-> & Hw2 & Hh); [|exact Hw1|exact Hl|done|done].
  intros [= <- <-]. split; [done|]. intros l' [= <-]. exists k. by rewrite Hh.
Qed.

Lemma mt_read_through id v (m : M (St S) loc) :
  frame view repo_inv untouched m -> maintains (at_repo (base D)) m ->
  (forall (wi : St S) ri wi', repo_inv (repo wi) -> m wi = (ri, wi') -> points_to_view view wi id v ri wi') ->
  maintains I (found ← cache_Get (getCacheKey id v);
    match found with
    | Some key => mret key
    | None => key ← through m; _ ← storeInCache (getCacheKey id v) key; mret key
    end).
Proof. intros Hfr Hm Hpt w r w' Hw E. by eapply read_cached in E as [? _]. Qed.

Lemma GetKey_cached id (w w' : St (CachedRepository S)) l :
  I w -> Cached.GetKey id w = (Ok l, w') -> exists k, heap w' !! l = Some k /\ Ent id k.
Proof.
  intros Hw E. eapply (read_cached id 0 (GetKey id)) in E as [_ Hl]; [by apply Hl|apply law_GetKey|apply pv_GetKey|
    apply law_GetKey_view|done].
Qed.

Lemma GetKeyByVersion_cached id v (w w' : St (CachedRepository S)) l :
  I w -> Cached.GetKeyByVersion id v w = (Ok l, w') -> exists k, heap w' !! l = Some k /\ Ent id k.
Proof.
  intros Hw E. eapply (read_cached id v (GetKeyByVersion id v)) in E as [_ Hl]; [by apply Hl|apply law_GetKeyByVersion|
    apply pv_GetKeyByVersion|apply law_GetKeyByVersion_view|done].
Qed.

Lemma mt_peek {A} ck (f : loc -> M (St (CachedRepository S)) A) (m : M (St S) A) :
  (forall l w, (f l w).2 = w) -> frame view repo_inv untouched m -> maintains (at_repo (base D)) m ->
  maintains I (found ← cache_Get ck; match found with Some l => f l | None => through m end).
Proof.
  intros Hf Hfr Hm. apply mt_bind; [by apply mt_pure|]. intros [l|]; [by apply mt_pure|by eapply mt_through].
Qed.

#[export] Instance cached_preserved : Preserved cached may.
Proof.
  split.
  - intros id. cbn [GetKey CachedKeyRepository]. unfold Cached.GetKey.
    apply (mt_read_through id 0 (GetKey id)); [apply law_GetKey|apply pv_GetKey|apply law_GetKey_view].
  - intros id v. cbn [GetKeyByVersion CachedKeyRepository]. unfold Cached.GetKeyByVersion.
    apply (mt_read_through id v (GetKeyByVersion id v)); [apply law_GetKeyByVersion|apply pv_GetKeyByVersion|apply law_GetKeyByVersion_view].
  - intros id. cbn [GetKeyMetadata CachedKeyRepository]. unfold Cached.GetKeyMetadata.
    apply (mt_peek _ (λ key, k ← deref key; mret (Metadata k))); [apply peek_metadata|apply law_GetKeyMetadata|apply pv_GetKeyMetadata].
  - intros id v. cbn [GetKeyMetadataByVersion CachedKeyRepository]. unfold Cached.GetKeyMetadataByVersion.
    apply (mt_peek _ (λ key, k ← deref key; mret (Metadata k))); [apply peek_metadata|apply law_GetKeyMetadataByVersion|apply pv_GetKeyMetadataByVersion].
  - intros k Hk. cbn [CreateKey CachedKeyRepository]. unfold Cached.CreateKey.
    apply mt_bind; [eapply mt_through; [apply law_CreateKey|by apply pv_CreateKey]|intros _; apply mt_invalidate].
  - intros ks Hks. cbn [CreateBatchKeys CachedKeyRepository]. unfold Cached.CreateBatchKeys.
    apply mt_bind; [eapply mt_through; [apply law_CreateBatchKeys|by apply pv_CreateBatchKeys]|intros _]. clear Hks.
    induction ks as [|k ks IH]; cbn [Cached.invalidate_all]; [mt|]. apply mt_bind; [apply mt_invalidate|intros _; exact IH].
  - intros c n. eapply mt_through; [apply law_ListKeys|by apply pv_ListKeys].
  - intros id m Hid. cbn [UpdateKeyMetadata CachedKeyRepository]. unfold Cached.UpdateKeyMetadata.
    apply mt_bind; [eapply mt_through; [apply law_UpdateKeyMetadata|by apply pv_UpdateKeyMetadata]|intros _; apply mt_invalidate].
  - intros id dek Hid. cbn [RotateKey CachedKeyRepository]. unfold Cached.RotateKey.
    apply mt_bind; [eapply mt_through; [apply law_RotateKey|by apply pv_RotateKey]|intros l].
    apply mt_bind; [apply mt_invalidate|mt].
  - intros id Hid. cbn [RevokeKey CachedKeyRepository]. unfold Cached.RevokeKey.
    apply mt_bind; [eapply mt_through; [apply law_RevokeKey|by apply pv_RevokeKey]|intros _; apply mt_invalidate].
  - intros ids. eapply mt_through; [apply law_GetBatchKeys|by apply pv_GetBatchKeys].
  - intros ids. eapply mt_through; [apply law_GetBatchKeyMetadata|by apply pv_GetBatchKeyMetadata].
  - intros ids Hids. eapply mt_through; [apply law_RevokeBatchKeys|by apply pv_RevokeBatchKeys].
  - intros ls Hu. apply (mt_through (λ _, True)); [|by apply pv_UpdateBatchKeyMetadata].
    intros w r w' Hw Hi E. apply law_UpdateBatchKeyMetadata in E as (? & ? & _ & ?); [|done..]. split_and!; try done. by left.
  - intros h n c l k k' ((Hw & Hi & Hx & Hc) & HD & He) Hl Hid Hst. split_and!; [|done|].
    + split_and!; [exact (heap_wf_edit (mkSt 0 h n c) l k k' 0 Hw Hl)|done|done|]. cbn. intros ck it Hit.
      destruct (Hc _ _ Hit) as (id & v & k0 & ks & -> & Hl0 & Hid0 & _ & Hks & Hin). cbn in Hl0.
      destruct (decide (it_value it = l)) as [E|Hne].
      * subst l. exists id, v, k', ks. rewrite lookup_insert_eq. split_and!; try done; [congruence|by left].
      * exists id, v, k0, ks. rewrite lookup_insert_ne by done. split_and!; try done. by left.
    + intros id v it k0 Hit. cbn in *. destruct (decide (it_value it = l)) as [E|Hne].
      * subst l. rewrite lookup_insert_eq. intros [= <-]. eapply edit_entry; [done|done|]. by eapply (He id v it).
      * rewrite lookup_insert_ne by done. by apply (He id v).
Qed.

End Cached.

(** ** Decorators that relay *)

(** The outer method runs the inner one, possibly hiding how it ended, or
    fails without running it. *)
Definition relays {X S A} (get : X -> S) (outer : M (St X) A) (m : M (St S) A) : Prop := forall w r w',
  outer w = (r, w') ->
  (is_ok r = false /\ heap w' = heap w /\ next w' = next w /\ get (repo w') = get (repo w))
  \/ exists ri wi, m (set_repo (get (repo w)) w) = (ri, wi) /\ heap w' = heap wi /\ next w' = next wi
     /\ get (repo w') = repo wi /\ forall a, r = Ok a -> ri = Ok a.

Class Relay (X S : Type) `{KeyRepository X} `{KeyRepository S} := {
  relayed : X -> S;
  relay_put : S -> X -> X;
  relay_get_put s x : relayed (relay_put s x) = s;
  rl_GetKey id : relays relayed (GetKey id) (GetKey id);
  rl_GetKeyByVersion id v : relays relayed (GetKeyByVersion id v) (GetKeyByVersion id v);
  rl_GetKeyMetadata id : relays relayed (GetKeyMetadata id) (GetKeyMetadata id);
  rl_GetKeyMetadataByVersion id v : relays relayed (GetKeyMetadataByVersion id v) (GetKeyMetadataByVersion id v);
  rl_CreateKey k : relays relayed (CreateKey k) (CreateKey k);
  rl_CreateBatchKeys ks : relays relayed (CreateBatchKeys ks) (CreateBatchKeys ks);
  rl_ListKeys c n : relays relayed (ListKeys c n) (ListKeys c n);
  rl_UpdateKeyMetadata id m : relays relayed (UpdateKeyMetadata id m) (UpdateKeyMetadata id m);
  rl_RotateKey id dek : relays relayed (RotateKey id dek) (RotateKey id dek);
  rl_RevokeKey id : relays relayed (RevokeKey id) (RevokeKey id);
  rl_GetBatchKeys ids : relays relayed (GetBatchKeys ids) (GetBatchKeys ids);
  rl_GetBatchKeyMetadata ids : relays relayed (GetBatchKeyMetadata ids) (GetBatchKeyMetadata ids);
  rl_RevokeBatchKeys ids : relays relayed (RevokeBatchKeys ids) (RevokeBatchKeys ids);
  rl_UpdateBatchKeyMetadata ls : relays relayed (UpdateBatchKeyMetadata ls) (UpdateBatchKeyMetadata ls)
}.

Lemma relays_id {S A} (m : M (St S) A) : relays (λ s, s) m m.
Proof.
  intros w r w' E. right. exists r, w'. split_and!; [|done..]. by destruct w.
Qed.

#[export] Instance relay_id {S} `{KeyRepository S} : Relay S S.
Proof. by refine {| relayed := λ s, s; relay_put := λ s _, s |}; intros; first [done|apply relays_id]. Defined.

Lemma relays_guarded {S A} (m : M (St S) A) : relays cb_repo (guarded m) m.
Proof.
  intros w r w'. unfold guarded, next_call, mbind, GoM_bind, Execute, with_inner, record_in, setB, getB, set_cb_repo.
  cbn [repo set_repo cb_repo voidBreaker calls clock heap next].
  destruct (canExecute _ _) as [[] b1]; cbn [negb]; [|intros [= <- <-]; by left].
  cbn [repo set_repo cb_repo voidBreaker calls clock heap next].
  change (set_repo (cb_repo (repo w)) (set_repo ?x (set_repo ?y w))) with (set_repo (cb_repo (repo w)) w).
  destruct (m (set_repo (cb_repo (repo w)) w)) as [ri wi] eqn:E.
  destruct (hd Completes (calls (repo w))) as [|d []].
  - intros Er. right. exists ri, wi. destruct ri; injection Er as <- <-; by split_and!.
  - intros [= <- <-]. right. by exists ri, wi.
  - intros [= <- <-]. by left.
Qed.

#[export] Instance relay_breaker {S} `{KeyRepository S} : Relay (KeyRepositoryCircuitBreaker S) S.
Proof. by refine {| relayed := cb_repo; relay_put := set_cb_repo |}; intros; first [done|apply relays_guarded]. Defined.

Section Relay.
Context {X S : Type} `{KeyRepository X} `{KeyRepository S} `{!Relay X S}.

(** An invariant of the inner repository, seen from the outer one. *)
Definition below (I : KeyInv S) : KeyInv X := λ h n x, I h n (relayed x).

Lemma mt_relay {A} I (outer : M (St X) A) (m : M (St S) A) :
  relays relayed outer m -> maintains (at_repo I) m -> maintains (at_repo (below I)) outer.
Proof.
  intros Hr Hm w r w' Hw E. unfold at_repo, below. destruct (Hr w r w' E) as [(_ & -> & -> & ->)|(ri & wi & Em & -> & -> & -> & _)];
    [exact Hw|]. by apply (Hm (set_repo (relayed (repo w)) w) ri wi).
Qed.

Lemma ends_relay {A} I1 I2 (outer : M (St X) A) (m : M (St S) A) :
  relays relayed outer m -> ends (at_repo I1) m (at_repo I2) -> ends (at_repo (below I1)) outer (at_repo (below I2)).
Proof.
  intros Hr Hm w a w' Hw E. unfold at_repo, below. destruct (Hr w _ w' E) as [(? & _)|(ri & wi & Em & -> & -> & -> & Ha)]; [done|].
  rewrite (Ha a eq_refl) in Em. by apply (Hm (set_repo (relayed (repo w)) w) a wi).
Qed.

Lemma below_preserved I may : Preserved I may -> Preserved (below I) may.
Proof.
  intros HP. split; intros.
  - eapply mt_relay; [apply rl_GetKey|by apply pv_GetKey].
  - eapply mt_relay; [apply rl_GetKeyByVersion|by apply pv_GetKeyByVersion].
  - eapply mt_relay; [apply rl_GetKeyMetadata|by apply pv_GetKeyMetadata].
  - eapply mt_relay; [apply rl_GetKeyMetadataByVersion|by apply pv_GetKeyMetadataByVersion].
  - eapply mt_relay; [apply rl_CreateKey|by apply pv_CreateKey].
  - eapply mt_relay; [apply rl_CreateBatchKeys|by apply pv_CreateBatchKeys].
  - eapply mt_relay; [apply rl_ListKeys|by apply pv_ListKeys].
  - eapply mt_relay; [apply rl_UpdateKeyMetadata|by apply pv_UpdateKeyMetadata].
  - eapply mt_relay; [apply rl_RotateKey|by apply pv_RotateKey].
  - eapply mt_relay; [apply rl_RevokeKey|by apply pv_RevokeKey].
  - eapply mt_relay; [apply rl_GetBatchKeys|by apply pv_GetBatchKeys].
  - eapply mt_relay; [apply rl_GetBatchKeyMetadata|by apply pv_GetBatchKeyMetadata].
  - eapply mt_relay; [apply rl_RevokeBatchKeys|by apply pv_RevokeBatchKeys].
  - eapply mt_relay; [apply rl_UpdateBatchKeyMetadata|by apply pv_UpdateBatchKeyMetadata].
  - unfold below in *. by apply (pv_edit h n (relayed s) l k k').
Qed.

End Relay.
