(* ===== verification/EndToEnd.v ===== *)
(** * What clients can rely on, over any history of calls

    The server of [Server.v] over the cached PostgreSQL repository, behind the
    circuit breaker or not as the container of [Wiring.v] may choose, driven by
    any sequence of calls from the wire, the passing of time and the ticks of
    the cache's clean-up goroutine.  Rotations are served one at a time
    ([lone_rotate]); [Pipeline.v] shows what overlapping ones do. *)

From S2P Require Import Prelude Errors Domain Cache Breaker Repo Psql PsqlSpec PsqlLaws CachedRepo BreakerRepo Batch Kms.
From S2P Require Import Authorizer Service ServiceSpec Pipeline Rpc Validation RateLimit Config Auth Server Hoare Preserve KeyInvariants.

(** ** Properties of the store *)

(** Everything stays. *)
Definition same_as (s0 s : Store) : Prop := s ≡ s0.

(** Every version is kept, with its material and its time of creation. *)
Definition keeps_material (s0 s : Store) : Prop := forall id v r0, s0 id v = Some r0 ->
  exists r, s id v = Some r /\ row_dek r = row_dek r0 /\ row_created_at r = row_created_at r0.

(** All versions of a key are revoked. *)
Definition all_revoked (id : KeyID) (s : Store) : Prop := forall v r, s id v = Some r -> row_status r = KeyStatusRevoked.

Definition nothing (e : effect) : Prop := False.
Definition anything (e : effect) : Prop := True.
(** No new version of the key. *)
Definition no_new (id : KeyID) (e : effect) : Prop :=
  match e with Creates i | Rotates i => i <> id | _ => True end.

(** *** What a step does to one version *)

(** The operation may add a version of the key. *)
Definition adds_version (o : write_op) (id : KeyID) : Prop :=
  match o with
  | WCreate key => exists k, key = Some k /\ ID k = id
  | WCreateBatch keys => exists k, k ∈ keys /\ ID k = id
  | WRotate i _ => i = id
  | _ => False
  end.

Definition row_step (o : write_op) (id : KeyID) (old new : option Row) : Prop :=
  match old, new with
  | Some r, Some r' => row_dek r' = row_dek r /\ row_created_at r' = row_created_at r
      /\ (row_status r' = row_status r \/ row_status r' = KeyStatusRevoked \/ adds_version o id)
  | None, Some _ => adds_version o id
  | None, None => True
  | Some _, None => False
  end.

Lemma row_step_same o id x y : y = x -> row_step o id x y.
Proof. intros ->. destruct x; cbn; auto. Qed.

Lemma row_step_alter o id (P : bool) f (x : option Row) :
  (forall r, row_dek (f r) = row_dek r /\ row_created_at (f r) = row_created_at r) ->
  (forall r, row_status (f r) = row_status r \/ row_status (f r) = KeyStatusRevoked \/ adds_version o id) ->
  row_step o id x (if P then f <$> x else x).
Proof. intros Hf Hs. destruct P; [|by apply row_step_same]. destruct x as [r|]; cbn; [|done]. by destruct (Hf r). Qed.

Lemma row_step_insert o id v r0 (s : Store) :
  s (row_id r0) (row_version r0) = None -> adds_version o (row_id r0) -> row_step o id (s id v) (s_insert r0 s id v).
Proof.
  intros Hn Ha. unfold s_insert. case_decide as E; [|by apply row_step_same]. injection E as <- <-. by rewrite Hn.
Qed.

Lemma row_step_inserts o id v rows (s : Store) :
  (forall r, r ∈ rows -> s (row_id r) (row_version r) = None /\ adds_version o (row_id r)) ->
  row_step o id (s id v) (foldr s_insert s rows id v).
Proof.
  induction rows as [|r rows IH]; intros Hr; cbn [foldr]; [by apply row_step_same|].
  unfold s_insert at 1. case_decide as E; [|apply IH; intros; apply Hr; by right].
  destruct (Hr r) as [Hn Ha]; [by left|]. injection E as <- <-. by rewrite Hn.
Qed.

Lemma row_step_updates o id v ts ks s s' : s_updates ts ks s s' -> row_step o id (s id v) (s' id v).
Proof.
  induction 1 as [s s' E|k ks m s s1 s' _ Hu _ IH]; [by apply row_step_same|].
  assert (exists P : bool, s1 id v = if P then upd_metadata (JsonOf m) ts <$> s id v else s id v) as [P HP].
  { destruct Hu as [u s1 _ E|s1 _ E]; rewrite (E id v); [by eexists|by exists false]. }
  rewrite HP in IH. destruct P, (s id v) as [r|]; cbn in IH; done.
Qed.

Lemma store_step_row ts h t o s' id v : store_step ts h (abs t) o s' -> row_step o id (abs t id v) (s' id v).
Proof.
  intros Hs. destruct Hs as [k s' _ _ Hn E|ks s' Hn _ E|i m u s' _ E|i dek u old n s' _ _ Ho _ _ Hn E|i s' _ E|ids s' E|ls ks s' _ Hu];
    rewrite ?(E id v).
  - apply (row_step_insert _ _ _ (Adapter.row_of_key k)); [done|]. cbn. eauto.
  - apply row_step_inserts. intros r Hr. apply list_elem_of_In, in_map_iff in Hr as (k & <- & Hk%list_elem_of_In). cbn. eauto.
  - apply row_step_alter; [done|]. auto.
  - apply abs_Some in Ho as Hold. destruct Hold as [_ [= Hid _]]. unfold s_insert. case_decide as Ep.
    + cbn in Ep. injection Ep as Ei Ev. assert (id = i) as -> by congruence. subst v. by rewrite Hn.
    + unfold s_alter, only. case_bool_decide as Eo; [|by apply row_step_same]. injection Eo as -> ->.
      rewrite Ho. cbn. auto.
  - apply row_step_alter; [done|]. auto.
  - apply row_step_alter; [done|]. auto.
  - by eapply row_step_updates.
Qed.

(** *** The three properties are kept *)

Lemma same_as_step s0 ts h t o s' :
  allowed nothing o -> same_as s0 (abs t) -> store_step ts h (abs t) o s' -> same_as s0 s'.
Proof.
  intros Ha Hs Hst. unfold same_as in *. etrans; [|exact Hs].
  destruct Hst as [k s' _ _ _ _|ks s' _ _ E| | | |ids s' E|]; cbn in Ha; try done; [by destruct (Ha k)|..].
  - destruct ks as [|k ks]; [exact E|]. destruct (Ha k). by left.
  - destruct ids as [|i ids]; [exact E|]. destruct (Ha i). by left.
Qed.

Lemma keeps_material_step s0 ts h t o s' :
  allowed anything o -> keeps_material s0 (abs t) -> store_step ts h (abs t) o s' -> keeps_material s0 s'.
Proof.
  intros _ Hs Hst id v r0 H0. destruct (Hs id v r0 H0) as (r & Hr & Hd & Hc).
  pose proof (store_step_row _ _ _ _ _ id v Hst) as Hrow. rewrite Hr in Hrow.
  destruct (s' id v) as [r'|]; [|done]. destruct Hrow as (Hd' & Hc' & _). exists r'. split; [done|]. split; congruence.
Qed.

Lemma all_revoked_step id ts h t o s' :
  allowed (no_new id) o -> all_revoked id (abs t) -> store_step ts h (abs t) o s' -> all_revoked id s'.
Proof.
  intros Ha Hs Hst v r' Hr'. pose proof (store_step_row _ _ _ _ _ id v Hst) as Hrow. rewrite Hr' in Hrow.
  assert (~ adds_version o id) as Hno by (destruct o; cbn in *; naive_solver).
  destruct (abs t id v) as [r|] eqn:Er; [|done].
  destruct Hrow as (_ & _ & [E|[E|?]]); [|done|done]. rewrite E. by apply (Hs v).
Qed.

(** ** The cached repository over PostgreSQL *)

Section Instances.
Context `{UuidPkgOk}.

Definition over (R : Store -> Prop) (a : PSQLAdapter) : Prop := R (abs (DB a)).
Definition any_entry (id : KeyID) (k : Key) : Prop := True.
Definition revoked_entry (id : KeyID) : KeyID -> Key -> Prop := λ i k, i = id -> Status k = KeyStatusRevoked.

(** Any property of the store, nothing asked of the entries. *)
Definition storing (R : Store -> Prop) : KeyInv (CachedRepository PSQLAdapter) := cached (over R) any_entry.
(** A key that is locked away: revoked in the table and in the cache. *)
Definition locked (id : KeyID) : KeyInv (CachedRepository PSQLAdapter) := cached (over (all_revoked id)) (revoked_entry id).

Lemma storing_preserved R may :
  (forall ts h t o s', allowed may o -> R (abs t) -> store_step ts h (abs t) o s' -> R s') -> Preserved (storing R) may.
Proof.
  intros HR. pose proof (psql_preserved R may HR : Preserved (base (over R)) may) as Hin. by apply cached_preserved.
Qed.

Lemma revoked_entry_view a id i v k :
  over (all_revoked id) a -> psql_view a i v = Some k -> revoked_entry id i k.
Proof.
  intros Hr Hv ->. unfold psql_view in Hv.
  assert (forall u r, abs (DB a) id u = Some r -> key_of id r = Some k -> Status k = KeyStatusRevoked) as Hk.
  { intros u r Hu. unfold key_of. destruct (unmarshal_ptr _); [|done..]. intros [= <-]. exact (Hr u r Hu). }
  destruct (v =? 0); [destruct (max_version id (DB a)) as [u|]|destruct (v <? 0)]; cbn in Hv; try done.
  - destruct (abs (DB a) id u) as [r|] eqn:E; [|done]. by eapply Hk.
  - destruct (abs (DB a) id v) as [r|] eqn:E; [|done]. by eapply Hk.
Qed.

Lemma locked_preserved id : Preserved (locked id) (no_new id).
Proof.
  pose proof (psql_preserved _ _ (all_revoked_step id) : Preserved (base (over (all_revoked id))) (no_new id)) as Hin.
  apply (cached_preserved (over (all_revoked id)) (revoked_entry id) (no_new id)).
  - intros a i v k _. apply revoked_entry_view.
  - intros i k k' _ Hs Hk E. rewrite Hs. by apply Hk.
Qed.

(** Revoking a key through the cache locks it away. *)
Lemma revoke_locks id : ends (at_repo (storing (λ _, True))) (Cached.RevokeKey id) (at_repo (locked id)).
Proof.
  intros w [] w' (Hf & _ & _) E. apply bind_ok in E as ([] & w1 & E1 & [= <-]).
  destruct (through_suspects (λ _, True) _ _ w _ w1 Hf (law_RevokeKey id) E1) as (Hf1 & _ & _ & _ & wi & Hm & Hin).
  assert (filed w1) as Hf1' by (by eapply coherent_mono; [|exact Hf1]).
  pose proof Hf as (_ & Hinv & _). apply (revoke_ok id) in Hm as (_ & _ & Hst); [|exact Hinv].
  assert (over (all_revoked id) (inner (repo w1))) as HD.
  { intros v r Hr. unfold over in Hr. rewrite Hin in Hr. inversion Hst as [| | | |? ? _ Es| |]; subst.
    change (abs (DB (repo wi)) id v) with (st wi id v) in Hr. rewrite (Es id v) in Hr.
    unfold s_alter in Hr. rewrite bool_decide_eq_true_2 in Hr by done. by apply fmap_Some in Hr as (r0 & _ & ->). }
  destruct (invalidate_frame id w1) as (Hh & _ & _ & Hi).
  pose proof (invalidate_coherent _ id w1 Hf1') as Hc.
  split_and!.
  - eapply coherent_mono; [|exact Hc]. done.
  - by rewrite Hi.
  - intros i v it k Hit Hk ->. destruct Hc as (_ & _ & _ & Hc). destruct (Hc _ _ Hit) as (i & u & k0 & ks & Eck & Hl & _ & Hv & _).
    apply getCacheKey_inj in Eck as [<- <-]. cbn in Hk, Hl. assert (k0 = k) as -> by congruence.
    destruct Hv as [[_ []]|Hv]; [done|]. rewrite Hi in Hv. by eapply revoked_entry_view.
Qed.

End Instances.

(** ** Histories of a server *)

Section Histories.
Context `{UuidPkgOk} `{CryptoPkg} `{AwsKms} `{Sha256Pkg} `{TimeFormat} `{MapRange} `{JsonPkg} `{RatePkg} `{JwtPkgOk}
  `{BcryptPkg} `{GrpcStatus} {X C T : Type} `{KeyRepository X} `{ClientStore C} `{TokenStoreOk T}.
(** The key repository relays to the cache over the database. *)
Context `{!Relay X (CachedRepository PSQLAdapter)}.
Abbreviation R := (CachedRepository PSQLAdapter).
Abbreviation W := (St (Server X C PrivateKey T)).
Implicit Types w : W.

Inductive event : Type :=
| Arrives (registered : res unit) (order : list nat) (inc : Incoming) (req : request)
| Passes (d : Z)
| Cleans.

Definition happen (e : event) (w : W) : W :=
  match e with
  | Arrives registered order inc req => (serve registered order lone_rotate inc req w).2
  | Passes d => mkSt (clock w + d) (heap w) (next w) (repo w)
  | Cleans => (with_polykey (with_service (with_repo (with_inner (relayed : X -> R) relay_put cleanup))) w).2
  end.

Definition history (es : list event) (w : W) : W := foldl (λ w e, happen e w) w es.

(** The service's cache, and the versions stored behind it. *)
Definition the_repo (w : W) : R := (relayed : X -> R) (keyRepo (KeyService (polykey (repo w)))).
Definition stored_keys (w : W) : Store := abs (DB (inner (the_repo w))).

(** A server as the container starts it: the cache is new. *)
Definition started (w : W) : Prop :=
  heap_wf w /\ exists a, the_repo w = NewCachedRepository a /\ psql_inv a.

Definition any_uuid (u : uuid) : Prop := True.

Section Kept.
Context (I : KeyInv R) (may : effect -> Prop) (fresh : uuid -> Prop) (P : Preserved I may).
Context (fresh_nil : fresh uuid_Nil) (cleans : maintains (at_repo I) cleanup).

Abbreviation kept := (in_server (S := X) (below I) fresh).

Definition fits (e : event) : Prop :=
  match e with Arrives _ _ _ req => permitted may fresh req | _ => True end.

Lemma happen_keeps e w : fits e -> kept w -> kept (happen e w).
Proof.
  pose proof (below_preserved I may P) as HP. destruct e as [registered order inc req|d|]; cbn [fits happen].
  - intros Hf Hw. destruct (serve _ _ _ _ _ w) as [r w'] eqn:E. revert Hw E. by apply (mt_serve (below I) may fresh).
  - by intros _ [].
  - intros _ Hw. destruct (with_polykey _ w) as [r w'] eqn:E. revert Hw E.
    apply (mt_polykey (below I) fresh), (mt_service (below I) fresh), (mt_repo (below I) fresh).
    apply (mt_inner _ _ _ _ (at_repo I)); [done| |exact cleans]. intros x xi _ Hi. unfold at_repo, below. cbn.
    by rewrite relay_get_put.
Qed.

Lemma history_keeps es w : Forall fits es -> kept w -> kept (history es w).
Proof.
  intros Hes Hw. apply (foldl_maintains _ happen); [done|]. intros e w' He. apply happen_keeps.
  rewrite Forall_forall in Hes. by apply Hes.
Qed.
End Kept.

Lemma storing_cleans Rs : maintains (at_repo (storing Rs)) cleanup.
Proof. apply mt_cleanup. Qed.

Definition stores (Rs : Store -> Prop) (w : W) : Prop := in_server (below (storing Rs)) any_uuid w.

Lemma history_stores Rs may es w :
  (forall ts h t o s', allowed may o -> Rs (abs t) -> store_step ts h (abs t) o s' -> Rs s') ->
  Forall (fits may any_uuid) es -> stores Rs w -> stores Rs (history es w).
Proof. intros HR. by apply history_keeps; [apply storing_preserved| |apply storing_cleans]. Qed.

(** What is known of the store of a server in order. *)
Definition in_order (w : W) : Prop := stores (λ _, True) w.

Lemma in_order_stores (Rs : Store -> Prop) w : in_order w -> Rs (stored_keys w) -> stores Rs w.
Proof. intros ((Hf & _ & He) & Hids) HR. exact (conj (conj Hf (conj HR He)) Hids). Qed.

Lemma stores_stored Rs w : stores Rs w -> Rs (stored_keys w).
Proof. by intros ((_ & HR & _) & _). Qed.

Lemma started_in_order w : started w -> in_order w.
Proof.
  intros (Hw & a & Ha & Hi). unfold the_repo in Ha. split; [|unfold any_uuid; by apply Forall_true].
  unfold below, storing, cached, filed. rewrite Ha.
  pose proof (coherent_New (mkSt (clock w) (heap w) (next w) a) Hw Hi) as Hc.
  split_and!; [eapply coherent_mono; [|exact Hc]; done|done|done].
Qed.

Lemma all_fit es : Forall (fits anything any_uuid) es.
Proof. apply Forall_true. intros [? ? ? []| |]; cbn; try done; by intros ?. Qed.

Lemma history_in_order es w : started w -> in_order (history es w).
Proof. intros Hw. apply (history_stores _ anything); [done|apply all_fit|by apply started_in_order]. Qed.

(** *** Requests *)

Definition reads_only (req : request) : Prop :=
  match req with
  | ReqCreateKey _ | ReqBatchCreateKeys _ | ReqRotateKey _ _ _ | ReqBatchRotateKeys _ | ReqRevokeKey _ _
  | ReqBatchRevokeKeys _ | ReqUpdateKeyMetadata _ | ReqBatchUpdateKeyMetadata _ => False
  | _ => True
  end.

Definition rotates_key (id : KeyID) (req : request) : Prop :=
  match req with
  | ReqRotateKey k _ _ => KeyIDFromString k = Ok id
  | ReqBatchRotateKeys r => exists item, item ∈ bq_Keys r /\ KeyIDFromString (ri_KeyId item) = Ok id
  | _ => False
  end.

Definition event_request (P : request -> Prop) (e : event) : Prop :=
  match e with Arrives _ _ _ req => P req | _ => True end.

Lemma reads_fit req : reads_only req -> permitted nothing any_uuid req.
Proof. by destruct req. Qed.

Lemma no_rotation_fits id req : ~ rotates_key id req -> permitted (no_new id) (λ u, NewKeyID u <> id) req.
Proof. destruct req; cbn; try done; try (by intros ? u); naive_solver. Qed.

(** *** Locked keys *)

Lemma revoke_service id keyId fresh :
  KeyIDFromString keyId = Ok id ->
  ends (in_service (S := X) (below (storing (λ _, True))) fresh) (Service.RevokeKey (Some keyId))
    (keys_in (below (locked id)) fresh (λ s, s)).
Proof.
  intros Hid. unfold Service.RevokeKey. rewrite Hid.
  apply (ends_on_err _ (Wrap "failed to revoke key") (with_repo (Repo.RevokeKey id))).
  eapply ends_inner; [| |exact (ends_relay (X := X) (S := R) (storing (λ _, True)) (locked id) _ _ (rl_RevokeKey id) (revoke_locks id))]; [by intros w []|].
  by intros w wi [_ Hf] Hl.
Qed.

(** What the repository hands out of a locked key is revoked. *)
Lemma locked_read id v fresh (w w' : St (keyServiceImpl X)) l :
  in_service (below (locked id)) fresh w -> getKeyByRequest id v w = (Ok l, w') ->
  exists k, heap w' !! l = Some k /\ Status k = KeyStatusRevoked.
Proof.
  intros [Hw _] Hg. unfold getKeyByRequest in Hg. apply on_err_ok in Hg.
  pose proof (psql_preserved _ _ (all_revoked_step id) : Preserved (base (over (all_revoked id))) (no_new id)) as Hin.
  assert (forall (s : PSQLAdapter) i v k, repo_inv s -> over (all_revoked id) s -> view s i v = Some k -> revoked_entry id i k) as Hv
    by (intros s i u k0 _; apply revoked_entry_view).
  assert (forall (outer : M (St X) loc) (m : M (St R) loc) wx, relays relayed outer m ->
    (forall wi wi', at_repo (locked id) wi -> m wi = (Ok l, wi') -> exists k, heap wi' !! l = Some k /\ revoked_entry id id k) ->
    outer (set_repo (keyRepo (repo w)) w) = (Ok l, wx) -> exists k, heap wx !! l = Some k /\ Status k = KeyStatusRevoked) as Hrel.
  { intros outer m wx Hr Hm E. destruct (Hr _ _ _ E) as [[? _]|(ri & wi & Em & Hh & _ & _ & Ha)]; [done|].
    rewrite (Ha l eq_refl) in Em. apply Hm in Em as (k & Hk & Hs); [|exact Hw]. exists k. rewrite Hh. auto. }
  destruct (0 <? v); apply with_repo_run in Hg as (wx & Hg & ->).
  - apply (Hrel _ _ wx (rl_GetKeyByVersion id v)); [|exact Hg].
    intros wi wi' Hi E. exact (GetKeyByVersion_cached _ _ _ Hv id v wi wi' l Hi E).
  - apply (Hrel _ _ wx (rl_GetKey id)); [|exact Hg].
    intros wi wi' Hi E. exact (GetKey_cached _ _ _ Hv id wi wi' l Hi E).
Qed.

Lemma locked_GetKey id fresh r :
  KeyIDFromString (gr_KeyId r) = Ok id ->
  ends (in_service (S := X) (below (locked id)) fresh) (Service.GetKey (Some r)) (keys_in (λ _ _ _, False) fresh (λ s, s)).
Proof.
  intros Hid w a w' Hw E. apply GetKey_ok_inv in E as (id' & l & k & md & w1 & Hid' & Hg & Hk & Hs & _).
  assert (id' = id) as -> by congruence. destruct (locked_read _ _ _ _ _ _ Hw Hg) as (k' & Hk' & Hr). congruence.
Qed.

Lemma revoke_over_the_wire id keyId rc registered order inc :
  KeyIDFromString keyId = Ok id ->
  ends in_order (serve registered order lone_rotate inc (ReqRevokeKey keyId rc)) (in_server (below (locked id)) any_uuid).
Proof.
  intros Hid. pose proof (below_preserved (X := X) (S := R) _ _ (storing_preserved (λ _, True) anything ltac:(done))) as Hp.
  apply (ends_serve (below (storing (λ _, True))) any_uuid); [by intros w l []|by intros v req' [= <- <-]|].
  intros ctx. cbn [dispatch]. apply ends_before; [|intros ?; apply mt_ret].
  eapply ends_inner; [| |by apply (ends_execWithAuth (below (storing (λ _, True))) anything any_uuid (below (locked id))), revoke_service];
    [done|by intros w wi [] []].
Qed.

Lemma locked_over_the_wire id fresh r registered order inc :
  KeyIDFromString (gr_KeyId r) = Ok id ->
  ends (in_server (below (locked id)) fresh) (serve registered order lone_rotate inc (ReqGetKey r)) (λ _, False).
Proof.
  intros Hid. pose proof (below_preserved (X := X) (S := R) _ _ (locked_preserved id)) as Hp.
  apply (ends_serve (below (locked id)) fresh); [done|by intros v req' [= <- <-]|].
  intros ctx. cbn [dispatch]. apply ends_before; [|by intros ? ? ? ? []].
  eapply ends_inner; [| |by apply (ends_execWithAuth (below (locked id)) (no_new id) fresh (λ _ _ _, False)), locked_GetKey];
    [done|by intros w wi _ []].
Qed.

(** ** Theorems *)

(** C2: revocation is final.  On a server started over the cached PostgreSQL
    repository, with or without the circuit breaker, once [RevokeKey] has been answered without error for a key,
    no call of [GetKey] for it, of any version and by anyone, succeeds any
    more, and every stored version of it is revoked: whatever calls came
    before, whatever calls, cache clean-ups and time come between (batch
    writes and edits of cached objects included), as long as none of them
    asks to rotate that key and [uuid.New] does not repeat its identifier. *)
Theorem revocation_is_final w0 before keyId rc id resp w2 after r reg1 ord1 inc1 reg2 ord2 inc2 :
  started w0 -> KeyIDFromString keyId = Ok id ->
  serve reg1 ord1 lone_rotate inc1 (ReqRevokeKey keyId rc) (history before w0) = (Ok resp, w2) ->
  Forall (λ u, NewKeyID u <> id) (uuid_Nil :: newIds (KeyService (polykey (repo w2)))) ->
  Forall (event_request (λ req, ~ rotates_key id req)) after ->
  KeyIDFromString (gr_KeyId r) = Ok id ->
  let w3 := history after w2 in
  is_ok (serve reg2 ord2 lone_rotate inc2 (ReqGetKey r) w3).1 = false
  /\ forall v row, stored_keys w3 id v = Some row -> row_status row = KeyStatusRevoked.
Proof.
  intros Hw Hid Hrev Hids Hafter Hr w3. apply Forall_cons in Hids as [Hnil Hids].
  apply (revoke_over_the_wire id) in Hrev as [Hl _]; [|done|by apply history_in_order].
  assert (in_server (below (locked id)) (λ u, NewKeyID u <> id) w3) as Hw3.
  { apply (history_keeps (locked id) (no_new id)); [apply locked_preserved|done|apply mt_cleanup| |by split].
    eapply Forall_impl; [exact Hafter|]. intros [? ? ? req| |]; cbn; [apply no_rotation_fits|done..]. }
  split.
  - destruct (serve _ _ _ _ _ w3) as [[a|e|p] w4] eqn:E; [|done..]. by destruct (locked_over_the_wire _ _ _ _ _ _ Hr _ _ _ Hw3 E).
  - destruct Hw3 as ((_ & Hrows & _) & _). exact Hrows.
Qed.


(** C16: reading changes nothing.  Any number of [GetKey], [GetKeyMetadata],
    [ListKeys] and batch reads, logins, health checks, expiries and clean-ups
    leaves every stored version of every key as it was. *)
Theorem reads_change_nothing w0 before after :
  started w0 -> Forall (event_request reads_only) after ->
  stored_keys (history (before ++ after) w0) ≡ stored_keys (history before w0).
Proof.
  intros Hw Hafter. unfold history. rewrite foldl_app.
  pose proof (history_in_order before w0 Hw) as Ho. apply (in_order_stores (same_as (stored_keys (history before w0)))) in Ho; [|done].
  apply (history_stores _ nothing after) in Ho; [by apply stores_stored in Ho|apply same_as_step|].
  eapply Forall_impl; [exact Hafter|]. intros [? ? ? req| |]; cbn; [apply reads_fit|done..].
Qed.

End Histories.

(** ** A concrete server *)

#[local] Existing Instance HexUuid.
#[local] Existing Instance HexUuidOk.
#[local] Existing Instance ToyCrypto.
#[local] Existing Instance ToyAws.
#[local] Existing Instance ToySha.
#[local] Existing Instance ToyRate.
#[local] Existing Instance ToyJwt.
#[local] Existing Instance ToyJwtOk.
#[local] Existing Instance ToyJson.
#[local] Existing Instance ToyTime.
#[local] Existing Instance ToyBcrypt.
#[local] Existing Instance ToyStatus.
#[local] Existing Instance ListRange'.

(** The server of [Server.v] started again on its table, behind a cache and a
    circuit breaker, as the container wires it by default. *)
Definition ex_online : St (Server (KeyRepositoryCircuitBreaker (CachedRepository PSQLAdapter)) FileClientStore (@PrivateKey ToyJwt) inMemoryTokenStore) :=
  let s := repo ex_sv in
  let p := polykey s in
  let k := KeyService p in
  let k' := mkSvc (NewKeyRepositoryCircuitBreaker (NewCachedRepository (keyRepo k)) 5 (30 * Second) []) (kmsProviders k) (DefaultKMSProvider k) (dekPools k) [] (entropy k)
              (jitter k) (awsCalls k) (newIds k) (picks k) in
  mkSt (clock ex_sv) ∅ O
    (mkServer (mkPolykey k' (authz_cfg p) (authz_cache p) (mkCS [] []) []) (sv_auth s) (sv_tokens s) (sv_limiter s) []
       [mkUuid 21 eq_refl] (sv_cfg s) None true).

Definition ex_login_call : event := Arrives (Ok tt) [] (mkIncoming None None) (ReqAuthenticate "alice" "s3cret").
Definition ex_alice : Incoming := ex_inc (ap_AccessToken ex_access).
Definition ex_read : request := ReqGetKey (ex_get_by "alice").
Definition ex_revoke : request := ReqRevokeKey (KeyID_String id_b) (ex_requester "alice").

(** Alice logs in and reads her key, which is now cached. *)
Definition ex_before : list event := [ex_login_call; Arrives (Ok tt) [] ex_alice ex_read].
(** She retries, with a batch revocation, while time passes. *)
Definition ex_after : list event :=
  [Passes Second; Arrives (Ok tt) [] ex_alice ex_read; Cleans;
   Arrives (Ok tt) [] ex_alice (ReqBatchRevokeKeys (mkBatchReq (ex_requester "alice") [KeyID_String id_b] true))].

Lemma ex_online_started : started ex_online.
Proof.
  split; [by intros l [k Hk]|]. eexists. split; [reflexivity|].
  unfold psql_inv, pk_ok. refine (bool_decide_eq_true_1 _ _). vm_compute. reflexivity.
Qed.

Definition ex_locked := serve (Ok tt) [] lone_rotate ex_alice ex_revoke (history ex_before ex_online).

Lemma revocation_is_final_witness :
  is_ok (serve (Ok tt) [] lone_rotate ex_alice ex_read (history ex_before ex_online)).1 = true
  /\ ex_locked.1 = Ok (RespEmpty (Some tt))
  /\ is_ok (serve (Ok tt) [] lone_rotate ex_alice ex_read (history ex_after ex_locked.2)).1 = false.
Proof.
  assert (ex_locked.1 = Ok (RespEmpty (Some tt))) as Hr by (vm_compute; reflexivity).
  split; [vm_compute; reflexivity|]. split; [exact Hr|].
  refine (proj1 (revocation_is_final ex_online ex_before (KeyID_String id_b) (ex_requester "alice") id_b (RespEmpty (Some tt))
    ex_locked.2 ex_after (ex_get_by "alice") (Ok tt) [] ex_alice (Ok tt) [] ex_alice ex_online_started _ _ _ _ _)).
  - vm_compute. reflexivity.
  - rewrite <-Hr. apply surjective_pairing.
  - refine (bool_decide_eq_true_1 _ _). vm_compute. reflexivity.
  - repeat constructor; intros [].
  - vm_compute. reflexivity.
Defined.


Lemma reads_change_nothing_witness :
  stored_keys (history (ex_before ++ [Arrives (Ok tt) [] ex_alice ex_read; Cleans]) ex_online) ≡ stored_keys (history ex_before ex_online).
Proof.
  apply (reads_change_nothing ex_online ex_before [Arrives (Ok tt) [] ex_alice ex_read; Cleans] ex_online_started).
  repeat constructor.
Defined.
