(* ===== verification/Boot.v ===== *)
(** * Starting and stopping the server

    Models [cmd/polykey/main.go] and [pkg/patterns/lifecycle/resource.go]:
    load the configuration, set up TLS, make the
    container and its dependencies, create the server, serve until a signal or
    a failure, and shut down.  The repository the container hands out is an
    interface value, [RepoStack] of [Wiring.v], and is used as one here.  The
    operating system (the listener, signals, the outcome of [Serve]) is a
    parameter; log lines are left out. *)

From S2P Require Import Prelude Errors Domain Cache Breaker Repo Psql PsqlSpec PsqlLaws CachedRepo BreakerRepo Batch Kms Authorizer.
From S2P Require Import Service ServiceSpec Rpc Regex Validation RateLimit Config Auth Server Wiring Hoare Preserve KeyInvariants EndToEnd.

(** ** The repository behind the interface *)

Section Stack.
Context `{UuidPkg}.
Abbreviation R := (CachedRepository PSQLAdapter).

(** A call of an interface method runs the method of the dynamic type. *)
Definition on_stack {A} (cached : M (St R) A) (guarded : M (St (KeyRepositoryCircuitBreaker R)) A) : M (St RepoStack) A := λ w,
  match repo w with
  | CachedStack r => let '(x, w') := cached (set_repo r w) in (x, set_repo (CachedStack (repo w')) w')
  | GuardedStack g => let '(x, w') := guarded (set_repo g w) in (x, set_repo (GuardedStack (repo w')) w')
  end.

#[export] Instance StackKeyRepository : KeyRepository RepoStack := {|
  Repo.GetKey := λ id, on_stack (Repo.GetKey id) (Repo.GetKey id);
  Repo.GetKeyByVersion := λ id v, on_stack (Repo.GetKeyByVersion id v) (Repo.GetKeyByVersion id v);
  Repo.GetKeyMetadata := λ id, on_stack (Repo.GetKeyMetadata id) (Repo.GetKeyMetadata id);
  Repo.GetKeyMetadataByVersion := λ id v, on_stack (Repo.GetKeyMetadataByVersion id v) (Repo.GetKeyMetadataByVersion id v);
  Repo.CreateKey := λ k, on_stack (Repo.CreateKey k) (Repo.CreateKey k);
  Repo.CreateBatchKeys := λ ks, on_stack (Repo.CreateBatchKeys ks) (Repo.CreateBatchKeys ks);
  Repo.ListKeys := λ c n, on_stack (Repo.ListKeys c n) (Repo.ListKeys c n);
  Repo.UpdateKeyMetadata := λ id m, on_stack (Repo.UpdateKeyMetadata id m) (Repo.UpdateKeyMetadata id m);
  Repo.RotateKey := λ id d, on_stack (Repo.RotateKey id d) (Repo.RotateKey id d);
  Repo.RevokeKey := λ id, on_stack (Repo.RevokeKey id) (Repo.RevokeKey id);
  Repo.GetKeyVersions := λ id, on_stack (Repo.GetKeyVersions id) (Repo.GetKeyVersions id);
  Repo.Exists_ := λ id, on_stack (Repo.Exists_ id) (Repo.Exists_ id);
  Repo.GetBatchKeys := λ ids, on_stack (Repo.GetBatchKeys ids) (Repo.GetBatchKeys ids);
  Repo.GetBatchKeyMetadata := λ ids, on_stack (Repo.GetBatchKeyMetadata ids) (Repo.GetBatchKeyMetadata ids);
  Repo.RevokeBatchKeys := λ ids, on_stack (Repo.RevokeBatchKeys ids) (Repo.RevokeBatchKeys ids);
  Repo.UpdateBatchKeyMetadata := λ ls, on_stack (Repo.UpdateBatchKeyMetadata ls) (Repo.UpdateBatchKeyMetadata ls)
|}.

Definition stack_cache (s : RepoStack) : R := match s with CachedStack r => r | GuardedStack g => cb_repo g end.
Definition stack_put (r : R) (s : RepoStack) : RepoStack :=
  match s with CachedStack _ => CachedStack r | GuardedStack g => GuardedStack (set_cb_repo r g) end.

Lemma relays_stack {A} (m : M (St R) A) : relays stack_cache (on_stack m (guarded m)) m.
Proof.
  intros w r w'. unfold on_stack. destruct (repo w) as [c|g] eqn:Er.
  - destruct (m (set_repo c w)) as [x wc] eqn:E. intros [= <- <-]. right. exists x, wc. by split_and!.
  - destruct (guarded m (set_repo g w)) as [x wg] eqn:E. intros [= <- <-]. apply (relays_guarded m) in E.
    cbn [repo set_repo stack_cache] in *. exact E.
Qed.

#[export] Instance relay_stack : Relay RepoStack R.
Proof.
  refine {| relayed := stack_cache; relay_put := stack_put |}; intros; try exact (relays_stack _).
  by destruct x.
Defined.
End Stack.

(** ** main.go *)

(** What the running program will draw from its environment. *)
Record Inputs := mkInputs {
  in_entropy : list (option bytes); in_jitter : list Z; in_newIds : list uuid; in_picks : list nat;
  in_errorPicks : list nat; in_tokenIds : list uuid; in_correlation : list uuid
}.

(** [lifecycle.ManagedResource] *)
Record ManagedResource (W : Type) := mkResource { mr_Start : M W unit; mr_Stop : M W unit; mr_Health : W -> bool * string }.
Arguments mkResource {W}.
Arguments mr_Start {W}.
Arguments mr_Stop {W}.
Arguments mr_Health {W}.

(** The loop that starts the resources ends at the first failure. *)
Fixpoint start_resources {W} (rs : list (ManagedResource W)) : M W unit :=
  match rs with [] => mret tt | r :: rs' => _ ← mr_Start r; start_resources rs' end.

(** An error of [Stop] is only logged. *)
Definition stop_resource {W} (r : ManagedResource W) : M W unit := λ w,
  match mr_Stop r w with (Panic p, w') => (Panic p, w') | (_, w') => (Ok tt, w') end.

(** They are stopped in the reverse order. *)
Fixpoint stop_resources {W} (rs : list (ManagedResource W)) : M W unit :=
  match rs with
  | [] => mret tt
  | r :: rs' => _ ← stop_resources rs'; stop_resource r
  end.

Section Main.
Context `{UuidPkg} `{PgxPkg} `{ConfigEnv} `{CryptoPkg} `{FileEnv} `{TlsPkg} `{JwtPkg} `{RatePkg}.
Abbreviation C := (Container Pool).
Abbreviation SV := (Server.Server RepoStack FileClientStore PrivateKey inMemoryTokenStore).

(** The object a dependency refers to. *)
Definition object_at (c : C) (r : option ref) : option object := r ≫= λ r, c_objects c !! r.

(** [deps.KeyService] and [deps.Authorizer], which share their repository. *)
Definition open_polykey (i : Inputs) (c : C) (d : Dependencies) : option (PolykeyService RepoStack) :=
  match object_at c (d_KeyService d), object_at c (d_Authorizer d) with
  | Some (OKeyService cfg k providers _), Some (OAuthorizer acfg k' _) =>
      match c_objects c !! k with
      | Some (OKeyRepo r) =>
          if (k =? k')%nat then
            let s := NewKeyService (cfg_DefaultKMSProvider cfg) r providers in
            Some (mkPolykey (mkSvc (keyRepo s) (kmsProviders s) (DefaultKMSProvider s) (dekPools s) (auditLog s)
                               (in_entropy i) (in_jitter i) (awsCalls s) (in_newIds i) (in_picks i))
                    acfg (policyCache (NewAuthorizer acfg r)) (mkCS [] []) (in_errorPicks i))
          else None
      | _ => None
      end
  | _, _ => None
  end.

(** [deps.AuthService] *)
Definition open_auth (i : Inputs) (c : C) (d : Dependencies) : option (authService FileClientStore PrivateKey inMemoryTokenStore) :=
  match object_at c (d_AuthService d) with
  | Some (OAuthService s t ttl) =>
      match c_objects c !! s, c_objects c !! t with
      | Some (OClientStore (Some store)), Some (OTokenManager pem _ _) =>
          match NewTokenManager pem NewInMemoryTokenStore (in_tokenIds i) with
          | Ok tm => Some (NewAuthService store tm ttl)
          | _ => None
          end
      | _, _ => None
      end
  | _ => None
  end.

(** How far [main] gets: the process ends with a status, leaving the container
    as it is, or the server is up. *)
Inductive progress : Type :=
| Stopped (status : Z) (c : option C)
| Up (c : C) (w : St SV) (port : Z).

(** [os.Exit(1)] runs no deferred call, a panic does: the container, once
    made, is closed by a panic only. *)
Definition boot (i : Inputs) (path : string) (order : list string) (listen : Z -> res Z) (t0 : Z) : progress :=
  match Load path with
  | Err _ => Stopped 1 None
  | Panic _ => Stopped 2 None
  | Ok cfg =>
      match ConfigureTLS (sc_TLS (Config.Server cfg)) (Bootstrap cfg) with
      | Err _ => Stopped 1 None
      | Panic _ => Stopped 2 None
      | Ok tlsConfig =>
          let '(r, c) := GetDependencies order (NewContainer cfg) in
          match r with
          | Err _ => Stopped 1 (Some c)
          | Panic _ => Stopped 2 (Some (Close c).2)
          | Ok deps =>
              let cfg := c_config c in
              match open_polykey i c deps, open_auth i c deps with
              | Some p, Some a =>
                  match Server.New NewInMemoryTokenStore [] (in_correlation i) (listen (Port (Config.Server cfg))) cfg p a
                          (bool_decide (is_Some tlsConfig)) with
                  | Err _ => Stopped 1 (Some c)
                  | Panic _ => Stopped 2 (Some (Close c).2)
                  | Ok (srv, port) => Up c (mkSt t0 ∅ O srv) port
                  end
              | _, _ => Stopped 2 (Some (Close c).2)
              end
          end
      end
  end.

(** The server as a resource; [serve_result] is what [Serve] returns. *)
Definition server_resource (serve_result : res unit) : ManagedResource (St SV) :=
  mkResource (Server_Start serve_result) Server_Stop (λ w, Server_Health (repo w)).

(** The rest of [main]: start the resources in a goroutine, wait for a signal
    or for a failed start (which cancels the context), stop the resources,
    close the container.  [running] is what the server does meanwhile. *)
Definition main_rest (serve_result : res unit) (running : St SV -> St SV) (b : progress) : Z * option C * option (St SV) :=
  match b with
  | Stopped status c => (status, c, None)
  | Up c w _ =>
      let resourceManager := [server_resource serve_result] in
      let w1 := running (start_resources resourceManager w).2 in
      match stop_resources resourceManager w1 with
      | (Panic _, w2) => (2, Some (Close c).2, Some w2)
      | (_, w2) => (0, Some (Close c).2, Some w2)
      end
  end.

(** ** A fresh container *)

(** What [initKMSProviders] may do to a container without providers. *)
Lemma initKMSProviders_new c c' :
  initKMSProviders c = (Ok tt, c') -> c_kmsProviders c = None ->
  exists ps cfg, c' = mkContainer cfg (c_refs c) (c_objects c) (pgxPool c) (pgxPoolOnce c) (poolClosed c) (Some ps) (loggerStopped c)
    /\ (cfg = c_config c \/ cfg = set_ClientCAFile (SpoungeCA (Bootstrap (c_config c))) (c_config c)) /\ ps <> ∅.
Proof.
  unfold initKMSProviders. intros E Hn. rewrite gets_bind, Hn in E.
  apply bind_ok in E as ([] & c1 & [= <-] & E). apply bind_ok in E as ([] & c2 & E2 & E).
  assert (exists ps, c2 = mkContainer (c_config c) (c_refs c) (c_objects c) (pgxPool c) (pgxPoolOnce c) (poolClosed c) (Some ps) (loggerStopped c)) as [ps ->].
  { destruct (negb _); [|injection E2 as <-; by eexists]. apply bind_ok in E2 as (lp & c3 & E3 & [= <-]).
    unfold on_err, lift_res in E3. destruct (NewLocalKMSProvider _); cbn in E3; [|done..]. injection E3 as <- <-. by eexists. }
  destruct (AWS (c_config c)) as [aws|]; [|done]. apply bind_ok in E as ([] & c3 & E3 & E).
  assert (exists ps, c3 = mkContainer (c_config c) (c_refs c) (c_objects c) (pgxPool c) (pgxPoolOnce c) (poolClosed c) (Some ps) (loggerStopped c)) as [ps' ->].
  { destruct (_ && _); [|injection E3 as <-; by eexists]. apply bind_ok in E3 as (a & c4 & E4 & [= <-]).
    unfold on_err, lift_res in E4. destruct (LoadDefaultConfig _); cbn in E4; [|done..]. injection E4 as <- <-. by eexists. }
  apply bind_ok in E as ([] & c4 & E4 & E). rewrite gets_bind in E.
  destruct (_ =? 0)%nat eqn:Hz; [done|]. injection E as <-.
  destruct (_ && _); injection E4 as <-; eexists _, _; (split; [reflexivity|split; [auto|]]); cbn in Hz; intros ->; by rewrite map_size_empty in Hz.
Qed.

Lemma initPgxPool_new c c' :
  initPgxPool c = (Ok tt, c') -> pgxPoolOnce c = false ->
  exists p, c' = mkContainer (c_config c) (c_refs c) (c_objects c) (Some p) true (poolClosed c) (c_kmsProviders c) (loggerStopped c).
Proof.
  unfold initPgxPool. intros E Hn. rewrite gets_bind, Hn in E. apply bind_ok in E as ([] & c1 & [= <-] & E).
  destruct (NewSecureConnectionPool _ _ _) as [p|e|w]; [|done..]. injection E as <-. by exists p.
Qed.

(** The objects of a container whose first start succeeded. *)
Definition fresh_objects (cfg : Config) (stack : RepoStack) (store : FileClientStore) (ps : gmap string KMSProvider) : list object :=
  [OTokenStore; OKeyRepo stack; OAuditRepo;
   OAuditLogger (if async_Enabled (Auditing cfg) then Some (Auditing cfg) else None) 2; OClientStore (Some store);
   OTokenManager (JWTRSAPrivateKey (Bootstrap cfg)) 0 (Some 3%nat); OAuthorizer (Authorization cfg) 1 3;
   OKeyService cfg 1 ps 3; OAuthService 4 5 Hour].

(** One initializer on a container known in full. *)
Ltac init_next E := let c := fresh "c" in let Ec := fresh "Ec" in
  apply run_step in E as (c & Ec & E);
  unfold initTokenStore, initKeyRepository, initAuditRepository, initAuditLogger, initClientStore, initTokenManager, initAuthorizer,
    initKeyService, initAuthService, unless_set, need, need_pool, assign_new, mbind, GoM_bind, gets, modify, mret, GoM_ret, id,
    lift_res, fail, panic in Ec;
  repeat first [progress cbn in Ec | rewrite decide_False in Ec by discriminate | rewrite decide_True in Ec by reflexivity];
  repeat match type of Ec with context [NewFileClientStore ?o ?p] => destruct (NewFileClientStore o p) as [store|e|w] eqn:Hst; [|done..]
    | context [NewTokenManager ?a ?b ?d] => destruct (NewTokenManager a b d) as [tm|e|w] eqn:Htm; [|done..] end;
  injection Ec as <-.

Lemma fresh_container cfg order c :
  initializeAll order (NewContainer cfg) = (Ok tt, c) ->
  exists pool stack store ps cfg', c_objects c = fresh_objects cfg' stack store ps
    /\ stack_cache stack = NewCachedRepository (adapter_of pool) /\ pgxPool c = Some pool /\ c_config c = cfg' /\ ps <> ∅
    /\ (cfg' = cfg \/ cfg' = set_ClientCAFile (SpoungeCA (Bootstrap cfg)) cfg)
    /\ NewFileClientStore order (ClientCredentialsPath cfg') = Ok store
    /\ (exists tm, NewTokenManager (JWTRSAPrivateKey (Bootstrap cfg')) NewInMemoryTokenStore [] = Ok tm)
    /\ c_refs c FKeyService = Some 7%nat /\ c_refs c FAuthorizer = Some 6%nat /\ c_refs c FAuthService = Some 8%nat
    /\ c_refs c FAuditLogger = Some 3%nat.
Proof.
  intros E. unfold initializeAll, initializers in E.
  apply run_step in E as (c1 & E1 & E). apply run_step in E as (c2 & E2 & E).
  apply initPgxPool_new in E1 as [pool ->]; [|done]. apply initKMSProviders_new in E2 as (ps & cfg' & -> & Hcfg & Hps); [|done].
  cbn [NewContainer c_config] in Hcfg. cbn [NewContainer c_refs c_objects poolClosed loggerStopped pgxPool pgxPoolOnce] in E.
  do 9 init_next E. injection E as <-.
  eexists pool, _, store, ps, cfg'. cbn. split; [reflexivity|]. split_and!; eauto. by destruct (cb_Enabled _).
Qed.

Lemma ConfigureTLS_enabled cfg secrets t : ConfigureTLS cfg secrets = Ok t -> bool_decide (is_Some t) = tls_Enabled cfg.
Proof.
  unfold ConfigureTLS. destruct (tls_Enabled cfg); cbn [negb]; [|intros [= <-]; by apply bool_decide_eq_false_2, is_Some_None].
  intros (_ & E)%unit_bind_ok. apply outcome_bind_ok in E as (ca & _ & E). apply outcome_bind_ok in E as (auth & _ & [= <-]).
  by apply bool_decide_eq_true_2.
Qed.

(** What [Close] does to a container that is up. *)
Lemma Close_up (c : C) p asy a r : pgxPool c = Some p -> c_refs c FAuditLogger = Some r -> c_objects c !! r = Some (OAuditLogger asy a) ->
  poolClosed (Close c).2 = true /\ (is_Some asy -> loggerStopped (Close c).2 = true).
Proof.
  intros Hp Hr Ho. unfold Close, modify. cbn. rewrite Hp, Hr. cbn. rewrite Ho.
  split; [apply orb_true_r|]. intros [x ->]. apply orb_true_r.
Qed.

Context (db_in_order : forall p : Pool, psql_inv (adapter_of p)) `{!UuidPkgOk}.

End Main.

(** ** A concrete start *)

#[local] Existing Instance HexUuid.
#[local] Existing Instance HexUuidOk.
#[local] Existing Instance ToyCrypto.
#[local] Existing Instance ToyPgx.
#[local] Existing Instance ToyViper.
#[local] Existing Instance ToyConfigEnv.
#[local] Existing Instance ToyJwt.
#[local] Existing Instance ToyFiles.
#[local] Existing Instance ToyRate.

#[local] Existing Instance ToyTls.

Definition ex_inputs : Inputs := mkInputs [] [] [] [] [] [] [].
Definition ex_boot (listen : Z -> res Z) : progress := boot ex_inputs "config.yaml" ["bob"; "alice"]%string listen 0.

Lemma ex_boots : exists c w, boot ex_inputs "config.yaml" ["bob"; "alice"]%string (λ p, Ok p) 0 = Up c w 50053.
Proof.
  pose (port_of := λ b : progress, match b with Up _ _ port => Some port | _ => None end).
  assert (port_of (boot ex_inputs "config.yaml" ["bob"; "alice"]%string (λ p, Ok p) 0) = Some 50053) as Hup by (vm_compute; reflexivity).
  revert Hup. generalize (boot ex_inputs "config.yaml" ["bob"; "alice"]%string (λ p, Ok p) 0).
  intros [st c|c w port]; [discriminate|]. intros [= ->]. by exists c, w.
Qed.

Lemma ex_pools_in_order (p : @Pool ToyPgx) : psql_inv (adapter_of p).
Proof. apply NoDup_nil_2. Qed.


(** The deferred [container.Close()] does not run when the server cannot be
    created: the process exits with the pool open and the logger running. *)
Theorem failed_start_leaves_open :
  match ex_boot (λ _, Err (ErrorsNew "address already in use")) with
  | Stopped status (Some c) => status = 1 /\ pgxPool c <> None /\ poolClosed c = false /\ loggerStopped c = false
  | _ => False
  end.
Proof. vm_compute. done. Qed.

(** A server whose [Serve] fails ends the program with status 0. *)
Theorem failed_serve_exits_zero `{UuidPkg} `{PgxPkg} `{RatePkg} `{JwtPkg} e running (c : Container Pool) w port :
  (main_rest (Err e) running (Up c w port)).1.1 = 0.
Proof. reflexivity. Qed.

(** A stopped server reports that it is ready and running. *)
Theorem stopped_server_healthy `{UuidPkg} `{PgxPkg} `{RatePkg} `{JwtPkg} serve_result
    (w : St (Server.Server RepoStack FileClientStore PrivateKey inMemoryTokenStore)) :
  let r := server_resource serve_result in
  sv_serving (repo (mr_Stop r w).2) = Some false /\ mr_Health r (mr_Stop r w).2 = (true, "gRPC server is running"%string).
Proof. done. Qed.
