(* ===== verification/Provision.v ===== *)
(** * Registering a client

    Models [scripts/generate_client_config.go], which writes the server's
    client file and the client's secret file, and the client that reads the
    second one: [pkg/testutil/client.go], [pkg/testutil/config.go] and the
    configuration [cmd/dev_client/main.go] makes.  bcrypt, YAML and the gRPC
    transport are parameters; log lines are left out. *)

From S2P Require Import Prelude Errors Domain Cache Repo Psql PsqlSpec Batch Kms.
From S2P Require Import Authorizer Service ServiceSpec Rpc Validation RateLimit Config Auth Server Wiring.

(** ** The data of the two files *)

Record clientSecretConfig := mkClientSecret { cs_ID : string; cs_Secret : string }.

Record serverClientData := mkServerClientData {
  sd_HashedAPIKey : string; sd_Permissions : list string; sd_Description : string
}.

Record serverConfig := mkServerConfig { sc_Clients : gmap string serverClientData }.

(** [testutil.ClientSecretConfig] *)
Record ClientSecretConfig := mkClientSecretConfig { ID : string; Secret : string }.

Definition serverConfigPath : string := "configs/dev_client/config.client.dev.yaml".
Definition clientSecretPath : string := "configs/dev_client/secret.dev.yaml".
Definition bcrypt_DefaultCost : Z := 10.

(** [Marshal] and [Unmarshal] at the types the two programs and the server
    use; [GenerateFromPassword] draws its salt. *)
Class ProvisionPkg := {
  GenerateFromPassword : string -> string -> Z -> res string;
  yaml_MarshalServer : serverConfig -> res string;
  yaml_MarshalSecret : clientSecretConfig -> res string;
  yaml_UnmarshalClients : string -> res (gmap string clientData);
  yaml_UnmarshalSecret : string -> res ClientSecretConfig
}.

(** Text without line breaks or control characters. *)
Definition printable (s : string) : bool :=
  forallb (λ a, let n := Ascii.N_of_ascii a in (32 <=? n)%N && (n <=? 126)%N) (String.list_ascii_of_string s).

Definition printable_client (id : string) (d : serverClientData) : Prop :=
  printable id = true /\ printable (sd_HashedAPIKey d) = true /\ forallb printable (sd_Permissions d) = true
  /\ printable (sd_Description d) = true.

(** The server's view of an entry: the same YAML fields. *)
Definition read_client (d : serverClientData) : clientData :=
  mkClientData (sd_HashedAPIKey d) (sd_Permissions d) (sd_Description d).

(** Documented behaviour: a bcrypt hash is 60 characters of text, starts with
    the version [$2a$] and compares to the password it was made from; what
    [Marshal] writes for structs of plain text, [Unmarshal] into a struct with
    the same field names reads back. *)
Class ProvisionPkgOk `{ProvisionPkg} `{BcryptPkg} := {
  hash_compares : forall salt pw cost h, GenerateFromPassword salt pw cost = Ok h -> CompareHashAndPassword h pw = None;
  hash_shape : forall salt pw cost h, GenerateFromPassword salt pw cost = Ok h ->
    go_len h = 60 /\ String.substring 0 4 h = "$2a$"%string /\ printable h = true;
  clients_roundtrip : forall c s, map_Forall printable_client (sc_Clients c) -> yaml_MarshalServer c = Ok s ->
    yaml_UnmarshalClients s = Ok (read_client <$> sc_Clients c);
  secret_roundtrip : forall c s, printable (cs_ID c) = true -> printable (cs_Secret c) = true -> yaml_MarshalSecret c = Ok s ->
    yaml_UnmarshalSecret s = Ok (mkClientSecretConfig (cs_ID c) (cs_Secret c))
}.

(** ** The disk *)

Record file := mkFile { f_content : string; f_mode : Z }.

(** What the operating system will do to the next write: all of it; refuse to
    open the file; fail after truncating it and writing some text. *)
Inductive write_fate : Type :=
| WriteDone
| OpenRefused (err : error)
| WriteFailed (written : string) (err : error).

Record Disk := mkDisk {
  d_files : gmap string file;
  d_umask : Z;
  d_fates : list write_fate;        (* of the writes to come; done once used up *)
  d_salts : list string             (* of the hashes to come *)
}.

(** [os.WriteFile]: an existing file keeps its mode. *)
Definition put_file (path content : string) (perm : Z) (d : Disk) : gmap string file :=
  <[path := mkFile content (match d_files d !! path with Some f => f_mode f | None => Z.ldiff perm (d_umask d) end)]> (d_files d).

Definition os_WriteFile (path content : string) (perm : Z) : M Disk unit := λ d,
  let after files := mkDisk files (d_umask d) (tail (d_fates d)) (d_salts d) in
  match hd WriteDone (d_fates d) with
  | WriteDone => (Ok tt, after (put_file path content perm d))
  | OpenRefused err => (Err err, after (d_files d))
  | WriteFailed written err => (Err err, after (put_file path written perm d))
  end.

Definition os_ReadFile (d : Disk) (path : string) : res string :=
  match d_files d !! path with
  | Some f => Ok (f_content f)
  | None => Err (ErrorsNew ("open " +:+ path +:+ ": no such file or directory"))
  end.

(** ** generate_client_config.go *)

Section Generator.
Context `{ProvisionPkg}.

Definition draw_hash (password : string) (cost : Z) : M Disk string := λ d,
  (GenerateFromPassword (hd ""%string (d_salts d)) password cost, mkDisk (d_files d) (d_umask d) (d_fates d) (tail (d_salts d))).

Definition new_config (clientID hashedSecret description : string) : serverConfig :=
  mkServerConfig {[ clientID := mkServerClientData hashedSecret ["*"%string] description ]}.

Definition generateServerConfig (clientID clientSecret description : string) : M Disk unit :=
  hashedSecret ← on_err (Wrap "generating bcrypt hash") (draw_hash clientSecret bcrypt_DefaultCost);
  let newConfig := new_config clientID hashedSecret description in
  yamlData ← on_err (Wrap "marshalling YAML") (lift_res (yaml_MarshalServer newConfig));
  os_WriteFile serverConfigPath yamlData 420.        (* 0644 *)

Definition generateClientSecret (clientID clientSecret : string) : M Disk unit :=
  let secret := mkClientSecret clientID clientSecret in
  yamlData ← on_err (Wrap "marshalling YAML") (lift_res (yaml_MarshalSecret secret));
  os_WriteFile clientSecretPath yamlData 420.

(** [main], with the exit status: 1 of [os.Exit(1)], 2 of a panic. *)
Definition generate_main (args : list string) (d : Disk) : Z * Disk :=
  if (length args <? 3)%nat || (4 <? length args)%nat then (1, d)
  else
    let clientID := nth 1 args ""%string in
    let clientSecret := nth 2 args ""%string in
    let description := if (length args =? 4)%nat then nth 3 args ""%string else ""%string in
    match generateServerConfig clientID clientSecret description d with
    | (Err _, d1) => (1, d1)
    | (Panic _, d1) => (2, d1)
    | (Ok _, d1) =>
        match generateClientSecret clientID clientSecret d1 with
        | (Err _, d2) => (1, d2)
        | (Panic _, d2) => (2, d2)
        | (Ok _, d2) => (0, d2)
        end
    end.

(** The server's and the client's readings of the disk. *)
Definition disk_files (d : Disk) : FileEnv := {|
  ReadFile := os_ReadFile d;
  yaml_Unmarshal := yaml_UnmarshalClients
|}.

Definition loadCredentials (d : Disk) (path : string) : res ClientSecretConfig :=
  data ← os_ReadFile d path;
  config ← yaml_UnmarshalSecret data;
  Ok config.

End Generator.

(** ** testutil: the client *)

Record testutil_Config := mkConfig {
  ServerAddr : string; SecretConfigPath : string; TLSConfigPath : string; DefaultTimeout : Z
}.

(** [cmd/dev_client/main.go]: [port] is the environment's [POLYKEY_GRPC_PORT],
    empty when unset. *)
Definition dev_client_config (port : string) : testutil_Config :=
  let port := if String.eqb port "" then "50053"%string else port in
  mkConfig ("localhost:" +:+ port) clientSecretPath "configs/dev_client/tls.yaml" (30 * Second).

(** A client's context: its deadline, whether it was cancelled, and the
    metadata a call sends. *)
Record OutCtx := mkOutCtx { oc_Deadline : Z; oc_Canceled : bool; oc_md : gmap string (list string) }.

Definition AppendToOutgoingContext (ctx : OutCtx) (k v : string) : OutCtx :=
  mkOutCtx (oc_Deadline ctx) (oc_Canceled ctx) (<[k := default [] (oc_md ctx !! k) ++ [v]]> (oc_md ctx)).

(** [grpc.NewClient] with transport credentials, a call on the connection, and
    [Close]; [W] is the server the connection leads to. *)
Class GrpcTransport (W : Type) := {
  ClientConn : Type;
  grpc_NewClient : string -> TlsConfig -> res ClientConn;
  Invoke : ClientConn -> OutCtx -> request -> M W response;
  Conn_Close : ClientConn -> ClientConn
}.

Definition AuthHeader : string := "authorization".
Definition BearerPrefix : string := "Bearer ".

Record TestClient (K : Type) := mkTestClient { creds : ClientSecretConfig; tc_ctx : OutCtx; Conn : K }.
Arguments mkTestClient {K}.
Arguments creds {K}.
Arguments tc_ctx {K}.
Arguments Conn {K}.

Section TestClient.
Context {W : Type} `{ProvisionPkg} `{TlsPkg} `{GrpcTransport W}.

Definition establishConnection (serverAddr tlsConfigPath : string) : res ClientConn :=
  tlsConfig ← ConfigureClientTLS tlsConfigPath;
  conn ← grpc_NewClient serverAddr tlsConfig;
  Ok conn.

(** [New], at time [now]. *)
Definition TestClient_New (d : Disk) (now : Z) (cfg : testutil_Config) : res (TestClient ClientConn) :=
  creds ← loadCredentials d (SecretConfigPath cfg);
  conn ← establishConnection (ServerAddr cfg) (TLSConfigPath cfg);
  Ok (mkTestClient creds (mkOutCtx (now + DefaultTimeout cfg) false ∅) conn).

Definition TestClient_Close (c : TestClient ClientConn) : TestClient ClientConn :=
  mkTestClient (creds c) (mkOutCtx (oc_Deadline (tc_ctx c)) true (oc_md (tc_ctx c))) (Conn_Close (Conn c)).

(** The generated stub unwraps the response of its method. *)
Definition TestClient_Authenticate (c : TestClient ClientConn) : M W string :=
  authResp ← Invoke (Conn c) (tc_ctx c) (ReqAuthenticate (ID (creds c)) (Secret (creds c)));
  match authResp with
  | RespAuthenticate r => mret (ap_AccessToken r)
  | _ => fail (StatusError Internal "unexpected response type")
  end.

Definition CreateAuthenticatedContext (c : TestClient ClientConn) (token : string) : OutCtx :=
  AppendToOutgoingContext (tc_ctx c) AuthHeader (BearerPrefix +:+ token).

End TestClient.

(** ** What the generator writes *)

Section Generated.
Context `{ProvisionPkgOk}.

Lemma put_file_lookup path content perm d : exists mode, put_file path content perm d !! path = Some (mkFile content mode).
Proof. eexists. apply lookup_insert_eq. Qed.

Lemma put_file_other path path' content perm d : path <> path' -> put_file path content perm d !! path' = d_files d !! path'.
Proof. apply lookup_insert_ne. Qed.

Lemma WriteFile_ok path content perm d d' : os_WriteFile path content perm d = (Ok tt, d') -> d_files d' = put_file path content perm d.
Proof. unfold os_WriteFile. destruct (hd WriteDone (d_fates d)); by intros [= <-]. Qed.

Lemma generateServerConfig_ok id secret desc d d' :
  generateServerConfig id secret desc d = (Ok tt, d') ->
  exists salt hash text, GenerateFromPassword salt secret bcrypt_DefaultCost = Ok hash
    /\ yaml_MarshalServer (new_config id hash desc) = Ok text
    /\ exists d1, d_files d1 = d_files d /\ d_files d' = put_file serverConfigPath text 420 d1.
Proof.
  unfold generateServerConfig. intros E. apply bind_ok in E as (hash & d1 & E1 & E). apply bind_ok in E as (text & d2 & E2 & E).
  apply on_err_ok in E1, E2. injection E1 as Hg <-. unfold lift_res in E2. injection E2 as Hm <-.
  apply WriteFile_ok in E. by eexists _, hash, text; split_and!; [..|eexists].
Qed.

Lemma generateClientSecret_ok id secret d d' :
  generateClientSecret id secret d = (Ok tt, d') ->
  exists text, yaml_MarshalSecret (mkClientSecret id secret) = Ok text /\ d_files d' = put_file clientSecretPath text 420 d.
Proof.
  unfold generateClientSecret. intros E. apply bind_ok in E as (text & d1 & E1 & E). apply on_err_ok in E1.
  unfold lift_res in E1. injection E1 as Hm <-. apply WriteFile_ok in E. by exists text.
Qed.

(** A successful run leaves both files, and only them. *)
Lemma generate_main_ok prog id secret desc d d' :
  (length desc <= 1)%nat -> generate_main (prog :: id :: secret :: desc) d = (0, d') ->
  exists salt hash text text', GenerateFromPassword salt secret bcrypt_DefaultCost = Ok hash
    /\ yaml_MarshalServer (new_config id hash (hd ""%string desc)) = Ok text /\ os_ReadFile d' serverConfigPath = Ok text
    /\ yaml_MarshalSecret (mkClientSecret id secret) = Ok text' /\ os_ReadFile d' clientSecretPath = Ok text'
    /\ forall path, path <> serverConfigPath -> path <> clientSecretPath -> d_files d' !! path = d_files d !! path.
Proof.
  intros Hl E.
  assert (exists d1, generateServerConfig id secret (hd ""%string desc) d = (Ok tt, d1) /\ generateClientSecret id secret d1 = (Ok tt, d'))
    as (d1 & E1 & E2).
  { revert E. unfold generate_main. destruct desc as [|desc []]; cbn [length nth hd Nat.ltb Nat.leb orb Nat.eqb]; [| |cbn in Hl; lia];
      (destruct (generateServerConfig _ _ _ d) as [[[]|e|p] d1]; [|done..]);
      (destruct (generateClientSecret _ _ d1) as [[[]|e|p] d2] eqn:E2; [|done..]); intros [= <-]; by exists d1. }
  apply generateServerConfig_ok in E1 as (salt & hash & text & Hg & Hm & d0 & Hd0 & Hd1).
  apply generateClientSecret_ok in E2 as (text' & Hm' & Hd'). exists salt, hash, text, text'. unfold os_ReadFile. rewrite Hd'.
  split_and!; [done|done| |done| |].
  - rewrite put_file_other by done. rewrite Hd1. by destruct (put_file_lookup serverConfigPath text 420 d0) as [? ->].
  - by destruct (put_file_lookup clientSecretPath text' 420 d1) as [? ->].
  - intros path Hne Hne'. rewrite put_file_other, Hd1, put_file_other by congruence. by rewrite Hd0.
Qed.

(** A client the generator registered, as the store holds it. *)
Definition generated_client (id hash : string) : Client := mkClient id hash ["*"%string].

Lemma generated_store prog id secret desc order d d' :
  (length desc <= 1)%nat -> generate_main (prog :: id :: secret :: desc) d = (0, d') ->
  printable id = true -> printable (hd ""%string desc) = true -> id <> ""%string -> id ∈ order ->
  exists hash, NewFileClientStore (H := disk_files d') order serverConfigPath
      = Ok (mkFileClientStore {[ id := generated_client id hash ]})
    /\ CompareHashAndPassword hash secret = None.
Proof.
  intros Hl E Hp Hpd Hid Hin.
  destruct (generate_main_ok _ _ _ _ _ _ Hl E) as (salt & hash & text & _ & Hg & Hm & Hr & _).
  destruct (hash_shape _ _ _ _ Hg) as (Hlen & Hpre & Hph). exists hash. split; [|by eapply hash_compares].
  apply clients_roundtrip in Hm; [|by apply map_Forall_singleton]. unfold new_config in Hm. cbn [sc_Clients] in Hm. rewrite map_fmap_singleton in Hm.
  unfold NewFileClientStore. cbn [ReadFile yaml_Unmarshal disk_files]. rewrite Hr. unfold mbind, outcome_bind. cbn [map_err]. rewrite Hm. cbn [map_err].
  rewrite map_size_singleton. cbn [Nat.eqb].
  set (config := {[id := _]} : gmap string clientData).
  rewrite (proj2 (load_clients_spec order config ∅ (foldl (add_client config) ∅ order))).
  - do 2 f_equal. apply map_eq. intros id'. rewrite loaded_lookup. unfold config. destruct (decide (id' = id)) as [->|Hne].
    + rewrite decide_True by done. by rewrite !lookup_singleton_eq.
    + rewrite !lookup_singleton_ne, lookup_empty by done. by case_decide.
  - split; [|done]. intros id' c _. unfold config. intros [<- <-]%lookup_singleton_Some.
    unfold client_wf, client_of. cbn. split_and!; [done..|lia|]. rewrite Hpre. left.
Qed.

Lemma generated_credentials prog id secret desc d d' :
  (length desc <= 1)%nat -> generate_main (prog :: id :: secret :: desc) d = (0, d') ->
  printable id = true -> printable secret = true ->
  loadCredentials d' clientSecretPath = Ok (mkClientSecretConfig id secret).
Proof.
  intros Hl E Hp Hs. destruct (generate_main_ok _ _ _ _ _ _ Hl E) as (_ & _ & _ & text & _ & _ & _ & Hm & Hr & _).
  unfold loadCredentials. rewrite Hr. unfold mbind, outcome_bind. by rewrite (secret_roundtrip (mkClientSecret id secret) _ Hp Hs Hm).
Qed.

End Generated.

(** The role ["*"] allows every operation under every configuration. *)
Lemma star_allows c ctx user op : UserFromContext ctx = Some user -> "*"%string ∈ Permissions user ->
  authenticateAndAuthorize c ctx op = (Some user, true, "authorized"%string) /\ admin_role c user = true.
Proof.
  intros Hu Hs. unfold authenticateAndAuthorize. rewrite Hu.
  assert (role_allows c user op = true) as ->. { apply existsb_exists. exists "*"%string. split; [by apply list_elem_of_In|done]. }
  split; [done|]. apply existsb_exists. exists "*"%string. split; [by apply list_elem_of_In|done].
Qed.

Lemma printable_ascii s : printable s = true -> ascii_text s = true.
Proof.
  unfold printable, ascii_text. rewrite !forallb_forall. intros Hp a Ha. specialize (Hp a Ha).
  apply andb_prop in Hp as [_ Hp]. apply N.leb_le in Hp. apply N.ltb_lt. lia.
Qed.

(** ** The client on the server *)

Section Served.
Context `{UuidPkg} `{CryptoPkg} `{AwsKms} `{Sha256Pkg} `{TimeFormat} `{MapRange} `{JsonPkg} `{RatePkg} `{JwtPkgOk}
  `{BcryptPkg} `{GrpcStatus} {S T : Type} `{KeyRepository S} `{TokenStoreOk T} `{TlsPkg}.
Abbreviation W := (St (Server.Server S FileClientStore PrivateKey T)).

(** The identifier of the next token and what it will say about a client. *)
Definition next_token_id (w : W) : string := uuid_String (default uuid_Nil (head (tm_newIds (tokenManager (sv_auth (repo w)))))).
Definition next_claims (id : string) (w : W) : Claims :=
  mkClaims id ["*"%string] (next_token_id w) (Some (NewNumericDate (clock w + tokenTTL (sv_auth (repo w)))))
    (Some (NewNumericDate (clock w))) None.

Lemma Authenticate_generated order rotate inc id secret hash token (w : W) :
  clientStore (sv_auth (repo w)) = mkFileClientStore {[ id := generated_client id hash ]} ->
  CompareHashAndPassword hash secret = None -> id <> ""%string -> secret <> ""%string ->
  SignedString SigningMethodRS256 (next_claims id w) (privateKey (tokenManager (sv_auth (repo w)))) = Ok token ->
  exists resp w1, rpc_Authenticate id secret (drawn_id w) = (Ok resp, w1) /\ ap_AccessToken resp = token
    /\ exists w2, serve (Ok tt) order rotate inc (ReqAuthenticate id secret) w = (Ok (RespAuthenticate resp), w2).
Proof.
  intros Hst Hcmp Hid Hsec Hsig.
  assert (exists a w1, Authenticate id secret (set_repo (sv_auth (repo w)) (drawn_id w)) = (Ok a, w1) /\ ar_AccessToken a = token)
    as (a & wa & Ha & Hta).
  { unfold Authenticate. erewrite bind_eq by reflexivity. cbn [repo set_repo drawn_id FindClientByID FileClientStore_Store]. rewrite Hst. cbn [clients].
    rewrite lookup_singleton_eq. erewrite bind_eq by reflexivity. cbn [cli_HashedAPIKey cli_ID cli_Permissions generated_client]. rewrite Hcmp.
    erewrite bind_eq; [by eexists _, _; split; [reflexivity|]|].
    unfold on_err, with_tokens, with_inner, GenerateToken, time_now. go_unfold. unfold next_claims, next_token_id in Hsig. by rewrite Hsig. }
  assert (exists resp w1, rpc_Authenticate id secret (drawn_id w) = (Ok resp, w1) /\ ap_AccessToken resp = token) as (resp & w1 & Hr & Htr).
  { unfold rpc_Authenticate. rewrite (proj2 (String.eqb_neq _ _) Hid), (proj2 (String.eqb_neq _ _) Hsec). cbn [orb].
    erewrite bind_eq; [|unfold on_err, with_auth, with_inner; cbn [drawn_id repo set_repo sv_auth set_ids] in *; by rewrite Ha].
    by eexists _, _. }
  exists resp, w1. split_and!; [done..|].
  assert (inner_call (Ok tt) order rotate inc (ReqAuthenticate id secret) w = (Ok (RespAuthenticate resp), w1)) as Hc.
  { unfold inner_call, AuthenticationInterceptor, UnaryValidationInterceptor, validate_request, ValidateAuthenticateRequest.
    replace (Prelude.contains _ _) with true by done.
    rewrite (proj2 (String.eqb_neq _ _) Hid), (proj2 (String.eqb_neq _ _) Hsec). cbn [dispatch]. unfold fmap_ok. by erewrite bind_eq. }
  destruct (serve_run _ _ _ _ _ _ _ _ Hc ltac:(done)) as (e & -> & _). by eexists.
Qed.

Context `{GrpcTransport W} `{!ProvisionPkg} `{!ProvisionPkgOk}.

(** Documented behaviour of a connection to the server: a call on a live
    context arrives with the metadata of its context. *)
Definition delivers (order : list nat) (rotate : RotateService) (conn : ClientConn) : Prop :=
  forall ctx req (w : W), oc_Canceled ctx = false -> clock w < oc_Deadline ctx ->
  exists inc md, in_md inc = Some md /\ md !! "authorization"%string = oc_md ctx !! "authorization"%string
    /\ Invoke conn ctx req w = serve (Ok tt) order rotate inc req w.

End Served.

(** ** A concrete client *)

#[local] Existing Instance HexUuid.
#[local] Existing Instance ToyCrypto.
#[local] Existing Instance ToyAws.
#[local] Existing Instance ToySha.
#[local] Existing Instance ToyRate.
#[local] Existing Instance ToyJwt.
#[local] Existing Instance ToyJwtOk.
#[local] Existing Instance ToyJson.
#[local] Existing Instance ToyTime.
#[local] Existing Instance ToyStatus.
#[local] Existing Instance ListRange'.
#[local] Existing Instance ToyTls.

(** A hash is the padded password, if that has the shape of a hash. *)
Fixpoint dots (n : nat) : string := match n with O => "" | Datatypes.S n' => String (ascii_of 46) (dots n') end.
Definition toy_hash (pw : string) : string := "$2a$10$" +:+ pw +:+ dots (53 - String.length pw).
Definition PadBcrypt : BcryptPkg := {|
  CompareHashAndPassword := λ h pw, if String.eqb h (toy_hash pw) then None else Some (ErrorsNew "hashedPassword is not the hash of the given password")
|}.
#[local] Existing Instance PadBcrypt.

#[local] Instance clientData_eq_dec : EqDecision clientData.
Proof. solve_decision. Defined.
#[local] Instance ClientSecretConfig_eq_dec : EqDecision ClientSecretConfig.
Proof. solve_decision. Defined.

(** Files of one line per field, written if they read back. *)
Definition newline : string := String (ascii_of 10) "".
Definition toy_lines (s : string) : list string := split_on (ascii_of 10) s "".
Definition toy_read_clients (s : string) : res (gmap string clientData) :=
  match toy_lines s with
  | id :: hash :: desc :: perms => Ok {[ id := mkClientData hash perms desc ]}
  | _ => Err (ErrorsNew "yaml: cannot unmarshal")
  end.
Definition toy_read_secret (s : string) : res ClientSecretConfig :=
  match toy_lines s with
  | [id; secret] => Ok (mkClientSecretConfig id secret)
  | _ => Err (ErrorsNew "yaml: cannot unmarshal")
  end.
Definition reads_as {A} `{EqDecision A} (read : string -> res A) (s : string) (a : A) : res string :=
  match read s with
  | Ok a' => if decide (a' = a) then Ok s else Err (ErrorsNew "yaml: cannot marshal")
  | _ => Err (ErrorsNew "yaml: cannot marshal")
  end.

Lemma reads_as_ok {A} `{EqDecision A} (read : string -> res A) s a s' : reads_as read s a = Ok s' -> read s' = Ok a.
Proof. unfold reads_as. destruct (read s) as [a'|e|p] eqn:E; [|done..]. case_decide; [|done]. intros [= <-]. congruence. Qed.

Definition ToyProvision : ProvisionPkg := {|
  GenerateFromPassword := λ _ pw _, let h := toy_hash pw in
    if (go_len h =? 60) && printable h then Ok h else Err (ErrorsNew "bcrypt: password length exceeds 72 bytes");
  yaml_MarshalServer := λ c,
    reads_as toy_read_clients
      (String.concat newline (match map_to_list (sc_Clients c) with
         | (id, d) :: _ => id :: sd_HashedAPIKey d :: sd_Description d :: sd_Permissions d | [] => [] end))
      (read_client <$> sc_Clients c);
  yaml_MarshalSecret := λ c,
    reads_as toy_read_secret (String.concat newline [cs_ID c; cs_Secret c]) (mkClientSecretConfig (cs_ID c) (cs_Secret c));
  yaml_UnmarshalClients := toy_read_clients;
  yaml_UnmarshalSecret := toy_read_secret
|}.
#[local] Existing Instance ToyProvision.

#[local] Instance ToyProvisionOk : ProvisionPkgOk.
Proof.
  split; cbn [GenerateFromPassword yaml_MarshalServer yaml_MarshalSecret yaml_UnmarshalClients yaml_UnmarshalSecret ToyProvision CompareHashAndPassword PadBcrypt].
  - intros salt pw cost h. destruct (_ && _); [|done]. intros [= <-]. by rewrite String.eqb_refl.
  - intros salt pw cost h. destruct (_ && _) eqn:E; [|done]. intros [= <-]. apply andb_prop in E as [E1 E2]. apply Z.eqb_eq in E1. by destruct pw.
  - intros c s _. apply reads_as_ok.
  - intros c s _ _. apply reads_as_ok.
Qed.

(** A connection is its address; calls go straight to the server. *)
Abbreviation ExW := (St (Server.Server PSQLAdapter FileClientStore (@PrivateKey ToyJwt) inMemoryTokenStore)).
#[local] Instance ToyTransport : GrpcTransport ExW := {|
  ClientConn := string;
  grpc_NewClient := λ addr _, Ok addr;
  Invoke := λ _ ctx req w,
    if oc_Canceled ctx || (oc_Deadline ctx <=? clock w) then (Err (StatusError Unavailable "context deadline exceeded"), w)
    else serve (Ok tt) [] ex_rotate (mkIncoming None (Some (oc_md ctx))) req w;
  Conn_Close := λ c, c
|}.

Lemma toy_delivers conn : delivers [] ex_rotate conn.
Proof.
  intros ctx req w Hc Hd. exists (mkIncoming None (Some (oc_md ctx))), (oc_md ctx). split_and!; [done..|].
  cbn [Invoke ToyTransport]. rewrite Hc. cbn [orb]. by rewrite (proj2 (Z.leb_gt _ _) Hd).
Qed.

Definition ex_generated := generate_main ["gen"; "dev"; "s3cret"]%string (mkDisk ∅ 18 [] []).
Definition ex_store : FileClientStore :=
  mkFileClientStore {[ "dev"%string := mkClient "dev" (toy_hash "s3cret") ["*"%string] ]}.
Definition ex_dev_sv : ExW :=
  mkSt 0 ∅ 0%nat (set_auth (mkAuthService ex_store (mkTM ("pem"%string : @PrivateKey ToyJwt) NewInMemoryTokenStore [] [mkUuid 7 eq_refl]) Hour) (repo ex_sv)).
Definition ex_dev_client : TestClient (@ClientConn ExW ToyTransport) :=
  mkTestClient (mkClientSecretConfig "dev" "s3cret") (mkOutCtx (0 + 30 * Second) false ∅) "localhost:50053"%string.
Definition ex_dev_token : string :=
  match SignedString SigningMethodRS256 (next_claims "dev" ex_dev_sv) ("pem"%string : @PrivateKey ToyJwt) with Ok s => s | _ => "" end.

Lemma ex_generates : generate_main ["gen"; "dev"; "s3cret"]%string (mkDisk ∅ 18 [] []) = (0, ex_generated.2).
Proof. reflexivity. Qed.
Lemma ex_store_loads : NewFileClientStore (H := disk_files ex_generated.2) ["dev"]%string serverConfigPath = Ok ex_store.
Proof. vm_compute. reflexivity. Qed.
Lemma ex_connects : TestClient_New ex_generated.2 0 (dev_client_config "") = Ok ex_dev_client.
Proof. vm_compute. reflexivity. Qed.
Lemma ex_signs : SignedString SigningMethodRS256 (next_claims "dev" ex_dev_sv) ("pem"%string : @PrivateKey ToyJwt) = Ok ex_dev_token.
Proof. vm_compute. reflexivity. Qed.


(** The generator accepts an empty identifier and writes a client file the
    server refuses to start with. *)
Theorem empty_client_generated :
  let '(status, d) := generate_main ["gen"; ""; "s3cret"]%string (mkDisk ∅ 18 [] []) in
  status = 0 /\ is_ok (NewFileClientStore (H := disk_files d) [""%string] serverConfigPath) = false.
Proof. vm_compute. done. Qed.

(** With the usual umask 022, others may read the file with the secret. *)
Theorem secret_world_readable :
  match d_files ex_generated.2 !! clientSecretPath with
  | Some f => f_mode f = 420 /\ Z.testbit (f_mode f) 2 = true
  | None => False
  end.
Proof. vm_compute. done. Qed.

(** Operation names in place of role names, as the integration guide shows
    them, allow nothing. *)
Theorem documented_permissions_allow_nothing c id op :
  Roles c !! "keys:create"%string = None -> Roles c !! "keys:read"%string = None ->
  role_allows c (mkUser id ["keys:create"; "keys:read"]%string) op = false.
Proof. intros Hc Hr. unfold role_allows. cbn [Permissions existsb]. by rewrite Hc, Hr. Qed.
