(* ===== verification/Pools.v ===== *)
(** * Pools of reused memory

    Models the pools of [pkg/memory/memory.go], [pkg/memory/secure_pool.go]
    and [internal/infra/persistence/query_optimizer.go] over a shared memory:
    a pool holds addresses, a caller that has given a buffer back may still
    hold its address.  [Kms.v] and [Service.v] use the DEK pools by value;
    the refinement theorem here shows that this is what callers see. *)

From S2P Require Import Prelude Errors Domain Cache Kms.

(** ** sync.Pool *)

(** The memory: the objects allocated so far, by address, and the addresses
    the pool holds. *)
Record PoolMem (A : Type) := mkMem { blocks : list A; idle : list nat }.
Arguments mkMem {A}.
Arguments blocks {A}.
Arguments idle {A}.

Definition empty_pool {A} : PoolMem A := mkMem [] [].

Section SyncPool.
Context {A : Type}.

(** [Get] hands out any pooled object, or what [New] makes: [pick] chooses. *)
Definition sync_Get (New : A) (pick : nat) (m : PoolMem A) : nat * PoolMem A :=
  match idle m !! pick with
  | Some a => (a, mkMem (blocks m) (delete pick (idle m)))
  | None => (length (blocks m), mkMem (blocks m ++ [New]) (idle m))
  end.

Definition sync_Put (a : nat) (m : PoolMem A) : PoolMem A := mkMem (blocks m) (a :: idle m).

(** A write through the address [a]. *)
Definition store_block (a : nat) (f : A -> A) (m : PoolMem A) : PoolMem A := mkMem (alter f a (blocks m)) (idle m).

End SyncPool.

(** ** memory.go and secure_pool.go *)

(** [for i := range b { b[i] = 0 }], from index [i] on. *)
Fixpoint zero_from (i : nat) (n : nat) (b : bytes) : bytes :=
  match n with O => b | S n' => zero_from (S i) n' (<[i := 0]> b) end.
Definition SecureZeroBytes_loop (b : bytes) : bytes := zero_from 0 (length b) b.

(** A [BufferPool] and a [SecureDEKPool] are both the size their pool's [New]
    captures, and the pool. *)
Record BufferPool := mkBufferPool { buf_size : nat; buf_mem : PoolMem bytes }.

Definition NewBufferPool (size : nat) : BufferPool := mkBufferPool size empty_pool.

Definition BufferPool_Get (pick : nat) (p : BufferPool) : nat * BufferPool :=
  let '(a, m) := sync_Get (replicate (buf_size p) 0) pick (buf_mem p) in (a, mkBufferPool (buf_size p) m).

Definition BufferPool_Put (b : nat) (p : BufferPool) : BufferPool :=
  mkBufferPool (buf_size p) (sync_Put b (store_block b SecureZeroBytes_loop (buf_mem p))).

(** ** query_optimizer.go *)

(** [metaBuffer] is reset and never filled: [MarshalWithBuffer] (see [Psql.v])
    returns a copy of what [json.Marshal] made. *)
Record QueryOptimizer := mkOptimizer { queryBuilderPool : PoolMem string; metaBuffer : bytes }.

Definition NewQueryOptimizer : QueryOptimizer := mkOptimizer empty_pool [].

Definition GetBuilder (pick : nat) (qo : QueryOptimizer) : nat * QueryOptimizer :=
  let '(a, m) := sync_Get ""%string pick (queryBuilderPool qo) in (a, mkOptimizer m (metaBuffer qo)).

(** [sb.Reset()] *)
Definition PutBuilder (sb : nat) (qo : QueryOptimizer) : QueryOptimizer :=
  mkOptimizer (sync_Put sb (store_block sb (λ _, ""%string) (queryBuilderPool qo))) (metaBuffer qo).

(** ** A pool in use *)

Section Invariant.
Context {A : Type} (New : A) (fits : A -> Prop) (fits_New : fits New).

(** Every object is held by the pool or by a caller, never by both or by two,
    or is garbage; objects no caller holds are as new. *)
Definition pool_inv (m : PoolMem A) (held : list nat) : Prop :=
  NoDup (idle m ++ held) /\ (forall a, a ∈ idle m ++ held -> (a < length (blocks m))%nat)
  /\ forall a x, blocks m !! a = Some x -> fits x /\ (a ∉ held -> x = New).

Lemma pool_inv_empty : pool_inv empty_pool [].
Proof. split_and!; [constructor|by intros a ?%not_elem_of_nil|done]. Qed.

Lemma pool_inv_get pick m held a m' : pool_inv m held -> sync_Get New pick m = (a, m') ->
  pool_inv m' (a :: held) /\ blocks m' !! a = Some New /\ a ∉ held.
Proof.
  intros (Hnd & Hlt & Hb). unfold sync_Get. destruct (idle m !! pick) as [a'|] eqn:Ha; intros [= <- <-]; unfold pool_inv; cbn [idle blocks].
  - assert (idle m ++ held ≡ₚ delete pick (idle m) ++ a' :: held) as Hp by (rewrite (delete_Permutation _ _ _ Ha) at 1; cbn; by rewrite Permutation_middle).
    assert (a' ∉ held) as Hnh. { rewrite Hp in Hnd. apply NoDup_app in Hnd as (_ & _ & Hnd). by apply NoDup_cons in Hnd as [? _]. }
    destruct (lookup_lt_is_Some_2 (blocks m) a') as [x Hx]; [apply Hlt; rewrite Hp; set_solver|].
    pose proof (proj2 (Hb _ _ Hx) Hnh) as ->. split_and!; [by rewrite <-Hp|by setoid_rewrite <-Hp| |done|done].
    intros a x Hax. split; [by apply (Hb a)|]. intros Hn. apply (Hb a); [done|set_solver].
  - set (n := length (blocks m)). assert (n ∉ idle m ++ held) as Hn by (intros Hin%Hlt; unfold n in *; lia).
    split_and!.
    + rewrite <-Permutation_middle. by constructor.
    + intros a. rewrite <-Permutation_middle, length_app, elem_of_cons. cbn. intros [->|Hin%Hlt]; unfold n; lia.
    + intros a x [Hx|[Hge Hx]]%lookup_app_Some; [destruct (Hb _ _ Hx); set_solver|].
      apply list_lookup_singleton_Some in Hx as [_ <-]. done.
    + unfold n. by rewrite lookup_app_r, Nat.sub_diag by lia.
    + set_solver.
Qed.

Lemma pool_inv_write a x m held : pool_inv m held -> a ∈ held -> fits x -> pool_inv (store_block a (λ _, x) m) held.
Proof.
  intros (Hnd & Hlt & Hb) Ha Hx. unfold pool_inv. cbn [idle blocks store_block]. rewrite length_alter. split_and!; [done..|].
  intros a' y. destruct (decide (a = a')) as [->|Hne].
  - rewrite list_lookup_alter_eq. intros (z & Hz & ->)%fmap_Some. done.
  - rewrite list_lookup_alter_ne by done. apply Hb.
Qed.

Lemma pool_inv_put (reset : A -> A) a m held : (forall x, fits x -> reset x = New) -> pool_inv m held -> a ∈ held ->
  pool_inv (sync_Put a (store_block a reset m)) (filter (.≠ a) held).
Proof.
  intros reset_New (Hnd & Hlt & Hb) Ha. unfold pool_inv. cbn [idle blocks sync_Put store_block]. rewrite length_alter. split_and!.
  - apply NoDup_app in Hnd as (Hi & Hd & Hh). constructor; [rewrite elem_of_app, list_elem_of_filter; naive_solver|].
    apply NoDup_app. split_and!; [done| |by apply NoDup_filter]. intros a' Hin. rewrite list_elem_of_filter. naive_solver.
  - intros a'. rewrite elem_of_app, elem_of_cons, list_elem_of_filter. intros Hin. apply Hlt. set_solver.
  - intros a' y. destruct (decide (a = a')) as [->|Hne].
    + rewrite list_lookup_alter_eq. intros (z & Hz & ->)%fmap_Some. rewrite (reset_New z) by (by apply (Hb a')). done.
    + rewrite list_lookup_alter_ne by done. intros Hy. destruct (Hb _ _ Hy) as [? Hn]. split; [done|]. rewrite list_elem_of_filter. naive_solver.
Qed.

Lemma pool_inv_collect l m held : pool_inv m held -> l `sublist_of` idle m -> pool_inv (mkMem (blocks m) l) held.
Proof.
  intros (Hnd & Hlt & Hb) Hl. unfold pool_inv. cbn [idle blocks]. split_and!; [| |done].
  - by apply (sublist_NoDup _ _ Hnd), sublist_app.
  - intros a Ha. apply Hlt. by apply (elem_of_sublist _ _ _ Ha), sublist_app.
Qed.
End Invariant.

(** ** Buffers *)

(** The loop zeroes the whole slice. *)
Lemma zero_from_spec n i b : (i + n = length b)%nat -> zero_from i n b = take i b ++ replicate n 0.
Proof.
  revert i b. induction n as [|n IH]; intros i b Hl; cbn [zero_from].
  - rewrite take_ge by lia. by rewrite app_nil_r.
  - rewrite IH by (rewrite length_insert; lia).
    rewrite (take_S_r _ _ 0) by (apply list_lookup_insert_eq; lia).
    rewrite take_insert_ge by lia. by rewrite <-app_assoc.
Qed.

Lemma SecureZeroBytes_equiv b : SecureZeroBytes_loop b = SecureZeroBytes b.
Proof. unfold SecureZeroBytes_loop. by rewrite zero_from_spec, zero_bytes. Qed.

(** How a program may use a pool of buffers of [size] bytes and the buffers it
    has taken: take one, fill one it holds, give one back; the garbage
    collector may drop idle ones. *)
Inductive buffers_in_use (size : nat) : BufferPool -> list nat -> Prop :=
| use_new : buffers_in_use size (NewBufferPool size) []
| use_get p held pick a p' :
    buffers_in_use size p held -> BufferPool_Get pick p = (a, p') -> buffers_in_use size p' (a :: held)
| use_fill p held a b :
    buffers_in_use size p held -> a ∈ held -> length b = size ->
    buffers_in_use size (mkBufferPool (buf_size p) (store_block a (λ _, b) (buf_mem p))) held
| use_put p held a :
    buffers_in_use size p held -> a ∈ held -> buffers_in_use size (BufferPool_Put a p) (filter (.≠ a) held)
| use_collect p held l :
    buffers_in_use size p held -> l `sublist_of` idle (buf_mem p) ->
    buffers_in_use size (mkBufferPool (buf_size p) (mkMem (blocks (buf_mem p)) l)) held.

Definition buffer_inv (size : nat) (p : BufferPool) (held : list nat) : Prop :=
  buf_size p = size /\ pool_inv (replicate size 0) (λ b, length b = size) (buf_mem p) held.

Lemma BufferPool_Get_mem pick p a p' : BufferPool_Get pick p = (a, p') ->
  sync_Get (replicate (buf_size p) 0) pick (buf_mem p) = (a, buf_mem p') /\ buf_size p' = buf_size p.
Proof. unfold BufferPool_Get. destruct (sync_Get _ _ _) as [b m]. by intros [= <- <-]. Qed.

Lemma in_use_inv size p held : buffers_in_use size p held -> buffer_inv size p held.
Proof.
  induction 1 as [|p held pick a p' _ [Hs Hi] Hg|p held a b _ [Hs Hi] Ha Hb|p held a _ [Hs Hi] Ha|p held l _ [Hs Hi] Hl].
  - split; [done|apply pool_inv_empty].
  - apply BufferPool_Get_mem in Hg as [Hg Hs']. rewrite Hs in Hg, Hs'. split; [done|].
    by eapply pool_inv_get; [apply length_replicate|exact Hi|exact Hg].
  - split; [done|]. by apply pool_inv_write.
  - split; [done|]. apply pool_inv_put; [apply length_replicate| |done..]. intros x <-. by rewrite SecureZeroBytes_equiv, zero_bytes.
  - split; [done|]. by apply pool_inv_collect.
Qed.

(** The pool by value: the contents of the idle buffers. *)
Definition pool_view (p : BufferPool) : SecureDEKPool :=
  mkPool (omap (λ a, blocks (buf_mem p) !! a) (idle (buf_mem p))) (buf_size p).

Lemma view_idle p held : buffer_inv (buf_size p) p held ->
  omap (λ a, blocks (buf_mem p) !! a) (idle (buf_mem p)) = replicate (length (idle (buf_mem p))) (replicate (buf_size p) 0).
Proof.
  intros (_ & Hnd & Hlt & Hb). apply NoDup_app in Hnd as (_ & Hd & _).
  assert (forall a, a ∈ idle (buf_mem p) -> blocks (buf_mem p) !! a = Some (replicate (buf_size p) 0)) as Hz.
  { intros a Ha. destruct (lookup_lt_is_Some_2 (blocks (buf_mem p)) a) as [x Hx]; [apply Hlt; set_solver|].
    rewrite Hx. f_equal. apply (Hb a x Hx). by apply Hd. }
  clear Hd Hlt Hb. induction (idle (buf_mem p)) as [|a l IH]; [done|]. cbn [omap list_omap length replicate].
  rewrite (Hz a) by left. f_equal. apply IH. intros a' Ha'. apply Hz. by right.
Qed.

Lemma delete_replicate {A} (x : A) n i : (i < n)%nat -> delete i (replicate n x) = replicate (n - 1) x.
Proof.
  intros Hi. rewrite delete_take_drop, take_replicate, drop_replicate, <-replicate_add. f_equal. lia.
Qed.

Lemma view_get size p held pick a p' :
  buffer_inv size p held -> buffer_inv size p' (a :: held) -> BufferPool_Get pick p = (a, p') ->
  pool_Get pick (pool_view p) = (replicate size 0, pool_view p').
Proof.
  intros Hi Hi' Hg. apply BufferPool_Get_mem in Hg as [Hg Hs]. destruct (proj1 Hi).
  unfold pool_Get, pool_view. cbn [pool size_]. rewrite (view_idle p held Hi). rewrite <-Hs in Hi'. rewrite (view_idle p' (a :: held) Hi'), Hs.
  unfold sync_Get in Hg. destruct (idle (buf_mem p) !! pick) as [a'|] eqn:Ha; injection Hg as <- Hm; rewrite <-Hm; cbn [idle].
  - pose proof (lookup_lt_Some _ _ _ Ha). rewrite lookup_replicate_2, delete_replicate, length_delete by (done || by eexists). done.
  - rewrite lookup_ge_None_2 by (rewrite length_replicate; by apply lookup_ge_None). done.
Qed.

Lemma view_put size p held a b : buffer_inv size p held -> a ∈ held -> blocks (buf_mem p) !! a = Some b ->
  pool_view (BufferPool_Put a p) = pool_Put b (pool_view p).
Proof.
  intros (Hs & Hnd & _) Ha Hb. unfold pool_view, pool_Put. cbn [pool size_ BufferPool_Put buf_mem buf_size sync_Put store_block blocks idle].
  f_equal. cbn [omap list_omap]. rewrite list_lookup_alter_eq, Hb. cbn [fmap option_fmap option_map]. rewrite SecureZeroBytes_equiv. f_equal.
  apply NoDup_app in Hnd as (_ & Hd & _). induction (idle (buf_mem p)) as [|a' l IH]; [done|]. cbn [omap list_omap].
  rewrite list_lookup_alter_ne by (intros ->; by apply (Hd a'); [left|]). rewrite IH; [done|]. intros x Hx. apply Hd. by right.
Qed.

(** C33: key material lives in buffers that are in use, and nowhere else.
    However the program uses a pool of buffers (taking, filling and giving
    back buffers it holds, with the collector dropping idle ones), every
    buffer that no caller holds, idle or garbage, is all zero; [Get] answers a
    zeroed buffer of the pool's size that no other caller holds and the pool
    no longer has.  Seen by value, [Get] and [Put] are those of the pools the
    key service is modelled with. *)
Theorem pooled_buffers_clean size p held :
  buffers_in_use size p held ->
  (forall a b, blocks (buf_mem p) !! a = Some b -> a ∉ held -> b = replicate size 0)
  /\ (forall pick a p', BufferPool_Get pick p = (a, p') ->
        a ∉ held /\ a ∉ idle (buf_mem p') /\ blocks (buf_mem p') !! a = Some (replicate size 0)
        /\ pool_Get pick (pool_view p) = (replicate size 0, pool_view p'))
  /\ (forall a b, a ∈ held -> blocks (buf_mem p) !! a = Some b -> pool_view (BufferPool_Put a p) = pool_Put b (pool_view p)).
Proof.
  intros Hu. pose proof (in_use_inv _ _ _ Hu) as Hi. split_and!.
  - intros a b Hb Hn. destruct Hi as (_ & _ & _ & Hall). by apply (Hall a b).
  - intros pick a p' Hg. pose proof (in_use_inv _ _ _ (use_get _ _ _ _ _ _ Hu Hg)) as Hi'.
    pose proof (proj1 (BufferPool_Get_mem _ _ _ _ Hg)) as Hm. rewrite (proj1 Hi) in Hm.
    destruct (pool_inv_get _ (λ b, length b = size) (length_replicate _ _) _ _ _ _ _ (proj2 Hi) Hm) as ((Hnd & _) & Hb & Hn).
    split_and!; [done| |done|by eapply view_get]. apply NoDup_app in Hnd as (_ & Hd & _). intros Hin. apply (Hd a Hin). left.
  - intros a b. by eapply view_put.
Qed.

(** [GetBuilder] answers an empty builder while builders are only written to
    by those that took them. *)
Lemma GetBuilder_empty pick qo held sb qo' :
  pool_inv ""%string (λ _, True) (queryBuilderPool qo) held -> GetBuilder pick qo = (sb, qo') ->
  blocks (queryBuilderPool qo') !! sb = Some ""%string
  /\ pool_inv ""%string (λ _, True) (queryBuilderPool qo') (sb :: held)
  /\ pool_inv ""%string (λ _, True) (queryBuilderPool (PutBuilder sb qo')) (filter (.≠ sb) (sb :: held)).
Proof.
  intros Hi. unfold GetBuilder. destruct (sync_Get _ _ _) as [a m] eqn:E. intros [= <- <-].
  destruct (pool_inv_get _ _ I _ _ _ _ _ Hi E) as (Hi' & Hb & _). split_and!; [done..|].
  apply (pool_inv_put _ _ I (λ _, ""%string)); [done|done|left].
Qed.

(** ** A buffer used twice *)

Definition ex_pool0 : BufferPool := (BufferPool_Get 0 (NewBufferPool 2)).2.
Definition ex_filled : BufferPool := mkBufferPool 2 (store_block 0 (λ _, [7; 8]) (buf_mem ex_pool0)).
Definition ex_back : BufferPool := BufferPool_Put 0 ex_filled.

Lemma ex_back_in_use : buffers_in_use 2 ex_back (filter (.≠ 0%nat) [0%nat]).
Proof.
  apply use_put; [|left]. apply (use_fill 2 ex_pool0 [0%nat] 0 [7; 8]); [|left|done].
  apply (use_get 2 (NewBufferPool 2) [] 0); [constructor|reflexivity].
Qed.

Lemma pooled_buffers_clean_witness :
  blocks (buf_mem ex_filled) !! 0%nat = Some [7; 8]
  /\ blocks (buf_mem (BufferPool_Get 0 ex_back).2) !! 0%nat = Some [0; 0]
  /\ (BufferPool_Get 0 ex_back).1 = 0%nat.
Proof.
  destruct (pooled_buffers_clean 2 ex_back _ ex_back_in_use) as (_ & Hget & _).
  destruct (Hget 0%nat 0%nat (BufferPool_Get 0 ex_back).2 eq_refl) as (_ & _ & Hb & _).
  split; [reflexivity|]. split; [exact Hb|reflexivity].
Defined.
